(** * Bank-statement pipeline: parsers, validators, categorizer, rule engine
      and accounting (IIF) exporter.

    A shallow embedding of the TypeScript sources
    - [lib/validators.ts]      (parseNumeric, validateCSVParseable,
                                validateRequiredColumns,
                                validateBalanceConsistency, validateParsedCSV,
                                validateCustomRule, validateSplitAllocations,
                                validateSplitTransactions, validateIIF),
    - [lib/csv-processor.ts]   (COLUMN_MAPPINGS, findColumn, parseAmount,
                                parseCSV),
    - [lib/qbo-parser.ts]      (parseOFXDate, extractTag, extractBlocks,
                                inferAccountType, parseQBO, isQBOFormat),
    - [lib/categorizer.ts]     (CATEGORY_RULES, categorizeTransaction,
                                categorizeAllTransactions),
    - [lib/custom-rules.ts]    (matchesCondition, matchesRule, applyRule and the
                                split walk, applyRules, applyRulesToAll,
                                createCategorizationRule, createSplitRule),
    - [lib/iif-exporter.ts]    (escapeIIF, getQBAccount, groupSplitTransactions,
                                generateIIF, generateIIFWithAccounts).

    Conventions of the embedding.
    - A JavaScript [number] is [NaN] or a finite value; finite values are exact
      rationals ([Q]).  Binary rounding and the two infinities are not
      represented there; [parseNumeric] and [validateBalanceConsistency],
      whose results turn on them, are read a second time over the binary64
      numbers of the host (module [Binary64]).
    - An indexed read of a plain object is a lookup of its own keys; the names
      inherited from [Object.prototype] are excluded where a property
      depends on the difference.
    - A JavaScript string is a Rocq [string] (8-bit characters standing for
      ASCII text).
    - [Record<string,string>] objects are [gmap string string]; a [Map] that is
      iterated is an association list in insertion order.
    - Host built-ins whose behaviour is not defined by the sources
      ([parseFloat], regular expressions, [Date], [Array.prototype.sort],
      [String(number)]) are variables of the section below.
    - [Date.now()] is a clock read through a counter that the rule pipeline
      threads along; the rules kept in the browser's storage are a parameter
      of [applyRules]. *)

From Stdlib Require Import ZArith QArith Qround Qabs Lqa Lia.
From Stdlib Require Import List Bool Ascii String DecimalString Permutation.
From Stdlib Require DecimalZ Floats.
From stdpp Require Import base option list gmap strings.

Import ListNotations.
Local Open Scope string_scope.
Local Open Scope list_scope.

(* ================================================================== *)
(** ** JavaScript numbers *)
(* ================================================================== *)

Inductive number : Type :=
| NaN
| Num (q : Q).

Definition lift2 (f : Q -> Q -> Q) (x y : number) : number :=
  match x, y with
  | Num a, Num b => Num (f a b)
  | _, _ => NaN
  end.

Definition lift1 (f : Q -> Q) (x : number) : number :=
  match x with
  | Num a => Num (f a)
  | NaN => NaN
  end.

Definition nadd := lift2 Qplus.
Definition nsub := lift2 Qminus.
Definition nmul := lift2 Qmult.
Definition nneg := lift1 Qopp.
Definition nabs := lift1 Qabs.          (* Math.abs *)
Definition nmin := lift2 (fun a b => if Qle_bool a b then a else b). (* Math.min *)

(** [x / y]; a zero divisor would give an infinity or NaN, the sources only
    divide by the literal 100. *)
Definition ndiv (x y : number) : number :=
  match x, y with
  | Num a, Num b => if Qeq_bool b 0 then NaN else Num (a / b)
  | _, _ => NaN
  end.

Definition Qlt_bool (a b : Q) : bool := negb (Qle_bool b a).

(** Comparisons are false as soon as one side is NaN. *)
Definition nlt (x y : number) : bool :=
  match x, y with Num a, Num b => Qlt_bool a b | _, _ => false end.
Definition ngt (x y : number) : bool := nlt y x.
Definition nle (x y : number) : bool :=
  match x, y with Num a, Num b => Qle_bool a b | _, _ => false end.
Definition nge (x y : number) : bool := nle y x.
(** [x === y] on numbers. *)
Definition neq (x y : number) : bool :=
  match x, y with Num a, Num b => Qeq_bool a b | _, _ => false end.

Definition isNaN (x : number) : bool :=
  match x with NaN => true | Num _ => false end.

(** Truthiness of a number: neither NaN nor zero. *)
Definition ntruthy (x : number) : bool :=
  match x with NaN => false | Num a => negb (Qeq_bool a 0) end.

(** [x || y] on numbers. *)
Definition nor (x y : number) : number := if ntruthy x then x else y.

(** Math.round: the nearest integer, ties towards +infinity. *)
Definition Math_round : number -> number :=
  lift1 (fun q => inject_Z (Qfloor (q + (1 # 2)))).

Definition n0 : number := Num 0.
Definition n100 : number := Num 100.
Definition cent : number := Num (1 # 100).       (* the literal 0.01 *)

(** Equality to a rational value, up to the representation of fractions. *)
Definition is_num (x : number) (q : Q) : Prop :=
  match x with Num a => a == q | NaN => False end.

(* ================================================================== *)
(** ** JavaScript strings *)
(* ================================================================== *)

Definition TAB : ascii := "009"%char.
Definition LF : ascii := "010"%char.
Definition CR : ascii := "013"%char.
Definition SP : ascii := " "%char.

Definition str1 (c : ascii) : string := String c "".
Definition CRLF : string := String CR (String LF "").

(** Falsy strings are exactly the empty one. *)
Definition struthy (s : string) : bool :=
  match s with "" => false | _ => true end.

(** [o || d] for a possibly-undefined string. *)
Definition sor (o : option string) (d : string) : string :=
  match o with
  | Some s => if struthy s then s else d
  | None => d
  end.

(** Truthiness of a possibly-undefined string. *)
Definition otruthy (o : option string) : bool :=
  match o with Some s => struthy s | None => false end.

(** WhiteSpace and LineTerminator characters within ASCII. *)
Definition is_ws (c : ascii) : bool :=
  let n := nat_of_ascii c in
  (Nat.leb 9 n && Nat.leb n 13) || Nat.eqb n 32.

Fixpoint trimStart (s : string) : string :=
  match s with
  | "" => ""
  | String c s' => if is_ws c then trimStart s' else s
  end.

Fixpoint trimEnd (s : string) : string :=
  match s with
  | "" => ""
  | String c s' =>
      match trimEnd s' with
      | "" => if is_ws c then "" else str1 c
      | r => String c r
      end
  end.

Definition trim (s : string) : string := trimEnd (trimStart s).

Definition lower_char (c : ascii) : ascii :=
  let n := nat_of_ascii c in
  if Nat.leb 65 n && Nat.leb n 90 then ascii_of_nat (n + 32) else c.

Definition upper_char (c : ascii) : ascii :=
  let n := nat_of_ascii c in
  if Nat.leb 97 n && Nat.leb n 122 then ascii_of_nat (n - 32) else c.

Fixpoint smap (f : ascii -> ascii) (s : string) : string :=
  match s with
  | "" => ""
  | String c s' => String (f c) (smap f s')
  end.

Definition toLowerCase : string -> string := smap lower_char.
Definition toUpperCase : string -> string := smap upper_char.

Fixpoint startsWith (s p : string) : bool :=
  match p, s with
  | "", _ => true
  | String a p', String b s' => Ascii.eqb a b && startsWith s' p'
  | String _ _, "" => false
  end.

Fixpoint includes (s p : string) : bool :=
  startsWith s p ||
  match s with
  | "" => false
  | String _ s' => includes s' p
  end.

Fixpoint take (n : nat) (s : string) : string :=
  match n, s with
  | S n', String c s' => String c (take n' s')
  | _, _ => ""
  end.

Fixpoint sdrop (n : nat) (s : string) : string :=
  match n, s with
  | S n', String _ s' => sdrop n' s'
  | _, _ => s
  end.

(** [s.substring(a, b)] for [a <= b]. *)
Definition substring_js (a b : nat) (s : string) : string :=
  take (b - a) (sdrop a s).

(** [l.join(sep)]. *)
Fixpoint join (sep : string) (l : list string) : string :=
  match l with
  | [] => ""
  | [x] => x
  | x :: rest => x +:+ sep +:+ join sep rest
  end.

(** [s.split(c)] for a one-character separator. *)
Fixpoint split_char (c : ascii) (s : string) : list string :=
  match s with
  | "" => [""]
  | String a s' =>
      if Ascii.eqb a c then "" :: split_char c s'
      else match split_char c s' with
           | h :: t => String a h :: t
           | [] => [str1 a]
           end
  end.

(** [s.split(/\r?\n/)]. *)
Fixpoint split_lines (s : string) : list string :=
  match s with
  | "" => [""]
  | String a s' =>
      if Ascii.eqb a LF then "" :: split_lines s'
      else
        let keep := match split_lines s' with
                    | h :: t => String a h :: t
                    | [] => [str1 a]
                    end in
        match s' with
        | String b s'' =>
            if Ascii.eqb a CR && Ascii.eqb b LF then "" :: split_lines s''
            else keep
        | "" => keep
        end
  end.

(** Characters of a string, as a predicate. *)
Fixpoint all_chars (P : ascii -> bool) (s : string) : bool :=
  match s with
  | "" => true
  | String c s' => P c && all_chars P s'
  end.

Definition not_char (c : ascii) : ascii -> bool := fun a => negb (Ascii.eqb a c).
Definition tab_free : string -> bool := all_chars (not_char TAB).
Definition lf_free : string -> bool := all_chars (not_char LF).

(** Decimal rendering of integers: [n.toString()] and [`${n}`]. *)
Definition nat_to_string (n : nat) : string :=
  NilZero.string_of_uint (Nat.to_uint n).
Definition Z_to_string (z : Z) : string :=
  NilZero.string_of_int (Z.to_int z).

(** [s.padStart(2, '0')]. *)
Definition padStart2 (s : string) : string :=
  match String.length s with
  | 0 => "00"
  | 1 => "0" +:+ s
  | _ => s
  end.

(** [x.toFixed(2)]: the sign, then the magnitude rounded to hundredths
    (ties to the larger magnitude), with exactly two decimals. *)
Definition toFixed2_abs (q : Q) : string :=
  let n := Qfloor (q * 100 + (1 # 2)) in
  Z_to_string (n / 100) +:+ "." +:+ padStart2 (Z_to_string (n mod 100)).

Definition toFixed2 (x : number) : string :=
  match x with
  | NaN => "NaN"
  | Num q => if Qlt_bool q 0 then "-" +:+ toFixed2_abs (- q) else toFixed2_abs q
  end.

(* ================================================================== *)
(** ** Data model (csv-processor.ts, custom-rules.ts, validators.ts) *)
(* ================================================================== *)

Inductive TxType : Type := income | expense.

Record Transaction : Type := mkTransaction {
  date : string;
  description : string;
  amount : number;
  type : TxType;
  category : string;
  balance : number;
  account : string;
}.

Record ParsedCSV : Type := mkParsedCSV {
  transactions : list Transaction;
  pc_account : string;
  startBalance : number;
  endBalance : number;
}.

(** A transaction object as the rule engine and the exporter see it at run
    time: the seven [Transaction] fields plus the split fields, each of which
    may be absent (a plain [Transaction] has none of them). *)
Record SplitTransaction : Type := mkSplitTransaction {
  base : Transaction;
  isSplit : option bool;
  splitParentId : option string;
  splitIndex : option nat;
  originalAmount : option number;
  splitMemo : option string;
}.

Definition plain (t : Transaction) : SplitTransaction :=
  mkSplitTransaction t None None None None None.

Record SplitAllocation : Type := mkSplitAllocation {
  sa_category : string;
  percentage : option number;
  fixedAmount : option number;
  memo : option string;
}.

Inductive RuleActionType : Type := categorize | rename | split.

Record RuleAction : Type := mkRuleAction {
  ra_type : RuleActionType;
  ra_category : option string;
  newName : option string;
  splits : option (list SplitAllocation);
}.

Record ValidationError : Type := mkValidationError {
  ve_file : string;
  ve_row : option nat;
  ve_date : option string;
  ve_message : string;
  ve_expected : option number;
  ve_actual : option number;
}.

(** The argument of [parseNumeric] / [parseAmount]:
    [string | number | null | undefined]. *)
Inductive raw : Type :=
| RNull
| RUndefined
| RStr (s : string)
| RNum (n : number).

(** [r[col]] on a parsed row. *)
Definition row_get (r : gmap string string) (col : string) : raw :=
  match r !! col with
  | Some s => RStr s
  | None => RUndefined
  end.

(** [a[i]] used as a number: reading past the end gives [undefined], which
    arithmetic turns into NaN. *)
Definition num_at (a : list number) (i : nat) : number :=
  match a !! i with
  | Some x => x
  | None => NaN
  end.

(** [.replace(/[$,()]/g, '')]. *)
Definition is_currency_markup (c : ascii) : bool :=
  Ascii.eqb c "$" || Ascii.eqb c "," || Ascii.eqb c "(" || Ascii.eqb c ")".

Fixpoint strip_markup (s : string) : string :=
  match s with
  | "" => ""
  | String c s' =>
      if is_currency_markup c then strip_markup s' else String c (strip_markup s')
  end.

(** validators.ts, [getColumnVariations]: the validator's own table. *)
Definition column_variations : list (string * list string) :=
  [ ("date", ["date"; "trans date"; "transaction date"; "posted date"]);
    ("description", ["description"; "memo"; "details"; "payee"]);
    ("deposit", ["deposit"; "deposits"; "credit"; "credits"; "amount credit"]);
    ("withdrawal", ["withdrawal"; "withdrawals"; "debit"; "debits"; "amount debit"]);
    ("balance", ["balance"; "running balance"; "available balance"]);
    ("category", ["category"; "type"; "transaction type"]) ].

Fixpoint assoc {V : Type} (k : string) (l : list (string * V)) : option V :=
  match l with
  | [] => None
  | (k', v) :: rest => if String.eqb k k' then Some v else assoc k rest
  end.

(** [variations[col] || [col]]. *)
Definition getColumnVariations (col : string) : list string :=
  match assoc col column_variations with
  | Some vs => vs
  | None => [col]
  end.

(** [a.includes(x)] on an array of strings. *)
Definition array_includes (a : list string) (x : string) : bool :=
  existsb (String.eqb x) a.

Definition validateRequiredColumns
    (headers : list string) (filename : string) (required : list string)
  : list ValidationError :=
  let lowerHeaders := map toLowerCase headers in
  let missing :=
    List.filter (fun col =>
              negb (existsb (fun v => array_includes lowerHeaders v)
                            (getColumnVariations col)))
           required in
  if Nat.ltb 0 (length missing)
  then [ mkValidationError filename None None
           ("Missing required columns: " +:+ join ", " missing) None None ]
  else [].

Definition default_required : list string :=
  ["date"; "description"; "deposit"; "withdrawal"; "balance"].

(** csv-processor.ts, [COLUMN_MAPPINGS]: the parser's table. *)
Definition COLUMN_MAPPINGS : list (string * list string) :=
  [ ("date", ["date"; "trans date"; "transaction date"; "posted date"; "posting date"]);
    ("description", ["description"; "memo"; "details"; "transaction description"; "payee"]);
    ("amount", ["amount"; "transaction amount"]);
    ("withdrawal", ["withdrawal"; "withdrawals"; "debit"; "debits"; "amount debit"]);
    ("deposit", ["deposit"; "deposits"; "credit"; "credits"; "amount credit"]);
    ("balance", ["balance"; "running balance"; "available balance"]);
    ("category", ["category"; "type"; "transaction type"]) ].

(** [COLUMN_MAPPINGS.<name>]. *)
Definition mappings_of (name : string) : list string :=
  match assoc name COLUMN_MAPPINGS with
  | Some m => m
  | None => []
  end.

(** [a.indexOf(x)], [None] for -1. *)
Fixpoint indexOf (a : list string) (x : string) : option nat :=
  match a with
  | [] => None
  | y :: rest =>
      if String.eqb y x then Some 0
      else match indexOf rest x with
           | Some i => Some (S i)
           | None => None
           end
  end.

(** The [for (const mapping of mappings)] loop of [findColumn]. *)
Fixpoint findColumn_loop (headers lowerHeaders mappings : list string)
  : option string :=
  match mappings with
  | [] => None
  | mapping :: rest =>
      match indexOf lowerHeaders mapping with
      | Some index => headers !! index
      | None => findColumn_loop headers lowerHeaders rest
      end
  end.

Definition findColumn (headers mappings : list string) : option string :=
  let lowerHeaders := map (fun h => trim (toLowerCase h)) headers in
  findColumn_loop headers lowerHeaders mappings.

Definition inferAccountFromFilename (filename : string) : string :=
  let lower := toLowerCase filename in
  if includes lower "check" || includes lower "chk" then "Checking"
  else if includes lower "saving" || includes lower "sav" then "Savings"
  else if includes lower "credit" || includes lower "cc" then "Credit Card"
  else "Account".

Definition maxErrors : nat := 5.

(** The column mapping [validateBalanceConsistency] is given. *)
Record BalanceColumns : Type := mkBalanceColumns {
  col_deposit : string;
  col_withdrawal : string;
  col_balance : string;
  col_date : string;
}.

(** The names a plain object inherits from [Object.prototype].  An indexed
    read [m[k]] with one of them as key gives the inherited member, which is
    neither a string nor absent; the mappings of the exporter are read only
    at other keys. *)
Definition OBJECT_PROTOTYPE_KEYS : list string :=
  [ "constructor"; "hasOwnProperty"; "isPrototypeOf"; "propertyIsEnumerable";
    "toLocaleString"; "toString"; "valueOf"; "__proto__";
    "__defineGetter__"; "__defineSetter__"; "__lookupGetter__";
    "__lookupSetter__" ].

(* ================================================================== *)
(** ** Reference readings of the host built-ins

    Concrete instances of the built-ins the pipeline is parameterised by;
    they serve to run the definitions on examples. *)
(* ================================================================== *)

Definition digit_val (c : ascii) : option Z :=
  let n := nat_of_ascii c in
  if Nat.leb 48 n && Nat.leb n 57 then Some (Z.of_nat (n - 48)) else None.

(** Reads a run of digits: its value, its length and the rest. *)
Fixpoint read_digits (s : string) (acc : Z) (count : nat) : Z * nat * string :=
  match s with
  | "" => (acc, count, "")
  | String c s' =>
      match digit_val c with
      | Some d => read_digits s' (10 * acc + d)%Z (S count)
      | None => (acc, count, s)
      end
  end.

(** [parseFloat] on decimal numerals without exponent part: leading blanks,
    an optional sign, digits, an optional fraction; NaN when no digit is
    found. *)
Definition parseFloat_decimal (s : string) : number :=
  let s := trimStart s in
  let '(negative, s) :=
    match s with
    | String "-" r => (true, r)
    | String "+" r => (false, r)
    | _ => (false, s)
    end in
  let '(ip, ni, r) := read_digits s 0 0 in
  let '(fp, nf, _) :=
    match r with
    | String "." r2 => read_digits r2 0 0
    | _ => (0%Z, 0, r)
    end in
  if Nat.eqb (ni + nf) 0 then NaN
  else
    let v := (inject_Z ip + inject_Z fp / inject_Z (10 ^ Z.of_nat nf))%Q in
    Num (if negative then (- v)%Q else v).

Fixpoint only_digits (s : string) : string :=
  match s with
  | "" => ""
  | String c s' =>
      match digit_val c with
      | Some _ => String c (only_digits s')
      | None => only_digits s'
      end
  end.

(** Orders ISO dates ([YYYY-MM-DD]) as the clock does. *)
Definition Date_getTime_iso (s : string) : number :=
  parseFloat_decimal (only_digits s).

Definition nat_of_digits (s : string) : nat :=
  let '(v, _, _) := read_digits s 0 0 in Z.to_nat v.

(** Reads [YYYY-MM-DD] as a local calendar date. *)
Definition Date_local_iso (s : string) : option (Z * nat * nat) :=
  if Nat.eqb (String.length s) 10
  then Some (Z.of_nat (nat_of_digits (substring_js 0 4 s)),
             nat_of_digits (substring_js 5 7 s) - 1,
             nat_of_digits (substring_js 8 10 s))
  else None.

(** A stable insertion sort driven by the sign of the comparator. *)
Fixpoint sort_insert {A : Type} (cmp : A -> A -> number) (x : A) (l : list A)
  : list A :=
  match l with
  | [] => [x]
  | y :: rest =>
      if ngt (cmp x y) n0 then y :: sort_insert cmp x rest else x :: y :: rest
  end.

Definition insertion_sort (A : Type) (cmp : A -> A -> number) (l : list A)
  : list A :=
  fold_right (sort_insert cmp) [] l.

(** Integers print in decimal; other values are not needed by the examples. *)
Definition number_to_string_int (n : number) : string :=
  match n with
  | NaN => "NaN"
  | Num q => Z_to_string (Qfloor q)
  end.

(** A pattern without metacharacters matches where it occurs. *)
Definition regex_test_literal (source s : string) : bool :=
  includes (toLowerCase s) (toLowerCase source).

(** The text between the first [<] and the first [>] of a pattern source. *)
Fixpoint until_char (c : ascii) (s : string) : string :=
  match s with
  | "" => ""
  | String a s' => if Ascii.eqb a c then "" else String a (until_char c s')
  end.

Fixpoint after_char (c : ascii) (s : string) : string :=
  match s with
  | "" => ""
  | String a s' => if Ascii.eqb a c then s' else after_char c s'
  end.

Fixpoint take_while (p : ascii -> bool) (s : string) : string :=
  match s with
  | "" => ""
  | String a s' => if p a then String a (take_while p s') else ""
  end.

Fixpoint drop_while (p : ascii -> bool) (s : string) : string :=
  match s with
  | "" => ""
  | String a s' => if p a then drop_while p s' else s
  end.

Definition startsWith_ci (s p : string) : bool :=
  startsWith (toLowerCase s) (toLowerCase p).

(** A pattern without metacharacters always compiles. *)
Definition regex_valid_literal (source : string) : bool := true.

(** The two patterns of [extractTag], the one with a closing tag and the one
    without, read for the tag they name: the first capture of the leftmost
    match. *)
Fixpoint regex_group1_tag_from (tag : string) (closing : bool) (content : string)
  : option string :=
  match content with
  | "" => None
  | String _ rest =>
      let openTag := "<" +:+ tag +:+ ">" in
      let here :=
        if startsWith_ci content openTag then
          let body := sdrop (String.length openTag) content in
          if closing then
            let run := take_while (fun a => negb (Ascii.eqb a "<")) body in
            let tail := drop_while (fun a => negb (Ascii.eqb a "<")) body in
            if startsWith_ci tail ("</" +:+ tag +:+ ">") then Some run else None
          else
            let run :=
              take_while (fun a => negb (Ascii.eqb a "<" || Ascii.eqb a CR
                                         || Ascii.eqb a LF)) body in
            if struthy run then Some run else None
        else None in
      match here with
      | Some m => Some m
      | None => regex_group1_tag_from tag closing rest
      end
  end.

Definition regex_group1_tag (source content : string) : option string :=
  regex_group1_tag_from (until_char ">" (after_char "<" source))
                        (includes source "</") content.

(* ================================================================== *)
(* ================================================================== *)
(** ** validators.ts on binary64 numbers

    [parseNumeric] hands on whatever [parseFloat] returns, the infinities
    included, and [validateBalanceConsistency] compares a floating-point
    difference with the literal [0.01].  The two functions are read here
    over the binary64 numbers of the host, with their rounding, so that a
    row at the tolerance is judged as the code judges it. *)
(* ================================================================== *)

Module Binary64.

Import PrimFloat.
#[local] Set Warnings "-inexact-float".

Definition number : Type := float.

Definition n0 : number := 0%float.
Definition cent : number := 0.01%float.      (* the literal 0.01 *)

(** The argument of [parseNumeric]: [string | number | null | undefined]. *)
Inductive raw : Type :=
| RNull
| RUndefined
| RStr (s : string)
| RNum (n : number).

(** [r[col]] on a parsed row. *)
Definition row_get (r : gmap string string) (col : string) : raw :=
  match r !! col with
  | Some s => RStr s
  | None => RUndefined
  end.

(** [a[i]] used as a number: reading past the end gives [undefined], which
    arithmetic turns into NaN. *)
Definition num_at (a : list number) (i : nat) : number :=
  match a !! i with
  | Some x => x
  | None => nan
  end.

Record ValidationError : Type := mkValidationError {
  ve_file : string;
  ve_row : option nat;
  ve_date : option string;
  ve_message : string;
  ve_expected : option number;
  ve_actual : option number;
}.

(** The value [m * 2^e] of a finite binary64 number, as a fraction. *)
Definition exact_value (m : positive) (e : Z) : Q :=
  if (0 <=? e)%Z then inject_Z (Z.pos m * 2 ^ e)
  else Z.pos m # Z.to_pos (2 ^ (- e)).

Section Host.

(** [parseFloat(s)]. *)
Variable parseFloat : string -> number.
(** [String(n)] for a number [n]. *)
Variable number_to_string : number -> string.

(** [String(val)]. *)
Definition String_of (v : raw) : string :=
  match v with
  | RNull => "null"
  | RUndefined => "undefined"
  | RStr s => s
  | RNum n => number_to_string n
  end.

Definition parseNumeric (val : raw) : number :=
  match val with
  | RNull | RUndefined | RStr "" => n0
  | _ =>
      let str := strip_markup (String_of val) in
      let num := parseFloat str in
      if is_nan num then n0 else num
  end.

(** [x.toFixed(2)]: the text of a value that is not finite; otherwise the
    sign, then the magnitude, which is printed by [String] from 1e21 on and
    else rounded to hundredths of its exact value (ties to the larger
    magnitude) with exactly two decimals. *)
Definition toFixed2 (x : number) : string :=
  match FloatOps.Prim2SF x with
  | SpecFloat.S754_nan => "NaN"
  | SpecFloat.S754_infinity s => if s then "-Infinity" else "Infinity"
  | SpecFloat.S754_zero _ => "0.00"
  | SpecFloat.S754_finite s m e =>
      (if s then "-" else "")
      +:+ (if leb 1e21%float (abs x) then number_to_string (abs x)
           else toFixed2_abs (exact_value m e))
  end.

(** The state of the validation loop: the [errors] array (in push order)
    and [errorCount]. *)
Definition balance_state : Type := (list ValidationError * nat)%type.

(** One iteration of the loop body, at index [i]. *)
Definition balance_step
    (filename : string) (deposits withdrawals balances : list number)
    (dates : list string) (i : nat) (st : balance_state) : balance_state :=
  let '(errors, errorCount) := st in
  let prevIdx := i + 1 in
  let currIdx := i in
  let prevBalance := num_at balances prevIdx in
  let currDeposit := num_at deposits currIdx in
  let currWithdrawal := num_at withdrawals currIdx in
  let currBalance := num_at balances currIdx in
  let expectedBalance := (prevBalance - currWithdrawal + currDeposit)%float in
  if ltb cent (abs (expectedBalance - currBalance)%float) then
    let errorCount := errorCount + 1 in
    if Nat.leb errorCount maxErrors then
      (errors ++ [ mkValidationError filename (Some (currIdx + 2))
                     (dates !! currIdx)
                     ("Balance mismatch! Expected $" +:+ toFixed2 expectedBalance
                      +:+ ", got $" +:+ toFixed2 currBalance)
                     (Some expectedBalance) (Some currBalance) ],
       errorCount)
    else (errors, errorCount)
  else (errors, errorCount).

(** [for (let i = k - 1; i >= 0; i--) body]. *)
Fixpoint balance_loop
    (filename : string) (deposits withdrawals balances : list number)
    (dates : list string) (k : nat) (st : balance_state) : balance_state :=
  match k with
  | 0 => st
  | S i =>
      balance_loop filename deposits withdrawals balances dates i
        (balance_step filename deposits withdrawals balances dates i st)
  end.

Definition validateBalanceConsistency
    (rows : list (gmap string string)) (filename : string)
    (columns : BalanceColumns) : list ValidationError :=
  if Nat.ltb (length rows) 2 then []
  else
    let deposits := map (fun r => parseNumeric (row_get r (col_deposit columns))) rows in
    let withdrawals := map (fun r => parseNumeric (row_get r (col_withdrawal columns))) rows in
    let balances := map (fun r => parseNumeric (row_get r (col_balance columns))) rows in
    let dates := map (fun r => sor (r !! col_date columns) "unknown") rows in
    let '(errors, errorCount) :=
      balance_loop filename deposits withdrawals balances dates
        (length rows - 1) ([], 0) in
    if Nat.ltb maxErrors errorCount
    then errors ++ [ mkValidationError filename None None
                       ("... and " +:+ nat_to_string (errorCount - maxErrors)
                        +:+ " more balance errors") None None ]
    else errors.

(** *** Notions used to state the properties *)

(** The text [s] without the characters listed in [cs]. *)
Fixpoint delete_chars (cs : list ascii) (s : string) : string :=
  match s with
  | "" => ""
  | String c s' =>
      if existsb (Ascii.eqb c) cs then delete_chars cs s'
      else String c (delete_chars cs s')
  end.

(** The value [parseNumeric] gives for a parse result: 0 in place of NaN. *)
Definition zero_for_nan (x : number) : number := if is_nan x then n0 else x.

Definition row_at (rows : list (gmap string string)) (i : nat)
  : gmap string string := nth i rows ∅.

(** The numbers read in row [i]. *)
Definition deposit_at rows (columns : BalanceColumns) (i : nat) : number :=
  parseNumeric (row_get (row_at rows i) (col_deposit columns)).
Definition withdrawal_at rows (columns : BalanceColumns) (i : nat) : number :=
  parseNumeric (row_get (row_at rows i) (col_withdrawal columns)).
Definition balance_at rows (columns : BalanceColumns) (i : nat) : number :=
  parseNumeric (row_get (row_at rows i) (col_balance columns)).

(** The balance row [i] should show, from the older row [i+1]:
    [balance[i+1] - withdrawal[i] + deposit[i]], each operation rounded. *)
Definition expected_at rows (columns : BalanceColumns) (i : nat) : number :=
  (balance_at rows columns (i + 1) - withdrawal_at rows columns i
   + deposit_at rows columns i)%float.

(** The distance between the expected balance and the balance of row [i],
    rounded, is above the binary64 value of 0.01. *)
Definition violates rows (columns : BalanceColumns) (i : nat) : bool :=
  ltb cent (abs (expected_at rows columns i - balance_at rows columns i)%float).

(** The error reported for a violating row [i]. *)
Definition mismatch_error rows (filename : string) (columns : BalanceColumns)
    (i : nat) : ValidationError :=
  mkValidationError filename (Some (i + 2))
    (Some (sor (row_at rows i !! col_date columns) "unknown"))
    ("Balance mismatch! Expected $" +:+ toFixed2 (expected_at rows columns i)
     +:+ ", got $" +:+ toFixed2 (balance_at rows columns i))
    (Some (expected_at rows columns i)) (Some (balance_at rows columns i)).

(** The summary entry for [k] violations that are not listed. *)
Definition overflow_error (filename : string) (k : nat) : ValidationError :=
  mkValidationError filename None None
    ("... and " +:+ nat_to_string k +:+ " more balance errors") None None.

(** The violating rows in the order they are met: from the second-oldest
    row ([length rows - 2]) up to the newest (0). *)
Definition violations rows (columns : BalanceColumns) : list nat :=
  List.filter (violates rows columns) (rev (seq 0 (length rows - 1))).

(** What the validator reports for at least two rows. *)
Definition balance_report rows (filename : string) (columns : BalanceColumns)
  : list ValidationError :=
  let v := violations rows columns in
  map (mismatch_error rows filename columns) (firstn maxErrors v)
  ++ (if Nat.ltb maxErrors (length v)
      then [ overflow_error filename (length v - maxErrors) ]
      else []).

End Host.

(** *** Reference readings and sample data *)

(** [parseFloat] on decimal numerals without exponent part and with at most
    fifteen digits: the quotient of two integers that binary64 holds
    exactly, rounded once.  NaN when no digit is found; longer numerals are
    outside this reading. *)
Definition parseFloat_decimal (s : string) : number :=
  let s := trimStart s in
  let '(negative, s) :=
    match s with
    | String "-" r => (true, r)
    | String "+" r => (false, r)
    | _ => (false, s)
    end in
  let '(ip, ni, r) := read_digits s 0 0 in
  let '(fp, nf, _) :=
    match r with
    | String "." r2 => read_digits r2 0 0
    | _ => (0%Z, 0, r)
    end in
  if Nat.eqb (ni + nf) 0 || Nat.ltb 15 (ni + nf) then nan
  else
    let v := (of_uint63 (Uint63.of_Z (ip * 10 ^ Z.of_nat nf + fp))
              / of_uint63 (Uint63.of_Z (10 ^ Z.of_nat nf)))%float in
    if negative then (- v)%float else v.

(** Whole numbers below 1e21 print in decimal; other values are not needed
    by the examples. *)
Definition number_to_string_int (x : number) : string :=
  match FloatOps.Prim2SF x with
  | SpecFloat.S754_nan => "NaN"
  | SpecFloat.S754_infinity s => if s then "-Infinity" else "Infinity"
  | SpecFloat.S754_zero _ => "0"
  | SpecFloat.S754_finite s m e =>
      (if s then "-" else "") +:+ Z_to_string (Qfloor (exact_value m e))
  end.

(** Two rows, newest first: 100.00 before, a withdrawal of 10.00, 90.01
    after.  The difference of one cent is, in binary64, slightly more than
    the literal 0.01. *)
Definition statement_row (d w dep bal : string) : gmap string string :=
  <["Date" := d]> (<["Withdrawal" := w]> (<["Deposit" := dep]>
    (<["Balance" := bal]> ∅))).
Definition statement_columns : BalanceColumns :=
  mkBalanceColumns "Deposit" "Withdrawal" "Balance" "Date".
Definition cent_off_rows : list (gmap string string) :=
  [ statement_row "2024-03-16" "10.00" "" "$90.01";
    statement_row "2024-03-15" "" "" "$100.00" ].
Definition consistent_rows : list (gmap string string) :=
  [ statement_row "2024-03-16" "10.00" "" "$90.00";
    statement_row "2024-03-15" "" "" "$100.00" ].
(** Seven rows in which every balance is off by a dollar. *)
Definition drifting_rows : list (gmap string string) :=
  map (fun b => statement_row "2024-03-01" "" "" b)
      [ "7.00"; "6.00"; "5.00"; "4.00"; "3.00"; "2.00"; "1.00" ].

(** Sample values. *)
Definition amount_1234_56 : number := 1234.56%float.
Definition amount_500 : number := 500%float.
Definition amount_90 : number := 90%float.
Definition amount_90_01 : number := 90.01%float.

End Binary64.

(** A comparator that orders the elements of [l]: [cmp a b] is below zero
    exactly when [cmp b a] is above, and "not after" is transitive (a result
    of NaN counts as zero).  [a.sort(compare)] promises a sorted array only
    for such a comparator. *)
Definition consistent_comparator {A : Type} (cmp : A -> A -> number)
    (l : list A) : Prop :=
  (forall a b, In a l -> In b l -> nlt (cmp a b) n0 = ngt (cmp b a) n0)
  /\ (forall a b c, In a l -> In b l -> In c l ->
        ngt (cmp a b) n0 = false -> ngt (cmp b c) n0 = false ->
        ngt (cmp a c) n0 = false).

(** ** The pipeline, over the host built-ins *)
(* ================================================================== *)

Section Pipeline.

#[local] Set Default Proof Using "Type".

(** [parseFloat(s)]. *)
Variable parseFloat : string -> number.
(** [String(n)] for a number [n]. *)
Variable number_to_string : number -> string.
(** [new Date(s).getTime()], NaN for an invalid date. *)
Variable Date_getTime : string -> number.
(** [new Date(s)] read back in local time as
    (getFullYear, getMonth, getDate); [None] for an invalid date. *)
Variable Date_local : string -> option (Z * nat * nat).
(** [a.sort(compare)]. *)
Variable array_sort : forall A : Type, (A -> A -> number) -> list A -> list A.
(** [/source/i.test(s)] for a pattern that compiles. *)
Variable regex_test : string -> string -> bool.
(** [s.match(new RegExp(source, 'i'))[1]], [None] when there is no match. *)
Variable regex_group1 : string -> string -> option string.
(** [new RegExp(source, 'i')] does not throw. *)
Variable regex_valid : string -> bool.

(** Sorting rearranges the elements of the array and does nothing else. *)
Hypothesis array_sort_perm :
  forall (A : Type) (cmp : A -> A -> number) (l : list A),
    Permutation (array_sort A cmp l) l.

(** Under a comparator that orders the elements, no element of the sorted
    array stands behind one the comparator puts it before. *)
Hypothesis array_sort_sorted :
  forall (A : Type) (cmp : A -> A -> number) (l : list A),
    consistent_comparator cmp l ->
    forall (i j : nat) (a b : A),
      i < j ->
      array_sort A cmp l !! i = Some a -> array_sort A cmp l !! j = Some b ->
      nlt (cmp b a) n0 = false.

(* ------------------------------------------------------------------ *)
(** *** validators.ts *)

(** [String(val)]. *)
Definition String_of (v : raw) : string :=
  match v with
  | RNull => "null"
  | RUndefined => "undefined"
  | RStr s => s
  | RNum n => number_to_string n
  end.

Definition parseNumeric (val : raw) : number :=
  match val with
  | RNull | RUndefined | RStr "" => n0
  | _ =>
      let str := strip_markup (String_of val) in
      let num := parseFloat str in
      if isNaN num then n0 else num
  end.

(** The state of the validation loop: the [errors] array (in push order)
    and [errorCount]. *)
Definition balance_state : Type := (list ValidationError * nat)%type.

(** One iteration of the loop body, at index [i]. *)
Definition balance_step
    (filename : string) (deposits withdrawals balances : list number)
    (dates : list string) (i : nat) (st : balance_state) : balance_state :=
  let '(errors, errorCount) := st in
  let prevIdx := i + 1 in
  let currIdx := i in
  let prevBalance := num_at balances prevIdx in
  let currDeposit := num_at deposits currIdx in
  let currWithdrawal := num_at withdrawals currIdx in
  let currBalance := num_at balances currIdx in
  let expectedBalance := nadd (nsub prevBalance currWithdrawal) currDeposit in
  if ngt (nabs (nsub expectedBalance currBalance)) cent then
    let errorCount := errorCount + 1 in
    if Nat.leb errorCount maxErrors then
      (errors ++ [ mkValidationError filename (Some (currIdx + 2))
                     (dates !! currIdx)
                     ("Balance mismatch! Expected $" +:+ toFixed2 expectedBalance
                      +:+ ", got $" +:+ toFixed2 currBalance)
                     (Some expectedBalance) (Some currBalance) ],
       errorCount)
    else (errors, errorCount)
  else (errors, errorCount).

(** [for (let i = k - 1; i >= 0; i--) body]. *)
Fixpoint balance_loop
    (filename : string) (deposits withdrawals balances : list number)
    (dates : list string) (k : nat) (st : balance_state) : balance_state :=
  match k with
  | 0 => st
  | S i =>
      balance_loop filename deposits withdrawals balances dates i
        (balance_step filename deposits withdrawals balances dates i st)
  end.

Definition validateBalanceConsistency
    (rows : list (gmap string string)) (filename : string)
    (columns : BalanceColumns) : list ValidationError :=
  if Nat.ltb (length rows) 2 then []
  else
    let deposits := map (fun r => parseNumeric (row_get r (col_deposit columns))) rows in
    let withdrawals := map (fun r => parseNumeric (row_get r (col_withdrawal columns))) rows in
    let balances := map (fun r => parseNumeric (row_get r (col_balance columns))) rows in
    let dates := map (fun r => sor (r !! col_date columns) "unknown") rows in
    let '(errors, errorCount) :=
      balance_loop filename deposits withdrawals balances dates
        (length rows - 1) ([], 0) in
    if Nat.ltb maxErrors errorCount
    then errors ++ [ mkValidationError filename None None
                       ("... and " +:+ nat_to_string (errorCount - maxErrors)
                        +:+ " more balance errors") None None ]
    else errors.

(* ------------------------------------------------------------------ *)
(** *** csv-processor.ts *)

Definition parseAmount (value : raw) : number :=
  match value with
  | RUndefined | RNull | RStr "" => n0
  | _ =>
      let str := strip_markup (String_of value) in
      let num := parseFloat str in
      if isNaN num then n0 else nabs num
  end.

(** [new Date(b.date).getTime() - new Date(a.date).getTime()]. *)
Definition by_date_desc {A : Type} (date_of : A -> string) (a b : A) : number :=
  nsub (Date_getTime (date_of b)) (Date_getTime (date_of a)).

(** The body of the row loop: [None] when the row is skipped. *)
Definition parseCSV_row
    (dateCol descCol amountCol withdrawalCol depositCol balanceCol categoryCol
       : option string)
    (account : string) (row : gmap string string) : option Transaction :=
  let dateStr := match dateCol with Some c => row !! c | None => Some "" end in
  if negb (otruthy dateStr) then None
  else
    let '(amount, type) :=
      match amountCol with
      | Some c =>
          let rawAmount := parseAmount (row_get row c) in
          let rawStr := sor (row !! c) "" in
          if includes rawStr "-" || includes rawStr "("
          then (rawAmount, expense)
          else (rawAmount, income)
      | None =>
          let withdrawal :=
            match withdrawalCol with
            | Some c => parseAmount (row_get row c) | None => n0 end in
          let deposit :=
            match depositCol with
            | Some c => parseAmount (row_get row c) | None => n0 end in
          if ngt withdrawal n0 then (withdrawal, expense)
          else if ngt deposit n0 then (deposit, income)
          else (n0, expense)
      end in
    if neq amount n0 then None
    else
      let description :=
        match descCol with
        | Some c => sor (trim <$> row !! c) "Unknown"
        | None => "Unknown"
        end in
      let balance :=
        match balanceCol with
        | Some c => parseAmount (row_get row c) | None => n0 end in
      let category :=
        match categoryCol with
        | Some c => sor (trim <$> row !! c) ""
        | None => ""
        end in
      Some (mkTransaction (sor dateStr "") description amount type
                          category balance account).

(** [parseCSV], from the header list and the rows the CSV reader returns. *)
Definition parseCSV
    (headers : list string) (rows : list (gmap string string))
    (filename : string) : ParsedCSV :=
  let dateCol := findColumn headers (mappings_of "date") in
  let descCol := findColumn headers (mappings_of "description") in
  let amountCol := findColumn headers (mappings_of "amount") in
  let withdrawalCol := findColumn headers (mappings_of "withdrawal") in
  let depositCol := findColumn headers (mappings_of "deposit") in
  let balanceCol := findColumn headers (mappings_of "balance") in
  let categoryCol := findColumn headers (mappings_of "category") in
  let account := inferAccountFromFilename filename in
  let pushed :=
    omap (parseCSV_row dateCol descCol amountCol withdrawalCol depositCol
                       balanceCol categoryCol account) rows in
  let transactions := array_sort Transaction (by_date_desc date) pushed in
  let startBalance :=
    match last transactions with Some t => balance t | None => n0 end in
  let endBalance :=
    match head transactions with Some t => balance t | None => n0 end in
  mkParsedCSV transactions account startBalance endBalance.

(* ------------------------------------------------------------------ *)
(** *** qbo-parser.ts *)

Record QBOParseResult : Type := mkQBOParseResult {
  q_transactions : list Transaction;
  q_account : string;
  bankId : string;
  accountId : option string;
  accountType : string;
  startDate : string;
  endDate : string;
  q_startBalance : number;
  q_endBalance : number;
}.

Definition parseOFXDate (dateStr : string) : string :=
  if negb (struthy dateStr) then ""
  else
    let cleanDate :=
      match split_char "[" dateStr with h :: _ => h | [] => "" end in
    let year := substring_js 0 4 cleanDate in
    let month := substring_js 4 6 cleanDate in
    let day := substring_js 6 8 cleanDate in
    year +:+ "-" +:+ month +:+ "-" +:+ day.

Definition extractTag (content tag : string) : string :=
  match regex_group1 ("<" +:+ tag +:+ ">([^<]*)</" +:+ tag +:+ ">") content with
  | Some m => trim m
  | None =>
      match regex_group1 ("<" +:+ tag +:+ ">([^<\r\n]+)") content with
      | Some m => trim m
      | None => ""
      end
  end.

(** [content.indexOf(needle, pos)]. *)
Definition indexOf_from (content needle : string) (pos : nat) : option nat :=
  String.index pos needle content.

(** The [while (true)] loop of [extractBlocks]; every iteration moves [pos]
    forward by at least the length of the closing tag, so [fuel] equal to the
    length of the content is never exhausted. *)
Fixpoint extractBlocks_loop
    (fuel : nat) (content openTag closeTag : string) (pos : nat)
    (blocks : list string) : list string :=
  match fuel with
  | 0 => blocks
  | S fuel' =>
      match indexOf_from content openTag pos with
      | None => blocks
      | Some start =>
          match indexOf_from content closeTag start with
          | None => blocks
          | Some end_ =>
              extractBlocks_loop fuel' content openTag closeTag
                (end_ + String.length closeTag)
                (blocks ++ [ substring_js (start + String.length openTag) end_ content ])
          end
      end
  end.

Definition extractBlocks (content tag : string) : list string :=
  let openTag := "<" +:+ tag +:+ ">" in
  let closeTag := "</" +:+ tag +:+ ">" in
  extractBlocks_loop (S (String.length content)) content openTag closeTag 0 [].

Definition inferAccountType (filename content : string) : string :=
  let lower := toLowerCase filename in
  if includes lower "check" || includes lower "chk" then "Checking"
  else if includes lower "saving" || includes lower "sav" then "Savings"
  else if includes lower "credit" || includes lower "cc" then "Credit Card"
  else
    let acctType := extractTag content "ACCTTYPE" in
    if struthy acctType && String.eqb (toUpperCase acctType) "CHECKING" then "Checking"
    else if struthy acctType && String.eqb (toUpperCase acctType) "SAVINGS" then "Savings"
    else if struthy acctType && String.eqb (toUpperCase acctType) "CREDITCARD" then "Credit Card"
    else if includes content "<CREDITCARDMSGSRSV1>" then "Credit Card"
    else "Account".

(** An element of [parsedTxns]: the transaction and its signed amount. *)
Record ParsedTxn : Type := mkParsedTxn {
  txn : Transaction;
  signed : number;
}.

(** The body of the block loop. *)
Definition parseQBO_block (accountType : string) (block : string) : ParsedTxn :=
  let datePosted := parseOFXDate (extractTag block "DTPOSTED") in
  let amountStr := extractTag block "TRNAMT" in
  let name :=
    let n := extractTag block "NAME" in
    if struthy n then n else extractTag block "PAYEE" in
  let memo := extractTag block "MEMO" in
  let checkNum := extractTag block "CHECKNUM" in
  let amount := nor (parseFloat amountStr) n0 in
  let absAmount := nabs amount in
  let isIncome := ngt amount n0 in
  let description :=
    if struthy memo then name +:+ " - " +:+ memo
    else if struthy checkNum then name +:+ " #" +:+ checkNum
    else name in
  mkParsedTxn
    (mkTransaction datePosted description absAmount
                   (if isIncome then income else expense)
                   "Uncategorized" n0 accountType)
    amount.

Definition set_balance (t : Transaction) (b : number) : Transaction :=
  mkTransaction (date t) (description t) (amount t) (type t) (category t)
                b (account t).

(** The balance loop over the sorted [parsedTxns]: writes [txn.balance] and
    returns the list together with the final value of [balance]. *)
Fixpoint assign_balances (ps : list ParsedTxn) (balance : number)
  : list ParsedTxn * number :=
  match ps with
  | [] => ([], balance)
  | p :: rest =>
      let p' := mkParsedTxn (set_balance (txn p) balance) (signed p) in
      let '(rest', final) := assign_balances rest (nsub balance (signed p)) in
      (p' :: rest', final)
  end.

(** [s.slice(-4)]. *)
Definition slice_last4 (s : string) : string :=
  sdrop (String.length s - 4) s.

Definition parseQBO (content filename : string) : QBOParseResult :=
  let bankId := extractTag content "BANKID" in
  let accountId := extractTag content "ACCTID" in
  let accountType := inferAccountType filename content in
  let ledgerBal := extractTag content "BALAMT" in
  let endBalance := if struthy ledgerBal then parseFloat ledgerBal else n0 in
  let startDate := parseOFXDate (extractTag content "DTSTART") in
  let endDate := parseOFXDate (extractTag content "DTEND") in
  let txnBlocks := extractBlocks content "STMTTRN" in
  let parsedTxns := map (parseQBO_block accountType) txnBlocks in
  let sorted := array_sort ParsedTxn (by_date_desc (fun p => date (txn p))) parsedTxns in
  let '(walked, balance) := assign_balances sorted endBalance in
  let startBalance := balance in
  mkQBOParseResult (map txn walked) accountType bankId
    (if struthy accountId then Some ("****" +:+ slice_last4 accountId) else None)
    accountType startDate endDate startBalance endBalance.

Definition qboToParsedCSV (r : QBOParseResult) : ParsedCSV :=
  mkParsedCSV (q_transactions r) (q_account r) (q_startBalance r) (q_endBalance r).

(* ------------------------------------------------------------------ *)
(** *** categorizer.ts *)

(** A rule: the sources of its patterns (all carry the [i] flag) and its
    label. *)
Record CategoryRule : Type := mkCategoryRule {
  patterns : list string;
  cr_category : string;
}.

Definition CATEGORY_RULES : list CategoryRule :=
  [
    mkCategoryRule
      [ "payroll"; "salary"; "direct deposit"; "employer" ]
      "Salary";
    mkCategoryRule
      [ "bonus"; "incentive" ]
      "Bonus";
    mkCategoryRule
      [ "interest (payment|earned|credit)"; "apy" ]
      "Interest";
    mkCategoryRule
      [ "dividend" ]
      "Dividends";
    mkCategoryRule
      [ "refund"; "rebate"; "cashback" ]
      "Refunds";
    mkCategoryRule
      [ "trader joe"; "whole foods"; "safeway"; "kroger"; "publix";
        "albertsons"; "food coop"; "grocery"; "costco"; "sam'?s club";
        "aldi"; "wegmans"; "h-?e-?b"; "target.*grocery"; "walmart.*grocery";
        "sprouts"; "fresh market"; "food mart"; "supermarket" ]
      "Groceries";
    mkCategoryRule
      [ "restaurant"; "doordash"; "uber ?eats"; "grubhub"; "postmates";
        "chipotle"; "mcdonald"; "starbucks"; "dunkin"; "subway"; "pizza";
        "burger"; "cafe"; "coffee"; "diner"; "grill"; "sweetgreen";
        "chick-?fil-?a"; "panera"; "wendy"; "taco bell"; "kfc"; "popeyes";
        "five guys"; "shake shack"; "panda express" ]
      "Restaurants & Dining";
    mkCategoryRule
      [ "netflix"; "spotify"; "hulu"; "disney\+"; "hbo ?max";
        "apple ?(music|tv|one|arcade)"; "amazon prime"; "youtube";
        "paramount"; "peacock"; "audible"; "kindle"; "nytimes";
        "subscription"; "membership"; "monthly fee" ]
      "Subscriptions";
    mkCategoryRule
      [ "openai"; "anthropic"; "claude"; "chatgpt"; "cursor"; "github";
        "gitlab"; "aws"; "azure"; "google cloud"; "digitalocean"; "heroku";
        "vercel"; "netlify"; "cloudflare"; "notion"; "figma"; "canva";
        "adobe"; "microsoft 365"; "dropbox"; "slack"; "zoom"; "calendly";
        "zapier"; "replicate"; "elevenlabs"; "midjourney"; "runway";
        "tradingview"; "webflow"; "airtable"; "hubspot" ]
      "Software & Services";
    mkCategoryRule
      [ "electric"; "gas co"; "water (bill|utility)"; "sewage"; "con ?ed";
        "pge"; "duke energy"; "xcel"; "utility"; "power company";
        "national grid" ]
      "Utilities";
    mkCategoryRule
      [ "comcast"; "xfinity"; "spectrum"; "verizon fios"; "att.*internet";
        "t-?mobile.*home"; "cox"; "frontier"; "optimum"; "cable";
        "internet service"; "broadband" ]
      "Internet & Cable";
    mkCategoryRule
      [ "verizon wireless"; "t-?mobile"; "att.*wireless"; "sprint"; "at&t";
        "cricket"; "metro ?pcs"; "mint mobile"; "visible"; "google fi";
        "phone bill"; "cell(ular)?" ]
      "Phone";
    mkCategoryRule
      [ "insurance"; "geico"; "progressive"; "state farm"; "allstate";
        "liberty mutual"; "nationwide"; "usaa"; "aetna"; "cigna";
        "blue cross"; "united health"; "kaiser"; "anthem" ]
      "Insurance";
    mkCategoryRule
      [ "uber(?! ?eats)"; "lyft"; "taxi"; "cab\b"; "mta"; "metro"; "transit";
        "subway"; "bus pass"; "parking"; "garage"; "toll"; "e-?zpass" ]
      "Transportation";
    mkCategoryRule
      [ "shell"; "chevron"; "exxon"; "mobil"; "bp\b"; "arco"; "76\b";
        "texaco"; "gas station"; "fuel"; "petroleum"; "speedway";
        "wawa.*gas"; "costco.*gas" ]
      "Gas";
    mkCategoryRule
      [ "amazon(?!.*prime)"; "walmart"; "target"; "best buy"; "home depot";
        "lowes"; "ikea"; "wayfair"; "bed bath"; "macy"; "nordstrom";
        "tj ?maxx"; "marshalls"; "ross"; "kohls"; "jc ?penney"; "gap";
        "old navy"; "h&m"; "zara"; "uniqlo"; "nike"; "adidas"; "apple store";
        "etsy"; "ebay" ]
      "Shopping";
    mkCategoryRule
      [ "pharmacy"; "cvs"; "walgreens"; "rite aid"; "hospital"; "clinic";
        "medical"; "doctor"; "dentist"; "optom"; "urgent care"; "quest diag";
        "labcorp"; "prescription" ]
      "Health & Medical";
    mkCategoryRule
      [ "gym"; "fitness"; "planet fitness"; "equinox"; "crunch";
        "24 hour fitness"; "la fitness"; "orangetheory"; "crossfit";
        "peloton"; "yoga"; "pilates" ]
      "Fitness";
    mkCategoryRule
      [ "movie"; "cinema"; "amc"; "regal"; "theater"; "theatre"; "concert";
        "ticketmaster"; "stubhub"; "eventbrite"; "museum"; "zoo";
        "amusement"; "bowling"; "arcade"; "steam"; "playstation"; "xbox";
        "nintendo"; "gaming" ]
      "Entertainment";
    mkCategoryRule
      [ "airline"; "united"; "delta"; "american air"; "southwest"; "jetblue";
        "spirit"; "frontier"; "alaska air"; "flight"; "hotel"; "marriott";
        "hilton"; "hyatt"; "airbnb"; "vrbo"; "expedia"; "booking\.com";
        "kayak"; "hopper"; "priceline" ]
      "Travel";
    mkCategoryRule
      [ "student loan"; "dept.*education"; "fedloan"; "nelnet"; "navient";
        "mortgage"; "car payment"; "auto loan"; "personal loan"; "sofi";
        "lending club"; "credit card payment" ]
      "Loans";
    mkCategoryRule
      [ "rent"; "landlord"; "property management"; "apartment" ]
      "Rent";
    mkCategoryRule
      [ "transfer"; "venmo"; "zelle"; "paypal"; "cash ?app"; "wire";
        "ach.*transfer" ]
      "Transfers";
    mkCategoryRule
      [ "atm"; "cash withdrawal"; "cash advance" ]
      "ATM/Cash";
    mkCategoryRule
      [ "fee"; "charge"; "overdraft"; "nsf"; "service charge";
        "monthly maintenance"; "atm fee"; "foreign transaction" ]
      "Fees"
  ].

(** [for (const pattern of rule.patterns) if (pattern.test(d)) return ...]:
    [true] when the inner loop returns. *)
Fixpoint patterns_loop (ps : list string) (description : string) : bool :=
  match ps with
  | [] => false
  | pattern :: rest =>
      if regex_test pattern description then true
      else patterns_loop rest description
  end.

(** [for (const rule of rules) ...]: the label returned from inside the
    loops, or [None] when both loops run to their end. *)
Fixpoint rules_loop (rules : list CategoryRule) (description : string)
  : option string :=
  match rules with
  | [] => None
  | rule :: rest =>
      if patterns_loop (patterns rule) description
      then Some (cr_category rule)
      else rules_loop rest description
  end.

(** [a.slice(0, n)]. *)
Definition slice0 {A : Type} (n : nat) (a : list A) : list A := firstn n a.

Definition categorizeTransaction (transaction : Transaction) : string :=
  if struthy (category transaction)
     && negb (String.eqb (category transaction) "Uncategorized")
  then category transaction
  else
    let description := toLowerCase (description transaction) in
    match type transaction with
    | income =>
        match rules_loop (slice0 5 CATEGORY_RULES) description with
        | Some c => c
        | None => "Other Income"
        end
    | expense =>
        match rules_loop CATEGORY_RULES description with
        | Some c => c
        | None => "Other"
        end
    end.

Definition set_category (t : Transaction) (c : string) : Transaction :=
  mkTransaction (date t) (description t) (amount t) (type t) c
                (balance t) (account t).

Definition categorizeAllTransactions (ts : list Transaction) : list Transaction :=
  map (fun t => set_category t (categorizeTransaction t)) ts.

(* ------------------------------------------------------------------ *)
(** *** custom-rules.ts *)

Inductive RuleField : Type := f_description | f_amount | f_category.
Inductive RuleMatchType : Type :=
  m_contains | m_startsWith | m_endsWith | m_regex | m_exact.
Inductive ConditionLogic : Type := l_AND | l_OR.

Record RuleCondition : Type := mkRuleCondition {
  rc_field : RuleField;
  matchType : RuleMatchType;
  rc_value : string;
  minAmount : option number;
  maxAmount : option number;
}.

Record CustomRule : Type := mkCustomRule {
  rule_id : string;
  rule_name : string;
  enabled : bool;
  priority : number;
  conditions : list RuleCondition;
  conditionLogic : ConditionLogic;
  action : RuleAction;
  createdAt : string;
  updatedAt : string;
}.

Definition set_description (t : Transaction) (d : string) : Transaction :=
  mkTransaction (date t) d (amount t) (type t) (category t)
                (balance t) (account t).

Definition set_amount_category (t : Transaction) (a : number) (c : string)
  : Transaction :=
  mkTransaction (date t) (description t) a (type t) c (balance t) (account t).

(** [{ ...transaction, isSplit: false }] with the base fields [b]. *)
Definition unsplit (transaction : SplitTransaction) (b : Transaction)
  : SplitTransaction :=
  mkSplitTransaction b (Some false) (splitParentId transaction)
    (splitIndex transaction) (originalAmount transaction)
    (splitMemo transaction).

(** [Math.round(x * 100) / 100]. *)
Definition round_cents (x : number) : number :=
  ndiv (Math_round (nmul x n100)) n100.

(** The amount an allocation takes, given the running remainder. *)
Definition splitAmount_of
    (transaction : SplitTransaction) (split_ : SplitAllocation)
    (remainingAmount : number) : number :=
  match fixedAmount split_ with
  | Some fixed => nmin fixed remainingAmount
  | None =>
      match percentage split_ with
      | Some pct => nmul (amount (base transaction)) (ndiv pct n100)
      | None => remainingAmount
      end
  end.

(** The fragment pushed for allocation [split_] at position [index]. *)
Definition fragment
    (transaction : SplitTransaction) (parentId : string) (total : nat)
    (split_ : SplitAllocation) (index : nat) (splitAmount : number)
  : SplitTransaction :=
  mkSplitTransaction
    (set_amount_category (base transaction) (round_cents splitAmount)
                         (sa_category split_))
    (Some true) (Some parentId) (Some index)
    (Some (amount (base transaction)))
    (Some (sor (memo split_)
               ("Split " +:+ nat_to_string (index + 1) +:+ " of "
                +:+ nat_to_string total))).

(** [rule.action.splits.forEach((split, index) => ...)], from position
    [index] on; the state is [remainingAmount] and the [result] array. *)
Fixpoint split_loop
    (transaction : SplitTransaction) (parentId : string) (total : nat)
    (allocs : list SplitAllocation) (index : nat)
    (remainingAmount : number) (result : list SplitTransaction)
  : number * list SplitTransaction :=
  match allocs with
  | [] => (remainingAmount, result)
  | split_ :: rest =>
      let splitAmount := splitAmount_of transaction split_ remainingAmount in
      let remainingAmount := nsub remainingAmount splitAmount in
      split_loop transaction parentId total rest (index + 1) remainingAmount
        (result ++ [ fragment transaction parentId total split_ index splitAmount ])
  end.

(** The fragment holding what is left after the last allocation. *)
Definition remainder_fragment
    (transaction : SplitTransaction) (parentId : string) (total : nat)
    (remainingAmount : number) : SplitTransaction :=
  mkSplitTransaction
    (set_amount_category (base transaction) (round_cents remainingAmount)
                         "Uncategorized")
    (Some true) (Some parentId) (Some total)
    (Some (amount (base transaction)))
    (Some "Remaining amount").

(** [`split_${Date.now()}`], [now] being the clock reading. *)
Definition make_parentId (now : Z) : string := "split_" +:+ Z_to_string now.

Definition applyRule (now : Z) (transaction : SplitTransaction)
    (rule : CustomRule) : list SplitTransaction :=
  let result :=
    match ra_type (action rule) with
    | categorize =>
        match ra_category (action rule) with
        | Some c =>
            if struthy c
            then [ unsplit transaction (set_category (base transaction) c) ]
            else []
        | None => []
        end
    | rename =>
        match newName (action rule) with
        | Some n =>
            if struthy n
            then [ unsplit transaction (set_description (base transaction) n) ]
            else []
        | None => []
        end
    | split =>
        match splits (action rule) with
        | Some allocs =>
            if Nat.ltb 0 (length allocs) then
              let parentId := make_parentId now in
              let '(remainingAmount, result) :=
                split_loop transaction parentId (length allocs) allocs 0
                           (amount (base transaction)) [] in
              if ngt remainingAmount cent
              then result ++ [ remainder_fragment transaction parentId
                                 (length allocs) remainingAmount ]
              else result
            else []
        | None => []
        end
    end in
  if Nat.eqb (length result) 0
  then [ unsplit transaction (base transaction) ]
  else result.

(* ------------------------------------------------------------------ *)
(** *** iif-exporter.ts *)

Record IIFExportOptions : Type := mkIIFExportOptions {
  bankAccountName : option string;
  defaultExpenseAccount : option string;
  defaultIncomeAccount : option string;
  includeMemo : option bool;
  categoryMapping : option (gmap string string);
}.

Definition DEFAULT_OPTIONS : IIFExportOptions :=
  mkIIFExportOptions (Some "Checking") (Some "Uncategorized Expense")
    (Some "Other Income") (Some true) (Some ∅).

Definition no_options : IIFExportOptions :=
  mkIIFExportOptions None None None None None.

Definition DEFAULT_CATEGORY_MAPPING : list (string * string) :=
  [ ("Groceries", "Groceries");
    ("Restaurants and Dining", "Meals & Entertainment");
    ("Entertainment", "Entertainment");
    ("Gas", "Auto:Fuel");
    ("Travel", "Travel");
    ("Utilities", "Utilities");
    ("Cable", "Utilities:Cable");
    ("Phone", "Utilities:Telephone");
    ("Insurance", "Insurance");
    ("Healthcare", "Medical");
    ("Subscriptions and Renewals", "Subscriptions");
    ("Services and Supplies", "Office Supplies");
    ("Software & Services", "Computer & Internet");
    ("General Merchandise", "Supplies");
    ("Clothing", "Clothing");
    ("Personal Care", "Personal Care");
    ("Home Improvement", "Repairs & Maintenance");
    ("Loans", "Loan Interest");
    ("Transfers", "Transfer");
    ("ATM", "Cash");
    ("Fees", "Bank Service Charges");
    ("Salary", "Payroll Income");
    ("Other Income", "Other Income");
    ("Interest", "Interest Income");
    ("Refund", "Other Income");
    ("Uncategorized", "Uncategorized Expense") ].

(** [{ ...a, ...b }]: a field present in [b] wins. *)
Definition or_else {A : Type} (b a : option A) : option A :=
  match b with Some _ => b | None => a end.

Definition merge_options (a b : IIFExportOptions) : IIFExportOptions :=
  mkIIFExportOptions
    (or_else (bankAccountName b) (bankAccountName a))
    (or_else (defaultExpenseAccount b) (defaultExpenseAccount a))
    (or_else (defaultIncomeAccount b) (defaultIncomeAccount a))
    (or_else (includeMemo b) (includeMemo a))
    (or_else (categoryMapping b) (categoryMapping a)).

Definition formatIIFDate (dateStr : string) : string :=
  match Date_local dateStr with
  | Some (year, monthIndex, dayOfMonth) =>
      padStart2 (nat_to_string (monthIndex + 1)) +:+ "/"
      +:+ padStart2 (nat_to_string dayOfMonth) +:+ "/" +:+ Z_to_string year
  | None => "NaN/NaN/NaN"
  end.

(** [.replace(/\t/g, ' ')]. *)
Definition replace_tabs : string -> string :=
  smap (fun c => if Ascii.eqb c TAB then SP else c).

(** [.replace(/\r?\n/g, ' ')]. *)
Fixpoint replace_newlines (s : string) : string :=
  match s with
  | "" => ""
  | String a s' =>
      if Ascii.eqb a LF then String SP (replace_newlines s')
      else
        match s' with
        | String b s'' =>
            if Ascii.eqb a CR && Ascii.eqb b LF
            then String SP (replace_newlines s'')
            else String a (replace_newlines s')
        | "" => String a (replace_newlines s')
        end
  end.

Definition escapeIIF (str : string) : string :=
  substring_js 0 100 (replace_newlines (replace_tabs str)).

Definition getQBAccount (category : string) (type : TxType)
    (options : IIFExportOptions) : string :=
  let custom :=
    match categoryMapping options with
    | Some m => m !! category
    | None => None
    end in
  if otruthy custom then sor custom ""
  else if otruthy (assoc category DEFAULT_CATEGORY_MAPPING)
  then sor (assoc category DEFAULT_CATEGORY_MAPPING) ""
  else
    match type with
    | income => sor (defaultIncomeAccount options) "Other Income"
    | expense => sor (defaultExpenseAccount options) "Uncategorized Expense"
    end.

Definition isSplitTransaction (txn : SplitTransaction) : bool :=
  match isSplit txn with
  | Some true => true
  | _ => false
  end.

(** A [Map<string, SplitTransaction[]>], entries in insertion order. *)
Definition SplitGroups : Type := list (string * list SplitTransaction).

Definition map_get (m : SplitGroups) (k : string) : option (list SplitTransaction) :=
  assoc k m.

(** [m.set(k, v)]: an existing key keeps its place. *)
Fixpoint map_set (m : SplitGroups) (k : string) (v : list SplitTransaction)
  : SplitGroups :=
  match m with
  | [] => [(k, v)]
  | (k', v') :: rest =>
      if String.eqb k k' then (k', v) :: rest else (k', v') :: map_set rest k v
  end.

(** One iteration of the grouping loop. *)
Definition group_step (st : list SplitTransaction * SplitGroups)
    (txn : SplitTransaction) : list SplitTransaction * SplitGroups :=
  let '(regular, splitGroups) := st in
  if isSplitTransaction txn && otruthy (splitParentId txn) then
    let id := sor (splitParentId txn) "" in
    let group :=
      match map_get splitGroups id with Some g => g | None => [] end in
    (regular, map_set splitGroups id (group ++ [txn]))
  else (regular ++ [txn], splitGroups).

Definition groupSplitTransactions (transactions : list SplitTransaction)
  : list SplitTransaction * SplitGroups :=
  fold_left group_step transactions ([], []).

Definition IIF_HEADER : list string :=
  [ join (str1 TAB) ["!TRNS"; "TRNSID"; "TRNSTYPE"; "DATE"; "ACCNT"; "NAME";
                     "AMOUNT"; "DOCNUM"; "MEMO"; "CLEAR"; "TOPRINT"];
    join (str1 TAB) ["!SPL"; "SPLID"; "TRNSTYPE"; "DATE"; "ACCNT"; "NAME";
                     "AMOUNT"; "DOCNUM"; "MEMO"; "CLEAR"; "QNTY"; "REIMBEXP"];
    "!ENDTRNS" ].

Definition opt_str (o : option string) : string :=
  match o with Some s => s | None => "" end.

Definition trnsType_of (t : TxType) : string :=
  match t with income => "DEPOSIT" | expense => "CHECK" end.

Definition memo_of (opts : IIFExportOptions) (d : string) : string :=
  match includeMemo opts with
  | Some true => escapeIIF d
  | _ => ""
  end.

(** The three lines pushed for a non-split transaction, [trnsId] already
    incremented. *)
Definition regular_block (opts : IIFExportOptions) (trnsId : nat)
    (txn : SplitTransaction) : list string :=
  let t := base txn in
  let date := formatIIFDate (date t) in
  let amount := match type t with expense => nneg (amount t) | income => amount t end in
  let offsetAmount := nneg amount in
  let name := escapeIIF (substring_js 0 50 (description t)) in
  let memo := memo_of opts (description t) in
  let offsetAccount := getQBAccount (category t) (type t) opts in
  let trnsType := trnsType_of (type t) in
  [ join (str1 TAB)
      ["TRNS"; nat_to_string trnsId; trnsType; date;
       opt_str (bankAccountName opts); name; toFixed2 amount; ""; memo; "N"; "N"];
    join (str1 TAB)
      ["SPL"; nat_to_string trnsId; trnsType; date; offsetAccount; name;
       toFixed2 offsetAmount; ""; memo; "N"; ""; ""];
    "ENDTRNS" ].

(** The SPL line pushed for one fragment of a split group. *)
Definition split_line (opts : IIFExportOptions) (trnsId : nat)
    (trnsType date name memo : string) (split_ : SplitTransaction) : string :=
  let s := base split_ in
  let splitAmount :=
    match type s with expense => amount s | income => nneg (amount s) end in
  let offsetAccount := getQBAccount (category s) (type s) opts in
  let splitMemo :=
    match splitMemo split_ with
    | Some m => if struthy m then m else memo
    | None => memo
    end in
  join (str1 TAB)
    ["SPL"; nat_to_string trnsId; trnsType; date; offsetAccount; name;
     toFixed2 splitAmount; ""; escapeIIF splitMemo; "N"; ""; ""].

(** The lines pushed for a split group with first fragment [firstSplit],
    [trnsId] already incremented. *)
Definition split_block (opts : IIFExportOptions) (trnsId : nat)
    (firstSplit : SplitTransaction) (splits_ : list SplitTransaction)
  : list string :=
  let f := base firstSplit in
  let date := formatIIFDate (date f) in
  let total :=
    fold_left (fun sum s => nadd sum (amount (base s))) splits_ n0 in
  let originalAmount_ :=
    match originalAmount firstSplit with
    | Some x => nor x total
    | None => total
    end in
  let amount :=
    match type f with expense => nneg originalAmount_ | income => originalAmount_ end in
  let name := escapeIIF (substring_js 0 50 (description f)) in
  let memo := memo_of opts (description f) in
  let trnsType := trnsType_of (type f) in
  [ join (str1 TAB)
      ["TRNS"; nat_to_string trnsId; trnsType; date;
       opt_str (bankAccountName opts); name; toFixed2 amount; ""; memo; "N"; "N"] ]
  ++ map (split_line opts trnsId trnsType date name memo) splits_
  ++ [ "ENDTRNS" ].

(** The state of the two emitting loops: the [lines] array and [trnsId]. *)
Definition emit_state : Type := (list string * nat)%type.

Definition regular_step (opts : IIFExportOptions) (st : emit_state)
    (txn : SplitTransaction) : emit_state :=
  let '(lines, trnsId) := st in
  let trnsId := trnsId + 1 in
  (lines ++ regular_block opts trnsId txn, trnsId).

Definition split_step (opts : IIFExportOptions) (st : emit_state)
    (entry : string * list SplitTransaction) : emit_state :=
  let '(lines, trnsId) := st in
  match snd entry with
  | [] => (lines, trnsId)
  | firstSplit :: _ =>
      let trnsId := trnsId + 1 in
      (lines ++ split_block opts trnsId firstSplit (snd entry), trnsId)
  end.

(** The [lines] array at the end of [generateIIF]. *)
Definition generateIIF_lines (transactions : list SplitTransaction)
    (options : IIFExportOptions) : list string :=
  let opts := merge_options DEFAULT_OPTIONS options in
  let '(regular, splitGroups) := groupSplitTransactions transactions in
  let st := fold_left (regular_step opts) regular (IIF_HEADER, 0) in
  let st := fold_left (split_step opts) splitGroups st in
  fst st.

Definition generateIIF (transactions : list SplitTransaction)
    (options : IIFExportOptions) : string :=
  join CRLF (generateIIF_lines transactions options).

(* ------------------------------------------------------------------ *)
(** *** validators.ts, [validateIIF] *)

Record IIFStats : Type := mkIIFStats {
  transactionCount : nat;
  splitCount : nat;
  totalDebit : number;
  totalCredit : number;
}.

Record IIFValidationResult : Type := mkIIFValidationResult {
  valid : bool;
  errors : list string;
  warnings : list string;
  stats : IIFStats;
}.

(** The mutable variables of the line loop. *)
Record IIFState : Type := mkIIFState {
  st_errors : list string;
  st_warnings : list string;
  st_stats : IIFStats;
  inTransaction : bool;
  currentTrnsAmount : number;
  currentSplitsTotal : number;
  currentTrnsId : string;
}.

Definition DQUOTE : string := str1 (ascii_of_nat 34).

(** [parts[i] || d]. *)
Definition part_or (parts : list string) (i : nat) (d : string) : string :=
  sor (parts !! i) d.

(** The loop body once a line is known to be neither blank nor a header:
    the dispatch on [parts[0]]. *)
Definition iif_dispatch (st : IIFState) (i : nat) (parts : list string)
  : IIFState :=
    let type := match parts with h :: _ => h | [] => "" end in
    let lineNo := nat_to_string (i + 1) in
    if String.eqb type "TRNS" then
      let errors :=
        if inTransaction st
        then st_errors st ++
             [ "Line " +:+ lineNo +:+ ": TRNS without ENDTRNS for previous transaction" ]
        else st_errors st in
      let amount := nor (parseFloat (part_or parts 6 "0")) n0 in
      let s := st_stats st in
      let stats :=
        if nge amount n0
        then mkIIFStats (transactionCount s + 1) (splitCount s)
                        (totalDebit s) (nadd (totalCredit s) amount)
        else mkIIFStats (transactionCount s + 1) (splitCount s)
                        (nadd (totalDebit s) (nabs amount)) (totalCredit s) in
      mkIIFState errors (st_warnings st) stats true amount n0 (part_or parts 1 "")
    else if String.eqb type "SPL" then
      let errors :=
        if negb (inTransaction st)
        then st_errors st ++ [ "Line " +:+ lineNo +:+ ": SPL without TRNS" ]
        else st_errors st in
      let s := st_stats st in
      let stats := mkIIFStats (transactionCount s) (splitCount s + 1)
                              (totalDebit s) (totalCredit s) in
      let splAmount := nor (parseFloat (part_or parts 6 "0")) n0 in
      mkIIFState errors (st_warnings st) stats (inTransaction st)
                 (currentTrnsAmount st) (nadd (currentSplitsTotal st) splAmount)
                 (currentTrnsId st)
    else if String.eqb type "ENDTRNS" then
      let errors :=
        if negb (inTransaction st)
        then st_errors st ++ [ "Line " +:+ lineNo +:+ ": ENDTRNS without TRNS" ]
        else st_errors st in
      let errors :=
        if ngt (nabs (nadd (currentTrnsAmount st) (currentSplitsTotal st))) cent
        then errors ++
             [ "Transaction " +:+ currentTrnsId st +:+ ": TRNS ("
               +:+ toFixed2 (currentTrnsAmount st) +:+ ") + SPL ("
               +:+ toFixed2 (currentSplitsTotal st) +:+ ") should equal 0" ]
        else errors in
      mkIIFState errors (st_warnings st) (st_stats st) false
                 (currentTrnsAmount st) (currentSplitsTotal st) (currentTrnsId st)
    else if String.eqb type "ACCNT" then st
    else if negb (String.eqb type "") then
      mkIIFState (st_errors st)
                 (st_warnings st ++
                  [ "Line " +:+ lineNo +:+ ": Unknown row type " +:+ DQUOTE
                    +:+ type +:+ DQUOTE ])
                 (st_stats st) (inTransaction st) (currentTrnsAmount st)
                 (currentSplitsTotal st) (currentTrnsId st)
    else st.

(** One iteration of the line loop, [i] being the index of [raw_line]. *)
Definition iif_step (st : IIFState) (i : nat) (raw_line : string) : IIFState :=
  let line := trim raw_line in
  if negb (struthy line) || startsWith line "!" then st
  else iif_dispatch st i (split_char TAB line).

(** [for (let i = start; i < lines.length; i++) ...] over the remaining
    lines. *)
Fixpoint iif_loop (lines : list string) (i : nat) (st : IIFState) : IIFState :=
  match lines with
  | [] => st
  | l :: rest => iif_loop rest (i + 1) (iif_step st i l)
  end.

Definition validateIIF (content : string) : IIFValidationResult :=
  let lines := split_lines content in
  let hasHeader := existsb (fun l => startsWith l "!TRNS") lines in
  let errors0 := if negb hasHeader then [ "Missing !TRNS header" ] else [] in
  let st0 := mkIIFState errors0 [] (mkIIFStats 0 0 n0 n0) false n0 n0 "" in
  let st := iif_loop lines 0 st0 in
  let errors :=
    if inTransaction st
    then st_errors st ++ [ "File ends without ENDTRNS for last transaction" ]
    else st_errors st in
  let warnings :=
    if Nat.eqb (transactionCount (st_stats st)) 0
    then st_warnings st ++ [ "No transactions found in IIF file" ]
    else st_warnings st in
  mkIIFValidationResult (Nat.eqb (length errors) 0) errors warnings (st_stats st).

(* ------------------------------------------------------------------ *)
(** *** custom-rules.ts: matching and the rule pipeline *)

(** [s.endsWith(p)]. *)
Fixpoint endsWith (s p : string) : bool :=
  String.eqb s p ||
  match s with
  | "" => false
  | String _ s' => endsWith s' p
  end.

Definition matchesCondition (transaction : Transaction)
    (condition : RuleCondition) : bool :=
  match rc_field condition with
  | f_amount =>
      let amount := amount transaction in
      if match minAmount condition with
         | Some m => nlt amount m
         | None => false
         end then false
      else if match maxAmount condition with
              | Some m => ngt amount m
              | None => false
              end then false
      else true
  | field =>
      let fieldValue :=
        toLowerCase (match field with
                     | f_category => category transaction
                     | _ => description transaction
                     end) in
      let matchValue := toLowerCase (rc_value condition) in
      match matchType condition with
      | m_contains => includes fieldValue matchValue
      | m_startsWith => startsWith fieldValue matchValue
      | m_endsWith => endsWith fieldValue matchValue
      | m_exact => String.eqb fieldValue matchValue
      | m_regex =>
          if regex_valid (rc_value condition)
          then regex_test (rc_value condition) fieldValue
          else false
      end
  end.

Definition matchesRule (transaction : Transaction) (rule : CustomRule) : bool :=
  if negb (enabled rule) || Nat.eqb (length (conditions rule)) 0 then false
  else
    match conditionLogic rule with
    | l_AND => forallb (matchesCondition transaction) (conditions rule)
    | l_OR => existsb (matchesCondition transaction) (conditions rule)
    end.

(** [applyRule] reads the clock ([Date.now()]) only in the split branch. *)
Definition reads_clock (rule : CustomRule) : bool :=
  match ra_type (action rule), splits (action rule) with
  | split, Some allocs => Nat.ltb 0 (length allocs)
  | _, _ => false
  end.

(** The state of the loops of [applyRules]: an array of fragments and the
    number of clock readings made so far; [clock k] is the [k]-th reading. *)
Definition rules_state : Type := (list SplitTransaction * nat)%type.

(** The body of [for (const txn of results)]. *)
Definition rule_step (clock : nat -> Z) (rule : CustomRule)
    (st : rules_state) (txn : SplitTransaction) : rules_state :=
  let '(newResults, tick) := st in
  if matchesRule (base txn) rule
  then (newResults ++ applyRule (clock tick) txn rule,
        if reads_clock rule then S tick else tick)
  else (newResults ++ [txn], tick).

(** The body of [for (const rule of rules)]. *)
Definition rules_step (clock : nat -> Z) (st : rules_state) (rule : CustomRule)
  : rules_state :=
  let '(results, tick) := st in
  fold_left (rule_step clock rule) results ([], tick).

(** [applyRules]; [stored] is what [loadRules()] returns. *)
Definition applyRules (stored : list CustomRule) (clock : nat -> Z) (tick : nat)
    (transaction : Transaction) : rules_state :=
  let rules :=
    array_sort CustomRule (fun a b => nsub (priority a) (priority b))
               (List.filter enabled stored) in
  fold_left (rules_step clock) rules
            ([ unsplit (plain transaction) transaction ], tick).

Definition applyRulesToAll (stored : list CustomRule) (clock : nat -> Z)
    (tick : nat) (transactions : list Transaction) : rules_state :=
  fold_left
    (fun (st : rules_state) txn =>
       let '(results, tick) := st in
       let '(r, tick') := applyRules stored clock tick txn in
       (results ++ r, tick'))
    transactions ([], tick).

(** [createCategorizationRule] and [createSplitRule]: the rule without its
    id and time stamps. *)
Record RuleDraft : Type := mkRuleDraft {
  d_name : string;
  d_enabled : bool;
  d_priority : number;
  d_conditions : list RuleCondition;
  d_conditionLogic : ConditionLogic;
  d_action : RuleAction;
}.

Definition createCategorizationRule (name pattern category : string)
    (matchType : RuleMatchType) : RuleDraft :=
  mkRuleDraft name true (Num 50)
    [ mkRuleCondition f_description matchType pattern None None ] l_AND
    (mkRuleAction categorize (Some category) None None).

Definition createSplitRule (name pattern : string)
    (splits : list SplitAllocation) (matchType : RuleMatchType) : RuleDraft :=
  mkRuleDraft name true (Num 10)
    [ mkRuleCondition f_description matchType pattern None None ] l_AND
    (mkRuleAction split None None (Some splits)).

(* ------------------------------------------------------------------ *)
(** *** validators.ts: whole-file check and the rule validators *)

Definition validateCSVParseable (rows : list (gmap string string))
    (filename : string) : list ValidationError :=
  match rows with
  | [] => [ mkValidationError filename None None "CSV file is empty" None None ]
  | row0 :: _ =>
      if Nat.eqb (size row0) 0
      then [ mkValidationError filename None None "CSV has no columns" None None ]
      else []
  end.

Record ValidationResult : Type := mkValidationResult {
  vr_valid : bool;
  vr_errors : list ValidationError;
  vr_warnings : list string;
}.

Record ValidationOptions : Type := mkValidationOptions {
  validateBalance : option bool;
  requiredColumns : option (list string);
}.

(** [headers.find((_, i) => names.includes(lowerHeaders[i]))]. *)
Definition find_header (headers names : list string) : option string :=
  List.find (fun h => array_includes names (toLowerCase h)) headers.

Definition validateParsedCSV (rows : list (gmap string string))
    (headers : list string) (filename : string) (options : ValidationOptions)
  : ValidationResult :=
  let parseErrors := validateCSVParseable rows filename in
  let errors := parseErrors in
  if Nat.ltb 0 (length parseErrors) then mkValidationResult false errors []
  else
    let errors :=
      match requiredColumns options with
      | Some required => errors ++ validateRequiredColumns headers filename required
      | None => errors
      end in
    let '(errors, warnings) :=
      match validateBalance options with
      | Some false => (errors, [])
      | requested =>
          let depositCol := find_header headers ["deposit"; "deposits"; "credit"] in
          let withdrawalCol :=
            find_header headers ["withdrawal"; "withdrawals"; "debit"] in
          let balanceCol := find_header headers ["balance"; "running balance"] in
          let dateCol :=
            find_header headers ["date"; "trans date"; "transaction date"] in
          if otruthy depositCol && otruthy withdrawalCol
             && otruthy balanceCol && otruthy dateCol
          then (errors ++ validateBalanceConsistency rows filename
                            (mkBalanceColumns (opt_str depositCol)
                               (opt_str withdrawalCol) (opt_str balanceCol)
                               (opt_str dateCol)),
                [])
          else
            match requested with
            | Some true =>
                (errors,
                 [ "Could not validate balances: missing required columns" ])
            | _ => (errors, [])
            end
      end in
    mkValidationResult (Nat.eqb (length errors) 0) errors warnings.

Record RuleValidationResult : Type := mkRuleValidationResult {
  rv_valid : bool;
  rv_errors : list string;
  rv_warnings : list string;
}.

(** [s === undefined] for an optional number. *)
Definition undefined_num (o : option number) : bool :=
  match o with None => true | Some _ => false end.

(** The body of [splits.forEach((split, i) => ...)] of
    [validateSplitAllocations]; the state is the two message arrays. *)
Definition allocation_step (total : nat)
    (st : list string * list string) (i : nat) (split_ : SplitAllocation)
  : list string * list string :=
  let '(errors, warnings) := st in
  let label := "Split " +:+ nat_to_string (i + 1) in
  let errors :=
    if negb (struthy (sa_category split_))
       || String.eqb (trim (sa_category split_)) ""
    then errors ++ [ label +:+ ": Category is required" ]
    else errors in
  let warnings :=
    if undefined_num (percentage split_) && undefined_num (fixedAmount split_)
       && Nat.ltb i (total - 1)
    then warnings ++
         [ label +:+ ": No percentage or fixed amount - will get remainder" ]
    else warnings in
  let errors :=
    match percentage split_ with
    | Some p =>
        if nlt p n0 || ngt p n100
        then errors ++ [ label +:+ ": Percentage must be between 0 and 100" ]
        else errors
    | None => errors
    end in
  let errors :=
    match fixedAmount split_ with
    | Some f =>
        if nlt f n0
        then errors ++ [ label +:+ ": Fixed amount cannot be negative" ]
        else errors
    | None => errors
    end in
  (errors, warnings).

Fixpoint allocation_loop (total : nat) (splits_ : list SplitAllocation)
    (i : nat) (st : list string * list string) : list string * list string :=
  match splits_ with
  | [] => st
  | split_ :: rest =>
      allocation_loop total rest (i + 1) (allocation_step total st i split_)
  end.

(** [s.percentage || 0] for an optional number. *)
Definition num_or_zero (o : option number) : number :=
  match o with Some p => nor p n0 | None => n0 end.

(** A string that is missing, empty or blank: [!s || s.trim() === '']. *)
Definition blank (s : string) : bool :=
  negb (struthy s) || String.eqb (trim s) "".

Definition validateSplitAllocations (splits_ : list SplitAllocation)
  : RuleValidationResult :=
  if Nat.ltb (length splits_) 2
  then mkRuleValidationResult false [ "At least 2 splits are required" ] []
  else
    let '(errors, warnings) :=
      allocation_loop (length splits_) splits_ 0 ([], []) in
    let totalPercentage :=
      fold_left (fun sum s => nadd sum (num_or_zero (percentage s)))
        (List.filter (fun s => negb (undefined_num (percentage s))) splits_)
        n0 in
    let '(errors, warnings) :=
      if ngt totalPercentage n100
      then (errors ++
            [ "Split percentages sum to " +:+ number_to_string totalPercentage
              +:+ "% (must be ≤100%)" ],
            warnings)
      else if nlt totalPercentage n100
              && forallb (fun s => negb (undefined_num (percentage s))) splits_
      then (errors,
            warnings ++
            [ "Split percentages sum to " +:+ number_to_string totalPercentage
              +:+ "% - remainder will be uncategorized" ])
      else (errors, warnings) in
    mkRuleValidationResult (Nat.eqb (length errors) 0) errors warnings.

Definition validateSplitTransactions (splits_ : list SplitTransaction)
    (expectedTotal : number) : RuleValidationResult :=
  let actualTotal :=
    fold_left (fun sum s => nadd sum (amount (base s))) splits_ n0 in
  let tolerance := cent in
  let errors :=
    if ngt (nabs (nsub actualTotal expectedTotal)) tolerance
    then [ "Split amounts ($" +:+ toFixed2 actualTotal
           +:+ ") don't match original ($" +:+ toFixed2 expectedTotal +:+ ")" ]
    else [] in
  let categories := map (fun s => category (base s)) splits_ in
  let uniqueCategories : gset string := list_to_set categories in
  let warnings :=
    if Nat.ltb (size uniqueCategories) (length categories)
    then [ "Multiple splits use the same category - consider consolidating" ]
    else [] in
  mkRuleValidationResult (Nat.eqb (length errors) 0) errors warnings.

(** The argument of [validateCustomRule]: a rule whose name, conditions and
    action may be missing.  The conditions are typed, so that their field and
    match type are present. *)
Record PartialRule : Type := mkPartialRule {
  p_name : option string;
  p_conditions : option (list RuleCondition);
  p_action : option RuleAction;
}.

(** The body of [rule.conditions.forEach((cond, i) => ...)]. *)
Definition condition_step (errors : list string) (i : nat)
    (cond : RuleCondition) : list string :=
  let label := "Condition " +:+ nat_to_string (i + 1) in
  let errors :=
    match rc_field cond with
    | f_amount =>
        if undefined_num (minAmount cond) && undefined_num (maxAmount cond)
        then errors ++ [ label +:+ ": Amount range (min or max) is required" ]
        else errors
    | _ =>
        if blank (rc_value cond)
        then errors ++
             [ label +:+ ": Value is required for non-amount conditions" ]
        else errors
    end in
  match matchType cond with
  | m_regex =>
      if regex_valid (rc_value cond) then errors
      else errors ++ [ label +:+ ": Invalid regex pattern" ]
  | _ => errors
  end.

Fixpoint condition_loop (conds : list RuleCondition) (i : nat)
    (errors : list string) : list string :=
  match conds with
  | [] => errors
  | cond :: rest => condition_loop rest (i + 1) (condition_step errors i cond)
  end.

Definition validateCustomRule (rule : PartialRule) : RuleValidationResult :=
  let errors :=
    match p_name rule with
    | Some n => if blank n then [ "Rule name is required" ] else []
    | None => [ "Rule name is required" ]
    end in
  let errors :=
    match p_conditions rule with
    | Some (_ :: _) => errors
    | _ => errors ++ [ "At least one condition is required" ]
    end in
  let errors :=
    match p_action rule with
    | Some _ => errors
    | None => errors ++ [ "Action is required" ]
    end in
  let errors :=
    match p_conditions rule with
    | Some conds => condition_loop conds 0 errors
    | None => errors
    end in
  let '(errors, warnings) :=
    match p_action rule with
    | Some a =>
        match ra_type a with
        | categorize =>
            (match ra_category a with
             | Some c => if blank c
                         then errors ++ [ "Categorize action requires a category" ]
                         else errors
             | None => errors ++ [ "Categorize action requires a category" ]
             end, [])
        | rename =>
            (match newName a with
             | Some n => if blank n
                         then errors ++ [ "Rename action requires a new name" ]
                         else errors
             | None => errors ++ [ "Rename action requires a new name" ]
             end, [])
        | split =>
            match splits a with
            | Some allocs =>
                if Nat.ltb (length allocs) 2
                then (errors ++ [ "Split action requires at least 2 splits" ], [])
                else
                  let splitValidation := validateSplitAllocations allocs in
                  (errors ++ rv_errors splitValidation,
                   rv_warnings splitValidation)
            | None => (errors ++ [ "Split action requires at least 2 splits" ], [])
            end
        end
    | None => (errors, [])
    end in
  mkRuleValidationResult (Nat.eqb (length errors) 0) errors warnings.

(* ------------------------------------------------------------------ *)
(** *** qbo-parser.ts, iif-exporter.ts and csv-processor.ts: remaining
        entry points *)

Definition isQBOFormat (content : string) : bool :=
  includes content "OFXHEADER"
  || includes content "<OFX>"
  || includes content "<STMTTRN>"
  || includes content "BANKMSGSRSV1"
  || includes content "CREDITCARDMSGSRSV1".

(** [accounts.add(x)] on a [Set<string>] kept in insertion order. *)
Definition set_add (s : list string) (x : string) : list string :=
  if array_includes s x then s else s ++ [x].

(** The [accounts] set of [generateIIFWithAccounts] after the [forEach]. *)
Definition collect_accounts (opts : IIFExportOptions)
    (transactions : list Transaction) : list string :=
  fold_left
    (fun accounts txn =>
       set_add accounts (getQBAccount (category txn) (type txn) opts))
    transactions
    (set_add [] (sor (bankAccountName opts) "Checking")).

Definition accntType_of (account : string) : string :=
  if includes account "Income" || includes account "Payroll" then "INC"
  else if includes account "Transfer" || includes account "Cash" then "OASSET"
  else "EXP".

Definition generateIIFWithAccounts_lines (transactions : list Transaction)
    (options : IIFExportOptions) : list string :=
  let opts := merge_options DEFAULT_OPTIONS options in
  let accounts := collect_accounts opts transactions in
  [ join (str1 TAB) ["!ACCNT"; "NAME"; "ACCNTTYPE"; "DESC"];
    join (str1 TAB) ["ACCNT"; opt_str (bankAccountName opts); "BANK";
                     "Imported Bank Account"] ]
  ++ map (fun account =>
            join (str1 TAB) ["ACCNT"; account; accntType_of account;
                             "Imported Account"])
         (List.filter
            (fun account =>
               negb (String.eqb account (opt_str (bankAccountName opts))))
            accounts)
  ++ [ ""; generateIIF (map plain transactions) options ].

Definition generateIIFWithAccounts (transactions : list Transaction)
    (options : IIFExportOptions) : string :=
  join CRLF (generateIIFWithAccounts_lines transactions options).

(* ================================================================== *)
(** ** Notions used to state the properties *)
(* ================================================================== *)

(** Some pattern of the rule matches the description. *)
Definition rule_matches (r : CategoryRule) (d : string) : Prop :=
  exists p, In p (patterns r) /\ regex_test p d = true.

(** [c] is the label of the first rule of [rules], in order, that matches. *)
Definition first_match (rules : list CategoryRule) (d c : string) : Prop :=
  exists i r,
    rules !! i = Some r /\ rule_matches r d /\ cr_category r = c
    /\ forall j r', j < i -> rules !! j = Some r' -> ~ rule_matches r' d.

Definition no_match (rules : list CategoryRule) (d : string) : Prop :=
  forall r, In r rules -> ~ rule_matches r d.

Definition uncategorized (t : Transaction) : Prop :=
  category t = "" \/ category t = "Uncategorized".

(** A label is kept by the short-circuit test. *)
Definition keeps (c : string) : bool :=
  struthy c && negb (String.eqb c "Uncategorized").

(** An action that cannot be carried out: a categorize action without
    category, a rename action without new name, a split action without
    allocations. *)
Definition malformed (a : RuleAction) : Prop :=
  match ra_type a with
  | categorize => ra_category a = None \/ ra_category a = Some ""
  | rename => newName a = None \/ newName a = Some ""
  | split => splits a = None \/ splits a = Some []
  end.

(** The numeric columns of row [i], as [parseNumeric] reads them. *)
Definition amount_in (r : gmap string string) (col : string) : Q :=
  match parseNumeric (row_get r col) with
  | Num q => q
  | NaN => 0
  end.

Definition row_at (rows : list (gmap string string)) (i : nat)
  : gmap string string := nth i rows ∅.

Definition deposit_at rows (columns : BalanceColumns) (i : nat) : Q :=
  amount_in (row_at rows i) (col_deposit columns).
Definition withdrawal_at rows (columns : BalanceColumns) (i : nat) : Q :=
  amount_in (row_at rows i) (col_withdrawal columns).
Definition balance_at rows (columns : BalanceColumns) (i : nat) : Q :=
  amount_in (row_at rows i) (col_balance columns).

(** The balance row [i] should show, from the older row [i+1]. *)
Definition expected_at rows (columns : BalanceColumns) (i : nat) : Q :=
  (balance_at rows columns (i + 1) - withdrawal_at rows columns i
   + deposit_at rows columns i)%Q.

(** [|balance[i] - (balance[i+1] - withdrawal[i] + deposit[i])| > 0.01]. *)
Definition violates rows (columns : BalanceColumns) (i : nat) : bool :=
  Qlt_bool (1 # 100) (Qabs (balance_at rows columns i - expected_at rows columns i)).

(** The error reported for a violating row [i]. *)
Definition mismatch_error rows (filename : string) (columns : BalanceColumns)
    (i : nat) : ValidationError :=
  let expected := Num (expected_at rows columns i) in
  let actual := Num (balance_at rows columns i) in
  mkValidationError filename (Some (i + 2))
    (Some (sor (row_at rows i !! col_date columns) "unknown"))
    ("Balance mismatch! Expected $" +:+ toFixed2 expected
     +:+ ", got $" +:+ toFixed2 actual)
    (Some expected) (Some actual).

(** The summary entry for [k] violations that are not listed. *)
Definition overflow_error (filename : string) (k : nat) : ValidationError :=
  mkValidationError filename None None
    ("... and " +:+ nat_to_string k +:+ " more balance errors") None None.

(** The violating rows in the order they are met: from the second-oldest
    row ([length rows - 2]) up to the newest (0). *)
Definition violations rows (columns : BalanceColumns) : list nat :=
  List.filter (violates rows columns) (rev (seq 0 (length rows - 1))).

(** What the validator reports for at least two rows. *)
Definition balance_report rows (filename : string) (columns : BalanceColumns)
  : list ValidationError :=
  let v := violations rows columns in
  map (mismatch_error rows filename columns) (firstn maxErrors v)
  ++ (if Nat.ltb maxErrors (length v)
      then [ overflow_error filename (length v - maxErrors) ]
      else []).

(** The validator finds column [col]: some header, lower-cased, is one of
    the spellings [getColumnVariations] lists for it. *)
Definition has_column (headers : list string) (col : string) : Prop :=
  exists h v, In h headers /\ In v (getColumnVariations col) /\ toLowerCase h = v.

(** The required columns the validator does not find, in the order required. *)
Definition missing_columns (headers required : list string) : list string :=
  List.filter
    (fun col => negb (existsb (fun v => array_includes (map toLowerCase headers) v)
                              (getColumnVariations col)))
    required.

(** The canonical field names of the parser's table. *)
Definition canonical_columns : list string :=
  ["date"; "description"; "amount"; "withdrawal"; "deposit"; "balance"; "category"].

(** The finite value of a number (0 for NaN). *)
Definition value_of (n : number) : Q :=
  match n with Num q => q | NaN => 0%Q end.

Definition Qsum (l : list Q) : Q := fold_right Qplus 0%Q l.

(** The parsed transaction blocks of a markup file, in file order and after
    the date-descending sort. *)
Definition qbo_parsed (content filename : string) : list ParsedTxn :=
  map (parseQBO_block (inferAccountType filename content))
      (extractBlocks content "STMTTRN").

Definition qbo_sorted (content filename : string) : list ParsedTxn :=
  array_sort ParsedTxn (by_date_desc (fun p => date (txn p)))
             (qbo_parsed content filename).

(** The extracted ending ledger balance. *)
Definition qbo_endBalance (content : string) : number :=
  let ledgerBal := extractTag content "BALAMT" in
  if struthy ledgerBal then parseFloat ledgerBal else n0.

(** The running value before transaction [i] of [ps]: the start value less
    the signed amounts of the [i] transactions ahead of it. *)
Definition running_balance (start : number) (ps : list ParsedTxn) (i : nat)
  : number :=
  fold_left nsub (map signed (firstn i ps)) start.

(** The numbers of an allocation are finite / finite and non-negative. *)
Definition finite_opt (o : option number) : Prop :=
  match o with Some x => exists q, x = Num q | None => True end.
Definition nonneg_opt (o : option number) : Prop :=
  match o with Some x => exists q, x = Num q /\ (0 <= q)%Q | None => True end.
Definition finite_alloc (a : SplitAllocation) : Prop :=
  finite_opt (percentage a) /\ finite_opt (fixedAmount a).
Definition nonneg_alloc (a : SplitAllocation) : Prop :=
  nonneg_opt (percentage a) /\ nonneg_opt (fixedAmount a).

(** The amounts of a list of fragments and their sum
    ([splits.reduce((sum, s) => sum + s.amount, 0)]). *)
Definition amounts (fs : list SplitTransaction) : list Q :=
  map (fun f => value_of (amount (base f))) fs.
Definition amounts_sum (fs : list SplitTransaction) : number :=
  fold_left (fun sum s => nadd sum (amount (base s))) fs n0.

(** The amounts of [fs] are the whole numbers [zs], none below zero. *)
Definition whole_amounts (fs : list SplitTransaction) (zs : list Z) : Prop :=
  Forall2 (fun f z => is_num (amount (base f)) (inject_Z z) /\ (0 <= z)%Z)
          fs zs.

(** The running remainder after each allocation of the walk. *)
Fixpoint remainders (transaction : SplitTransaction)
    (allocs : list SplitAllocation) (remainingAmount : number) : list number :=
  match allocs with
  | [] => []
  | split_ :: rest =>
      let r := nsub remainingAmount
                    (splitAmount_of transaction split_ remainingAmount) in
      r :: remainders transaction rest r
  end.

(** The remainder left when the walk over [allocs] ends. *)
Definition final_remainder (transaction : SplitTransaction)
    (allocs : list SplitAllocation) : number :=
  List.last (remainders transaction allocs (amount (base transaction)))
            (amount (base transaction)).

(** No allocation takes more than what its predecessors left. *)
Definition never_overdrawn (transaction : SplitTransaction)
    (allocs : list SplitAllocation) : Prop :=
  Forall (fun r => (0 <= value_of r)%Q)
         (remainders transaction allocs (amount (base transaction))).

(** A fragment of a split of [transaction] under parent id [parentId]. *)
Definition fragment_of (transaction : SplitTransaction) (parentId : string)
    (f : SplitTransaction) : Prop :=
  isSplit f = Some true
  /\ splitParentId f = Some parentId
  /\ originalAmount f = Some (amount (base transaction))
  /\ type (base f) = type (base transaction)
  /\ exists a, amount (base f) = Num a.

(** A transaction the exporter puts into a split group. *)
Definition is_grouped (txn : SplitTransaction) : bool :=
  isSplitTransaction txn && otruthy (splitParentId txn).

Definition parent_of (txn : SplitTransaction) : string :=
  sor (splitParentId txn) "".

(** The distinct elements of a list, each at its first occurrence. *)
Fixpoint first_occurrences (l : list string) : list string :=
  match l with
  | [] => []
  | k :: rest =>
      k :: List.filter (fun x => negb (String.eqb x k)) (first_occurrences rest)
  end.

(** The non-split transactions, in input order. *)
Definition regular_of (transactions : list SplitTransaction)
  : list SplitTransaction :=
  List.filter (fun t => negb (is_grouped t)) transactions.

(** The fragments with parent id [k], in input order. *)
Definition members (transactions : list SplitTransaction) (k : string)
  : list SplitTransaction :=
  List.filter (fun t => is_grouped t && String.eqb (parent_of t) k) transactions.

(** The split groups: one per parent id, in the order in which the ids
    first occur in the input. *)
Definition groups_of (transactions : list SplitTransaction) : SplitGroups :=
  map (fun k => (k, members transactions k))
      (first_occurrences (map parent_of (List.filter is_grouped transactions))).

(** The block of a split group carrying id [trnsId]. *)
Definition group_block (opts : IIFExportOptions) (trnsId : nat)
    (group : list SplitTransaction) : list string :=
  match group with
  | firstSplit :: _ => split_block opts trnsId firstSplit group
  | [] => []
  end.

(** The lines after the header: the block of the [i]-th non-split
    transaction carries id [i + 1]; the block of the [j]-th split group
    carries id [length regular + j + 1]. *)
Definition blocks_of (opts : IIFExportOptions)
    (transactions : list SplitTransaction) : list string :=
  let regular := regular_of transactions in
  concat (imap (fun i t => regular_block opts (i + 1) t) regular)
  ++ concat (imap (fun j g => group_block opts (length regular + j + 1) (snd g))
                  (groups_of transactions)).

(** A block of the export for transaction [t]: a TRNS row with id [k], the
    date and the name of [t]; then [n] SPL rows with id [k]; then ENDTRNS. *)
Definition block_of_txn (k n : nat) (t : SplitTransaction) (b : list string)
  : Prop :=
  exists trns spls,
    b = trns :: spls ++ [ "ENDTRNS" ]
    /\ (exists ty bank amt memo,
          trns = join (str1 TAB)
                   [ "TRNS"; nat_to_string k; ty; formatIIFDate (date (base t));
                     bank; escapeIIF (substring_js 0 50 (description (base t)));
                     amt; ""; memo; "N"; "N" ])
    /\ length spls = n
    /\ Forall (fun line =>
                 exists rest,
                   line = join (str1 TAB) ("SPL" :: nat_to_string k :: rest))
              spls.

(** A character that is neither a tab nor a line feed. *)
Definition plain_char (a : ascii) : bool := not_char TAB a && not_char LF a.
Definition plain_text (s : string) : Prop := all_chars plain_char s = true.

(** The fields of the TRNS and SPL lines of a non-split expense of 42.50,
    under the default options. *)
Definition trns_fields_42 (t : Transaction) : list string :=
  [ "TRNS"; "1"; "CHECK"; formatIIFDate (date t); "Checking";
    escapeIIF (substring_js 0 50 (description t)); "-42.50"; "";
    escapeIIF (description t); "N"; "N" ].

Definition spl_fields_42 (t : Transaction) : list string :=
  [ "SPL"; "1"; "CHECK"; formatIIFDate (date t);
    getQBAccount (category t) expense DEFAULT_OPTIONS;
    escapeIIF (substring_js 0 50 (description t)); "42.50"; "";
    escapeIIF (description t); "N"; ""; "" ].

(** The spelling under which [findColumn] compares a header. *)
Definition norm_header (h : string) : string := trim (toLowerCase h).

(** The checks [validateSplitAllocations] makes on one allocation. *)
Definition allocation_ok (a : SplitAllocation) : bool :=
  negb (blank (sa_category a))
  && match percentage a with
     | Some p => negb (nlt p n0 || ngt p n100)
     | None => true
     end
  && match fixedAmount a with
     | Some f => negb (nlt f n0)
     | None => true
     end.

(** The percentage of [a], if there is one, is a whole number. *)
Definition whole_percentage (a : SplitAllocation) : Prop :=
  match percentage a with
  | Some p => exists z : Z, is_num p (inject_Z z)
  | None => True
  end.

(** [totalPercentage] of [validateSplitAllocations]. *)
Definition totalPercentage (allocs : list SplitAllocation) : number :=
  fold_left (fun sum s => nadd sum (num_or_zero (percentage s)))
    (List.filter (fun s => negb (undefined_num (percentage s))) allocs) n0.

(** Allocations by finite percentages only, except that the last one may
    take the rest. *)
Definition percent_then_rest (allocs : list SplitAllocation) : Prop :=
  forall i a, allocs !! i = Some a ->
    fixedAmount a = None
    /\ finite_opt (percentage a)
    /\ (percentage a = None -> i = length allocs - 1).

(** The sum of the percentages of a list of allocations. *)
Definition percent_sum (allocs : list SplitAllocation) : Q :=
  Qsum (map (fun a => match percentage a with
                      | Some p => value_of p
                      | None => 0%Q
                      end) allocs).

(** A fragment with a finite amount that is not negative. *)
Definition nonneg_amount (f : SplitTransaction) : Prop :=
  exists a, amount (base f) = Num a /\ (0 <= a)%Q.

(** A complete rule, as [validateCustomRule] receives it. *)
Definition as_partial (r : CustomRule) : PartialRule :=
  mkPartialRule (Some (rule_name r)) (Some (conditions r)) (Some (action r)).

(** A fragment that stems from transaction [t]: the rule engine changes
    neither the date, nor the type, nor the balance, nor the account. *)
Definition same_origin (t : Transaction) (f : SplitTransaction) : Prop :=
  date (base f) = date t /\ type (base f) = type t
  /\ balance (base f) = balance t /\ account (base f) = account t.

(** The transaction as [applyRules] first tags it:
    [{ ...transaction, isSplit: false }]. *)
Definition tagged (t : Transaction) : SplitTransaction :=
  unsplit (plain t) t.

(** Export options whose account names hold no tab and no line feed. *)
Definition plain_opt (o : option string) : Prop :=
  match o with Some s => plain_text s | None => True end.

Definition plain_options (o : IIFExportOptions) : Prop :=
  plain_opt (bankAccountName o)
  /\ plain_opt (defaultExpenseAccount o)
  /\ plain_opt (defaultIncomeAccount o)
  /\ match categoryMapping o with
     | Some m => forall k v, m !! k = Some v -> plain_text v
     | None => True
     end.

(** A well-formed data row of the export: [ENDTRNS], or a tab-separated row
    that splits back into the fields it was joined from, none of which holds
    a tab or a line feed: eleven fields for a TRNS row, twelve for an SPL
    row. *)
Definition data_row (line : string) : Prop :=
  line = "ENDTRNS"
  \/ exists fields,
       line = join (str1 TAB) fields
       /\ split_char TAB line = fields
       /\ Forall plain_text fields
       /\ ((nth 0 fields "" = "TRNS" /\ length fields = 11)
           \/ (nth 0 fields "" = "SPL" /\ length fields = 12)).

(** The row type [validateIIF] reads on a line: none for a blank line and
    for a header line (one that starts with an exclamation mark). *)
Definition row_type (raw_line : string) : option string :=
  let line := trim raw_line in
  if negb (struthy line) || startsWith line "!" then None
  else Some (match split_char TAB line with h :: _ => h | [] => "" end).

Definition is_row (ty : string) (raw_line : string) : bool :=
  match row_type raw_line with
  | Some t => String.eqb t ty
  | None => false
  end.

Definition count_rows (ty : string) (lines : list string) : nat :=
  length (List.filter (is_row ty) lines).

(** 1 inside a transaction block, 0 outside. *)
Definition depth (st : IIFState) : nat := if inTransaction st then 1 else 0.

(** The value of the numeral [toFixed2] prints for [q]. *)
Definition fixed2_value (q : Q) : Q :=
  if Qlt_bool q 0
  then (- (inject_Z (Qfloor (- q * 100 + (1 # 2))) / 100))%Q
  else (inject_Z (Qfloor (q * 100 + (1 # 2))) / 100)%Q.

(** [parseFloat] reads the numeral printed for [q] as its value. *)
Definition reads_numeral (q : Q) : Prop :=
  is_num (parseFloat (toFixed2 (Num q))) (fixed2_value q).

(** The amount of [t] is finite and [parseFloat] reads back the two
    numerals the exporter prints for it. *)
Definition reads_back (t : Transaction) : Prop :=
  exists q, amount t = Num q /\ reads_numeral q /\ reads_numeral (- q).

(** The category of [t] is a key the mappings hold themselves, if at all. *)
Definition own_category (t : Transaction) : Prop :=
  array_includes OBJECT_PROTOTYPE_KEYS (category t) = false.

(** A tag name: no opening angle bracket and no slash. *)
Definition tag_name (tag : string) : Prop :=
  all_chars (fun c => negb (Ascii.eqb c "<") && negb (Ascii.eqb c "/")) tag = true.

(** A block as [extractBlocks] returns it: the text between an opening tag
    and the closing tag that follows it, free of any closing tag. *)
Definition block_of (content tag block : string) : Prop :=
  (exists before after,
      content = before +:+ ("<" +:+ tag +:+ ">") +:+ block
                +:+ ("</" +:+ tag +:+ ">") +:+ after)
  /\ includes block ("</" +:+ tag +:+ ">") = false.

(** A freshly built rule, as [validateCustomRule] receives it. *)
Definition draft_partial (d : RuleDraft) : PartialRule :=
  mkPartialRule (Some (d_name d)) (Some (d_conditions d)) (Some (d_action d)).

(** The account names an IIF text declares: the second field of each line
    whose first field is [ACCNT]. *)
Definition accnt_name (line : string) : option string :=
  match split_char TAB line with
  | ty :: name :: _ => if String.eqb ty "ACCNT" then Some name else None
  | _ => None
  end.

Definition accnt_names (lines : list string) : list string :=
  omap accnt_name lines.

(** An amount in whole cents. *)
Definition cent_valued (q : Q) : Prop := exists z : Z, (q == z # 100)%Q.

(** A fragment of the split group [k] of a transaction of type [ty]: its
    amount is in whole cents and [parseFloat] reads back the numerals the
    exporter prints for it. *)
Definition group_fragment (k : string) (ty : TxType) (f : SplitTransaction)
  : Prop :=
  isSplit f = Some true /\ splitParentId f = Some k /\ type (base f) = ty
  /\ reads_back (base f)
  /\ exists a, amount (base f) = Num a /\ cent_valued a.

(* ------------------------------------------------------------------ *)
(** *** Sample data *)

Definition sample_txn (d desc : string) (a : Q) (ty : TxType) (cat : string)
  : Transaction :=
  mkTransaction d desc (Num a) ty cat n0 "Checking".

Definition sample_rule (a : RuleAction) : CustomRule :=
  mkCustomRule "rule_1" "sample" true (Num 10) [] l_AND a "" "".

Definition pct (c : string) (p : Q) : SplitAllocation :=
  mkSplitAllocation c (Some (Num p)) None None.
Definition fixed (c : string) (f : Q) : SplitAllocation :=
  mkSplitAllocation c None (Some (Num f)) None.
Definition the_rest (c : string) : SplitAllocation :=
  mkSplitAllocation c None None None.

Definition split_action (allocs : list SplitAllocation) : RuleAction :=
  mkRuleAction split None None (Some allocs).

(** An expense of 0.50 split in four quarters. *)
Definition half_dollar : SplitTransaction :=
  plain (sample_txn "2024-03-15" "PARKING METER" (1 # 2) expense "Uncategorized").
Definition quarters : list SplitAllocation :=
  [ pct "A" 25; pct "B" 25; pct "C" 25; pct "D" 25 ].

(** An expense of 100 split as 80 fixed, 50 percent, and the rest. *)
Definition hundred : SplitTransaction :=
  plain (sample_txn "2024-03-15" "WAREHOUSE CLUB" 100 expense "Uncategorized").
Definition overdrawn : list SplitAllocation :=
  [ fixed "Groceries" 80; pct "Household" 50; the_rest "Other" ].

(** The same expense split as 60 percent, 25 fixed, and the rest. *)
Definition balanced : list SplitAllocation :=
  [ pct "Groceries" 60; fixed "Household" 25; the_rest "Other" ].

(** A non-split expense of 42.50. *)
Definition coffee : SplitTransaction :=
  plain (sample_txn "2024-03-15" "STARBUCKS STORE #123" (85 # 2) expense
                    "Restaurants & Dining").

(** A fragment of a split, as [applyRule] tags it. *)
Definition fragment_sample : SplitTransaction :=
  mkSplitTransaction
    (sample_txn "2024-03-14" "WAREHOUSE CLUB" 60 expense "Groceries")
    (Some true) (Some "split_1710400000000") (Some 0) (Some (Num 100))
    (Some "Split 1 of 2").

(** Two rows, newest first: 100 before, a withdrawal of 10, 90 after; and
    the same with a wrong newest balance. *)
Definition sample_columns : BalanceColumns :=
  mkBalanceColumns "Deposit" "Withdrawal" "Balance" "Date".
Definition sample_row (d w dep bal : string) : gmap string string :=
  <["Date" := d]> (<["Withdrawal" := w]> (<["Deposit" := dep]>
    (<["Balance" := bal]> ∅))).
Definition consistent_rows : list (gmap string string) :=
  [ sample_row "2024-03-16" "10.00" "" "$90.00";
    sample_row "2024-03-15" "" "" "$100.00" ].
(** A statement in markup format with two transactions. *)
Definition ofx_sample : string :=
  "<OFX><BANKID>123<ACCTID>000123456<LEDGERBAL><BALAMT>1000.00</LEDGERBAL>"
  +:+ "<STMTTRN><TRNTYPE>DEBIT<DTPOSTED>20240315120000[-5:EST]"
  +:+ "<TRNAMT>-42.50<NAME>COFFEE</STMTTRN>"
  +:+ "<STMTTRN><TRNTYPE>CREDIT<DTPOSTED>20240316<TRNAMT>100.00"
  +:+ "<NAME>PAYROLL</STMTTRN></OFX>".

(** A rule that labels coffee shops, and a rule that splits warehouse
    purchases. *)
Definition contains_cond (pattern : string) : RuleCondition :=
  mkRuleCondition f_description m_contains pattern None None.

Definition categorize_rule : CustomRule :=
  mkCustomRule "rule_2" "Coffee" true (Num 50) [ contains_cond "starbucks" ]
    l_AND (mkRuleAction categorize (Some "Coffee Shops") None None) "" "".

Definition split_rule (allocs : list SplitAllocation) : CustomRule :=
  mkCustomRule "rule_3" "Warehouse" true (Num 10) [ contains_cond "warehouse" ]
    l_AND (split_action allocs) "" "".

(** 60 percent and the rest; 60 percent, 25 percent and the rest. *)
Definition two_way : list SplitAllocation :=
  [ pct "Groceries" 60; the_rest "Household" ].
Definition shares : list SplitAllocation :=
  [ pct "Groceries" 60; pct "Household" 25; the_rest "Other" ].

Definition groceries : Transaction :=
  sample_txn "2024-03-15" "WAREHOUSE CLUB" 100 expense "Uncategorized".
Definition hardware : Transaction :=
  sample_txn "2024-03-16" "WAREHOUSE TOOLS" 40 expense "Uncategorized".
Definition salary : Transaction :=
  sample_txn "2024-03-01" "ACME PAYROLL" 2500 income "".

(** A clock that stands still. *)
Definition still_clock : nat -> Z := fun _ => 1710400000000%Z.

(** Two rows of a statement with a single amount column. *)
Definition csv_row (d desc amt bal : string) : gmap string string :=
  <["Date" := d]> (<["Description" := desc]> (<["Amount" := amt]>
    (<["Balance" := bal]> ∅))).
Definition csv_rows : list (gmap string string) :=
  [ csv_row "2024-03-16" "COFFEE" "-4.50" "95.50";
    csv_row "2024-03-15" "PAYROLL" "100.00" "100.00" ].

(** The same statement with a row of amount zero and a row without date. *)
Definition csv_rows_padded : list (gmap string string) :=
  csv_rows ++ [ csv_row "2024-03-14" "VOIDED" "0.00" "100.00";
                csv_row "" "PENDING" "7.00" "" ].

(* ================================================================== *)
(** ** Properties *)
(* ================================================================== *)

(* ------------------------------------------------------------------ *)
(** *** Numeric normalisation ([parseNumeric], [parseAmount]) *)

Lemma append_nil_l (b : string) : "" +:+ b = b.
Proof. reflexivity. Qed.

Lemma append_cons (c : ascii) (a b : string) :
  String c a +:+ b = String c (a +:+ b).
Proof. reflexivity. Qed.

Lemma append_empty_r (s : string) : s +:+ "" = s.
Proof.
  induction s as [|c s IH]; [reflexivity|].
  rewrite append_cons, IH. reflexivity.
Qed.

Lemma append_assoc (a b c : string) : (a +:+ b) +:+ c = a +:+ (b +:+ c).
Proof.
  induction a as [|x a IH]; [reflexivity|].
  rewrite !append_cons, IH. reflexivity.
Qed.

Lemma strip_markup_app (a b : string) :
  strip_markup (a +:+ b) = strip_markup a +:+ strip_markup b.
Proof.
  induction a as [|c a IH]; [reflexivity|].
  rewrite append_cons. simpl.
  destruct (is_currency_markup c); rewrite IH; reflexivity.
Qed.

Lemma parseNumeric_finite (v : raw) : exists q, parseNumeric v = Num q.
Proof.
  assert (G : forall s, exists q,
             (if isNaN (parseFloat s) then n0 else parseFloat s) = Num q).
  { intros s. destruct (parseFloat s) as [|q]; simpl; eauto. }
  destruct v as [| |s|n]; simpl; eauto.
  destruct s; simpl; eauto.
Qed.

Lemma parseAmount_nonneg (v : raw) :
  exists q, parseAmount v = Num q /\ (0 <= q)%Q.
Proof.
  assert (G : forall s, exists q,
             (if isNaN (parseFloat s) then n0 else nabs (parseFloat s)) = Num q
             /\ (0 <= q)%Q).
  { intros s. destruct (parseFloat s) as [|q]; simpl.
    - exists 0%Q. split; [reflexivity|lra].
    - exists (Qabs q). split; [reflexivity|apply Qabs_nonneg]. }
  assert (Z0 : exists q, n0 = Num q /\ (0 <= q)%Q).
  { exists 0%Q. split; [reflexivity|lra]. }
  destruct v as [| |s|n]; simpl; auto.
  destruct s; simpl; auto.
Qed.

(* ------------------------------------------------------------------ *)
(** *** Categorizer *)

Lemma In_firstn {A : Type} (n : nat) (l : list A) (x : A) :
  In x (firstn n l) -> In x l.
Proof.
  revert l. induction n as [|n IH]; intros [|y l]; simpl;
    try (intros F; exact (False_ind _ F)).
  intros [H|H]; auto.
Qed.

Lemma patterns_loop_iff (ps : list string) (d : string) :
  patterns_loop ps d = true <-> exists p, In p ps /\ regex_test p d = true.
Proof.
  induction ps as [|p ps IH]; simpl.
  - split; [discriminate|]. intros (p & [] & _).
  - destruct (regex_test p d) eqn:E.
    + split; [|reflexivity]. intros _. exists p. auto.
    + rewrite IH. split.
      * intros (q & Hq & Ht). exists q. auto.
      * intros (q & [Hq|Hq] & Ht); [subst; congruence|]. exists q. auto.
Qed.

Lemma rules_loop_Some (rules : list CategoryRule) (d c : string) :
  rules_loop rules d = Some c <-> first_match rules d c.
Proof.
  revert c. induction rules as [|r rules IH]; intros c; simpl.
  - split; [discriminate|]. intros (i & r & H & _). destruct i; discriminate.
  - destruct (patterns_loop (patterns r) d) eqn:E.
    + apply patterns_loop_iff in E. split.
      * intros [= <-]. exists 0, r. repeat split; auto. intros j r' Hj. lia.
      * intros (i & r' & Hi & Hm & Hc & Hfirst). destruct i as [|i].
        -- simpl in Hi. injection Hi as <-. congruence.
        -- exfalso. apply (Hfirst 0 r); [lia|reflexivity|exact E].
    + assert (Hr : ~ rule_matches r d).
      { intros H. apply patterns_loop_iff in H. congruence. }
      rewrite IH. split.
      * intros (i & r' & Hi & Hm & Hc & Hfirst). exists (S i), r'.
        repeat split; auto. intros j r'' Hj Hl. destruct j as [|j].
        -- simpl in Hl. injection Hl as <-. exact Hr.
        -- apply (Hfirst j r''); [lia|exact Hl].
      * intros (i & r' & Hi & Hm & Hc & Hfirst). destruct i as [|i].
        -- simpl in Hi. injection Hi as <-. contradiction.
        -- exists i, r'. repeat split; auto. intros j r'' Hj Hl.
           apply (Hfirst (S j) r''); [lia|exact Hl].
Qed.

Lemma rules_loop_None (rules : list CategoryRule) (d : string) :
  rules_loop rules d = None <-> no_match rules d.
Proof.
  unfold no_match. induction rules as [|r rules IH]; simpl.
  - split; [intros _ r []|reflexivity].
  - destruct (patterns_loop (patterns r) d) eqn:E.
    + split; [discriminate|]. intros H. exfalso. apply (H r); [auto|].
      apply patterns_loop_iff. exact E.
    + rewrite IH. split.
      * intros H r' [<-|Hin]; [|auto]. intros Hm.
        apply patterns_loop_iff in Hm. congruence.
      * intros H r' Hin. apply H. auto.
Qed.

Lemma rules_loop_label (rules : list CategoryRule) (d c : string) :
  rules_loop rules d = Some c -> In c (map cr_category rules).
Proof.
  induction rules as [|r rules IH]; simpl; [discriminate|].
  destruct (patterns_loop (patterns r) d); [intros [= <-]; auto|auto].
Qed.

Lemma keeps_iff (c : string) :
  keeps c = true <-> c <> "" /\ c <> "Uncategorized".
Proof.
  unfold keeps. rewrite andb_true_iff, negb_true_iff, String.eqb_neq.
  destruct c; simpl; split; intros [H1 H2]; split; congruence.
Qed.

Lemma labels_kept :
  forallb keeps (map cr_category CATEGORY_RULES) = true.
Proof. vm_compute. reflexivity. Qed.

Lemma categorize_result_kept (t : Transaction) :
  keeps (categorizeTransaction t) = true.
Proof.
  unfold categorizeTransaction. fold (keeps (category t)).
  destruct (keeps (category t)) eqn:K; [exact K|].
  assert (L : forall n c,
             rules_loop (firstn n CATEGORY_RULES)
                        (toLowerCase (description t)) = Some c ->
             keeps c = true).
  { intros n c H. apply rules_loop_label in H.
    pose proof labels_kept as F. rewrite forallb_forall in F. apply F.
    rewrite <- firstn_map in H. eapply In_firstn; eauto. }
  destruct (type t).
  - unfold slice0.
    destruct (rules_loop (firstn 5 CATEGORY_RULES) _) eqn:R;
      [eapply L; eauto|reflexivity].
  - pose proof (L (length CATEGORY_RULES)) as L'. rewrite firstn_all in L'.
    destruct (rules_loop CATEGORY_RULES _) eqn:R; [eapply L'; eauto|reflexivity].
Qed.

(** C7. [categorizeTransaction] returns a category that is set and is not
    the sentinel unchanged, hence is idempotent; otherwise an income
    transaction gets the label of the first of the first five rules with a
    pattern matching the lower-cased description, or "Other Income", and an
    expense transaction gets the label of the first matching rule of the whole
    list, or "Other". *)
Theorem categorizeTransaction_spec (t : Transaction) :
  (category t <> "" -> category t <> "Uncategorized" ->
     categorizeTransaction t = category t)
  /\ categorizeTransaction (set_category t (categorizeTransaction t))
     = categorizeTransaction t
  /\ (uncategorized t -> type t = income ->
      forall c,
        categorizeTransaction t = c <->
        first_match (firstn 5 CATEGORY_RULES) (toLowerCase (description t)) c
        \/ (no_match (firstn 5 CATEGORY_RULES) (toLowerCase (description t))
            /\ c = "Other Income"))
  /\ (uncategorized t -> type t = expense ->
      forall c,
        categorizeTransaction t = c <->
        first_match CATEGORY_RULES (toLowerCase (description t)) c
        \/ (no_match CATEGORY_RULES (toLowerCase (description t))
            /\ c = "Other"))
  /\ map cr_category (firstn 5 CATEGORY_RULES)
     = ["Salary"; "Bonus"; "Interest"; "Dividends"; "Refunds"].
Proof.
  assert (U : uncategorized t -> keeps (category t) = false).
  { intros [H|H]; rewrite H; reflexivity. }
  assert (X : forall rules d c fallback,
             match rules_loop rules d with Some x => x | None => fallback end = c
             <-> first_match rules d c \/ (no_match rules d /\ c = fallback)).
  { intros rules d c fallback. destruct (rules_loop rules d) as [x|] eqn:R.
    - split.
      + intros <-. left. apply rules_loop_Some. exact R.
      + intros [H|[H _]].
        * apply rules_loop_Some in H. congruence.
        * apply rules_loop_None in H. congruence.
    - split.
      + intros <-. right. split; [apply rules_loop_None; exact R|reflexivity].
      + intros [H|[_ H]]; [|congruence].
        apply rules_loop_Some in H. congruence. }
  split; [|split; [|split; [|split]]].
  - intros H1 H2. unfold categorizeTransaction. fold (keeps (category t)).
    replace (keeps (category t)) with true; [reflexivity|].
    symmetry. apply keeps_iff. auto.
  - pose proof (categorize_result_kept t) as K.
    unfold categorizeTransaction at 1. simpl category.
    fold (keeps (categorizeTransaction t)). rewrite K. reflexivity.
  - intros Hu Ht c. unfold categorizeTransaction. fold (keeps (category t)).
    rewrite (U Hu), Ht. apply X.
  - intros Hu Ht c. unfold categorizeTransaction. fold (keeps (category t)).
    rewrite (U Hu), Ht. apply X.
  - reflexivity.
Qed.

(* ------------------------------------------------------------------ *)
(** *** Rule engine: malformed actions *)

Lemma applyRule_passthrough (now : Z) (transaction : SplitTransaction)
    (rule : CustomRule) :
  malformed (action rule) ->
  applyRule now transaction rule = [ unsplit transaction (base transaction) ].
Proof.
  intros M. unfold applyRule, malformed in *.
  destruct (ra_type (action rule)); destruct M as [-> | ->]; reflexivity.
Qed.

(** C8. Applying a rule whose action is malformed returns exactly one
    fragment: the transaction itself, tagged non-split; every other field is
    untouched. *)
Theorem applyRule_malformed (now : Z) (transaction : SplitTransaction)
    (rule : CustomRule) :
  malformed (action rule) ->
  applyRule now transaction rule = [ unsplit transaction (base transaction) ]
  /\ forall f, In f (applyRule now transaction rule) ->
       base f = base transaction /\ isSplit f = Some false
       /\ splitParentId f = splitParentId transaction
       /\ splitIndex f = splitIndex transaction
       /\ originalAmount f = originalAmount transaction
       /\ splitMemo f = splitMemo transaction.
Proof.
  intros M. pose proof (applyRule_passthrough now transaction rule M) as E.
  split; [exact E|]. rewrite E. intros f [<-|[]]. repeat split.
Qed.

(* ------------------------------------------------------------------ *)
(** *** Balance-consistency validator *)

Lemma Qlt_bool_iff (a b : Q) : Qlt_bool a b = true <-> (a < b)%Q.
Proof.
  unfold Qlt_bool. rewrite negb_true_iff. split.
  - intros H. apply Qnot_le_lt. intros L. apply Qle_bool_iff in L. congruence.
  - intros H. destruct (Qle_bool b a) eqn:E; [|reflexivity].
    apply Qle_bool_iff in E. apply Qle_not_lt in E. contradiction.
Qed.

Lemma Qlt_bool_comp (a a' b b' : Q) :
  (a == a')%Q -> (b == b')%Q -> Qlt_bool a b = Qlt_bool a' b'.
Proof.
  intros Ha Hb. apply eq_true_iff_eq. rewrite !Qlt_bool_iff, Ha, Hb. reflexivity.
Qed.

Lemma Qabs_minus_sym (a b : Q) : (Qabs (a - b) == Qabs (b - a))%Q.
Proof.
  rewrite <- (Qabs_opp (a - b)). apply Qabs_wd. ring.
Qed.

Lemma num_at_map {A : Type} (f : A -> number) (l : list A) (d : A) (i : nat) :
  i < length l -> num_at (map f l) i = f (nth i l d).
Proof.
  revert i. induction l as [|x l IH]; intros i Hi; simpl in *; [lia|].
  destruct i as [|i]; [reflexivity|]. apply IH. lia.
Qed.

Lemma parseNumeric_amount_in (r : gmap string string) (col : string) :
  parseNumeric (row_get r col) = Num (amount_in r col).
Proof.
  unfold amount_in. destruct (parseNumeric_finite (row_get r col)) as [q ->].
  reflexivity.
Qed.

Lemma lookup_map_nth {A B : Type} (f : A -> B) (l : list A) (d : A) (i : nat) :
  i < length l -> map f l !! i = Some (f (nth i l d)).
Proof.
  revert i. induction l as [|x l IH]; intros i Hi; simpl in *; [lia|].
  destruct i as [|i]; [reflexivity|]. apply IH. lia.
Qed.

Section BalanceLoop.

Variable rows : list (gmap string string).
Variable filename : string.
Variable columns : BalanceColumns.

Let deposits := map (fun r => parseNumeric (row_get r (col_deposit columns))) rows.
Let withdrawals := map (fun r => parseNumeric (row_get r (col_withdrawal columns))) rows.
Let balances := map (fun r => parseNumeric (row_get r (col_balance columns))) rows.
Let dates := map (fun r => sor (r !! col_date columns) "unknown") rows.

(** The loop body at a valid index, in terms of [violates]. *)
Lemma balance_step_spec (i : nat) (errs : list ValidationError) (cnt : nat) :
  i + 1 < length rows ->
  balance_step filename deposits withdrawals balances dates i (errs, cnt)
  = if violates rows columns i
    then if Nat.leb (cnt + 1) maxErrors
         then (errs ++ [ mismatch_error rows filename columns i ], cnt + 1)
         else (errs, cnt + 1)
    else (errs, cnt).
Proof.
  intros Hi. unfold balance_step, deposits, withdrawals, balances, dates.
  rewrite !(num_at_map _ rows ∅) by lia.
  rewrite (lookup_map_nth _ rows ∅) by lia.
  rewrite !parseNumeric_amount_in.
  change (nth (i + 1) rows ∅) with (row_at rows (i + 1)).
  change (nth i rows ∅) with (row_at rows i).
  fold (balance_at rows columns (i + 1)) (balance_at rows columns i)
       (withdrawal_at rows columns i) (deposit_at rows columns i).
  cbn [nsub nadd nabs lift1 lift2 ngt nlt cent].
  fold (expected_at rows columns i).
  replace (Qlt_bool (1 # 100)
             (Qabs (expected_at rows columns i - balance_at rows columns i)))
    with (violates rows columns i).
  - reflexivity.
  - unfold violates. apply Qlt_bool_comp; [reflexivity|apply Qabs_minus_sym].
Qed.

Lemma balance_loop_spec (k : nat) (errs : list ValidationError) (cnt : nat) :
  k < length rows ->
  balance_loop filename deposits withdrawals balances dates k (errs, cnt)
  = let v := List.filter (violates rows columns) (rev (seq 0 k)) in
    (errs ++ map (mismatch_error rows filename columns)
                 (firstn (maxErrors - cnt) v),
     cnt + length v).
Proof.
  revert errs cnt. induction k as [|i IH]; intros errs cnt Hk.
  - simpl. rewrite firstn_nil, app_nil_r. f_equal. lia.
  - cbn [balance_loop]. rewrite balance_step_spec by lia.
    rewrite seq_S, rev_app_distr. cbn [rev app plus List.filter].
    destruct (violates rows columns i) eqn:V.
    + destruct (Nat.leb (cnt + 1) maxErrors) eqn:L.
      * apply Nat.leb_le in L. rewrite IH by lia. cbn zeta.
        replace (maxErrors - cnt) with (S (maxErrors - (cnt + 1))) by lia.
        cbn [firstn map length]. rewrite <- app_assoc. cbn [app].
        f_equal. lia.
      * apply Nat.leb_gt in L. rewrite IH by lia. cbn zeta.
        replace (maxErrors - (cnt + 1)) with 0 by lia.
        replace (maxErrors - cnt) with 0 by lia.
        cbn [firstn map length]. f_equal. lia.
    + rewrite IH by lia. reflexivity.
Qed.

End BalanceLoop.

(* ------------------------------------------------------------------ *)
(** *** Required-columns check *)

Lemma array_includes_In (a : list string) (x : string) :
  array_includes a x = true <-> In x a.
Proof.
  unfold array_includes. rewrite existsb_exists. split.
  - intros (y & Hy & E). apply String.eqb_eq in E. subst. exact Hy.
  - intros H. exists x. split; [exact H|apply String.eqb_refl].
Qed.

Lemma has_column_dec (headers : list string) (col : string) :
  existsb (fun v => array_includes (map toLowerCase headers) v)
          (getColumnVariations col) = true
  <-> has_column headers col.
Proof.
  unfold has_column. rewrite existsb_exists. split.
  - intros (v & Hv & Hi). apply array_includes_In, in_map_iff in Hi.
    destruct Hi as (h & E & Hh). exists h, v. auto.
  - intros (h & v & Hh & Hv & E). exists v. split; [exact Hv|].
    apply array_includes_In, in_map_iff. exists h. auto.
Qed.

Lemma missing_columns_In (headers required : list string) (col : string) :
  In col (missing_columns headers required)
  <-> In col required /\ ~ has_column headers col.
Proof.
  unfold missing_columns. rewrite filter_In, negb_true_iff.
  rewrite <- has_column_dec. split; intros [H1 H2]; split; auto.
  - congruence.
  - destruct (existsb _ _); [contradiction H2; reflexivity|reflexivity].
Qed.

Lemma indexOf_lt (a : list string) (x : string) (i : nat) :
  indexOf a x = Some i -> i < length a.
Proof.
  revert i. induction a as [|y a IH]; intros i; simpl; [discriminate|].
  destruct (String.eqb y x); [intros [= <-]; lia|].
  destruct (indexOf a x) as [j|]; [|discriminate].
  intros [= <-]. specialize (IH j eq_refl). lia.
Qed.

Lemma indexOf_In (a : list string) (x : string) :
  In x a -> indexOf a x <> None.
Proof.
  induction a as [|y a IH]; simpl; [intros []|].
  intros H. destruct (String.eqb y x) eqn:E; [discriminate|].
  apply String.eqb_neq in E. destruct H as [H|H]; [congruence|].
  destruct (indexOf a x); [discriminate|]. exfalso. apply (IH H). reflexivity.
Qed.

Lemma findColumn_loop_resolves (headers lowerHeaders ms : list string) (m : string) :
  length lowerHeaders = length headers ->
  In m ms -> In m lowerHeaders ->
  findColumn_loop headers lowerHeaders ms <> None.
Proof.
  intros Hlen. induction ms as [|mapping rest IH]; simpl; [intros []|].
  intros Hm Hl. destruct (indexOf lowerHeaders mapping) as [index|] eqn:E.
  - apply indexOf_lt in E. rewrite Hlen in E.
    apply lookup_lt_is_Some in E. destruct E as [h ->]. discriminate.
  - destruct Hm as [->|Hm]; [|auto].
    exfalso. apply (indexOf_In _ _ Hl). exact E.
Qed.

(** Every spelling of the validator's table is a spelling of the parser's
    table for the same field, and is unchanged by [trim]. *)
Lemma variations_in_mappings :
  forallb (fun col =>
             forallb (fun v => array_includes (mappings_of col) v
                               && String.eqb (trim v) v)
                     (getColumnVariations col))
          canonical_columns = true.
Proof. vm_compute. reflexivity. Qed.

Lemma validator_accepts_parser_resolves (headers : list string) (col : string) :
  In col canonical_columns -> has_column headers col ->
  findColumn headers (mappings_of col) <> None.
Proof.
  intros Hc (h & v & Hh & Hv & E).
  pose proof variations_in_mappings as T.
  rewrite forallb_forall in T. specialize (T col Hc).
  rewrite forallb_forall in T. specialize (T v Hv).
  apply andb_prop in T as [T1 T2].
  apply array_includes_In in T1. apply String.eqb_eq in T2.
  unfold findColumn. apply (findColumn_loop_resolves _ _ _ v).
  - apply length_map.
  - exact T1.
  - apply in_map_iff. exists h. split; [|exact Hh]. rewrite E. exact T2.
Qed.


(* ------------------------------------------------------------------ *)
(** *** Markup parser: reconstructed balances *)

Lemma assign_balances_snd (ps : list ParsedTxn) (b : number) :
  snd (assign_balances ps b) = fold_left nsub (map signed ps) b.
Proof.
  revert b. induction ps as [|p ps IH]; intros b; simpl; [reflexivity|].
  specialize (IH (nsub b (signed p))).
  destruct (assign_balances ps (nsub b (signed p))). simpl in *. exact IH.
Qed.

Lemma assign_balances_length (ps : list ParsedTxn) (b : number) :
  length (fst (assign_balances ps b)) = length ps.
Proof.
  revert b. induction ps as [|p ps IH]; intros b; simpl; [reflexivity|].
  specialize (IH (nsub b (signed p))).
  destruct (assign_balances ps (nsub b (signed p))). simpl in *. lia.
Qed.

Lemma assign_balances_lookup (ps : list ParsedTxn) (b : number) (i : nat)
    (p : ParsedTxn) :
  ps !! i = Some p ->
  fst (assign_balances ps b) !! i
  = Some (mkParsedTxn
            (set_balance (txn p) (fold_left nsub (map signed (firstn i ps)) b))
            (signed p)).
Proof.
  revert b i. induction ps as [|q ps IH]; intros b i H; [destruct i; discriminate|].
  simpl. specialize (IH (nsub b (signed q))).
  destruct (assign_balances ps (nsub b (signed q))) as [rest final].
  destruct i as [|i]; simpl in *.
  - injection H as ->. reflexivity.
  - apply IH. exact H.
Qed.

Lemma nor_zero_finite (x : number) : exists q, nor x n0 = Num q.
Proof.
  unfold nor. destruct x as [|q]; simpl; [eauto|].
  destruct (negb (Qeq_bool q 0)); eauto.
Qed.

Lemma running_balance_step (e : number) (ps : list ParsedTxn) (i : nat)
    (p : ParsedTxn) :
  ps !! i = Some p ->
  running_balance e ps (S i) = nsub (running_balance e ps i) (signed p).
Proof.
  intros H. unfold running_balance.
  rewrite (take_S_r ps i p H), map_app, fold_left_app. reflexivity.
Qed.

(** The comparator of the date sort orders blocks whose dates all parse. *)
Lemma by_date_desc_consistent {A : Type} (date_of : A -> string) (l : list A) :
  Forall (fun x => exists q, Date_getTime (date_of x) = Num q) l ->
  consistent_comparator (by_date_desc date_of) l.
Proof.
  intros F. rewrite List.Forall_forall in F. split.
  - intros a b Ha Hb. destruct (F a Ha) as (ta & Ea), (F b Hb) as (tb & Eb).
    unfold by_date_desc. rewrite Ea, Eb. cbn [nsub lift2 ngt nlt n0].
    apply eq_true_iff_eq. rewrite !Qlt_bool_iff. split; intros H; lra.
  - intros a b c Ha Hb Hc.
    destruct (F a Ha) as (ta & Ea), (F b Hb) as (tb & Eb), (F c Hc) as (tc & Ec).
    unfold by_date_desc. rewrite Ea, Eb, Ec. cbn [nsub lift2 ngt nlt n0].
    intros H1 H2. apply not_true_is_false. intros H3.
    apply Qlt_bool_iff in H3.
    apply not_true_iff_false in H1, H2. rewrite Qlt_bool_iff in H1, H2. lra.
Qed.


(* ------------------------------------------------------------------ *)
(** *** Rule engine: split actions *)

Lemma Qle_bool_false (a b : Q) : Qle_bool a b = false -> (b < a)%Q.
Proof.
  intros H. apply Qnot_le_lt. intros L. apply Qle_bool_iff in L. congruence.
Qed.

(** Rounding to cents moves a value by at most half a cent and keeps a
    non-negative value non-negative. *)
Lemma round_cents_Num (u : Q) :
  exists a, round_cents (Num u) = Num a
            /\ (Qabs (a - u) <= 1 # 200)%Q
            /\ ((0 <= u)%Q -> (0 <= a)%Q).
Proof.
  unfold round_cents, Math_round, nmul, ndiv, n100, lift1, lift2.
  change (Qeq_bool 100 0) with false. cbv iota.
  set (x := (u * 100 + (1 # 2))%Q).
  exists (inject_Z (Qfloor x) / 100)%Q. split; [reflexivity|].
  pose proof (Qfloor_le x) as L. pose proof (Qlt_floor x) as U.
  rewrite inject_Z_plus in U. change (inject_Z 1) with 1%Q in U.
  assert (D : (inject_Z (Qfloor x) / 100 == inject_Z (Qfloor x) * (1 # 100))%Q).
  { unfold Qdiv. reflexivity. }
  split.
  - apply Qabs_Qle_condition. rewrite D. subst x. split; lra.
  - intros Hu. rewrite D.
    assert (Z0 : (0 <= Qfloor x)%Z).
    { change 0%Z with (Qfloor 0). apply Qfloor_resp_le. subst x. lra. }
    assert (Q0 : (0 <= inject_Z (Qfloor x))%Q).
    { change 0%Q with (inject_Z 0). rewrite <- Zle_Qle. exact Z0. }
    lra.
Qed.

Lemma Qsum_cons (x : Q) (l : list Q) : Qsum (x :: l) = (x + Qsum l)%Q.
Proof. reflexivity. Qed.

Lemma last_cons {A : Type} (l : list A) (x d : A) :
  List.last (x :: l) d = List.last l x.
Proof.
  revert x d. induction l as [|y l IH]; intros x d; [reflexivity|].
  change (List.last (x :: y :: l) d) with (List.last (y :: l) d).
  rewrite !IH. reflexivity.
Qed.

Section SplitLoop.

Variable transaction : SplitTransaction.
Variable parentId : string.
Variable total : nat.
Variable M : Q.
Hypothesis amount_M : amount (base transaction) = Num M.

Lemma splitAmount_finite (a : SplitAllocation) (r : Q) :
  finite_alloc a ->
  exists u, splitAmount_of transaction a (Num r) = Num u.
Proof using amount_M.
  intros [Hp Hf]. unfold splitAmount_of.
  destruct (fixedAmount a) as [f|].
  - destruct Hf as [q ->]. simpl. eauto.
  - destruct (percentage a) as [p|]; [|eauto].
    destruct Hp as [q ->]. rewrite amount_M. simpl. eauto.
Qed.

Lemma splitAmount_nonneg (a : SplitAllocation) (r u : Q) :
  nonneg_alloc a -> (0 <= M)%Q -> (0 <= r)%Q ->
  splitAmount_of transaction a (Num r) = Num u -> (0 <= u)%Q.
Proof using amount_M.
  intros [Hp Hf] HM Hr. unfold splitAmount_of.
  destruct (fixedAmount a) as [f|].
  - destruct Hf as (q & -> & Hq). simpl.
    destruct (Qle_bool q r); intros [= <-]; assumption.
  - destruct (percentage a) as [p|]; [|intros [= <-]; assumption].
    destruct Hp as (q & -> & Hq). rewrite amount_M. simpl. intros [= <-].
    apply Qmult_le_0_compat; [exact HM|].
    unfold Qdiv. apply Qmult_le_0_compat; [exact Hq|]. discriminate.
Qed.

Lemma nonneg_finite (a : SplitAllocation) : nonneg_alloc a -> finite_alloc a.
Proof.
  intros [Hp Hf]. split.
  - destruct (percentage a); [destruct Hp as (q & -> & _); eexists; eauto|exact I].
  - destruct (fixedAmount a); [destruct Hf as (q & -> & _); eexists; eauto|exact I].
Qed.

Lemma fragment_ok (a : SplitAllocation) (index : nat) (u : Q) :
  fragment_of transaction parentId
    (fragment transaction parentId total a index (Num u))
  /\ splitIndex (fragment transaction parentId total a index (Num u)) = Some index
  /\ exists x, amount (base (fragment transaction parentId total a index (Num u)))
               = Num x
               /\ (Qabs (x - u) <= 1 # 200)%Q /\ ((0 <= u)%Q -> (0 <= x)%Q).
Proof using amount_M.
  destruct (round_cents_Num u) as (x & Hx & Hb & Hn).
  unfold fragment_of, fragment. simpl. rewrite Hx.
  repeat split; eauto.
Qed.

(** The walk over the allocations: what it appends and what it leaves. *)
Lemma split_loop_spec (allocs : list SplitAllocation) :
  Forall finite_alloc allocs ->
  forall (index : nat) (r : Q) (result : list SplitTransaction),
  exists (r' : Q) (frs : list SplitTransaction),
    split_loop transaction parentId total allocs index (Num r) result
    = (Num r', result ++ frs)
    /\ List.last (remainders transaction allocs (Num r)) (Num r) = Num r'
    /\ length frs = length allocs
    /\ Forall (fragment_of transaction parentId) frs
    /\ (forall k f, frs !! k = Some f -> splitIndex f = Some (index + k))
    /\ (Qabs (Qsum (amounts frs) - (r - r')) <= inject_Z (Z.of_nat (length frs)) * (1 # 200))%Q
    /\ (Forall nonneg_alloc allocs -> (0 <= M)%Q -> (0 <= r)%Q ->
        Forall (fun x => (0 <= value_of x)%Q) (remainders transaction allocs (Num r)) ->
        Forall (fun x => (0 <= x)%Q) (amounts frs)).
Proof using amount_M.
  induction 1 as [|a allocs Ha Hall IH]; intros index r result.
  - exists r, []. cbn [split_loop remainders List.last length].
    rewrite app_nil_r.
    split; [reflexivity|]. split; [reflexivity|]. split; [reflexivity|].
    split; [constructor|].
    split; [intros k f Hk; destruct k; discriminate|].
    split; [|intros; constructor].
    change (Qsum (amounts [])) with 0%Q.
    change (inject_Z (Z.of_nat 0)) with 0%Q.
    apply Qabs_Qle_condition. split; lra.
  - destruct (splitAmount_finite a r Ha) as [u Hu].
    cbn [split_loop remainders]. rewrite Hu. cbn [nsub lift2].
    destruct (IH (index + 1) (r - u)%Q
                 (result ++ [fragment transaction parentId total a index (Num u)]))
      as (r' & frs & E & Hlast & Hlen & Hfr & Hidx & Hsum & Hnn).
    destruct (fragment_ok a index u) as (F1 & F2 & x & Hx & Hb & Hpos).
    exists r', (fragment transaction parentId total a index (Num u) :: frs).
    rewrite E, <- app_assoc. cbn [app].
    split; [reflexivity|].
    split; [rewrite last_cons; exact Hlast|].
    split; [cbn [length]; lia|]. split; [constructor; assumption|]. split.
    { intros k f Hk. destruct k as [|k].
      - injection Hk as <-. rewrite F2. f_equal. lia.
      - change (frs !! k = Some f) in Hk. rewrite (Hidx k f Hk). f_equal. lia. }
    split.
    { unfold amounts in *. cbn [map length]. rewrite Qsum_cons, Hx.
      cbn [value_of].
      rewrite Nat2Z.inj_succ, <- Z.add_1_r, inject_Z_plus.
      change (inject_Z 1) with 1%Q.
      apply Qabs_Qle_condition in Hb. apply Qabs_Qle_condition in Hsum.
      apply Qabs_Qle_condition. split; lra. }
    intros Hnon HM Hr Hrem.
    inversion Hnon as [|? ? Hna Hnrest]; subst.
    inversion Hrem as [|? ? Hr1 Hrrest]; subst.
    unfold amounts. cbn [map]. rewrite Hx. constructor.
    + cbn [value_of]. apply Hpos. exact (splitAmount_nonneg a r u Hna HM Hr Hu).
    + apply Hnn; auto.
Qed.

End SplitLoop.

Lemma amounts_sum_finite (fs : list SplitTransaction) :
  Forall (fun f => exists a, amount (base f) = Num a) fs ->
  exists S, amounts_sum fs = Num S /\ (S == Qsum (amounts fs))%Q.
Proof.
  unfold amounts_sum, n0.
  assert (G : forall fs, Forall (fun f => exists a, amount (base f) = Num a) fs ->
              forall acc, exists S,
                fold_left (fun sum s => nadd sum (amount (base s))) fs (Num acc)
                = Num S /\ (S == acc + Qsum (amounts fs))%Q).
  { induction 1 as [|f l [a Ha] F IH]; intros acc.
    - exists acc. split; [reflexivity|].
      change (Qsum (amounts [])) with 0%Q. ring.
    - cbn [fold_left]. rewrite Ha. cbn [nadd lift2].
      destruct (IH (acc + a)%Q) as (S & -> & HS). exists S.
      split; [reflexivity|]. rewrite HS. unfold amounts. cbn [map].
      rewrite Qsum_cons, Ha. cbn [value_of]. ring. }
  intros F. destruct (G fs F 0%Q) as (S & E & HS). exists S.
  split; [exact E|]. rewrite HS. ring.
Qed.

Lemma fragment_of_amount transaction parentId (fs : list SplitTransaction) :
  Forall (fragment_of transaction parentId) fs ->
  Forall (fun f => exists a, amount (base f) = Num a) fs.
Proof.
  intros F. eapply List.Forall_impl; [|exact F].
  intros f (_ & _ & _ & _ & H). exact H.
Qed.

(** The fragments of a split action, as [applyRule] returns them. *)
Lemma applyRule_split_eq (now : Z) (transaction : SplitTransaction)
    (rule : CustomRule) (allocs : list SplitAllocation) (M : Q) :
  ra_type (action rule) = split ->
  splits (action rule) = Some allocs ->
  allocs <> [] ->
  amount (base transaction) = Num M ->
  Forall finite_alloc allocs ->
  exists (r' : Q) (frs : list SplitTransaction),
    final_remainder transaction allocs = Num r'
    /\ applyRule now transaction rule
       = (if Qlt_bool (1 # 100) r'
          then frs ++ [ remainder_fragment transaction (make_parentId now)
                          (length allocs) (Num r') ]
          else frs)
    /\ length frs = length allocs
    /\ Forall (fragment_of transaction (make_parentId now)) frs
    /\ (forall k f, frs !! k = Some f -> splitIndex f = Some k)
    /\ (Qabs (Qsum (amounts frs) - (M - r'))
        <= inject_Z (Z.of_nat (length frs)) * (1 # 200))%Q
    /\ (Forall nonneg_alloc allocs -> (0 <= M)%Q ->
        never_overdrawn transaction allocs ->
        Forall (fun x => (0 <= x)%Q) (amounts frs)).
Proof.
  intros Ht Hs Hne HM Hfin.
  destruct (split_loop_spec transaction (make_parentId now) (length allocs)
              M HM allocs Hfin 0 M [])
    as (r' & frs & E & Hlast & Hlen & Hfr & Hidx & Hsum & Hnn).
  exists r', frs.
  assert (Hpos : 0 < length allocs) by (destruct allocs; [congruence|simpl; lia]).
  split; [unfold final_remainder; rewrite HM; exact Hlast|].
  split.
  { unfold applyRule. rewrite Ht, Hs.
    replace (Nat.ltb 0 (length allocs)) with true
      by (symmetry; apply Nat.ltb_lt; exact Hpos).
    rewrite HM, E. cbn [app ngt nlt cent].
    destruct (Qlt_bool (1 # 100) r').
    - rewrite length_app. cbn [length].
      replace (Nat.eqb (length frs + 1) 0) with false
        by (symmetry; apply Nat.eqb_neq; lia).
      reflexivity.
    - replace (Nat.eqb (length frs) 0) with false
        by (symmetry; apply Nat.eqb_neq; lia).
      reflexivity. }
  split; [exact Hlen|]. split; [exact Hfr|]. split; [exact Hidx|].
  split; [exact Hsum|].
  intros Hnon H0 Hover. apply Hnn; auto.
  unfold never_overdrawn in Hover. rewrite HM in Hover. exact Hover.
Qed.

Lemma remainder_fragment_ok (transaction : SplitTransaction)
    (parentId : string) (total : nat) (r : Q) :
  fragment_of transaction parentId
    (remainder_fragment transaction parentId total (Num r))
  /\ splitIndex (remainder_fragment transaction parentId total (Num r)) = Some total
  /\ exists x, amount (base (remainder_fragment transaction parentId total (Num r)))
               = Num x
               /\ (Qabs (x - r) <= 1 # 200)%Q /\ ((0 <= r)%Q -> (0 <= x)%Q).
Proof.
  destruct (round_cents_Num r) as (x & Hx & Hb & Hn).
  unfold fragment_of, remainder_fragment. simpl. rewrite Hx.
  repeat split; eauto.
Qed.

(* ------------------------------------------------------------------ *)
(** *** Amounts are magnitudes *)

Lemma parseCSV_row_positive
    (dateCol descCol amountCol withdrawalCol depositCol balanceCol categoryCol
       : option string)
    (account : string) (row : gmap string string) (t : Transaction) :
  parseCSV_row dateCol descCol amountCol withdrawalCol depositCol balanceCol
               categoryCol account row = Some t ->
  exists q, amount t = Num q /\ (0 < q)%Q.
Proof.
  unfold parseCSV_row.
  destruct (negb (otruthy _)); [discriminate|].
  set (pair := match amountCol with Some _ => _ | None => _ end).
  assert (P : exists q ty, pair = (Num q, ty) /\ (0 <= q)%Q).
  { subst pair. destruct amountCol as [c|].
    - destruct (parseAmount_nonneg (row_get row c)) as (q & -> & Hq).
      destruct (includes _ _ || includes _ _); eauto.
    - set (w := match withdrawalCol with Some _ => _ | None => _ end).
      set (d := match depositCol with Some _ => _ | None => _ end).
      assert (W : exists q, w = Num q /\ (0 <= q)%Q).
      { subst w. destruct withdrawalCol; [apply parseAmount_nonneg|].
        exists 0%Q. split; [reflexivity|lra]. }
      assert (D : exists q, d = Num q /\ (0 <= q)%Q).
      { subst d. destruct depositCol; [apply parseAmount_nonneg|].
        exists 0%Q. split; [reflexivity|lra]. }
      destruct W as (qw & -> & Hw). destruct D as (qd & -> & Hd).
      destruct (ngt (Num qw) n0); [eauto|].
      destruct (ngt (Num qd) n0); [eauto|].
      exists 0%Q, expense. split; [reflexivity|lra]. }
  destruct P as (q & ty & -> & Hq).
  destruct (neq (Num q) n0) eqn:N; [discriminate|].
  intros [= <-]. exists q. split; [reflexivity|].
  unfold neq, n0 in N. apply Qeq_bool_neq in N. lra.
Qed.

Lemma parseQBO_block_amount (acct block : string) :
  exists s, signed (parseQBO_block acct block) = Num s
            /\ amount (txn (parseQBO_block acct block)) = Num (Qabs s)
            /\ (type (txn (parseQBO_block acct block)) = income <-> (0 < s)%Q).
Proof.
  unfold parseQBO_block. cbn [signed txn amount type].
  destruct (nor_zero_finite (parseFloat (extractTag block "TRNAMT"))) as [s ->].
  exists s. split; [reflexivity|]. split; [reflexivity|].
  cbn [ngt nlt n0]. destruct (Qlt_bool 0 s) eqn:L.
  - apply Qlt_bool_iff in L. split; auto.
  - split; [discriminate|]. intros H. apply Qlt_bool_iff in H. congruence.
Qed.

Lemma assign_balances_In (ps : list ParsedTxn) (b : number) (t : Transaction) :
  In t (map txn (fst (assign_balances ps b))) ->
  exists p, In p ps /\ amount t = amount (txn p) /\ type t = type (txn p).
Proof.
  revert b. induction ps as [|p ps IH]; intros b; simpl; [intros []|].
  specialize (IH (nsub b (signed p))).
  destruct (assign_balances ps (nsub b (signed p))) as [rest final].
  simpl in *. intros [<-|H].
  - exists p. auto.
  - destruct (IH H) as (p' & Hp & Ha & Hty). exists p'. auto.
Qed.

Lemma applyRule_keeps_amount (now : Z) (transaction : SplitTransaction)
    (rule : CustomRule) (f : SplitTransaction) :
  ra_type (action rule) <> split \/ malformed (action rule) ->
  In f (applyRule now transaction rule) ->
  amount (base f) = amount (base transaction)
  /\ type (base f) = type (base transaction).
Proof.
  intros [H|H].
  - unfold applyRule. destruct (ra_type (action rule)); [| |congruence].
    + destruct (ra_category (action rule)) as [c|];
        [destruct (struthy c)|]; intros [<-|[]]; auto.
    + destruct (newName (action rule)) as [n|];
        [destruct (struthy n)|]; intros [<-|[]]; auto.
  - rewrite (applyRule_passthrough now transaction rule H).
    intros [<-|[]]. auto.
Qed.

(** Where the amount is a magnitude.  The parsers produce non-negative amounts
    (positive for delimited text) and carry the direction in [type] alone;
    categorization and categorize/rename/no-op rule actions leave amount and
    type untouched; a split keeps the type, and its fragment amounts are
    non-negative when the percentages and fixed amounts are and no
    allocation takes more than its predecessors left. *)
Theorem amount_is_magnitude :
  (forall v, exists q, parseAmount v = Num q /\ (0 <= q)%Q)
  /\ (forall headers rows filename t,
        In t (transactions (parseCSV headers rows filename)) ->
        exists q, amount t = Num q /\ (0 < q)%Q)
  /\ (forall content filename p,
        In p (qbo_parsed content filename) ->
        exists s, signed p = Num s /\ amount (txn p) = Num (Qabs s)
                  /\ (type (txn p) = income <-> (0 < s)%Q))
  /\ (forall content filename t,
        In t (q_transactions (parseQBO content filename)) ->
        exists q, amount t = Num q /\ (0 <= q)%Q)
  /\ (forall ts,
        map amount (categorizeAllTransactions ts) = map amount ts
        /\ map type (categorizeAllTransactions ts) = map type ts)
  /\ (forall now transaction rule f,
        ra_type (action rule) <> split \/ malformed (action rule) ->
        In f (applyRule now transaction rule) ->
        amount (base f) = amount (base transaction)
        /\ type (base f) = type (base transaction))
  /\ (forall now transaction rule allocs M f,
        ra_type (action rule) = split ->
        splits (action rule) = Some allocs ->
        allocs <> [] ->
        amount (base transaction) = Num M -> (0 <= M)%Q ->
        Forall nonneg_alloc allocs ->
        never_overdrawn transaction allocs ->
        In f (applyRule now transaction rule) ->
        type (base f) = type (base transaction)
        /\ exists a, amount (base f) = Num a /\ (0 <= a)%Q).
Proof using array_sort_perm.
  split; [apply parseAmount_nonneg|].
  split.
  { intros headers rows filename t H. unfold parseCSV in H. cbn [transactions] in H.
    apply (Permutation_in _ (array_sort_perm _ _ _)) in H.
    apply list_elem_of_In, list_elem_of_omap in H.
    destruct H as (row & _ & H). eapply parseCSV_row_positive. exact H. }
  split.
  { intros content filename p H. unfold qbo_parsed in H.
    apply in_map_iff in H. destruct H as (b & <- & _).
    apply parseQBO_block_amount. }
  split.
  { intros content filename t H.
    assert (R : q_transactions (parseQBO content filename)
                = map txn (fst (assign_balances (qbo_sorted content filename)
                                                (qbo_endBalance content)))).
    { unfold parseQBO, qbo_sorted, qbo_parsed, qbo_endBalance.
      destruct (assign_balances _ _); reflexivity. }
    rewrite R in H. apply assign_balances_In in H.
    destruct H as (p & Hp & Ha & _).
    apply (Permutation_in _ (array_sort_perm _ _ _)) in Hp.
    unfold qbo_parsed in Hp. apply in_map_iff in Hp. destruct Hp as (b & <- & _).
    destruct (parseQBO_block_amount (inferAccountType filename content) b)
      as (s & _ & E & _).
    exists (Qabs s). split; [congruence|apply Qabs_nonneg]. }
  split.
  { intros ts. unfold categorizeAllTransactions. rewrite !map_map.
    split; reflexivity. }
  split; [intros now transaction rule f; apply applyRule_keeps_amount|].
  intros now transaction rule allocs M f Ht Hs Hne HM H0 Hnon Hover Hin.
  assert (Hfin : Forall finite_alloc allocs).
  { eapply List.Forall_impl; [|exact Hnon]. intros a. apply nonneg_finite. }
  destruct (applyRule_split_eq now transaction rule allocs M Ht Hs Hne HM Hfin)
    as (r' & frs & Hr & E & Hlen & Hfr & Hidx & Hsum & Hnn).
  specialize (Hnn Hnon H0 Hover).
  assert (G : forall g, In g frs ->
                type (base g) = type (base transaction)
                /\ exists a, amount (base g) = Num a /\ (0 <= a)%Q).
  { intros g Hg. rewrite List.Forall_forall in Hfr.
    destruct (Hfr g Hg) as (_ & _ & _ & Hty & a & Ha). split; [exact Hty|].
    exists a. split; [exact Ha|]. rewrite List.Forall_forall in Hnn.
    apply Hnn. unfold amounts. apply in_map_iff. exists g.
    rewrite Ha. auto. }
  rewrite E in Hin. destruct (Qlt_bool (1 # 100) r') eqn:L; [|apply G; exact Hin].
  apply in_app_iff in Hin. destruct Hin as [Hin|[<-|[]]]; [apply G; exact Hin|].
  destruct (remainder_fragment_ok transaction (make_parentId now)
              (length allocs) r') as ((_ & _ & _ & Hty & _) & _ & x & Hx & _ & Hpos).
  split; [exact Hty|]. exists x. split; [exact Hx|]. apply Hpos.
  apply Qlt_bool_iff in L. lra.
Qed.

(* ------------------------------------------------------------------ *)
(** *** Accounting exporter: order of blocks and transaction ids *)

Lemma regular_loop_spec (opts : IIFExportOptions) (l : list SplitTransaction) :
  forall (lines : list string) (n : nat),
    fold_left (regular_step opts) l (lines, n)
    = (lines ++ concat (imap (fun i t => regular_block opts (n + i + 1) t) l),
       n + length l).
Proof.
  induction l as [|t l IH]; intros lines n.
  - cbn [fold_left imap concat length]. rewrite app_nil_r. f_equal. lia.
  - cbn [fold_left regular_step]. rewrite IH. cbn [imap concat length].
    rewrite <- app_assoc. f_equal; [|lia]. f_equal.
    replace (n + 0 + 1) with (n + 1) by lia. f_equal. f_equal.
    apply imap_ext. intros i x _. cbn. f_equal. lia.
Qed.

Lemma split_loop_emit_spec (opts : IIFExportOptions) (gs : SplitGroups) :
  Forall (fun g => snd g <> []) gs ->
  forall (lines : list string) (n : nat),
    fold_left (split_step opts) gs (lines, n)
    = (lines ++ concat (imap (fun j g => group_block opts (n + j + 1) (snd g)) gs),
       n + length gs).
Proof.
  induction 1 as [|g gs Hg Hgs IH]; intros lines n.
  - cbn [fold_left imap concat length]. rewrite app_nil_r. f_equal. lia.
  - cbn [fold_left split_step]. destruct g as [k group]. cbn [snd] in *.
    destruct group as [|f group]; [congruence|].
    rewrite IH. cbn [imap concat length snd group_block].
    rewrite <- app_assoc. f_equal; [|lia]. f_equal.
    replace (n + 0 + 1) with (n + 1) by lia. f_equal. f_equal.
    apply imap_ext. intros i x _. cbn. f_equal. lia.
Qed.

Lemma first_occurrences_In (l : list string) (x : string) :
  In x (first_occurrences l) <-> In x l.
Proof.
  induction l as [|k l IH]; [reflexivity|]. cbn [first_occurrences In].
  rewrite filter_In, IH, negb_true_iff, String.eqb_neq.
  destruct (string_dec k x) as [->|N]; [split; intros _; left; reflexivity|].
  split.
  - intros [H|[H _]]; auto.
  - intros [H|H]; [contradiction|]. right. split; [exact H|congruence].
Qed.

Lemma filter_id {A : Type} (p : A -> bool) (l : list A) :
  (forall x, In x l -> p x = true) -> List.filter p l = l.
Proof.
  induction l as [|y l IH]; intros H; [reflexivity|]. cbn [List.filter].
  rewrite (H y) by (left; reflexivity). f_equal. apply IH.
  intros x Hx. apply H. right. exact Hx.
Qed.

Lemma filter_none {A : Type} (p : A -> bool) (l : list A) :
  (forall x, In x l -> p x = false) -> List.filter p l = [].
Proof.
  induction l as [|y l IH]; intros H; [reflexivity|]. cbn [List.filter].
  rewrite (H y) by (left; reflexivity). apply IH.
  intros x Hx. apply H. right. exact Hx.
Qed.

(** Appending an element to the list leaves the first occurrences as they
    are when it was already there, and appends it otherwise. *)
Lemma first_occurrences_snoc (l : list string) (k : string) :
  first_occurrences (l ++ [k])
  = if existsb (String.eqb k) l then first_occurrences l
    else first_occurrences l ++ [k].
Proof.
  induction l as [|y l IH]; [reflexivity|].
  cbn [app first_occurrences existsb]. rewrite IH.
  destruct (String.eqb k y) eqn:E.
  - apply String.eqb_eq in E. subst y. cbn [orb].
    destruct (existsb (String.eqb k) l); [reflexivity|].
    rewrite List.filter_app. cbn [List.filter]. rewrite String.eqb_refl. cbn [negb].
    rewrite app_nil_r. reflexivity.
  - cbn [orb]. destruct (existsb (String.eqb k) l); [reflexivity|].
    rewrite List.filter_app. cbn [List.filter]. rewrite E. reflexivity.
Qed.

Lemma existsb_eqb_In (k : string) (l : list string) :
  existsb (String.eqb k) l = true <-> In k l.
Proof. fold (array_includes l k). apply array_includes_In. Qed.

Lemma map_get_keys {V : Type} (F : string -> V) (keys : list string) (k : string) :
  assoc k (map (fun k' => (k', F k')) keys)
  = if existsb (String.eqb k) keys then Some (F k) else None.
Proof.
  induction keys as [|y keys IH]; [reflexivity|]. cbn [map assoc existsb].
  destruct (String.eqb k y) eqn:E.
  - apply String.eqb_eq in E. subst. reflexivity.
  - exact IH.
Qed.

Lemma map_set_absent (F : string -> list SplitTransaction) (keys : list string)
    (k : string) (v : list SplitTransaction) :
  existsb (String.eqb k) keys = false ->
  map_set (map (fun k' => (k', F k')) keys) k v
  = map (fun k' => (k', F k')) keys ++ [(k, v)].
Proof.
  induction keys as [|y keys IH]; [reflexivity|]. cbn [existsb map map_set app].
  intros H. apply orb_false_iff in H as [H1 H2]. rewrite H1, (IH H2). reflexivity.
Qed.

Lemma map_set_present (F G : string -> list SplitTransaction) (keys : list string)
    (k : string) :
  NoDup keys -> In k keys ->
  (forall k', k' <> k -> G k' = F k') ->
  map_set (map (fun k' => (k', F k')) keys) k (G k)
  = map (fun k' => (k', G k')) keys.
Proof.
  intros ND Hin HG. induction ND as [|y keys Hy ND IH]; [destruct Hin|].
  cbn [map map_set]. destruct (String.eqb k y) eqn:E.
  - apply String.eqb_eq in E. subst y. f_equal.
    apply map_ext_in. intros k' Hk'. rewrite HG; [reflexivity|].
    intros ->. apply Hy. apply list_elem_of_In. exact Hk'.
  - apply String.eqb_neq in E. rewrite (HG y) by congruence. f_equal.
    apply IH. destruct Hin as [->|Hin]; [congruence|exact Hin].
Qed.

Lemma first_occurrences_NoDup (l : list string) : NoDup (first_occurrences l).
Proof.
  induction l as [|k l IH]; [constructor|]. cbn [first_occurrences].
  constructor.
  - rewrite list_elem_of_In, filter_In, negb_true_iff, String.eqb_neq.
    intros [_ H]. apply H. reflexivity.
  - apply NoDup_ListNoDup. apply List.NoDup_filter. apply NoDup_ListNoDup. exact IH.
Qed.

Lemma members_snoc (l : list SplitTransaction) (t : SplitTransaction) (k : string) :
  members (l ++ [t]) k
  = members l k
    ++ (if is_grouped t && String.eqb (parent_of t) k then [t] else []).
Proof.
  unfold members. rewrite List.filter_app. cbn [List.filter].
  destruct (is_grouped t && String.eqb (parent_of t) k); reflexivity.
Qed.

Lemma members_absent (l : list SplitTransaction) (k : string) :
  existsb (String.eqb k) (map parent_of (List.filter is_grouped l)) = false ->
  members l k = [].
Proof.
  intros H. unfold members. apply filter_none. intros x Hx.
  destruct (is_grouped x) eqn:G; [|reflexivity]. cbn [andb].
  destruct (String.eqb (parent_of x) k) eqn:E; [|reflexivity].
  apply String.eqb_eq in E. exfalso.
  assert (I : In k (map parent_of (List.filter is_grouped l))).
  { apply in_map_iff. exists x. split; [exact E|]. apply filter_In. auto. }
  apply existsb_eqb_In in I. congruence.
Qed.

(** The grouping loop: what it returns, in terms of the input list. *)
Lemma groupSplitTransactions_spec (transactions : list SplitTransaction) :
  groupSplitTransactions transactions
  = (regular_of transactions, groups_of transactions).
Proof.
  unfold groupSplitTransactions.
  induction transactions as [|t l IH] using rev_ind; [reflexivity|].
  rewrite fold_left_app, IH. cbn [fold_left group_step].
  fold (is_grouped t). fold (parent_of t). unfold map_get.
  unfold regular_of, groups_of. rewrite !List.filter_app. cbn [List.filter].
  destruct (is_grouped t) eqn:G; cbn [negb].
  - rewrite app_nil_r. f_equal.
    rewrite map_app. cbn [map]. rewrite first_occurrences_snoc.
    set (L := map parent_of (List.filter is_grouped l)).
    set (k := parent_of t).
    rewrite map_get_keys.
    assert (X : existsb (String.eqb k) (first_occurrences L)
                = existsb (String.eqb k) L).
    { apply eq_true_iff_eq. rewrite !existsb_eqb_In.
      apply first_occurrences_In. }
    rewrite X.
    assert (Gk : members (l ++ [t]) k = members l k ++ [t]).
    { rewrite members_snoc, G. subst k. rewrite String.eqb_refl. reflexivity. }
    destruct (existsb (String.eqb k) L) eqn:P.
    + rewrite <- Gk. apply map_set_present.
      * apply first_occurrences_NoDup.
      * apply first_occurrences_In, existsb_eqb_In. exact P.
      * intros k' Hk'. rewrite members_snoc, G. cbn [andb].
        replace (String.eqb (parent_of t) k') with false;
          [apply app_nil_r|].
        symmetry. apply String.eqb_neq. subst k. congruence.
    + rewrite map_set_absent by exact X.
      rewrite map_app. cbn [map]. rewrite Gk.
      rewrite (members_absent l k P). f_equal.
      apply map_ext_in. intros k' Hk'. f_equal.
      rewrite members_snoc, G. cbn [andb].
      replace (String.eqb (parent_of t) k') with false; [symmetry; apply app_nil_r|].
      symmetry. apply String.eqb_neq. intros E. fold k in E. subst k'.
      apply (proj2 (existsb_eqb_In k _)) in Hk'. congruence.
  - f_equal. rewrite app_nil_r. apply map_ext. intros k'. f_equal.
    rewrite members_snoc, G. cbn [andb]. symmetry. apply app_nil_r.
Qed.

Lemma groups_nonempty (transactions : list SplitTransaction) :
  Forall (fun g => snd g <> []) (groups_of transactions).
Proof.
  unfold groups_of. apply List.Forall_forall. intros g Hg.
  apply in_map_iff in Hg. destruct Hg as (k & <- & Hk). cbn [snd].
  apply first_occurrences_In, in_map_iff in Hk.
  destruct Hk as (t & <- & Ht). apply filter_In in Ht as [Hin Hg].
  intros E. assert (I : In t (members transactions (parent_of t))).
  { unfold members. apply filter_In. rewrite Hg, String.eqb_refl. auto. }
  rewrite E in I. exact I.
Qed.

(** C10. After the three header lines the exporter emits one block per
    non-split transaction, in input order, and then one block per split
    group, in the order in which the parent ids first occur.  The block at
    position [i] (from 0) carries the id [i + 1] in its TRNS row and in each
    of its SPL rows: one SPL row for a non-split transaction, one per
    fragment for a split group, whose TRNS row shows the date and name of
    the group's first fragment.  So the block of a non-split transaction
    always comes before the block of a split fragment, also when the fragment
    precedes it in the input. *)
Theorem generateIIF_block_order
    (transactions : list SplitTransaction) (options : IIFExportOptions) :
  let regular := regular_of transactions in
  let groups := groups_of transactions in
  groupSplitTransactions transactions = (regular, groups)
  /\ length IIF_HEADER = 3
  /\ (exists blocks : list (list string),
        generateIIF transactions options
        = join CRLF (IIF_HEADER ++ concat blocks)
        /\ length blocks = length regular + length groups
        /\ (forall i t, regular !! i = Some t ->
              exists b, blocks !! i = Some b /\ block_of_txn (i + 1) 1 t b)
        /\ (forall j g, groups !! j = Some g ->
              exists b f rest,
                blocks !! (length regular + j) = Some b
                /\ snd g = f :: rest
                /\ block_of_txn (length regular + j + 1) (length (snd g)) f b))
  /\ (forall s t, In s transactions -> In t transactions ->
        is_grouped s = true -> is_grouped t = false ->
        exists i j g,
          regular !! i = Some t /\ groups !! j = Some g /\ In s (snd g)
          /\ i < length regular + j).
Proof.
  intros regular groups.
  set (opts := merge_options DEFAULT_OPTIONS options).
  assert (E : generateIIF_lines transactions options
              = IIF_HEADER ++ blocks_of opts transactions).
  { unfold generateIIF_lines. fold opts.
    rewrite groupSplitTransactions_spec, regular_loop_spec.
    rewrite split_loop_emit_spec by apply groups_nonempty.
    cbn [fst]. unfold blocks_of. rewrite <- app_assoc. reflexivity. }
  split; [apply groupSplitTransactions_spec|].
  split; [reflexivity|].
  split.
  { exists (imap (fun i t => regular_block opts (i + 1) t) regular
            ++ imap (fun j g => group_block opts (length regular + j + 1) (snd g))
                    groups).
    split.
    { unfold generateIIF. rewrite E. unfold blocks_of. rewrite concat_app.
      reflexivity. }
    split.
    { rewrite length_app, !length_imap. reflexivity. }
    split.
    - intros i t H. eexists. split.
      + rewrite lookup_app_l by (rewrite length_imap; eapply lookup_lt_Some; exact H).
        rewrite list_lookup_imap, H. reflexivity.
      + unfold regular_block. eexists _, [_]. split; [reflexivity|].
        split; [eexists _, _, _, _; reflexivity|].
        split; [reflexivity|].
        repeat constructor. eexists. reflexivity.
    - intros j g H.
      pose proof (groups_nonempty transactions) as N.
      rewrite List.Forall_forall in N.
      assert (Ig : In g groups).
      { apply list_elem_of_In. eapply list_elem_of_lookup_2. exact H. }
      specialize (N g Ig). destruct (snd g) as [|f rest] eqn:G; [congruence|].
      eexists _, f, rest. split.
      + rewrite lookup_app_r by (rewrite length_imap; lia).
        rewrite length_imap, list_lookup_imap.
        replace (length regular + j - length regular) with j by lia.
        unfold SplitGroups in H. rewrite H. reflexivity.
      + split; [reflexivity|]. rewrite G. cbn [group_block].
        unfold split_block. eexists _, _. split; [reflexivity|].
        split; [eexists _, _, _, _; reflexivity|].
        split; [apply length_map|].
        apply List.Forall_forall. intros line Hl. apply in_map_iff in Hl.
        destruct Hl as (x & <- & _). unfold split_line. eexists. reflexivity. }
  intros s t Hs Ht Gs Gt.
  assert (It : In t regular).
  { apply filter_In. rewrite Gt. auto. }
  apply list_elem_of_In, list_elem_of_lookup_1 in It. destruct It as (i & Hi).
  assert (Ik : In (parent_of s)
                  (first_occurrences
                     (map parent_of (List.filter is_grouped transactions)))).
  { apply first_occurrences_In, in_map_iff. exists s. split; [reflexivity|].
    apply filter_In. auto. }
  apply list_elem_of_In, list_elem_of_lookup_1 in Ik. destruct Ik as (j & Hj).
  exists i, j, (parent_of s, members transactions (parent_of s)).
  split; [exact Hi|]. split.
  { subst groups. unfold groups_of, SplitGroups.
    rewrite list_lookup_fmap, Hj. reflexivity. }
  split.
  { cbn [snd]. unfold members. apply filter_In. rewrite Gs, String.eqb_refl. auto. }
  apply lookup_lt_Some in Hi. lia.
Qed.

(* ------------------------------------------------------------------ *)
(** *** Strings: joining, splitting and trimming *)

Lemma all_chars_app (P : ascii -> bool) (a b : string) :
  all_chars P (a +:+ b) = all_chars P a && all_chars P b.
Proof.
  induction a as [|c a IH]; [reflexivity|].
  rewrite append_cons. cbn [all_chars]. rewrite IH, andb_assoc. reflexivity.
Qed.

Lemma all_chars_join (P : ascii -> bool) (sep : string) (l : list string) :
  all_chars P sep = true -> Forall (fun s => all_chars P s = true) l ->
  all_chars P (join sep l) = true.
Proof.
  intros Hsep. induction 1 as [|x l Hx Hl IH]; [reflexivity|].
  destruct l as [|y l]; [exact Hx|].
  change (join sep (x :: y :: l)) with (x +:+ sep +:+ join sep (y :: l)).
  rewrite !all_chars_app, Hx, Hsep, IH. reflexivity.
Qed.

Lemma all_chars_take (P : ascii -> bool) (n : nat) (s : string) :
  all_chars P s = true -> all_chars P (take n s) = true.
Proof.
  revert s. induction n as [|n IH]; intros [|c s]; try reflexivity.
  cbn [all_chars take]. intros H. apply andb_prop in H as [H1 H2].
  rewrite H1, (IH s H2). reflexivity.
Qed.

Lemma join_cons2 (sep x y : string) (l : list string) :
  join sep (x :: y :: l) = x +:+ sep +:+ join sep (y :: l).
Proof. reflexivity. Qed.

Lemma join_snoc (sep x : string) (l : list string) :
  l <> [] -> join sep (l ++ [x]) = join sep l +:+ sep +:+ x.
Proof.
  induction l as [|y l IH]; [congruence|]. intros _.
  destruct l as [|z l]; [reflexivity|].
  change ((y :: z :: l) ++ [x]) with (y :: (z :: l) ++ [x]).
  change (join sep (y :: (z :: l) ++ [x]))
    with (y +:+ sep +:+ join sep ((z :: l) ++ [x])).
  rewrite IH by discriminate. rewrite join_cons2, !append_assoc. reflexivity.
Qed.

Lemma split_char_free (c : ascii) (s : string) :
  all_chars (not_char c) s = true -> split_char c s = [s].
Proof.
  induction s as [|a s IH]; [reflexivity|]. cbn [all_chars split_char].
  unfold not_char at 1. intros H. apply andb_prop in H as [H1 H2].
  apply negb_true_iff in H1. rewrite H1, (IH H2). reflexivity.
Qed.

Lemma split_char_app (c : ascii) (s rest : string) :
  all_chars (not_char c) s = true ->
  split_char c (s +:+ String c rest) = s :: split_char c rest.
Proof.
  induction s as [|a s IH].
  - intros _. rewrite append_nil_l. cbn [split_char].
    rewrite Ascii.eqb_refl. reflexivity.
  - cbn [all_chars]. unfold not_char at 1. intros H.
    apply andb_prop in H as [H1 H2]. apply negb_true_iff in H1.
    rewrite append_cons. cbn [split_char]. rewrite H1, (IH H2). reflexivity.
Qed.

(** Splitting what was joined gives the fields back, as long as no field
    contains the separator. *)
Lemma split_char_join (c : ascii) (fields : list string) :
  fields <> [] ->
  Forall (fun s => all_chars (not_char c) s = true) fields ->
  split_char c (join (str1 c) fields) = fields.
Proof.
  intros Hne F. induction F as [|x l Hx Hl IH]; [congruence|].
  destruct l as [|y l]; [apply split_char_free; exact Hx|].
  rewrite join_cons2.
  change (str1 c +:+ join (str1 c) (y :: l))
    with (String c (join (str1 c) (y :: l))).
  rewrite split_char_app by exact Hx. f_equal. apply IH. discriminate.
Qed.

Lemma split_lines_nonempty (s : string) : split_lines s <> [].
Proof.
  destruct s as [|a s]; [discriminate|]. cbn [split_lines].
  destruct (Ascii.eqb a LF); [discriminate|].
  destruct s as [|b s].
  - destruct (split_lines ""); discriminate.
  - destruct (Ascii.eqb a CR && Ascii.eqb b LF); [discriminate|].
    destruct (split_lines (String b s)); discriminate.
Qed.

(** A prefix without line feed stays on the first line. *)
Lemma split_lines_app (s rest : string) :
  lf_free s = true ->
  (forall r, rest <> String LF r) ->
  split_lines (s +:+ rest)
  = match split_lines rest with
    | h :: t => (s +:+ h) :: t
    | [] => [s]
    end.
Proof.
  intros Hs Hrest. induction s as [|a s IH].
  - rewrite append_nil_l. destruct (split_lines rest) eqn:R; [|reflexivity].
    exfalso. exact (split_lines_nonempty rest R).
  - unfold lf_free in Hs. cbn [all_chars] in Hs. unfold not_char at 1 in Hs.
    apply andb_prop in Hs as [H1 H2]. apply negb_true_iff in H1.
    specialize (IH H2). rewrite append_cons. cbn [split_lines]. rewrite H1.
    assert (K : match s +:+ rest with
                | String b s'' =>
                    if Ascii.eqb a CR && Ascii.eqb b LF
                    then "" :: split_lines s''
                    else match split_lines (s +:+ rest) with
                         | h :: t => String a h :: t
                         | [] => [str1 a]
                         end
                | "" => match split_lines (s +:+ rest) with
                        | h :: t => String a h :: t
                        | [] => [str1 a]
                        end
                end
                = match split_lines (s +:+ rest) with
                  | h :: t => String a h :: t
                  | [] => [str1 a]
                  end).
    { destruct (s +:+ rest) as [|b s''] eqn:E; [reflexivity|].
      assert (Hb : Ascii.eqb b LF = false).
      { destruct s as [|b' s'].
        - rewrite append_nil_l in E. apply Ascii.eqb_neq. intros ->.
          apply (Hrest s''). exact E.
        - rewrite append_cons in E. injection E as <- _.
          cbn [all_chars] in H2. unfold not_char at 1 in H2.
          apply andb_prop in H2 as [H2 _]. apply negb_true_iff in H2. exact H2. }
      rewrite Hb, andb_false_r. reflexivity. }
    rewrite K, IH. destruct (split_lines rest); reflexivity.
Qed.

Lemma split_lines_CRLF (x : string) :
  split_lines (CRLF +:+ x) = "" :: split_lines x.
Proof. reflexivity. Qed.

(** Splitting what was joined with CR LF gives the lines back, as long as
    no line contains a line feed. *)
Lemma split_lines_join (lines : list string) :
  lines <> [] ->
  Forall (fun s => lf_free s = true) lines ->
  split_lines (join CRLF lines) = lines.
Proof.
  intros Hne F. induction F as [|x l Hx Hl IH]; [congruence|].
  destruct l as [|y l].
  - cbn [join]. rewrite <- (append_empty_r x) at 1.
    rewrite split_lines_app; [|exact Hx|discriminate].
    cbn [split_lines]. rewrite append_empty_r. reflexivity.
  - rewrite join_cons2, split_lines_app; [|exact Hx|discriminate].
    rewrite split_lines_CRLF, append_empty_r. f_equal. apply IH. discriminate.
Qed.

Lemma trimEnd_ws (w : string) : all_chars is_ws w = true -> trimEnd w = "".
Proof.
  induction w as [|c w IH]; [reflexivity|]. cbn [all_chars trimEnd].
  intros H. apply andb_prop in H as [H1 H2]. rewrite (IH H2), H1. reflexivity.
Qed.

Lemma trimEnd_ws_suffix (x w : string) :
  all_chars is_ws w = true -> trimEnd (x +:+ w) = trimEnd x.
Proof.
  intros Hw. induction x as [|c x IH].
  - rewrite append_nil_l. apply trimEnd_ws. exact Hw.
  - rewrite append_cons. cbn [trimEnd]. rewrite IH. reflexivity.
Qed.

Lemma trimEnd_nonws (x : string) (d : ascii) :
  is_ws d = false -> trimEnd (x +:+ str1 d) = x +:+ str1 d.
Proof.
  intros Hd. induction x as [|c x IH].
  - rewrite append_nil_l. cbn [str1 trimEnd]. rewrite Hd. reflexivity.
  - rewrite append_cons. cbn [trimEnd]. rewrite IH.
    destruct x as [|e x]; reflexivity.
Qed.

Lemma trimStart_nonws (c : ascii) (s : string) :
  is_ws c = false -> trimStart (String c s) = String c s.
Proof. intros H. cbn [trimStart]. rewrite H. reflexivity. Qed.

(* ------------------------------------------------------------------ *)
(** *** Accounting exporter: the fields never contain a tab or line feed *)

Lemma all_chars_weaken (P Q : ascii -> bool) (s : string) :
  (forall a, P a = true -> Q a = true) ->
  all_chars P s = true -> all_chars Q s = true.
Proof.
  intros W. induction s as [|c s IH]; [reflexivity|]. cbn [all_chars].
  intros H. apply andb_prop in H as [H1 H2]. rewrite (W c H1), (IH H2). reflexivity.
Qed.

Lemma plain_tab_free (s : string) : plain_text s -> tab_free s = true.
Proof.
  apply all_chars_weaken. intros a H. apply andb_prop in H as [H _]. exact H.
Qed.

Lemma plain_lf_free (s : string) : plain_text s -> lf_free s = true.
Proof.
  apply all_chars_weaken. intros a H. apply andb_prop in H as [_ H]. exact H.
Qed.

Lemma plain_app (a b : string) : plain_text a -> plain_text b -> plain_text (a +:+ b).
Proof.
  unfold plain_text. intros Ha Hb. rewrite all_chars_app, Ha, Hb. reflexivity.
Qed.

Lemma plain_uint (u : Decimal.uint) : plain_text (NilEmpty.string_of_uint u).
Proof.
  unfold plain_text.
  induction u; cbn [NilEmpty.string_of_uint all_chars]; try rewrite IHu;
    reflexivity.
Qed.

Lemma plain_nat_to_string (n : nat) : plain_text (nat_to_string n).
Proof.
  unfold nat_to_string, NilZero.string_of_uint.
  destruct (Nat.to_uint n); try apply plain_uint. reflexivity.
Qed.

Lemma plain_Z_to_string (z : Z) : plain_text (Z_to_string z).
Proof.
  unfold Z_to_string, NilZero.string_of_int, NilZero.string_of_uint.
  destruct (Z.to_int z) as [u|u].
  - destruct u; try apply plain_uint. reflexivity.
  - change (plain_text ("-" +:+ match u with
                                | Decimal.Nil => "0"
                                | _ => NilEmpty.string_of_uint u
                                end)).
    apply plain_app; [reflexivity|].
    destruct u; try apply plain_uint. reflexivity.
Qed.

Lemma plain_padStart2 (s : string) : plain_text s -> plain_text (padStart2 s).
Proof.
  intros H. unfold padStart2. destruct (String.length s) as [|[|n]].
  - reflexivity.
  - apply plain_app; [reflexivity|exact H].
  - exact H.
Qed.

Lemma plain_formatIIFDate (d : string) : plain_text (formatIIFDate d).
Proof.
  unfold formatIIFDate. destruct (Date_local d) as [[[y m] dd]|]; [|reflexivity].
  repeat apply plain_app;
    try reflexivity;
    try (apply plain_padStart2; apply plain_nat_to_string).
  apply plain_Z_to_string.
Qed.

Lemma replace_tabs_free (s : string) : tab_free (replace_tabs s) = true.
Proof.
  unfold tab_free, replace_tabs.
  induction s as [|c s IH]; [reflexivity|]. cbn [smap all_chars]. rewrite IH.
  unfold not_char. destruct (Ascii.eqb c TAB) eqn:E; [reflexivity|].
  rewrite E. reflexivity.
Qed.

Lemma replace_newlines_cons2 (a b : ascii) (s : string) :
  replace_newlines (String a (String b s))
  = if Ascii.eqb a LF then String SP (replace_newlines (String b s))
    else if Ascii.eqb a CR && Ascii.eqb b LF
         then String SP (replace_newlines s)
         else String a (replace_newlines (String b s)).
Proof. reflexivity. Qed.

Lemma replace_newlines_plain (s : string) :
  (tab_free s = true -> plain_text (replace_newlines s))
  /\ (forall a, tab_free (String a s) = true ->
                plain_text (replace_newlines (String a s))).
Proof.
  unfold plain_text, tab_free.
  induction s as [|b s [IH1 IH2]].
  - split; [reflexivity|]. intros a H. cbn [replace_newlines].
    destruct (Ascii.eqb a LF) eqn:E; [reflexivity|].
    cbn [all_chars] in *. unfold plain_char. rewrite andb_true_r in H.
    rewrite H. unfold not_char. rewrite E. reflexivity.
  - split; [apply IH2|]. intros a H.
    change (all_chars (not_char TAB) (String a (String b s)))
      with (not_char TAB a && all_chars (not_char TAB) (String b s)) in H.
    apply andb_prop in H as [Ha Hbs].
    rewrite replace_newlines_cons2.
    destruct (Ascii.eqb a LF) eqn:E.
    + change (plain_char SP && all_chars plain_char (replace_newlines (String b s))
              = true).
      rewrite (IH2 b Hbs). reflexivity.
    + destruct (Ascii.eqb a CR && Ascii.eqb b LF).
      * change (plain_char SP && all_chars plain_char (replace_newlines s) = true).
        change (not_char TAB b && all_chars (not_char TAB) s = true) in Hbs.
        apply andb_prop in Hbs as [_ Hs]. rewrite (IH1 Hs). reflexivity.
      * change (plain_char a && all_chars plain_char (replace_newlines (String b s))
                = true).
        rewrite (IH2 b Hbs). unfold plain_char. rewrite Ha.
        unfold not_char. rewrite E. reflexivity.
Qed.

Lemma plain_escapeIIF (s : string) : plain_text (escapeIIF s).
Proof.
  unfold escapeIIF, substring_js.
  assert (H : forall x, sdrop 0 x = x) by (intros [|? ?]; reflexivity).
  rewrite H. apply all_chars_take.
  apply (proj1 (replace_newlines_plain _)). apply replace_tabs_free.
Qed.

Lemma assoc_In {V : Type} (k : string) (l : list (string * V)) (v : V) :
  assoc k l = Some v -> In (k, v) l.
Proof.
  induction l as [|[k' v'] l IH]; cbn [assoc]; [discriminate|].
  destruct (String.eqb k k') eqn:E.
  - apply String.eqb_eq in E. intros [= <-]. subst. left. reflexivity.
  - intros H. right. apply IH. exact H.
Qed.

Lemma plain_DEFAULT_CATEGORY_MAPPING :
  forallb (fun kv => all_chars plain_char (snd kv)) DEFAULT_CATEGORY_MAPPING = true.
Proof. vm_compute. reflexivity. Qed.

Lemma plain_getQBAccount (category : string) (ty : TxType) :
  plain_text (getQBAccount category ty DEFAULT_OPTIONS).
Proof.
  unfold getQBAccount. cbn [categoryMapping DEFAULT_OPTIONS].
  rewrite lookup_empty. cbn [otruthy].
  destruct (assoc category DEFAULT_CATEGORY_MAPPING) as [v|] eqn:A.
  - cbn [otruthy sor]. destruct (struthy v) eqn:T.
    + apply assoc_In in A. pose proof plain_DEFAULT_CATEGORY_MAPPING as F.
      rewrite forallb_forall in F. exact (F _ A).
    + destruct ty; reflexivity.
  - cbn [otruthy]. destruct ty; reflexivity.
Qed.

Lemma toFixed2_abs_comp (x y : Q) : (x == y)%Q -> toFixed2_abs x = toFixed2_abs y.
Proof.
  intros E. unfold toFixed2_abs.
  assert (F : Qfloor (x * 100 + (1 # 2)) = Qfloor (y * 100 + (1 # 2))).
  { apply Qfloor_comp. rewrite E. reflexivity. }
  rewrite F. reflexivity.
Qed.

Lemma toFixed2_expense (q : Q) :
  (q == 85 # 2)%Q ->
  toFixed2 (nneg (Num q)) = "-42.50"
  /\ toFixed2 (nneg (nneg (Num q))) = "42.50".
Proof.
  intros E. cbn [nneg lift1 toFixed2]. split.
  - replace (Qlt_bool (- q) 0) with true
      by (symmetry; apply Qlt_bool_iff; lra).
    rewrite (toFixed2_abs_comp (- - q) (85 # 2)) by (rewrite E; ring).
    vm_compute. reflexivity.
  - replace (Qlt_bool (- - q) 0) with false.
    + rewrite (toFixed2_abs_comp (- - q) (85 # 2)) by (rewrite E; ring).
      vm_compute. reflexivity.
    + symmetry. destruct (Qlt_bool (- - q) 0) eqn:L; [|reflexivity].
      apply Qlt_bool_iff in L. lra.
Qed.

Lemma trim_keep (x x' : string) (c d : ascii) :
  x = String c x' -> is_ws c = false -> is_ws d = false ->
  trim (x +:+ str1 d) = x +:+ str1 d.
Proof.
  intros -> Hc Hd. unfold trim. rewrite append_cons.
  rewrite trimStart_nonws by exact Hc. rewrite <- append_cons.
  apply trimEnd_nonws. exact Hd.
Qed.

Lemma trim_drop_ws (x x' w : string) (c d : ascii) :
  x = String c x' -> is_ws c = false -> is_ws d = false ->
  all_chars is_ws w = true ->
  trim ((x +:+ str1 d) +:+ w) = x +:+ str1 d.
Proof.
  intros -> Hc Hd Hw. unfold trim. rewrite !append_cons.
  rewrite trimStart_nonws by exact Hc. rewrite <- !append_cons.
  rewrite trimEnd_ws_suffix by exact Hw. apply trimEnd_nonws. exact Hd.
Qed.

Lemma iif_step_dispatch (st : IIFState) (i : nat) (raw_line : string)
    (c : ascii) (s : string) :
  trim raw_line = String c s -> Ascii.eqb "!" c = false ->
  iif_step st i raw_line = iif_dispatch st i (split_char TAB (String c s)).
Proof.
  intros E H. unfold iif_step. rewrite E. cbn [struthy negb orb startsWith].
  rewrite H. reflexivity.
Qed.

(* ------------------------------------------------------------------ *)
(** *** Accounting exporter and validator: one expense of 42.50 *)

Lemma generateIIF_lines_single (t : SplitTransaction) (q : Q) :
  is_grouped t = false ->
  type (base t) = expense ->
  amount (base t) = Num q -> (q == 85 # 2)%Q ->
  generateIIF_lines [t] no_options
  = IIF_HEADER ++ [ join (str1 TAB) (trns_fields_42 (base t));
                    join (str1 TAB) (spl_fields_42 (base t));
                    "ENDTRNS" ].
Proof.
  intros Hg Hty Ha Hq. unfold generateIIF_lines.
  change (merge_options DEFAULT_OPTIONS no_options) with DEFAULT_OPTIONS.
  rewrite groupSplitTransactions_spec.
  unfold regular_of, groups_of. cbn [List.filter map]. rewrite Hg.
  cbn [negb map first_occurrences fold_left regular_step].
  cbn [fst]. f_equal. unfold regular_block.
  rewrite Hty, Ha. destruct (toFixed2_expense q Hq) as [-> ->].
  reflexivity.
Qed.

Lemma plain_trns_fields (t : Transaction) :
  Forall plain_text (trns_fields_42 t).
Proof.
  unfold trns_fields_42.
  repeat (constructor;
          [first [reflexivity | apply plain_formatIIFDate | apply plain_escapeIIF]|]).
  constructor.
Qed.

Lemma plain_spl_fields (t : Transaction) :
  Forall plain_text (spl_fields_42 t).
Proof.
  unfold spl_fields_42.
  repeat (constructor;
          [first [reflexivity | apply plain_formatIIFDate | apply plain_escapeIIF
                 | apply plain_getQBAccount]|]).
  constructor.
Qed.

Lemma plain_join_tab (fields : list string) :
  Forall plain_text fields -> lf_free (join (str1 TAB) fields) = true.
Proof.
  intros F. apply all_chars_join; [reflexivity|].
  eapply List.Forall_impl; [|exact F]. intros s. apply plain_lf_free.
Qed.

Lemma Forall_tab_free (fields : list string) :
  Forall plain_text fields ->
  Forall (fun s => all_chars (not_char TAB) s = true) fields.
Proof.
  intros F. eapply List.Forall_impl; [|exact F]. intros s. apply plain_tab_free.
Qed.

Lemma iif_step_skip (st : IIFState) (i : nat) (l : string) :
  negb (struthy (trim l)) || startsWith (trim l) "!" = true ->
  iif_step st i l = st.
Proof. intros H. unfold iif_step. rewrite H. reflexivity. Qed.

Lemma iif_step_line (st : IIFState) (i : nat) (raw_line line : string) :
  trim raw_line = line ->
  negb (struthy line) || startsWith line "!" = false ->
  iif_step st i raw_line = iif_dispatch st i (split_char TAB line).
Proof. intros E H. unfold iif_step. rewrite E, H. reflexivity. Qed.

Lemma trim_trns_line (t : Transaction) :
  trim (join (str1 TAB) (trns_fields_42 t)) = join (str1 TAB) (trns_fields_42 t).
Proof.
  unfold trns_fields_42.
  match goal with
  | |- context [join _ [?a; ?b; ?c; ?d; ?e; ?f; ?g; ?h; ?i; ?j; ?k]] =>
      change [a; b; c; d; e; f; g; h; i; j; k]
        with ([a; b; c; d; e; f; g; h; i; j] ++ [k])
  end.
  rewrite join_snoc by discriminate. rewrite <- append_assoc.
  eapply trim_keep; reflexivity.
Qed.

Lemma trim_spl_line (t : Transaction) :
  trim (join (str1 TAB) (spl_fields_42 t))
  = join (str1 TAB) (List.firstn 10 (spl_fields_42 t)).
Proof.
  unfold spl_fields_42. cbn [List.firstn].
  match goal with
  | |- context [join _ [?a; ?b; ?c; ?d; ?e; ?f; ?g; ?h; ?i; ?j; ?k; ?l]] =>
      change [a; b; c; d; e; f; g; h; i; j; k; l]
        with ((([a; b; c; d; e; f; g; h; i] ++ [j]) ++ [k]) ++ [l]);
      change [a; b; c; d; e; f; g; h; i; j]
        with ([a; b; c; d; e; f; g; h; i] ++ [j])
  end.
  rewrite !join_snoc by discriminate.
  rewrite <- !append_assoc.
  rewrite !append_empty_r.
  match goal with
  | |- trim (((?y +:+ "N") +:+ _) +:+ _) = _ =>
      rewrite (append_assoc (y +:+ "N"))
  end.
  eapply trim_drop_ws; reflexivity.
Qed.

Lemma Qeq_bool_false (a : Q) : ~ (a == 0)%Q -> Qeq_bool a 0 = false.
Proof.
  intros H. destruct (Qeq_bool a 0) eqn:E; [|reflexivity].
  apply Qeq_bool_iff in E. contradiction.
Qed.

(** The three transitions of the block state machine. *)
Lemma iif_dispatch_TRNS (st : IIFState) (i : nat) (rest : list string) :
  iif_dispatch st i ("TRNS" :: rest)
  = let parts := "TRNS" :: rest in
    let amount := nor (parseFloat (part_or parts 6 "0")) n0 in
    let s := st_stats st in
    mkIIFState
      (if inTransaction st
       then st_errors st ++
            [ "Line " +:+ nat_to_string (i + 1)
              +:+ ": TRNS without ENDTRNS for previous transaction" ]
       else st_errors st)
      (st_warnings st)
      (if nge amount n0
       then mkIIFStats (transactionCount s + 1) (splitCount s)
                       (totalDebit s) (nadd (totalCredit s) amount)
       else mkIIFStats (transactionCount s + 1) (splitCount s)
                       (nadd (totalDebit s) (nabs amount)) (totalCredit s))
      true amount n0 (part_or parts 1 "").
Proof. reflexivity. Qed.

Lemma iif_dispatch_SPL (st : IIFState) (i : nat) (rest : list string) :
  iif_dispatch st i ("SPL" :: rest)
  = let parts := "SPL" :: rest in
    let s := st_stats st in
    mkIIFState
      (if negb (inTransaction st)
       then st_errors st ++
            [ "Line " +:+ nat_to_string (i + 1) +:+ ": SPL without TRNS" ]
       else st_errors st)
      (st_warnings st)
      (mkIIFStats (transactionCount s) (splitCount s + 1)
                  (totalDebit s) (totalCredit s))
      (inTransaction st) (currentTrnsAmount st)
      (nadd (currentSplitsTotal st)
            (nor (parseFloat (part_or parts 6 "0")) n0))
      (currentTrnsId st).
Proof. reflexivity. Qed.

Lemma iif_dispatch_ENDTRNS (st : IIFState) (i : nat) (rest : list string) :
  iif_dispatch st i ("ENDTRNS" :: rest)
  = let errors :=
      if negb (inTransaction st)
      then st_errors st ++
           [ "Line " +:+ nat_to_string (i + 1) +:+ ": ENDTRNS without TRNS" ]
      else st_errors st in
    mkIIFState
      (if ngt (nabs (nadd (currentTrnsAmount st) (currentSplitsTotal st))) cent
       then errors ++
            [ "Transaction " +:+ currentTrnsId st +:+ ": TRNS ("
              +:+ toFixed2 (currentTrnsAmount st) +:+ ") + SPL ("
              +:+ toFixed2 (currentSplitsTotal st) +:+ ") should equal 0" ]
       else errors)
      (st_warnings st) (st_stats st) false
      (currentTrnsAmount st) (currentSplitsTotal st) (currentTrnsId st).
Proof. reflexivity. Qed.

Lemma iif_loop_header (rest : list string) (st : IIFState) :
  iif_loop (IIF_HEADER ++ rest) 0 st = iif_loop rest 3 st.
Proof.
  change (iif_loop (IIF_HEADER ++ rest) 0 st)
    with (iif_loop rest 3
            (iif_step (iif_step (iif_step st 0 (nth 0 IIF_HEADER ""))
                                1 (nth 1 IIF_HEADER ""))
                      2 (nth 2 IIF_HEADER ""))).
  rewrite (iif_step_skip st 0) by (vm_compute; reflexivity).
  rewrite (iif_step_skip st 1) by (vm_compute; reflexivity).
  rewrite (iif_step_skip st 2) by (vm_compute; reflexivity).
  reflexivity.
Qed.

(** C3. For one non-split expense of 42.50 the exporter writes, after the
    header, a TRNS line whose amount field is -42.50, an SPL line whose amount
    field is 42.50 and ENDTRNS; the validator finds no error in that text and
    counts one transaction (and one offset entry). *)
Theorem generateIIF_validateIIF_roundtrip (t : SplitTransaction) (q : Q) :
  is_grouped t = false ->
  type (base t) = expense ->
  amount (base t) = Num q -> (q == 85 # 2)%Q ->
  is_num (parseFloat "-42.50") (- (85 # 2)) ->
  is_num (parseFloat "42.50") (85 # 2) ->
  let content := generateIIF [t] no_options in
  (exists trns spl,
      split_lines content = IIF_HEADER ++ [trns; spl; "ENDTRNS"]
      /\ split_char TAB trns !! 0 = Some "TRNS"
      /\ split_char TAB trns !! 6 = Some "-42.50"
      /\ split_char TAB spl !! 0 = Some "SPL"
      /\ split_char TAB spl !! 6 = Some "42.50")
  /\ errors (validateIIF content) = []
  /\ valid (validateIIF content) = true
  /\ transactionCount (stats (validateIIF content)) = 1
  /\ splitCount (stats (validateIIF content)) = 1.
Proof.
  intros Hg Hty Ha Hq Pneg Ppos content.
  set (trns := join (str1 TAB) (trns_fields_42 (base t))).
  set (spl := join (str1 TAB) (spl_fields_42 (base t))).
  assert (SL : split_lines content = IIF_HEADER ++ [trns; spl; "ENDTRNS"]).
  { subst content. unfold generateIIF.
    rewrite (generateIIF_lines_single t q Hg Hty Ha Hq).
    apply split_lines_join; [discriminate|].
    apply List.Forall_app. split.
    - repeat (constructor; [reflexivity|]). constructor.
    - constructor; [apply plain_join_tab, plain_trns_fields|].
      constructor; [apply plain_join_tab, plain_spl_fields|].
      constructor; [reflexivity|constructor]. }
  assert (Ftrns : split_char TAB trns = trns_fields_42 (base t)).
  { apply split_char_join; [discriminate|].
    apply Forall_tab_free, plain_trns_fields. }
  assert (Fspl : split_char TAB spl = spl_fields_42 (base t)).
  { apply split_char_join; [discriminate|].
    apply Forall_tab_free, plain_spl_fields. }
  split.
  { exists trns, spl. rewrite Ftrns, Fspl. repeat split; try reflexivity. exact SL. }
  destruct (parseFloat "-42.50") as [|a] eqn:Pa; [destruct Pneg|].
  destruct (parseFloat "42.50") as [|b] eqn:Pb; [destruct Ppos|].
  cbn [is_num] in Pneg, Ppos.
  set (st0 := mkIIFState [] [] (mkIIFStats 0 0 n0 n0) false n0 n0 "").
  assert (Za : Qeq_bool a 0 = false) by (apply Qeq_bool_false; lra).
  assert (Zb : Qeq_bool b 0 = false) by (apply Qeq_bool_false; lra).
  assert (S1 : iif_dispatch st0 3 (trns_fields_42 (base t))
               = mkIIFState [] [] (mkIIFStats 1 0 (nadd n0 (nabs (Num a))) n0)
                            true (Num a) n0 "1").
  { unfold trns_fields_42. rewrite iif_dispatch_TRNS. cbn zeta.
    unfold part_or. cbn [lookup list_lookup sor struthy]. rewrite Pa.
    unfold nor, ntruthy. rewrite Za. cbn [negb].
    replace (nge (Num a) n0) with false; [reflexivity|].
    symmetry. unfold nge, nle, n0.
    destruct (Qle_bool 0 a) eqn:L; [|reflexivity].
    apply Qle_bool_iff in L. lra. }
  assert (Tspl : trim spl = join (str1 TAB) (List.firstn 10 (spl_fields_42 (base t))))
    by apply trim_spl_line.
  assert (S2 : iif_step (mkIIFState [] [] (mkIIFStats 1 0 (nadd n0 (nabs (Num a))) n0)
                            true (Num a) n0 "1") 4 spl
               = mkIIFState [] [] (mkIIFStats 1 1 (nadd n0 (nabs (Num a))) n0)
                            true (Num a) (nadd n0 (Num b)) "1").
  { rewrite (iif_step_line _ _ spl _ Tspl) by reflexivity.
    rewrite split_char_join;
      [|discriminate
       |apply Forall_tab_free, Forall_take, plain_spl_fields].
    unfold spl_fields_42. cbn [List.firstn]. rewrite iif_dispatch_SPL. cbn zeta.
    unfold part_or. cbn [lookup list_lookup sor struthy]. rewrite Pb.
    unfold nor, ntruthy. rewrite Zb. reflexivity. }
  assert (S3 : iif_step (mkIIFState [] [] (mkIIFStats 1 1 (nadd n0 (nabs (Num a))) n0)
                            true (Num a) (nadd n0 (Num b)) "1") 5 "ENDTRNS"
               = mkIIFState [] [] (mkIIFStats 1 1 (nadd n0 (nabs (Num a))) n0)
                            false (Num a) (nadd n0 (Num b)) "1").
  { rewrite (iif_step_line _ _ "ENDTRNS" "ENDTRNS") by reflexivity.
    change (split_char TAB "ENDTRNS") with ["ENDTRNS"].
    rewrite iif_dispatch_ENDTRNS. cbn zeta.
    cbn [inTransaction negb st_errors currentTrnsAmount currentSplitsTotal
         st_warnings st_stats currentTrnsId].
    replace (ngt (nabs (nadd (Num a) (nadd n0 (Num b)))) cent) with false;
      [reflexivity|].
    symmetry. cbn [nadd nabs lift1 lift2 n0 ngt nlt cent].
    destruct (Qlt_bool (1 # 100) (Qabs (a + (0 + b)))) eqn:L; [|reflexivity].
    apply Qlt_bool_iff in L.
    assert (Z : (Qabs (a + (0 + b)) == 0)%Q).
    { rewrite <- Qabs_wd with (x := 0%Q); [reflexivity|]. rewrite Pneg, Ppos. ring. }
    rewrite Z in L. discriminate L. }
  assert (V : validateIIF content
              = mkIIFValidationResult true [] []
                  (mkIIFStats 1 1 (nadd n0 (nabs (Num a))) n0)).
  { unfold validateIIF. rewrite SL.
    replace (existsb (fun l => startsWith l "!TRNS")
                     (IIF_HEADER ++ [trns; spl; "ENDTRNS"])) with true
      by reflexivity.
    cbn [negb]. fold st0. rewrite iif_loop_header. cbn [iif_loop].
    rewrite (iif_step_line _ _ trns trns);
      [|apply trim_trns_line|reflexivity].
    rewrite Ftrns, S1.
    change (3 + 1) with 4. rewrite S2. change (4 + 1) with 5. rewrite S3.
    reflexivity. }
  rewrite V. repeat split.
Qed.

(* ------------------------------------------------------------------ *)
(** *** Text escaping of the exporter *)

Lemma sdrop_0 (s : string) : sdrop 0 s = s.
Proof. destruct s; reflexivity. Qed.

Lemma take_length_le (n : nat) (s : string) : String.length (take n s) <= n.
Proof.
  revert s. induction n as [|n IH]; intros [|c s]; cbn [take String.length]; try lia.
  specialize (IH s). lia.
Qed.

Lemma take_all (n : nat) (s : string) : String.length s <= n -> take n s = s.
Proof.
  revert s. induction n as [|n IH]; intros [|c s]; cbn [take String.length];
    try reflexivity; try lia.
  intros H. rewrite IH by lia. reflexivity.
Qed.

Lemma replace_tabs_id (s : string) : tab_free s = true -> replace_tabs s = s.
Proof.
  induction s as [|c s IH]; [reflexivity|].
  unfold tab_free, replace_tabs in *. cbn [all_chars smap].
  unfold not_char at 1. intros H. apply andb_prop in H as [H1 H2].
  apply negb_true_iff in H1. rewrite H1, (IH H2). reflexivity.
Qed.

Lemma replace_newlines_id (s : string) : lf_free s = true -> replace_newlines s = s.
Proof.
  induction s as [|c s IH]; [reflexivity|].
  unfold lf_free in *. cbn [all_chars]. unfold not_char at 1. intros H.
  apply andb_prop in H as [H1 H2]. apply negb_true_iff in H1.
  destruct s as [|b s].
  - cbn [replace_newlines]. rewrite H1. reflexivity.
  - rewrite replace_newlines_cons2, H1.
    assert (Hb : Ascii.eqb b LF = false).
    { cbn [all_chars] in H2. unfold not_char at 1 in H2.
      apply andb_prop in H2 as [H2 _]. apply negb_true_iff in H2. exact H2. }
    rewrite Hb, andb_false_r, (IH H2). reflexivity.
Qed.

Lemma escapeIIF_fixed (s : string) :
  plain_text s -> String.length s <= 100 -> escapeIIF s = s.
Proof.
  intros Hp Hl. unfold escapeIIF, substring_js.
  rewrite (replace_tabs_id s (plain_tab_free s Hp)).
  rewrite (replace_newlines_id s (plain_lf_free s Hp)).
  rewrite sdrop_0. apply take_all. exact Hl.
Qed.

(** X1. [escapeIIF] makes any text safe for a tab-delimited line: its result
    holds no tab and no line feed and is at most 100 characters long; a text
    that is already such is returned unchanged, so that escaping twice is the
    same as escaping once. *)
Theorem escapeIIF_spec (s : string) :
  plain_text (escapeIIF s)
  /\ String.length (escapeIIF s) <= 100
  /\ escapeIIF (escapeIIF s) = escapeIIF s
  /\ (tab_free s = true -> lf_free s = true -> String.length s <= 100 ->
      escapeIIF s = s).
Proof.
  assert (L : String.length (escapeIIF s) <= 100).
  { unfold escapeIIF, substring_js. apply take_length_le. }
  split; [apply plain_escapeIIF|]. split; [exact L|]. split.
  - apply escapeIIF_fixed; [apply plain_escapeIIF|exact L].
  - intros Ht Hl Hn. unfold escapeIIF, substring_js.
    rewrite (replace_tabs_id s Ht), (replace_newlines_id s Hl), sdrop_0.
    apply take_all. exact Hn.
Qed.

(* ------------------------------------------------------------------ *)
(** *** Dates of the markup format *)

Lemma split_char_nonempty (c : ascii) (s : string) : split_char c s <> [].
Proof.
  destruct s as [|a s]; [discriminate|]. cbn [split_char].
  destruct (Ascii.eqb a c); [discriminate|].
  destruct (split_char c s); discriminate.
Qed.

Lemma split_char_head (c : ascii) (a b : string) :
  all_chars (not_char c) a = true ->
  exists h t, split_char c b = h :: t
              /\ split_char c (a +:+ b) = (a +:+ h) :: t.
Proof.
  induction a as [|x a IH]; intros H.
  - destruct (split_char c b) as [|h t] eqn:E;
      [exfalso; exact (split_char_nonempty c b E)|].
    exists h, t. rewrite !append_nil_l. split; [reflexivity|exact E].
  - cbn [all_chars] in H. unfold not_char at 1 in H.
    apply andb_prop in H as [H1 H2]. apply negb_true_iff in H1.
    destruct (IH H2) as (h & t & E1 & E2). exists h, t. split; [exact E1|].
    rewrite !append_cons. cbn [split_char]. rewrite H1, E2. reflexivity.
Qed.

Lemma split_char_first (c : ascii) (s : string) :
  match split_char c s with h :: _ => h | [] => "" end = until_char c s.
Proof.
  induction s as [|a s IH]; [reflexivity|]. cbn [split_char until_char].
  destruct (Ascii.eqb a c); [reflexivity|].
  destruct (split_char c s) as [|h t] eqn:E; [|rewrite <- IH; reflexivity].
  exfalso. exact (split_char_nonempty c s E).
Qed.

(** X2. [parseOFXDate] gives the empty string for the empty string.  For any
    other argument it reads the text before the first opening bracket and
    returns its characters 0 to 4, 4 to 6 and 6 to 8 joined by hyphens, a part
    being shorter or empty when that text is shorter.  So for an argument
    that begins with eight characters none of which is a bracket it returns
    them as year, month and day and ignores whatever follows (a time of day,
    a bracketed time zone), while [2024[031]5] gives [2024--]. *)
Theorem parseOFXDate_spec :
  parseOFXDate "" = ""
  /\ (forall s : string, s <> "" ->
        parseOFXDate s
        = let clean := until_char "[" s in
          take 4 clean +:+ "-" +:+ take 2 (sdrop 4 clean)
          +:+ "-" +:+ take 2 (sdrop 6 clean))
  /\ (forall y m d rest : string,
        String.length y = 4 -> String.length m = 2 -> String.length d = 2 ->
        all_chars (not_char "[") (y +:+ m +:+ d) = true ->
        parseOFXDate (y +:+ m +:+ d +:+ rest) = y +:+ "-" +:+ m +:+ "-" +:+ d)
  /\ parseOFXDate "2024[031]5" = "2024--".
Proof.
  split; [reflexivity|]. split; [|split; [|reflexivity]].
  - intros s Hs. unfold parseOFXDate.
    destruct s as [|a s]; [congruence|]. cbn [struthy negb].
    rewrite split_char_first. reflexivity.
  - intros y m d rest Hy Hm Hd Hfree.
    unfold parseOFXDate.
    assert (Hne : struthy (y +:+ m +:+ d +:+ rest) = true).
    { destruct y; [discriminate|]. rewrite append_cons. reflexivity. }
    rewrite Hne. cbn [negb].
    replace (y +:+ m +:+ d +:+ rest) with ((y +:+ m +:+ d) +:+ rest)
      by (rewrite !append_assoc; reflexivity).
    destruct (split_char_head "[" (y +:+ m +:+ d) rest Hfree) as (h & t & _ & ->).
    destruct y as [|y1 [|y2 [|y3 [|y4 [|? ?]]]]]; try discriminate Hy.
    destruct m as [|m1 [|m2 [|? ?]]]; try discriminate Hm.
    destruct d as [|d1 [|d2 [|? ?]]]; try discriminate Hd.
    rewrite !append_cons, !append_nil_l, !append_cons, !append_nil_l.
    reflexivity.
Qed.

(* ------------------------------------------------------------------ *)
(** *** Column resolution of the delimited-text parser *)

Lemma indexOf_Some (a : list string) (x : string) (i : nat) :
  indexOf a x = Some i <->
  a !! i = Some x /\ forall j y, j < i -> a !! j = Some y -> y <> x.
Proof.
  revert i. induction a as [|y a IH]; intros i.
  - cbn [indexOf]. split; [discriminate|]. intros [H _]. discriminate H.
  - cbn [indexOf]. destruct (String.eqb y x) eqn:E.
    + apply String.eqb_eq in E. subst y. split.
      * intros [= <-]. split; [reflexivity|]. intros j z Hj. lia.
      * intros [H1 H2]. destruct i as [|i]; [reflexivity|].
        exfalso. apply (H2 0 x); [lia|reflexivity|reflexivity].
    + apply String.eqb_neq in E. destruct (indexOf a x) as [k|] eqn:Ik.
      * split.
        -- intros [= <-]. destruct (proj1 (IH k) eq_refl) as [H1 H2].
           split; [exact H1|]. intros [|j] z Hj Hz.
           ++ cbn in Hz. injection Hz as <-. exact E.
           ++ apply (H2 j z); [lia|exact Hz].
        -- intros [H1 H2]. destruct i as [|i].
           ++ cbn in H1. injection H1 as ->. contradiction.
           ++ f_equal. assert (Hi : Some k = Some i); [|congruence].
              apply IH. split; [exact H1|].
              intros j z Hj Hz. apply (H2 (S j) z); [lia|exact Hz].
      * split; [discriminate|]. intros [H1 H2]. destruct i as [|i].
        -- cbn in H1. injection H1 as ->. contradiction.
        -- exfalso. assert (Hi : None = Some i); [|discriminate].
           apply IH. split; [exact H1|].
           intros j z Hj Hz. apply (H2 (S j) z); [lia|exact Hz].
Qed.

Lemma indexOf_None (a : list string) (x : string) :
  indexOf a x = None <-> ~ In x a.
Proof.
  split.
  - intros H Hin. exact (indexOf_In a x Hin H).
  - intros H. destruct (indexOf a x) as [i|] eqn:E; [|reflexivity].
    exfalso. apply H. apply indexOf_Some in E as [E _].
    apply list_elem_of_In. eapply list_elem_of_lookup_2. exact E.
Qed.

Lemma findColumn_loop_spec (headers ms : list string) :
  match findColumn_loop headers (map norm_header headers) ms with
  | Some h =>
      exists i j,
        ms !! i = Some (norm_header h) /\ headers !! j = Some h
        /\ (forall i' m', i' < i -> ms !! i' = Some m' ->
            forall h', In h' headers -> norm_header h' <> m')
        /\ (forall j' h', j' < j -> headers !! j' = Some h' ->
            norm_header h' <> norm_header h)
  | None => forall h, In h headers -> ~ In (norm_header h) ms
  end.
Proof.
  induction ms as [|m ms IH]; cbn [findColumn_loop].
  - intros h _ [].
  - destruct (indexOf (map norm_header headers) m) as [j|] eqn:E.
    + apply indexOf_Some in E as [E1 E2].
      rewrite list_lookup_fmap in E1.
      destruct (headers !! j) as [h|] eqn:Hj; [|discriminate E1].
      cbn in E1. injection E1 as E1. exists 0, j.
      split; [cbn; congruence|]. split; [exact Hj|]. split.
      * intros i' m' Hi. lia.
      * intros j' h' Hlt Hj' Heq.
        apply (E2 j' (norm_header h')); [exact Hlt| |congruence].
        rewrite list_lookup_fmap, Hj'. reflexivity.
    + apply indexOf_None in E.
      assert (Hm : forall h', In h' headers -> norm_header h' <> m).
      { intros h' Hin <-. apply E. apply in_map. exact Hin. }
      destruct (findColumn_loop headers (map norm_header headers) ms) as [h|].
      * destruct IH as (i & j & H1 & H2 & H3 & H4). exists (S i), j.
        split; [exact H1|]. split; [exact H2|]. split; [|exact H4].
        intros [|i'] m' Hlt Hi'.
        -- cbn in Hi'. injection Hi' as <-. exact Hm.
        -- apply (H3 i'); [lia|exact Hi'].
      * intros h Hin [E'|Hin'].
        -- exact (Hm h Hin (eq_sym E')).
        -- exact (IH h Hin Hin').
Qed.

(** X3. [findColumn] compares headers lower-cased and trimmed.  When it
    returns a header, that header stands in the list, its spelling is one of
    the mappings, no earlier mapping is the spelling of any header (the order
    of the mappings decides, not the order of the columns), and it is the
    first header with that spelling.  It returns nothing exactly when no
    header is spelled like any mapping. *)
Theorem findColumn_spec (headers ms : list string) :
  (forall h, findColumn headers ms = Some h ->
     exists i j,
       ms !! i = Some (norm_header h) /\ headers !! j = Some h
       /\ (forall i' m', i' < i -> ms !! i' = Some m' ->
           forall h', In h' headers -> norm_header h' <> m')
       /\ (forall j' h', j' < j -> headers !! j' = Some h' ->
           norm_header h' <> norm_header h))
  /\ (findColumn headers ms = None <->
      forall h, In h headers -> ~ In (norm_header h) ms).
Proof.
  pose proof (findColumn_loop_spec headers ms) as H.
  change (findColumn headers ms)
    with (findColumn_loop headers (map norm_header headers) ms).
  destruct (findColumn_loop headers (map norm_header headers) ms) as [h|].
  - split.
    + intros h' [= <-]. exact H.
    + split; [discriminate|]. intros Hno. exfalso.
      destruct H as (i & j & H1 & H2 & _).
      apply (Hno h).
      * apply list_elem_of_In. eapply list_elem_of_lookup_2. exact H2.
      * apply list_elem_of_In. eapply list_elem_of_lookup_2. exact H1.
  - split; [discriminate|]. split; [intros _; exact H|reflexivity].
Qed.

(* ------------------------------------------------------------------ *)
(** *** Categorizing a whole list; account labels *)

Lemma set_category_same (t : Transaction) : set_category t (category t) = t.
Proof. destruct t; reflexivity. Qed.

Lemma categorizeTransaction_kept (t : Transaction) :
  keeps (category t) = true -> categorizeTransaction t = category t.
Proof.
  intros H. unfold categorizeTransaction. unfold keeps in H. rewrite H.
  reflexivity.
Qed.

(** X4. [categorizeAllTransactions] returns one transaction per input, in
    order; it changes nothing but the category; a transaction that already
    carries a label other than the placeholder is returned as it is; no
    transaction of the result is left without a label or with the
    placeholder; and categorizing a second time changes nothing. *)
Theorem categorizeAllTransactions_spec (ts : list Transaction) :
  length (categorizeAllTransactions ts) = length ts
  /\ Forall2 (fun t t' =>
                date t' = date t /\ description t' = description t
                /\ amount t' = amount t /\ type t' = type t
                /\ balance t' = balance t /\ account t' = account t
                /\ (keeps (category t) = true -> t' = t))
             ts (categorizeAllTransactions ts)
  /\ Forall (fun t' => category t' <> "" /\ category t' <> "Uncategorized")
            (categorizeAllTransactions ts)
  /\ categorizeAllTransactions (categorizeAllTransactions ts)
     = categorizeAllTransactions ts.
Proof.
  unfold categorizeAllTransactions. split; [apply length_map|].
  split; [|split].
  - induction ts as [|t ts IH]; [constructor|]. cbn [map]. constructor; [|exact IH].
    repeat (split; [reflexivity|]).
    intros H. rewrite (categorizeTransaction_kept t H). apply set_category_same.
  - apply List.Forall_forall. intros t' Hin. apply in_map_iff in Hin as (t & <- & _).
    cbn [set_category category]. apply keeps_iff. apply categorize_result_kept.
  - rewrite map_map. apply map_ext. intros t.
    rewrite (categorizeTransaction_kept (set_category t (categorizeTransaction t))).
    + reflexivity.
    + apply categorize_result_kept.
Qed.

(** X5. The two parsers label accounts alike: whenever the file name decides
    the label for the delimited-text parser (it contains check, chk, saving,
    sav, credit or cc, in any case), the markup parser gives the same label,
    whatever the content; and both only ever produce one of four labels. *)
Theorem inferAccountType_filename (filename content : string) :
  (inferAccountFromFilename filename <> "Account" ->
   inferAccountType filename content = inferAccountFromFilename filename)
  /\ In (inferAccountFromFilename filename)
        ["Checking"; "Savings"; "Credit Card"; "Account"]
  /\ In (inferAccountType filename content)
        ["Checking"; "Savings"; "Credit Card"; "Account"].
Proof.
  unfold inferAccountType, inferAccountFromFilename.
  destruct (includes (toLowerCase filename) "check"
            || includes (toLowerCase filename) "chk");
    [split; [reflexivity|split; cbn; auto]|].
  destruct (includes (toLowerCase filename) "saving"
            || includes (toLowerCase filename) "sav");
    [split; [reflexivity|split; cbn; auto]|].
  destruct (includes (toLowerCase filename) "credit"
            || includes (toLowerCase filename) "cc");
    [split; [reflexivity|split; cbn; auto]|].
  split; [congruence|]. split; [cbn; auto|].
  repeat match goal with
         | |- context [if ?b then _ else _] => destruct b
         end; cbn; auto.
Qed.

(* ------------------------------------------------------------------ *)
(** *** The whole-file check *)

Lemma validateBalanceConsistency_report
    (rows : list (gmap string string)) (filename : string)
    (columns : BalanceColumns) :
  2 <= length rows ->
  validateBalanceConsistency rows filename columns
  = balance_report rows filename columns.
Proof.
  intros L. unfold validateBalanceConsistency.
  destruct (Nat.ltb (length rows) 2) eqn:E; [apply Nat.ltb_lt in E; lia|].
  rewrite balance_loop_spec by lia. cbn zeta.
  rewrite Nat.sub_0_r, Nat.add_0_l. cbn [app].
  unfold balance_report. fold (violations rows columns).
  destruct (Nat.ltb maxErrors (length (violations rows columns)));
    [reflexivity|symmetry; apply app_nil_r].
Qed.

Lemma validateBalanceConsistency_nil
    (rows : list (gmap string string)) (filename : string)
    (columns : BalanceColumns) :
  validateBalanceConsistency rows filename columns = [] ->
  violations rows columns = [].
Proof.
  destruct (Nat.le_gt_cases 2 (length rows)) as [L|L].
  - rewrite validateBalanceConsistency_report by exact L.
    unfold balance_report.
    destruct (violations rows columns) as [|v vs]; [reflexivity|].
    unfold maxErrors. cbn [firstn map app]. discriminate.
  - intros _. unfold violations.
    replace (length rows - 1) with 0 by lia. reflexivity.
Qed.

Lemma validateRequiredColumns_nil (headers required : list string)
    (filename : string) :
  validateRequiredColumns headers filename required = [] ->
  missing_columns headers required = [].
Proof.
  unfold validateRequiredColumns. fold (missing_columns headers required).
  destruct (missing_columns headers required) as [|c cs]; [reflexivity|].
  cbn [length Nat.ltb Nat.leb]. discriminate.
Qed.

Lemma length_eqb_0 {A : Type} (l : list A) :
  Nat.eqb (length l) 0 = true -> l = [].
Proof. destruct l; [reflexivity|discriminate]. Qed.

Lemma find_header_truthy (headers names : list string) (h : string) :
  find_header headers names = Some h ->
  array_includes names "" = false -> otruthy (Some h) = true.
Proof.
  intros Hf Hn. apply find_some in Hf as [_ Hf].
  destruct h as [|c h]; [|reflexivity].
  cbn [toLowerCase smap] in Hf. congruence.
Qed.


(* ------------------------------------------------------------------ *)
(** *** Validation of split allocations *)

Lemma allocation_step_errors (total i : nat) (a : SplitAllocation)
    (errors warnings : list string) :
  exists extra,
    fst (allocation_step total (errors, warnings) i a) = errors ++ extra
    /\ (extra = [] <-> allocation_ok a = true).
Proof.
  unfold allocation_step, allocation_ok. fold (blank (sa_category a)).
  destruct (blank (sa_category a));
    destruct (percentage a) as [p|];
    try destruct (nlt p n0 || ngt p n100);
    destruct (fixedAmount a) as [f|];
    try destruct (nlt f n0);
    cbn [fst negb andb];
    rewrite <- ?app_assoc;
    eexists; (split; [try reflexivity; symmetry; apply app_nil_r|]);
    cbn [app]; split; intros H; try discriminate H; reflexivity.
Qed.

Lemma allocation_loop_errors (total : nat) (allocs : list SplitAllocation) :
  forall (i : nat) (errors warnings : list string),
  exists extra,
    fst (allocation_loop total allocs i (errors, warnings)) = errors ++ extra
    /\ (extra = [] <-> forallb allocation_ok allocs = true).
Proof.
  induction allocs as [|a allocs IH]; intros i errors warnings.
  - exists []. rewrite app_nil_r. split; [reflexivity|]. split; reflexivity.
  - cbn [allocation_loop forallb].
    destruct (allocation_step_errors total i a errors warnings)
      as (e1 & E1 & O1).
    destruct (allocation_step total (errors, warnings) i a) as [errors1 warnings1].
    cbn [fst] in E1. subst errors1.
    destruct (IH (i + 1) (errors ++ e1) warnings1) as (e2 & E2 & O2).
    exists (e1 ++ e2). rewrite E2, app_assoc. split; [reflexivity|].
    rewrite andb_true_iff, <- O1, <- O2. split.
    + intros H. apply app_eq_nil in H. exact H.
    + intros [-> ->]. reflexivity.
Qed.

Lemma validateSplitAllocations_accepts (allocs : list SplitAllocation) :
  rv_valid (validateSplitAllocations allocs) = true ->
  2 <= length allocs
  /\ forallb allocation_ok allocs = true
  /\ ngt (totalPercentage allocs) n100 = false.
Proof.
  unfold validateSplitAllocations. fold (totalPercentage allocs).
  destruct (Nat.ltb (length allocs) 2) eqn:L; [discriminate|].
  apply Nat.ltb_ge in L.
  destruct (allocation_loop_errors (length allocs) allocs 0 [] [])
    as (extra & E & O).
  destruct (allocation_loop (length allocs) allocs 0 ([], []))
    as [errors warnings].
  cbn [fst app] in E. subst errors.
  destruct (ngt (totalPercentage allocs) n100) eqn:T.
  - cbn [rv_valid]. rewrite length_app, Nat.add_comm. discriminate.
  - destruct (nlt (totalPercentage allocs) n100
              && forallb (fun s => negb (undefined_num (percentage s))) allocs);
      cbn [rv_valid]; intros H; apply length_eqb_0 in H;
      (split; [exact L|]); (split; [apply O; exact H|reflexivity]).
Qed.


Lemma percent_then_rest_cons (a : SplitAllocation) (l : list SplitAllocation) :
  percent_then_rest (a :: l) ->
  fixedAmount a = None /\ finite_opt (percentage a)
  /\ (percentage a = None -> l = [])
  /\ percent_then_rest l.
Proof.
  intros H. destruct (H 0 a eq_refl) as (H1 & H2 & H3).
  split; [exact H1|]. split; [exact H2|]. split.
  - intros N. specialize (H3 N). cbn [length] in H3.
    destruct l; [reflexivity|cbn [length] in H3; lia].
  - intros i b Hb. destruct (H (S i) b Hb) as (G1 & G2 & G3).
    split; [exact G1|]. split; [exact G2|].
    intros N. specialize (G3 N). cbn [length] in G3. lia.
Qed.

Lemma percent_sum_cons (a : SplitAllocation) (l : list SplitAllocation) :
  percent_sum (a :: l)
  = (match percentage a with Some p => value_of p | None => 0 end
     + percent_sum l)%Q.
Proof. reflexivity. Qed.

Lemma allocation_ok_nonneg (a : SplitAllocation) :
  allocation_ok a = true -> fixedAmount a = None ->
  finite_opt (percentage a) ->
  nonneg_alloc a
  /\ (0 <= match percentage a with Some p => value_of p | None => 0 end)%Q.
Proof.
  unfold allocation_ok, nonneg_alloc, nonneg_opt, finite_opt.
  intros H F P. rewrite F. destruct (percentage a) as [p|].
  - destruct P as [q ->]. apply andb_prop in H as [H _].
    apply andb_prop in H as [_ H]. apply negb_true_iff in H.
    apply orb_false_elim in H as [H _]. cbn [nlt n0] in H.
    assert (Hq : (0 <= q)%Q).
    { apply Qnot_lt_le. intros C. apply Qlt_bool_iff in C. congruence. }
    split; [split; [exists q; split; [reflexivity|exact Hq]|exact I]|exact Hq].
  - split; [split; exact I|]. apply Qle_refl.
Qed.

Lemma percent_sum_nonneg (l : list SplitAllocation) :
  forallb allocation_ok l = true -> percent_then_rest l ->
  (0 <= percent_sum l)%Q.
Proof.
  induction l as [|a l IH]; intros Hok Hp; [apply Qle_refl|].
  cbn [forallb] in Hok. apply andb_prop in Hok as [Ha Hl].
  apply percent_then_rest_cons in Hp as (F & P & _ & Hp).
  rewrite percent_sum_cons.
  pose proof (proj2 (allocation_ok_nonneg a Ha F P)) as H1.
  pose proof (IH Hl Hp) as H2. lra.
Qed.

Lemma totalPercentage_sum (l : list SplitAllocation) (acc : Q) :
  percent_then_rest l ->
  exists T,
    fold_left (fun sum s => nadd sum (num_or_zero (percentage s)))
      (List.filter (fun s => negb (undefined_num (percentage s))) l) (Num acc)
    = Num T
    /\ (T == acc + percent_sum l)%Q.
Proof.
  revert acc. induction l as [|a l IH]; intros acc Hp.
  - exists acc. split; [reflexivity|]. unfold percent_sum. cbn [map Qsum fold_right]. ring.
  - apply percent_then_rest_cons in Hp as (_ & P & _ & Hp).
    cbn [List.filter]. rewrite percent_sum_cons.
    destruct (percentage a) as [p|] eqn:E; cbn [undefined_num negb].
    + destruct P as [q ->]. cbn [fold_left]. rewrite E. cbn [num_or_zero].
      unfold nor. cbn [ntruthy].
      destruct (Qeq_bool q 0) eqn:Z; cbn [negb nadd lift2 n0].
      * apply Qeq_bool_eq in Z.
        destruct (IH (acc + 0)%Q Hp) as (T & E1 & E2). exists T.
        split; [exact E1|]. cbn [value_of]. rewrite E2, Z. ring.
      * destruct (IH (acc + q)%Q Hp) as (T & E1 & E2). exists T.
        split; [exact E1|]. cbn [value_of]. rewrite E2. ring.
    + destruct (IH acc Hp) as (T & E1 & E2). exists T.
      split; [exact E1|]. rewrite E2. ring.
Qed.

Lemma remainders_percent (transaction : SplitTransaction) (M : Q)
    (l : list SplitAllocation) :
  amount (base transaction) = Num M -> (0 <= M)%Q ->
  forallb allocation_ok l = true -> percent_then_rest l ->
  forall r : Q,
    (0 <= r - M * (percent_sum l / 100))%Q ->
    Forall (fun x => (0 <= value_of x)%Q) (remainders transaction l (Num r)).
Proof.
  intros HM M0. induction l as [|a l IH]; intros Hok Hp r Hr; [constructor|].
  cbn [forallb] in Hok. apply andb_prop in Hok as [Ha Hl].
  apply percent_then_rest_cons in Hp as (F & P & Hlast & Hp).
  pose proof (proj2 (allocation_ok_nonneg a Ha F P)) as Hpa.
  pose proof (percent_sum_nonneg l Hl Hp) as Hs.
  rewrite percent_sum_cons in Hr.
  cbn [remainders]. unfold splitAmount_of. rewrite F, HM.
  destruct (percentage a) as [p|] eqn:E.
  - destruct P as [q ->]. cbn [value_of] in Hpa, Hr.
    cbn [ndiv n100]. change (Qeq_bool 100 0) with false.
    cbn [nmul nsub lift2].
    assert (H1 : (0 <= M * (percent_sum l / 100))%Q).
    { apply Qmult_le_0_compat; [exact M0|]. 
      apply Qle_shift_div_l; [reflexivity|]. lra. }
    assert (Heq : (M * ((q + percent_sum l) / 100)
                   == M * (q / 100) + M * (percent_sum l / 100))%Q)
      by (field; discriminate).
    rewrite Heq in Hr.
    set (x := (M * (q / 100))%Q) in *.
    set (y := (M * (percent_sum l / 100))%Q) in *.
    constructor.
    + cbn [value_of]. lra.
    + apply IH; [exact Hl|exact Hp|]. fold y. lra.
  - rewrite (Hlast eq_refl). cbn [nsub lift2 remainders].
    constructor; [|constructor]. cbn [value_of]. lra.
Qed.


(* ------------------------------------------------------------------ *)
(** *** Validation of the fragments of a split *)

Lemma size_list_to_set_le (l : list string) :
  size (list_to_set l : gset string) <= length l.
Proof.
  induction l as [|x l IH]; [rewrite list_to_set_nil, size_empty; lia|].
  rewrite list_to_set_cons. cbn [length].
  pose proof (size_union_alt ({[x]} : gset string) (list_to_set l)) as H.
  rewrite size_singleton in H.
  pose proof (subseteq_size (list_to_set l ∖ {[x]}) (list_to_set l : gset string)) as H2.
  assert (list_to_set l ∖ {[x]} ⊆ (list_to_set l : gset string)) as H3.
  { intros y Hy. apply elem_of_difference in Hy as [Hy _]. exact Hy. }
  specialize (H2 H3). lia.
Qed.

Lemma size_list_to_set_NoDup (l : list string) :
  size (list_to_set l : gset string) = length l <-> List.NoDup l.
Proof.
  split.
  - induction l as [|x l IH]; intros H; [constructor|].
    rewrite list_to_set_cons in H. cbn [length] in H.
    pose proof (size_list_to_set_le l) as Hle.
    destruct (decide (x ∈ (list_to_set l : gset string))) as [Hin|Hin].
    + exfalso.
      assert (E : ({[x]} ∪ list_to_set l : gset string) = list_to_set l).
      { apply set_eq. intros y. rewrite elem_of_union, elem_of_singleton.
        split; [intros [->|Hy]; assumption|intros Hy; right; exact Hy]. }
      rewrite E in H. lia.
    + rewrite size_union in H by (apply disjoint_singleton_l; exact Hin). rewrite size_singleton in H.
      constructor.
      * intros C. apply Hin. apply elem_of_list_to_set, list_elem_of_In. exact C.
      * apply IH. lia.
  - intros H. apply size_list_to_set. apply NoDup_ListNoDup. exact H.
Qed.

Lemma amounts_sum_NaN (fs : list SplitTransaction) (f : SplitTransaction) :
  In f fs -> amount (base f) = NaN -> amounts_sum fs = NaN.
Proof.
  unfold amounts_sum. generalize n0. induction fs as [|g fs IH]; intros acc [].
  - subst g. intros E. cbn [fold_left]. rewrite E.
    replace (nadd acc NaN) with NaN by (destruct acc; reflexivity).
    clear. induction fs as [|g fs IH]; [reflexivity|]. exact IH.
  - intros E. cbn [fold_left]. apply IH; assumption.
Qed.

Lemma whole_amounts_sum (fs : list SplitTransaction) (zs : list Z) :
  whole_amounts fs zs ->
  Forall (fun f => exists a, amount (base f) = Num a) fs
  /\ (Qsum (amounts fs) == inject_Z (fold_right Z.add 0%Z zs))%Q.
Proof.
  induction 1 as [|f z fs zs [Hf _] _ [IH1 IH2]].
  - split; [constructor|reflexivity].
  - destruct (amount (base f)) as [|a] eqn:Ea; [destruct Hf|].
    cbn [is_num] in Hf. split.
    + constructor; [exists a; exact Ea|exact IH1].
    + unfold amounts in *. cbn [map fold_right Qsum]. rewrite Ea.
      cbn [value_of]. fold (Qsum (map (fun f => value_of (amount (base f))) fs)).
      rewrite IH2, Hf, inject_Z_plus. reflexivity.
Qed.

Lemma whole_within_cent (d : Z) :
  (Qabs (inject_Z d) <= 1 # 100)%Q <-> d = 0%Z.
Proof.
  split.
  - intros H. apply Qabs_Qle_condition in H as [H1 H2].
    assert (L : (inject_Z d < inject_Z 1)%Q).
    { eapply Qle_lt_trans; [exact H2|]. reflexivity. }
    assert (U : (inject_Z (- 1) < inject_Z d)%Q).
    { eapply Qlt_le_trans; [|exact H1]. reflexivity. }
    rewrite <- Zlt_Qlt in L, U. lia.
  - intros ->. cbn. discriminate.
Qed.

Lemma whole_amounts_valid (fs : list SplitTransaction) (expected : Q)
    (zs : list Z) (e : Z) :
  whole_amounts fs zs -> (expected == inject_Z e)%Q ->
  (rv_valid (validateSplitTransactions fs (Num expected)) = true
   <-> fold_right Z.add 0%Z zs = e).
Proof.
  intros Hw He.
  unfold validateSplitTransactions. fold (amounts_sum fs). cbn zeta.
  destruct (whole_amounts_sum fs zs Hw) as (Hfin & Hsum).
  destruct (amounts_sum_finite fs Hfin) as (S & -> & HS).
  cbn [nsub nabs lift1 lift2 ngt nlt cent].
  assert (D : (S - expected == inject_Z (fold_right Z.add 0%Z zs - e))%Q).
  { rewrite HS, Hsum, He. unfold Z.sub.
    rewrite inject_Z_plus, inject_Z_opp. ring. }
  destruct (Qlt_bool (1 # 100) (Qabs (S - expected))) eqn:C;
    cbn [rv_valid length Nat.eqb].
  - apply Qlt_bool_iff in C. rewrite D in C. split; [discriminate|].
    intros E. exfalso. rewrite E, Z.sub_diag in C. cbn in C. discriminate C.
  - split; [|reflexivity]. intros _.
    assert (L : (Qabs (inject_Z (fold_right Z.add 0%Z zs - e)) <= 1 # 100)%Q).
    { rewrite <- D. apply Qnot_lt_le. intros H.
      apply Qlt_bool_iff in H. congruence. }
    apply whole_within_cent in L. lia.
Qed.


(* ------------------------------------------------------------------ *)
(** *** Validation of rules *)

Lemma condition_loop_app (conds : list RuleCondition) :
  forall (i : nat) (errors : list string),
  exists extra, condition_loop conds i errors = errors ++ extra.
Proof.
  induction conds as [|c conds IH]; intros i errors.
  - exists []. symmetry. apply app_nil_r.
  - cbn [condition_loop].
    assert (S1 : exists e1, condition_step errors i c = errors ++ e1).
    { unfold condition_step.
      destruct (rc_field c);
        try destruct (blank (rc_value c));
        try destruct (undefined_num (minAmount c) && undefined_num (maxAmount c));
        destruct (matchType c); try destruct (regex_valid (rc_value c));
        rewrite <- ?app_assoc; eexists;
        try reflexivity; symmetry; apply app_nil_r. }
    destruct S1 as [e1 ->]. destruct (IH (i + 1) (errors ++ e1)) as [e2 ->].
    exists (e1 ++ e2). symmetry. apply app_assoc.
Qed.

Lemma split_loop_length (transaction : SplitTransaction) (parentId : string)
    (total : nat) (allocs : list SplitAllocation) :
  forall (index : nat) (r : number) (result : list SplitTransaction),
    length (snd (split_loop transaction parentId total allocs index r result))
    = length result + length allocs.
Proof.
  induction allocs as [|a allocs IH]; intros index r result.
  - cbn [split_loop snd length]. lia.
  - cbn [split_loop]. rewrite IH, length_app. cbn [length]. lia.
Qed.

Lemma blank_truthy (s : string) : blank s = false -> struthy s = true.
Proof.
  unfold blank. intros H. apply orb_false_elim in H as [H _].
  apply negb_false_iff in H. exact H.
Qed.

(** X11. A rule that [validateCustomRule] accepts has a name that is not
    blank, at least one condition and an action that can be carried out: a
    categorize action with a category, a rename action with a new name, a
    split action with at least two allocations that pass
    [validateSplitAllocations].  Applied to any transaction, such a rule
    therefore never falls back to returning the transaction untouched: it
    sets the category, sets the description, or returns at least two
    fragments. *)
Theorem validateCustomRule_accepts (rule : CustomRule) :
  rv_valid (validateCustomRule (as_partial rule)) = true ->
  blank (rule_name rule) = false
  /\ conditions rule <> []
  /\ ~ malformed (action rule)
  /\ forall (now : Z) (t : SplitTransaction),
       match ra_type (action rule) with
       | categorize =>
           exists c, ra_category (action rule) = Some c /\ blank c = false
                     /\ applyRule now t rule
                        = [ unsplit t (set_category (base t) c) ]
       | rename =>
           exists n, newName (action rule) = Some n /\ blank n = false
                     /\ applyRule now t rule
                        = [ unsplit t (set_description (base t) n) ]
       | split =>
           exists allocs,
             splits (action rule) = Some allocs
             /\ rv_valid (validateSplitAllocations allocs) = true
             /\ 2 <= length allocs <= length (applyRule now t rule)
       end.
Proof.
  unfold validateCustomRule, as_partial. cbn [p_name p_conditions p_action].
  destruct (blank (rule_name rule)) eqn:Bn.
  { destruct (conditions rule) as [|c0 cs]; intros V; exfalso; revert V.
    - destruct (condition_loop_app [] 0 ([ "Rule name is required" ]
                 ++ [ "At least one condition is required" ])) as [y ->].
      destruct (ra_type (action rule));
        [destruct (ra_category (action rule)) as [s|]; [destruct (blank s)|]
        |destruct (newName (action rule)) as [s|]; [destruct (blank s)|]
        |destruct (splits (action rule)) as [l|];
           [destruct (Nat.ltb (length l) 2)|]];
        cbn [rv_valid app length Nat.eqb]; discriminate.
    - destruct (condition_loop_app (c0 :: cs) 0 [ "Rule name is required" ])
        as [y ->].
      destruct (ra_type (action rule));
        [destruct (ra_category (action rule)) as [s|]; [destruct (blank s)|]
        |destruct (newName (action rule)) as [s|]; [destruct (blank s)|]
        |destruct (splits (action rule)) as [l|];
           [destruct (Nat.ltb (length l) 2)|]];
        cbn [rv_valid app length Nat.eqb]; discriminate. }
  destruct (conditions rule) as [|c0 cs] eqn:Cs.
  { destruct (condition_loop_app [] 0
                ([] ++ [ "At least one condition is required" ])) as [y ->].
    intros V; exfalso; revert V.
    destruct (ra_type (action rule));
      [destruct (ra_category (action rule)) as [s|]; [destruct (blank s)|]
      |destruct (newName (action rule)) as [s|]; [destruct (blank s)|]
      |destruct (splits (action rule)) as [l|];
         [destruct (Nat.ltb (length l) 2)|]];
      cbn [rv_valid app length Nat.eqb]; discriminate. }
  intros V. split; [reflexivity|]. split; [discriminate|].
  destruct (condition_loop (c0 :: cs) 0 []) as [|e es] eqn:CL.
  2:{ exfalso. revert V. 
      destruct (ra_type (action rule));
      [destruct (ra_category (action rule)) as [s|]; [destruct (blank s)|]
      |destruct (newName (action rule)) as [s|]; [destruct (blank s)|]
      |destruct (splits (action rule)) as [l|];
         [destruct (Nat.ltb (length l) 2)|]];
      cbn [rv_valid app length Nat.eqb]; discriminate. }
  unfold malformed, applyRule.
  destruct (ra_type (action rule)).
  - destruct (ra_category (action rule)) as [c|]; [|discriminate V].
    destruct (blank c) eqn:Bc; [discriminate V|].
    split.
    + intros [H|H]; [discriminate H|]. injection H as ->. discriminate Bc.
    + intros now t. exists c. split; [reflexivity|]. split; [exact Bc|].
      rewrite (blank_truthy c Bc). reflexivity.
  - destruct (newName (action rule)) as [n|]; [|discriminate V].
    destruct (blank n) eqn:Bc; [discriminate V|].
    split.
    + intros [H|H]; [discriminate H|]. injection H as ->. discriminate Bc.
    + intros now t. exists n. split; [reflexivity|]. split; [exact Bc|].
      rewrite (blank_truthy n Bc). reflexivity.
  - destruct (splits (action rule)) as [allocs|]; [|discriminate V].
    destruct (Nat.ltb (length allocs) 2) eqn:L; [discriminate V|].
    apply Nat.ltb_ge in L. cbn [rv_valid app] in V.
    assert (Hv : rv_valid (validateSplitAllocations allocs) = true).
    { apply length_eqb_0 in V.
      unfold validateSplitAllocations in V |- *.
      destruct (Nat.ltb (length allocs) 2); [discriminate V|].
      destruct (allocation_loop (length allocs) allocs 0 ([], [])) as [e w].
      destruct (ngt _ n100); [|destruct (_ && _)]; cbn [rv_errors rv_valid] in V |- *;
        rewrite V; reflexivity. }
    split.
    + intros [H|H]; [discriminate H|]. injection H as ->. cbn in L. lia.
    + intros now t. exists allocs. split; [reflexivity|]. split; [exact Hv|].
      split; [exact L|].
      assert (Hlt : Nat.ltb 0 (length allocs) = true) by (apply Nat.ltb_lt; lia).
      rewrite Hlt.
      pose proof (split_loop_length t (make_parentId now) (length allocs)
                    allocs 0 (amount (base t)) []) as Hlen.
      destruct (split_loop t (make_parentId now) (length allocs) allocs 0
                  (amount (base t)) []) as [r result].
      cbn [snd length plus] in Hlen.
      destruct (ngt r cent).
      * rewrite length_app, Hlen. cbn [length].
        replace (Nat.eqb (length allocs + 1) 0) with false
          by (symmetry; apply Nat.eqb_neq; lia).
        rewrite length_app, Hlen. lia.
      * rewrite Hlen.
        replace (Nat.eqb (length allocs) 0) with false
          by (symmetry; apply Nat.eqb_neq; lia).
        lia.
Qed.

(* ------------------------------------------------------------------ *)
(** *** The rule pipeline *)

Lemma split_loop_origin (transaction : SplitTransaction) (parentId : string)
    (total : nat) (t : Transaction) (allocs : list SplitAllocation) :
  same_origin t transaction ->
  forall (index : nat) (r : number) (result : list SplitTransaction),
    Forall (same_origin t) result ->
    Forall (same_origin t)
           (snd (split_loop transaction parentId total allocs index r result)).
Proof.
  intros Ho. induction allocs as [|a allocs IH]; intros index r result Hres.
  - exact Hres.
  - cbn [split_loop]. apply IH. apply Forall_app. split; [exact Hres|].
    constructor; [|constructor]. exact Ho.
Qed.

Lemma applyRule_origin (now : Z) (transaction : SplitTransaction)
    (rule : CustomRule) (t : Transaction) :
  same_origin t transaction ->
  Forall (same_origin t) (applyRule now transaction rule).
Proof.
  intros Ho. unfold applyRule.
  assert (H1 : Forall (same_origin t) [ unsplit transaction (base transaction) ])
    by (constructor; [exact Ho|constructor]).
  destruct (ra_type (action rule)).
  - destruct (ra_category (action rule)) as [c|]; [|exact H1].
    destruct (struthy c); [|exact H1]. constructor; [exact Ho|constructor].
  - destruct (newName (action rule)) as [n|]; [|exact H1].
    destruct (struthy n); [|exact H1]. constructor; [exact Ho|constructor].
  - destruct (splits (action rule)) as [allocs|]; [|exact H1].
    destruct (Nat.ltb 0 (length allocs)); [|exact H1].
    pose proof (split_loop_origin transaction (make_parentId now)
                  (length allocs) t allocs Ho 0 (amount (base transaction)) []
                  (List.Forall_nil _)) as Hl.
    destruct (split_loop transaction (make_parentId now) (length allocs)
                allocs 0 (amount (base transaction)) []) as [r result].
    cbn [snd] in Hl.
    assert (H2 : Forall (same_origin t)
                   (if ngt r cent
                    then result ++ [ remainder_fragment transaction
                                       (make_parentId now) (length allocs) r ]
                    else result)).
    { destruct (ngt r cent); [|exact Hl]. apply Forall_app.
      split; [exact Hl|]. constructor; [exact Ho|constructor]. }
    destruct (Nat.eqb (length _) 0); [exact H1|exact H2].
Qed.

Lemma applyRule_nonempty (now : Z) (transaction : SplitTransaction)
    (rule : CustomRule) :
  applyRule now transaction rule <> [].
Proof.
  unfold applyRule.
  match goal with
  | |- (if Nat.eqb (length ?r) 0 then _ else _) <> [] =>
      destruct r; cbn [length Nat.eqb]; discriminate
  end.
Qed.

(** The inner loop keeps what holds of every fragment and never shortens the
    array. *)
Lemma rule_loop_invariant (clock : nat -> Z) (rule : CustomRule)
    (t : Transaction) (results : list SplitTransaction) :
  forall (acc : list SplitTransaction) (tick : nat),
    Forall (same_origin t) results -> Forall (same_origin t) acc ->
    let st := fold_left (rule_step clock rule) results (acc, tick) in
    Forall (same_origin t) (fst st)
    /\ length acc + length results <= length (fst st)
    /\ tick <= snd st.
Proof.
  induction results as [|x results IH]; intros acc tick Hres Hacc.
  - cbn. split; [exact Hacc|]. split; lia.
  - apply Forall_cons_1 in Hres as [Hx Hres]. cbn [fold_left].
    replace (rule_step clock rule (acc, tick) x)
      with (if matchesRule (base x) rule
            then (acc ++ applyRule (clock tick) x rule,
                  if reads_clock rule then S tick else tick)
            else (acc ++ [x], tick)) by reflexivity.
    destruct (matchesRule (base x) rule).
    + pose proof (applyRule_origin (clock tick) x rule t Hx) as Ha.
      pose proof (applyRule_nonempty (clock tick) x rule) as Hn.
      destruct (IH (acc ++ applyRule (clock tick) x rule)
                   (if reads_clock rule then S tick else tick) Hres)
        as (H1 & H2 & H3).
      { apply Forall_app. split; assumption. }
      split; [exact H1|]. rewrite length_app in H2. cbn [length].
      destruct (applyRule (clock tick) x rule) as [|y ys];
        [congruence|]. cbn [length] in H2.
      split; [lia|]. destruct (reads_clock rule); lia.
    + destruct (IH (acc ++ [x]) tick Hres) as (H1 & H2 & H3).
      { apply Forall_app. split; [exact Hacc|]. constructor; [exact Hx|constructor]. }
      split; [exact H1|]. rewrite length_app in H2. cbn [length] in *.
      split; lia.
Qed.

Lemma rules_loop_invariant (clock : nat -> Z) (t : Transaction)
    (rules : list CustomRule) :
  forall (results : list SplitTransaction) (tick : nat),
    Forall (same_origin t) results ->
    let st := fold_left (rules_step clock) rules (results, tick) in
    Forall (same_origin t) (fst st)
    /\ length results <= length (fst st)
    /\ tick <= snd st.
Proof.
  induction rules as [|rule rules IH]; intros results tick Hres.
  - cbn. split; [exact Hres|]. split; lia.
  - cbn [fold_left].
    replace (rules_step clock (results, tick) rule)
      with (fold_left (rule_step clock rule) results ([], tick)) by reflexivity.
    destruct (rule_loop_invariant clock rule t results [] tick Hres (List.Forall_nil _))
      as (H1 & H2 & H3).
    destruct (fold_left (rule_step clock rule) results ([], tick))
      as [results' tick'].
    cbn [fst snd length plus] in *.
    destruct (IH results' tick' H1) as (G1 & G2 & G3).
    split; [exact G1|]. split; lia.
Qed.

Lemma tagged_origin (t : Transaction) : same_origin t (tagged t).
Proof. repeat split. Qed.

Lemma applyRules_invariant (stored : list CustomRule) (clock : nat -> Z)
    (tick : nat) (t : Transaction) :
  Forall (same_origin t) (fst (applyRules stored clock tick t))
  /\ 1 <= length (fst (applyRules stored clock tick t))
  /\ tick <= snd (applyRules stored clock tick t).
Proof.
  unfold applyRules.
  apply (rules_loop_invariant clock t _ [ tagged t ] tick).
  constructor; [apply tagged_origin|constructor].
Qed.

(** X12. [applyRules] never loses a transaction and never touches its
    identity: whatever the stored rules and the clock, the result holds at
    least one fragment, and every fragment has the date, the type, the
    balance and the account of the transaction the rules were applied to. *)
Theorem applyRules_keeps_origin (stored : list CustomRule) (clock : nat -> Z)
    (tick : nat) (t : Transaction) :
  fst (applyRules stored clock tick t) <> []
  /\ Forall (same_origin t) (fst (applyRules stored clock tick t)).
Proof.
  destruct (applyRules_invariant stored clock tick t) as (H1 & H2 & _).
  split; [|exact H1].
  destruct (fst (applyRules stored clock tick t)); [cbn in H2; lia|discriminate].
Qed.

Lemma matchesRule_off (t : Transaction) (r : CustomRule) :
  enabled r = false \/ conditions r = [] -> matchesRule t r = false.
Proof.
  unfold matchesRule. intros [H|H]; rewrite H; [reflexivity|].
  cbn [length Nat.eqb]. rewrite orb_true_r. reflexivity.
Qed.

Lemma rules_loop_passthrough (clock : nat -> Z) (t : Transaction)
    (rules : list CustomRule) (tick : nat) :
  (forall r, In r rules -> matchesRule t r = false) ->
  fold_left (rules_step clock) rules ([ tagged t ], tick) = ([ tagged t ], tick).
Proof.
  induction rules as [|r rules IH]; intros H; [reflexivity|].
  cbn [fold_left].
  replace (rules_step clock ([ tagged t ], tick) r) with ([ tagged t ], tick).
  - apply IH. intros r' Hr'. apply H. right. exact Hr'.
  - unfold rules_step, rule_step. cbn [fold_left tagged unsplit base].
    rewrite (H r (or_introl eq_refl)). reflexivity.
Qed.

(** X13. When no stored rule applies to a transaction, [applyRules] returns
    the transaction itself, tagged as not split, and does not read the
    clock.  A rule does not apply when it is disabled, when it has no
    condition at all, or when its conditions do not match; in particular an
    empty rule store changes nothing. *)
Theorem applyRules_no_match (stored : list CustomRule) (clock : nat -> Z)
    (tick : nat) (t : Transaction) :
  (forall r, In r stored ->
             enabled r = false \/ conditions r = [] \/ matchesRule t r = false) ->
  applyRules stored clock tick t = ([ tagged t ], tick).
Proof using array_sort_perm.
  intros H. unfold applyRules. apply rules_loop_passthrough.
  intros r Hr.
  apply (Permutation_in r (array_sort_perm _ _ _)) in Hr.
  apply filter_In in Hr as [Hr _].
  destruct (H r Hr) as [E|[E|E]];
    [apply matchesRule_off; left; exact E
    |apply matchesRule_off; right; exact E|exact E].
Qed.

Lemma applyRule_nonsplit (now : Z) (f : SplitTransaction) (rule : CustomRule) :
  ra_type (action rule) <> split ->
  exists g, applyRule now f rule = [g]
            /\ amount (base g) = amount (base f)
            /\ isSplit g = Some false.
Proof.
  intros H. unfold applyRule. destruct (ra_type (action rule)); [| |congruence].
  - destruct (ra_category (action rule)) as [c|];
      [destruct (struthy c)|]; eexists; repeat split.
  - destruct (newName (action rule)) as [n|];
      [destruct (struthy n)|]; eexists; repeat split.
Qed.

Lemma reads_clock_nonsplit (rule : CustomRule) :
  ra_type (action rule) <> split -> reads_clock rule = false.
Proof.
  unfold reads_clock. destruct (ra_type (action rule)); congruence.
Qed.

Lemma rules_loop_nonsplit (clock : nat -> Z) (rules : list CustomRule)
    (tick : nat) (a : number) :
  (forall r, In r rules -> ra_type (action r) <> split) ->
  forall f, amount (base f) = a -> isSplit f = Some false ->
  exists g, fold_left (rules_step clock) rules ([f], tick) = ([g], tick)
            /\ amount (base g) = a /\ isSplit g = Some false.
Proof.
  induction rules as [|r rules IH]; intros H f Ha Hs.
  - exists f. repeat split; assumption.
  - cbn [fold_left].
    assert (Hr : ra_type (action r) <> split) by (apply H; left; reflexivity).
    assert (Hrest : forall r', In r' rules -> ra_type (action r') <> split)
      by (intros r' Hr'; apply H; right; exact Hr').
    unfold rules_step at 2. cbn [fold_left]. unfold rule_step.
    destruct (matchesRule (base f) r).
    + destruct (applyRule_nonsplit (clock tick) f r Hr) as (g & -> & Hg1 & Hg2).
      rewrite (reads_clock_nonsplit r Hr). cbn [app].
      apply (IH Hrest g); [congruence|exact Hg2].
    + cbn [app]. apply (IH Hrest f); assumption.
Qed.

(** X14. Rules that categorize or rename never change an amount nor the
    number of transactions: when no enabled stored rule is a split rule,
    [applyRulesToAll] returns exactly one fragment per transaction, in
    order, with the amount, date, type, balance and account of that
    transaction and tagged as not split, and the clock is never read. *)
Theorem applyRulesToAll_without_split (stored : list CustomRule)
    (clock : nat -> Z) (tick : nat) (txs : list Transaction) :
  (forall r, In r stored -> enabled r = true -> ra_type (action r) <> split) ->
  Forall2 (fun t f => same_origin t f /\ amount (base f) = amount t
                      /\ isSplit f = Some false)
          txs (fst (applyRulesToAll stored clock tick txs))
  /\ snd (applyRulesToAll stored clock tick txs) = tick.
Proof using array_sort_perm.
  intros H.
  assert (Hone : forall t, exists g,
             applyRules stored clock tick t = ([g], tick)
             /\ same_origin t g /\ amount (base g) = amount t
             /\ isSplit g = Some false).
  { intros t.
    destruct (rules_loop_nonsplit clock
                (array_sort CustomRule (fun a b => nsub (priority a) (priority b))
                            (List.filter enabled stored))
                tick (amount t)) with (f := tagged t) as (g & E & G1 & G2);
      [|reflexivity|reflexivity|].
    - intros r Hr. apply (Permutation_in r (array_sort_perm _ _ _)) in Hr.
      apply filter_In in Hr as [Hr He]. exact (H r Hr He).
    - exists g. split; [exact E|]. split; [|split; assumption].
      pose proof (proj1 (applyRules_invariant stored clock tick t)) as Ho.
      unfold applyRules in Ho. unfold tagged in E. rewrite E in Ho.
      apply Forall_cons_1 in Ho as [Ho _]. exact Ho. }
  unfold applyRulesToAll.
  assert (G : forall acc,
             exists fs,
               fold_left
                 (fun (st : rules_state) txn =>
                    let '(results, tick) := st in
                    let '(r, tick') := applyRules stored clock tick txn in
                    (results ++ r, tick'))
                 txs (acc, tick) = (acc ++ fs, tick)
               /\ Forall2 (fun t f => same_origin t f
                                      /\ amount (base f) = amount t
                                      /\ isSplit f = Some false) txs fs).
  { induction txs as [|t txs IH]; intros acc.
    - exists []. rewrite app_nil_r. split; [reflexivity|constructor].
    - cbn [fold_left]. destruct (Hone t) as (g & -> & Hg).
      destruct (IH (acc ++ [g])) as (fs & -> & Hfs).
      exists (g :: fs). rewrite <- app_assoc. split; [reflexivity|].
      constructor; [exact Hg|exact Hfs]. }
  destruct (G []) as (fs & -> & Hfs). split; [exact Hfs|reflexivity].
Qed.

(** X15. [applyRulesToAll] keeps the order and the origin of what it is
    given: its result is the concatenation, in input order, of one
    non-empty group of fragments per transaction, each fragment with the
    date, type, balance and account of its transaction; so the result is
    never shorter than the input. *)
Theorem applyRulesToAll_spec (stored : list CustomRule) (clock : nat -> Z)
    (tick : nat) (txs : list Transaction) :
  exists parts,
    fst (applyRulesToAll stored clock tick txs) = concat parts
    /\ Forall2 (fun t part => part <> [] /\ Forall (same_origin t) part)
               txs parts
    /\ length txs <= length (fst (applyRulesToAll stored clock tick txs)).
Proof.
  unfold applyRulesToAll.
  assert (G : forall acc tick,
             exists parts,
               fst (fold_left
                 (fun (st : rules_state) txn =>
                    let '(results, tick) := st in
                    let '(r, tick') := applyRules stored clock tick txn in
                    (results ++ r, tick'))
                 txs (acc, tick)) = acc ++ concat parts
               /\ Forall2 (fun t part => part <> [] /\ Forall (same_origin t) part)
                          txs parts
               /\ length txs <= length (concat parts)).
  { induction txs as [|t txs IH]; intros acc tk.
    - exists []. cbn. rewrite app_nil_r. split; [reflexivity|].
      split; [constructor|lia].
    - cbn [fold_left].
      destruct (applyRules_invariant stored clock tk t) as (H1 & H2 & _).
      destruct (applyRules stored clock tk t) as [r tk'] eqn:E.
      cbn [fst] in H1, H2.
      destruct (IH (acc ++ r) tk') as (parts & -> & Hp & Hl).
      exists (r :: parts). cbn [concat]. rewrite <- app_assoc.
      split; [reflexivity|]. split.
      + constructor; [|exact Hp]. split; [|exact H1].
        destruct r; [cbn in H2; lia|discriminate].
      + rewrite length_app. cbn [length]. lia. }
  destruct (G [] tick) as (parts & E & Hp & Hl).
  exists parts. rewrite E. cbn [app]. split; [reflexivity|].
  split; [exact Hp|exact Hl].
Qed.

(* ------------------------------------------------------------------ *)
(** *** Grouping: every transaction lands in exactly one place *)

Lemma filter_complement_perm {A : Type} (p : A -> bool) (l : list A) :
  Permutation (List.filter (fun x => negb (p x)) l ++ List.filter p l) l.
Proof.
  induction l as [|x l IH]; [constructor|].
  cbn [List.filter]. destruct (p x); cbn [negb].
  - apply Permutation_sym. apply Permutation_cons_app.
    apply Permutation_sym. exact IH.
  - cbn [app]. constructor. exact IH.
Qed.

Lemma concat_insert_perm {A : Type} (key : A -> string) (x : A)
    (F : string -> list A) (keys : list string) :
  List.NoDup keys -> In (key x) keys ->
  Permutation
    (concat (map (fun k => (if String.eqb (key x) k then [x] else []) ++ F k)
                 keys))
    (x :: concat (map F keys)).
Proof.
  induction keys as [|k keys IH]; intros Hnd Hin; [destruct Hin|].
  apply NoDup_cons_iff in Hnd as [Hk Hnd]. cbn [map concat].
  destruct (String.eqb (key x) k) eqn:E.
  - apply String.eqb_eq in E. cbn [app]. constructor.
    apply Permutation_app_head.
    assert (G : map (fun k0 => (if String.eqb (key x) k0 then [x] else []) ++ F k0)
                    keys = map F keys).
    { apply map_ext_in. intros k' Hk'.
      destruct (String.eqb (key x) k') eqn:E'; [|reflexivity].
      apply String.eqb_eq in E'. exfalso. apply Hk. congruence. }
    rewrite G. reflexivity.
  - apply String.eqb_neq in E. cbn [app].
    destruct Hin as [Hin|Hin]; [congruence|].
    eapply Permutation_trans.
    + apply Permutation_app_head. exact (IH Hnd Hin).
    + apply Permutation_sym. apply Permutation_middle.
Qed.

Lemma concat_classes_perm {A : Type} (key : A -> string) (l : list A)
    (keys : list string) :
  List.NoDup keys -> (forall x, In x l -> In (key x) keys) ->
  Permutation
    (concat (map (fun k => List.filter (fun x => String.eqb (key x) k) l) keys))
    l.
Proof.
  intros Hnd. induction l as [|x l IH]; intros Hin.
  - cbn [List.filter]. clear Hnd Hin.
    induction keys as [|k keys IHk]; [constructor|exact IHk].
  - assert (G : map (fun k => List.filter (fun y => String.eqb (key y) k) (x :: l))
                    keys
                = map (fun k => (if String.eqb (key x) k then [x] else [])
                                ++ List.filter (fun y => String.eqb (key y) k) l)
                      keys).
    { apply map_ext. intros k. cbn [List.filter].
      destruct (String.eqb (key x) k); reflexivity. }
    rewrite G.
    eapply Permutation_trans.
    + apply (concat_insert_perm key x _ keys Hnd). apply Hin. left. reflexivity.
    + constructor. apply IH. intros y Hy. apply Hin. right. exact Hy.
Qed.

Lemma members_filter (l : list SplitTransaction) (k : string) :
  members l k
  = List.filter (fun t => String.eqb (parent_of t) k) (List.filter is_grouped l).
Proof.
  unfold members. induction l as [|x l IH]; [reflexivity|].
  cbn [List.filter]. destruct (is_grouped x); cbn [andb List.filter];
    rewrite IH; reflexivity.
Qed.

(** X16. [groupSplitTransactions] partitions its input: the non-split
    transactions together with the members of all groups are a rearrangement
    of the input, nothing is lost and nothing is duplicated.  The groups
    have pairwise distinct keys, none of them is empty, every member of a
    group is a fragment carrying the key of that group as parent id, and no
    fragment with a parent id is left among the non-split transactions. *)
Theorem groupSplitTransactions_partition (transactions : list SplitTransaction) :
  let '(regular, splitGroups) := groupSplitTransactions transactions in
  Permutation (regular ++ concat (map snd splitGroups)) transactions
  /\ List.NoDup (map fst splitGroups)
  /\ Forall (fun g => snd g <> []
                      /\ Forall (fun f => is_grouped f = true
                                          /\ parent_of f = fst g) (snd g))
            splitGroups
  /\ Forall (fun t => is_grouped t = false) regular.
Proof.
  rewrite groupSplitTransactions_spec.
  set (keys := first_occurrences
                 (map parent_of (List.filter is_grouped transactions))).
  assert (Hnd : List.NoDup keys).
  { apply NoDup_ListNoDup. apply first_occurrences_NoDup. }
  split; [|split; [|split]].
  - unfold groups_of. fold keys. rewrite map_map. cbn [snd].
    eapply Permutation_trans; [|apply (filter_complement_perm is_grouped)].
    apply Permutation_app_head.
    rewrite (map_ext _ (fun k => List.filter (fun t => String.eqb (parent_of t) k)
                                   (List.filter is_grouped transactions)))
      by (intros k; apply members_filter).
    apply concat_classes_perm; [exact Hnd|].
    intros x Hx. apply first_occurrences_In. apply in_map. exact Hx.
  - unfold groups_of. fold keys. rewrite map_map. cbn [fst].
    rewrite map_id. exact Hnd.
  - pose proof (groups_nonempty transactions) as Hne.
    unfold groups_of in *. fold keys in Hne |- *.
    apply List.Forall_forall. intros g Hg.
    split; [exact (proj1 (List.Forall_forall _ _) Hne g Hg)|].
    apply in_map_iff in Hg as (k & <- & _). cbn [fst snd].
    apply List.Forall_forall. intros f Hf. unfold members in Hf.
    apply filter_In in Hf as [_ Hf]. apply andb_prop in Hf as [H1 H2].
    apply String.eqb_eq in H2. split; assumption.
  - unfold regular_of. apply List.Forall_forall. intros t Ht.
    apply filter_In in Ht as [_ Ht]. apply negb_true_iff in Ht. exact Ht.
Qed.

(* ------------------------------------------------------------------ *)
(** *** Accounting exporter: every row keeps its shape *)

Lemma plain_toFixed2_abs (q : Q) : plain_text (toFixed2_abs q).
Proof.
  unfold toFixed2_abs. apply plain_app; [apply plain_Z_to_string|].
  apply plain_app; [reflexivity|]. apply plain_padStart2. apply plain_Z_to_string.
Qed.

Lemma plain_toFixed2 (x : number) : plain_text (toFixed2 x).
Proof.
  destruct x as [|q]; [reflexivity|]. unfold toFixed2.
  destruct (Qlt_bool q 0); [|apply plain_toFixed2_abs].
  apply plain_app; [reflexivity|apply plain_toFixed2_abs].
Qed.

Lemma plain_merge_options (options : IIFExportOptions) :
  plain_options options ->
  plain_options (merge_options DEFAULT_OPTIONS options).
Proof.
  intros (H1 & H2 & H3 & H4). unfold merge_options, plain_options.
  cbn [bankAccountName defaultExpenseAccount defaultIncomeAccount
       categoryMapping DEFAULT_OPTIONS].
  destruct (bankAccountName options), (defaultExpenseAccount options),
    (defaultIncomeAccount options), (categoryMapping options);
    cbn [or_else plain_opt] in *;
    repeat split; try assumption; try reflexivity;
    intros k v Hk; rewrite lookup_empty in Hk; discriminate Hk.
Qed.

Lemma plain_sor (o : option string) (d : string) :
  plain_opt o -> plain_text d -> plain_text (sor o d).
Proof.
  intros Ho Hd. destruct o as [s|]; [|exact Hd]. cbn [sor].
  destruct (struthy s); [exact Ho|exact Hd].
Qed.

Lemma plain_getQBAccount_options (category : string) (ty : TxType)
    (opts : IIFExportOptions) :
  plain_options opts -> plain_text (getQBAccount category ty opts).
Proof.
  intros (_ & H2 & H3 & H4). unfold getQBAccount.
  set (custom := match categoryMapping opts with
                 | Some m => m !! category
                 | None => None
                 end).
  assert (Hc : plain_opt custom).
  { subst custom. destruct (categoryMapping opts) as [m|]; [|exact I].
    destruct (m !! category) as [v|] eqn:E; [|exact I]. exact (H4 _ _ E). }
  destruct (otruthy custom); [apply plain_sor; [exact Hc|reflexivity]|].
  destruct (assoc category DEFAULT_CATEGORY_MAPPING) as [v|] eqn:A.
  - cbn [otruthy sor]. destruct (struthy v) eqn:T.
    + apply assoc_In in A. pose proof plain_DEFAULT_CATEGORY_MAPPING as F.
      rewrite forallb_forall in F. exact (F _ A).
    + destruct ty; apply plain_sor; try assumption; reflexivity.
  - cbn [otruthy]. destruct ty; apply plain_sor; try assumption; reflexivity.
Qed.

Lemma plain_opt_str (o : option string) : plain_opt o -> plain_text (opt_str o).
Proof. destruct o; [intros H; exact H|reflexivity]. Qed.

Lemma plain_memo_of (opts : IIFExportOptions) (d : string) :
  plain_text (memo_of opts d).
Proof.
  unfold memo_of. destruct (includeMemo opts) as [[|]|];
    [apply plain_escapeIIF|reflexivity|reflexivity].
Qed.

Lemma plain_trnsType_of (ty : TxType) : plain_text (trnsType_of ty).
Proof. destruct ty; reflexivity. Qed.

Lemma data_row_fields (fields : list string) :
  Forall plain_text fields ->
  (nth 0 fields "" = "TRNS" /\ length fields = 11)
  \/ (nth 0 fields "" = "SPL" /\ length fields = 12) ->
  data_row (join (str1 TAB) fields).
Proof.
  intros Hp Hs. right. exists fields. split; [reflexivity|].
  split; [|split; assumption].
  apply split_char_join; [|apply Forall_tab_free; exact Hp].
  destruct Hs as [[_ H]|[_ H]]; destruct fields; cbn in H; congruence.
Qed.

Lemma regular_block_rows (opts : IIFExportOptions) (trnsId : nat)
    (txn : SplitTransaction) :
  plain_options opts -> Forall data_row (regular_block opts trnsId txn).
Proof.
  intros Ho. pose proof Ho as (Hb & _). unfold regular_block.
  constructor; [|constructor; [|constructor; [|constructor]]].
  - apply data_row_fields; [|left; split; reflexivity].
    repeat constructor;
      auto using plain_nat_to_string, plain_trnsType_of, plain_formatIIFDate,
        plain_opt_str, plain_escapeIIF, plain_toFixed2, plain_memo_of.
  - apply data_row_fields; [|right; split; reflexivity].
    repeat constructor;
      auto using plain_nat_to_string, plain_trnsType_of, plain_formatIIFDate,
        plain_getQBAccount_options, plain_escapeIIF, plain_toFixed2,
        plain_memo_of.
  - left. reflexivity.
Qed.

Lemma split_block_rows (opts : IIFExportOptions) (trnsId : nat)
    (firstSplit : SplitTransaction) (splits_ : list SplitTransaction) :
  plain_options opts -> Forall data_row (split_block opts trnsId firstSplit splits_).
Proof.
  intros Ho. pose proof Ho as (Hb & _). unfold split_block.
  apply Forall_app. split; [|apply Forall_app; split].
  - constructor; [|constructor].
    apply data_row_fields; [|left; split; reflexivity].
    repeat constructor;
      auto using plain_nat_to_string, plain_trnsType_of, plain_formatIIFDate,
        plain_opt_str, plain_escapeIIF, plain_toFixed2, plain_memo_of.
  - apply List.Forall_forall. intros line Hl.
    apply in_map_iff in Hl as (s & <- & _). unfold split_line.
    apply data_row_fields; [|right; split; reflexivity].
    repeat constructor;
      auto using plain_nat_to_string, plain_trnsType_of, plain_formatIIFDate,
        plain_getQBAccount_options, plain_escapeIIF, plain_toFixed2,
        plain_memo_of.
  - constructor; [|constructor]. left. reflexivity.
Qed.

Lemma Forall_concat_imap {A B : Type} (P : B -> Prop) (l : list A) :
  forall f : nat -> A -> list B,
    (forall i x, Forall P (f i x)) -> Forall P (concat (imap f l)).
Proof.
  induction l as [|x l IH]; intros f H; [constructor|].
  cbn [imap concat]. apply Forall_app. split; [apply H|].
  apply IH. intros i y. apply H.
Qed.

Lemma generateIIF_lines_blocks (transactions : list SplitTransaction)
    (options : IIFExportOptions) :
  generateIIF_lines transactions options
  = IIF_HEADER ++ blocks_of (merge_options DEFAULT_OPTIONS options) transactions.
Proof.
  unfold generateIIF_lines.
  rewrite groupSplitTransactions_spec, regular_loop_spec.
  rewrite split_loop_emit_spec by apply groups_nonempty.
  cbn [fst]. unfold blocks_of. rewrite <- app_assoc. reflexivity.
Qed.

Lemma blocks_of_rows (opts : IIFExportOptions)
    (transactions : list SplitTransaction) :
  plain_options opts -> Forall data_row (blocks_of opts transactions).
Proof.
  intros Ho. unfold blocks_of. apply Forall_app. split.
  - apply Forall_concat_imap. intros i t. apply regular_block_rows. exact Ho.
  - apply Forall_concat_imap. intros j g. unfold group_block.
    destruct (snd g) as [|f fs]; [constructor|].
    apply split_block_rows. exact Ho.
Qed.

Lemma data_row_lf_free (line : string) : data_row line -> lf_free line = true.
Proof.
  intros [->|(fields & -> & _ & Hp & _)]; [reflexivity|].
  apply plain_join_tab. exact Hp.
Qed.

(** X17. Whatever the descriptions, memos and categories of the
    transactions, as long as the account names given in the options hold no
    tab and no line feed, the text [generateIIF] returns splits back into
    exactly the lines that were emitted, and every line after the three
    header lines is [ENDTRNS] or a row that splits at the tabs into exactly
    the fields it was built from: eleven for a TRNS row, twelve for an SPL
    row. *)
Theorem generateIIF_rows (transactions : list SplitTransaction)
    (options : IIFExportOptions) :
  plain_options options ->
  split_lines (generateIIF transactions options)
  = generateIIF_lines transactions options
  /\ exists rows,
       generateIIF_lines transactions options = IIF_HEADER ++ rows
       /\ Forall data_row rows.
Proof.
  intros Ho. apply plain_merge_options in Ho.
  pose proof (blocks_of_rows _ transactions Ho) as Hrows.
  rewrite generateIIF_lines_blocks. split.
  - unfold generateIIF. rewrite generateIIF_lines_blocks.
    apply split_lines_join; [discriminate|].
    apply Forall_app. split.
    + repeat constructor.
    + eapply List.Forall_impl; [|exact Hrows]. apply data_row_lf_free.
  - eexists. split; [reflexivity|exact Hrows].
Qed.

(* ------------------------------------------------------------------ *)
(** *** Accounting validator: counts and block structure *)

Lemma count_rows_cons (ty l : string) (rest : list string) :
  count_rows ty (l :: rest)
  = (if is_row ty l then 1 else 0) + count_rows ty rest.
Proof.
  unfold count_rows. cbn [List.filter]. destruct (is_row ty l); reflexivity.
Qed.

(** The effect of one line on the counters, the error list and the block
    depth. *)
Lemma iif_step_effect (st : IIFState) (i : nat) (l : string) :
  exists extra,
    st_errors (iif_step st i l) = st_errors st ++ extra
    /\ transactionCount (st_stats (iif_step st i l))
       = transactionCount (st_stats st) + (if is_row "TRNS" l then 1 else 0)
    /\ splitCount (st_stats (iif_step st i l))
       = splitCount (st_stats st) + (if is_row "SPL" l then 1 else 0)
    /\ (extra = [] ->
        depth (iif_step st i l) + (if is_row "ENDTRNS" l then 1 else 0)
        = depth st + (if is_row "TRNS" l then 1 else 0)).
Proof.
  unfold iif_step, is_row, row_type.
  destruct (negb (struthy (trim l)) || startsWith (trim l) "!").
  { exists []. rewrite app_nil_r. repeat split; lia. }
  unfold iif_dispatch.
  set (ty := match split_char TAB (trim l) with h :: _ => h | [] => "" end).
  destruct (String.eqb ty "TRNS") eqn:E1.
  { apply String.eqb_eq in E1. rewrite E1. cbn [String.eqb Ascii.eqb Bool.eqb].
    unfold depth.
    destruct (inTransaction st); eexists;
      (split; [cbn [st_errors]; try reflexivity; symmetry; apply app_nil_r|]);
      (split; [destruct (nge _ n0); cbn; lia|]);
      (split; [destruct (nge _ n0); cbn; lia|]);
      intros H; try discriminate H; cbn; lia. }
  destruct (String.eqb ty "SPL") eqn:E2.
  { apply String.eqb_eq in E2. rewrite E2. cbn [String.eqb Ascii.eqb Bool.eqb].
    unfold depth.
    destruct (inTransaction st); eexists;
      (split; [cbn [st_errors negb]; try reflexivity; symmetry; apply app_nil_r|]);
      (split; [cbn; lia|]); (split; [cbn; lia|]);
      intros H; try discriminate H; cbn; lia. }
  destruct (String.eqb ty "ENDTRNS") eqn:E3.
  { unfold depth.
    destruct (inTransaction st);
      destruct (ngt (nabs (nadd (currentTrnsAmount st) (currentSplitsTotal st)))
                    cent);
      cbn [negb st_errors st_stats inTransaction]; rewrite <- ?app_assoc;
      eexists;
      (split; [try reflexivity; symmetry; apply app_nil_r|]);
      (split; [lia|]); (split; [lia|]);
      intros H; try discriminate H; cbn; lia. }
  destruct (String.eqb ty "ACCNT").
  { exists []. rewrite app_nil_r. repeat split; lia. }
  destruct (negb (String.eqb ty "")); exists []; rewrite app_nil_r;
    repeat split; cbn; lia.
Qed.

Lemma iif_loop_effect (lines : list string) :
  forall (i : nat) (st : IIFState),
  exists extra,
    st_errors (iif_loop lines i st) = st_errors st ++ extra
    /\ transactionCount (st_stats (iif_loop lines i st))
       = transactionCount (st_stats st) + count_rows "TRNS" lines
    /\ splitCount (st_stats (iif_loop lines i st))
       = splitCount (st_stats st) + count_rows "SPL" lines
    /\ (extra = [] ->
        depth (iif_loop lines i st) + count_rows "ENDTRNS" lines
        = depth st + count_rows "TRNS" lines).
Proof.
  induction lines as [|l lines IH]; intros i st.
  - exists []. rewrite app_nil_r. cbn. repeat split; lia.
  - cbn [iif_loop]. rewrite !count_rows_cons.
    destruct (iif_step_effect st i l) as (e1 & A1 & A2 & A3 & A4).
    destruct (IH (i + 1) (iif_step st i l)) as (e2 & B1 & B2 & B3 & B4).
    exists (e1 ++ e2). rewrite B1, A1, <- app_assoc. split; [reflexivity|].
    split; [lia|]. split; [lia|].
    intros H. apply app_eq_nil in H as [H1 H2].
    specialize (A4 H1). specialize (B4 H2). lia.
Qed.

(** X18. [validateIIF] counts rows by their first field: the reported number
    of transactions is the number of TRNS rows and the reported number of
    splits is the number of SPL rows, blank lines and header lines set
    aside.  A text it declares valid has a header line starting with
    [!TRNS] and as many ENDTRNS rows as TRNS rows, and the last block is
    closed. *)
Theorem validateIIF_counts (content : string) :
  let lines := split_lines content in
  transactionCount (stats (validateIIF content)) = count_rows "TRNS" lines
  /\ splitCount (stats (validateIIF content)) = count_rows "SPL" lines
  /\ (valid (validateIIF content) = true ->
      existsb (fun l => startsWith l "!TRNS") lines = true
      /\ count_rows "ENDTRNS" lines = count_rows "TRNS" lines).
Proof.
  intros lines. unfold validateIIF. fold lines.
  set (st0 := mkIIFState _ [] (mkIIFStats 0 0 n0 n0) false n0 n0 "").
  destruct (iif_loop_effect lines 0 st0) as (extra & E1 & E2 & E3 & E4).
  cbn [stats valid]. split; [exact E2|]. split; [exact E3|].
  intros V. apply length_eqb_0 in V.
  assert (Herr : st_errors (iif_loop lines 0 st0) = []
                 /\ inTransaction (iif_loop lines 0 st0) = false).
  { destruct (inTransaction (iif_loop lines 0 st0)); [|split; [exact V|reflexivity]].
    apply app_eq_nil in V as [_ V]. discriminate V. }
  destruct Herr as [Herr Hin]. rewrite Herr in E1.
  symmetry in E1. apply app_eq_nil in E1 as [E0 Ex].
  split.
  - subst st0. cbn [st_errors] in E0.
    destruct (existsb (fun l => startsWith l "!TRNS") lines);
      [reflexivity|discriminate E0].
  - specialize (E4 Ex). unfold depth in E4. rewrite Hin in E4.
    subst st0. cbn [inTransaction] in E4. lia.
Qed.

(* ------------------------------------------------------------------ *)
(** *** Accounting exporter and validator: non-split transactions *)

Lemma Qlt_bool_false_le (a b : Q) : Qlt_bool a b = false -> (b <= a)%Q.
Proof.
  intros H. apply Qnot_lt_le. intros C. apply Qlt_bool_iff in C. congruence.
Qed.

(** The numerals printed for [q] and for [-q] have opposite values. *)
Lemma fixed2_value_opp (q : Q) :
  (fixed2_value (- q) == - fixed2_value q)%Q.
Proof.
  unfold fixed2_value.
  destruct (Qlt_bool q 0) eqn:A; destruct (Qlt_bool (- q) 0) eqn:B.
  - apply Qlt_bool_iff in A, B. lra.
  - ring.
  - rewrite (Qfloor_comp (- - q * 100 + (1 # 2)) (q * 100 + (1 # 2)));
      [reflexivity|]. ring.
  - apply Qlt_bool_false_le in A, B.
    assert (Z : (q == 0)%Q) by lra.
    rewrite (Qfloor_comp (- q * 100 + (1 # 2)) (1 # 2)) by (rewrite Z; ring).
    rewrite (Qfloor_comp (q * 100 + (1 # 2)) (1 # 2)) by (rewrite Z; ring).
    reflexivity.
Qed.

Lemma struthy_app_r (a b : string) : struthy b = true -> struthy (a +:+ b) = true.
Proof.
  intros H. destruct a; [rewrite append_nil_l; exact H|].
  rewrite append_cons. reflexivity.
Qed.

Lemma toFixed2_nonempty (x : number) : struthy (toFixed2 x) = true.
Proof.
  destruct x as [|q]; [reflexivity|]. unfold toFixed2, toFixed2_abs.
  destruct (Qlt_bool q 0); [reflexivity|].
  apply struthy_app_r. reflexivity.
Qed.

Lemma trim_trns_row (mid : list string) :
  trim (join (str1 TAB) ("TRNS" :: mid ++ ["N"]))
  = join (str1 TAB) ("TRNS" :: mid ++ ["N"]).
Proof.
  change ("TRNS" :: mid ++ ["N"]) with (("TRNS" :: mid) ++ ["N"]).
  rewrite join_snoc by discriminate. rewrite <- append_assoc.
  destruct mid; eapply trim_keep; reflexivity.
Qed.

Lemma trim_spl_row (mid : list string) :
  trim (join (str1 TAB) ("SPL" :: mid ++ ["N"; ""; ""]))
  = join (str1 TAB) ("SPL" :: mid ++ ["N"]).
Proof.
  change ("SPL" :: mid ++ ["N"; ""; ""])
    with (("SPL" :: mid) ++ ["N"; ""; ""]).
  change ("SPL" :: mid ++ ["N"]) with (("SPL" :: mid) ++ ["N"]).
  replace (("SPL" :: mid) ++ ["N"; ""; ""])
    with (((("SPL" :: mid) ++ ["N"]) ++ [""]) ++ [""])
    by (rewrite <- !app_assoc; reflexivity).
  rewrite !join_snoc; try discriminate.
  rewrite <- !append_assoc. rewrite !append_empty_r.
  match goal with
  | |- trim (((?y +:+ "N") +:+ _) +:+ _) = _ =>
      rewrite (append_assoc (y +:+ "N"))
  end.
  destruct mid; eapply trim_drop_ws; reflexivity.
Qed.

Lemma nor_value (x : Q) : exists x', nor (Num x) n0 = Num x' /\ (x' == x)%Q.
Proof.
  unfold nor, ntruthy, n0. destruct (Qeq_bool x 0) eqn:Z; cbn [negb].
  - exists 0%Q. split; [reflexivity|]. apply Qeq_bool_eq in Z. rewrite Z. reflexivity.
  - exists x. split; reflexivity.
Qed.

(** A TRNS row met outside a block opens one. *)
Lemma iif_step_trns (st : IIFState) (i : nat)
    (a1 a2 a3 a4 a5 amt a7 a8 : string) (x : Q) :
  Forall plain_text [a1; a2; a3; a4; a5; amt; a7; a8] ->
  struthy amt = true ->
  is_num (parseFloat amt) x ->
  inTransaction st = false ->
  let st1 := iif_step st i (join (str1 TAB)
                 ["TRNS"; a1; a2; a3; a4; a5; amt; a7; a8; "N"; "N"]) in
  st_errors st1 = st_errors st /\ st_warnings st1 = st_warnings st
  /\ inTransaction st1 = true
  /\ transactionCount (st_stats st1) = transactionCount (st_stats st) + 1
  /\ splitCount (st_stats st1) = splitCount (st_stats st)
  /\ (exists x', currentTrnsAmount st1 = Num x' /\ (x' == x)%Q)
  /\ currentSplitsTotal st1 = n0.
Proof.
  intros Hp Hamt Hx Hin st1. subst st1.
  pose proof (trim_trns_row [a1; a2; a3; a4; a5; amt; a7; a8; "N"]) as T.
  cbn [app] in T. rewrite (iif_step_line st i _ _ T) by reflexivity.
  rewrite split_char_join; [|discriminate|].
  2:{ apply Forall_tab_free.
      repeat (apply Forall_cons_1 in Hp as [? Hp]).
      repeat (constructor; [first [assumption|reflexivity]|]). constructor. }
  rewrite iif_dispatch_TRNS. cbn zeta. rewrite Hin.
  unfold part_or. cbn [lookup list_lookup sor]. rewrite Hamt.
  destruct (parseFloat amt) as [|v]; [destruct Hx|]. cbn [is_num] in Hx.
  destruct (nor_value v) as (x' & -> & Hx').
  cbn [st_errors st_warnings inTransaction currentTrnsAmount currentSplitsTotal].
  split; [reflexivity|]. split; [reflexivity|]. split; [reflexivity|].
  split; [destruct (nge (Num x') n0); reflexivity|].
  split; [destruct (nge (Num x') n0); reflexivity|].
  split; [|reflexivity]. exists x'. split; [reflexivity|]. rewrite Hx'. exact Hx.
Qed.

(** An SPL row met inside a block adds its amount to the running total. *)
Lemma iif_step_spl (st : IIFState) (i : nat)
    (a1 a2 a3 a4 a5 amt a7 a8 : string) (y s : Q) :
  Forall plain_text [a1; a2; a3; a4; a5; amt; a7; a8] ->
  struthy amt = true ->
  is_num (parseFloat amt) y ->
  inTransaction st = true ->
  currentSplitsTotal st = Num s ->
  let st1 := iif_step st i (join (str1 TAB)
                 ["SPL"; a1; a2; a3; a4; a5; amt; a7; a8; "N"; ""; ""]) in
  st_errors st1 = st_errors st /\ st_warnings st1 = st_warnings st
  /\ inTransaction st1 = true
  /\ transactionCount (st_stats st1) = transactionCount (st_stats st)
  /\ splitCount (st_stats st1) = splitCount (st_stats st) + 1
  /\ currentTrnsAmount st1 = currentTrnsAmount st
  /\ (exists s', currentSplitsTotal st1 = Num s' /\ (s' == s + y)%Q).
Proof.
  intros Hp Hamt Hy Hin Hs st1. subst st1.
  pose proof (trim_spl_row [a1; a2; a3; a4; a5; amt; a7; a8]) as T.
  cbn [app] in T. rewrite (iif_step_line st i _ _ T) by reflexivity.
  rewrite split_char_join; [|discriminate|].
  2:{ apply Forall_tab_free.
      repeat (apply Forall_cons_1 in Hp as [? Hp]).
      repeat (constructor; [first [assumption|reflexivity]|]). constructor. }
  rewrite iif_dispatch_SPL. cbn zeta. rewrite Hin, Hs.
  unfold part_or. cbn [lookup list_lookup sor]. rewrite Hamt.
  destruct (parseFloat amt) as [|v]; [destruct Hy|]. cbn [is_num] in Hy.
  destruct (nor_value v) as (y' & -> & Hy').
  cbn [st_errors st_warnings inTransaction currentTrnsAmount currentSplitsTotal
       st_stats transactionCount splitCount negb nadd lift2].
  repeat (split; [reflexivity|]).
  exists (s + y')%Q. split; [reflexivity|]. rewrite Hy', Hy. reflexivity.
Qed.

(** An ENDTRNS row closes a balanced block without complaint. *)
Lemma iif_step_endtrns (st : IIFState) (i : nat) (x s : Q) :
  inTransaction st = true ->
  currentTrnsAmount st = Num x -> currentSplitsTotal st = Num s ->
  (Qabs (x + s) <= 1 # 100)%Q ->
  let st1 := iif_step st i "ENDTRNS" in
  st_errors st1 = st_errors st /\ st_warnings st1 = st_warnings st
  /\ inTransaction st1 = false
  /\ st_stats st1 = st_stats st.
Proof.
  intros Hin Hx Hs Hbal st1. subst st1.
  rewrite (iif_step_line _ _ "ENDTRNS" "ENDTRNS") by reflexivity.
  change (split_char TAB "ENDTRNS") with ["ENDTRNS"].
  rewrite iif_dispatch_ENDTRNS. cbn zeta. rewrite Hin, Hx, Hs.
  cbn [negb nadd nabs lift1 lift2 ngt nlt cent].
  replace (Qlt_bool (1 # 100) (Qabs (x + s))) with false.
  - repeat split.
  - symmetry. destruct (Qlt_bool (1 # 100) (Qabs (x + s))) eqn:L; [|reflexivity].
    apply Qlt_bool_iff in L. exfalso. exact (Qlt_not_le _ _ L Hbal).
Qed.

Lemma Qopp_opp_eq (q : Q) : (- - q)%Q = q.
Proof. destruct q as [a b]. unfold Qopp. cbn [Qnum Qden]. rewrite Z.opp_involutive. reflexivity. Qed.

(** The three rows of a non-split transaction, met outside a block, raise
    no error and leave the validator outside a block. *)
Lemma iif_regular_block (opts : IIFExportOptions) (trnsId : nat)
    (t : SplitTransaction) (i : nat) (st : IIFState) (rest : list string) :
  plain_options opts -> reads_back (base t) -> inTransaction st = false ->
  exists st',
    iif_loop (regular_block opts trnsId t ++ rest) i st
    = iif_loop rest (i + 3) st'
    /\ st_errors st' = st_errors st /\ st_warnings st' = st_warnings st
    /\ inTransaction st' = false
    /\ transactionCount (st_stats st') = transactionCount (st_stats st) + 1
    /\ splitCount (st_stats st') = splitCount (st_stats st) + 1.
Proof.
  intros Ho (q & Hq & Rq & Rn) Hin. pose proof Ho as (Hb & _).
  unfold regular_block. cbn [app iif_loop]. rewrite Hq.
  set (amt := match type (base t) with
              | income => Num q
              | expense => nneg (Num q)
              end).
  assert (Hsign : exists x, is_num (parseFloat (toFixed2 amt)) x
                            /\ is_num (parseFloat (toFixed2 (nneg amt))) (- x)).
  { subst amt. destruct (type (base t)); cbn [nneg lift1].
    - exists (fixed2_value q). split; [exact Rq|].
      unfold reads_numeral, is_num in Rn |- *.
      destruct (parseFloat (toFixed2 (Num (- q)))); [exact Rn|].
      rewrite Rn. apply fixed2_value_opp.
    - exists (fixed2_value (- q)). split; [exact Rn|].
      rewrite Qopp_opp_eq.
      unfold reads_numeral, is_num in Rq |- *.
      destruct (parseFloat (toFixed2 (Num q))); [exact Rq|].
      rewrite Rq, fixed2_value_opp. ring. }
  destruct Hsign as (x & Hx & Hy). clearbody amt.
  assert (P1 : Forall plain_text
                 [ nat_to_string trnsId; trnsType_of (type (base t));
                   formatIIFDate (date (base t)); opt_str (bankAccountName opts);
                   escapeIIF (substring_js 0 50 (description (base t)));
                   toFixed2 amt; ""; memo_of opts (description (base t)) ]).
  { repeat constructor;
      auto using plain_nat_to_string, plain_trnsType_of, plain_formatIIFDate,
        plain_opt_str, plain_escapeIIF, plain_toFixed2, plain_memo_of. }
  assert (P2 : Forall plain_text
                 [ nat_to_string trnsId; trnsType_of (type (base t));
                   formatIIFDate (date (base t));
                   getQBAccount (category (base t)) (type (base t)) opts;
                   escapeIIF (substring_js 0 50 (description (base t)));
                   toFixed2 (nneg amt); ""; memo_of opts (description (base t)) ]).
  { repeat constructor;
      auto using plain_nat_to_string, plain_trnsType_of, plain_formatIIFDate,
        plain_getQBAccount_options, plain_escapeIIF, plain_toFixed2,
        plain_memo_of. }
  destruct (iif_step_trns st i _ _ _ _ _ _ _ _ x P1 (toFixed2_nonempty amt) Hx Hin)
    as (E1 & W1 & I1 & T1 & S1 & (x' & A1 & Hx') & C1).
  set (st1 := iif_step st i _) in *.
  destruct (iif_step_spl st1 (i + 1) _ _ _ _ _ _ _ _ (- x) 0 P2
              (toFixed2_nonempty (nneg amt)) Hy I1 C1)
    as (E2 & W2 & I2 & T2 & S2 & A2 & (s' & C2 & Hs')).
  set (st2 := iif_step st1 (i + 1) _) in *.
  destruct (iif_step_endtrns st2 (i + 1 + 1) x' s' I2 (eq_trans A2 A1) C2)
    as (E3 & W3 & I3 & T3).
  { assert (Z : (x' + s' == 0)%Q) by (rewrite Hx', Hs'; ring).
    rewrite (Qabs_wd _ _ Z). discriminate. }
  set (st3 := iif_step st2 (i + 1 + 1) "ENDTRNS") in *.
  exists st3. replace (i + 3) with (i + 1 + 1 + 1) by lia.
  split; [reflexivity|]. rewrite T3.
  repeat split; congruence || lia.
Qed.

Lemma iif_regular_blocks (opts : IIFExportOptions) (l : list SplitTransaction) :
  plain_options opts -> Forall (fun t => reads_back (base t)) l ->
  forall (g : nat -> nat) (i : nat) (st : IIFState) (rest : list string),
    inTransaction st = false ->
    exists st',
      iif_loop (concat (imap (fun k t => regular_block opts (g k) t) l) ++ rest)
               i st
      = iif_loop rest (i + 3 * length l) st'
      /\ st_errors st' = st_errors st /\ st_warnings st' = st_warnings st
      /\ inTransaction st' = false
      /\ transactionCount (st_stats st')
         = transactionCount (st_stats st) + length l
      /\ splitCount (st_stats st') = splitCount (st_stats st) + length l.
Proof.
  intros Ho Hl. induction Hl as [|t l Ht Hl IH]; intros g i st rest Hin.
  - exists st. cbn [imap concat app length]. rewrite Nat.mul_0_r, !Nat.add_0_r.
    repeat split; assumption || reflexivity.
  - cbn [imap concat]. rewrite <- app_assoc.
    destruct (iif_regular_block opts (g 0) t i st
                (concat (imap ((fun k t0 => regular_block opts (g k) t0) ∘ S) l)
                 ++ rest) Ho Ht Hin)
      as (st1 & -> & E1 & W1 & I1 & T1 & S1).
    destruct (IH (fun k => g (S k)) (i + 3) st1 rest I1)
      as (st2 & E & E2 & W2 & I2 & T2 & S2).
    exists st2. split.
    + etransitivity; [exact E|]. f_equal. cbn [length]. lia.
    + cbn [length]. repeat split; congruence || lia.
Qed.

(** X19. The export of any list of non-split transactions passes the
    validator: with account names free of tabs and line feeds, and for any
    [parseFloat] that reads the numerals the exporter printed as their
    values, [validateIIF] finds no error in the text [generateIIF] returns,
    and it counts one transaction and one split per transaction given; it
    warns only when the list is empty. *)
Theorem regular_export_validates (transactions : list SplitTransaction)
    (options : IIFExportOptions) :
  plain_options options ->
  Forall (fun t => is_grouped t = false) transactions ->
  Forall (fun t => reads_back (base t)) transactions ->
  let result := validateIIF (generateIIF transactions options) in
  valid result = true
  /\ errors result = []
  /\ transactionCount (stats result) = length transactions
  /\ splitCount (stats result) = length transactions
  /\ (transactions <> [] -> warnings result = []).
Proof.
  intros Ho Hreg Hread result. subst result.
  apply plain_merge_options in Ho.
  set (opts := merge_options DEFAULT_OPTIONS options) in *.
  assert (Hblocks : blocks_of opts transactions
                    = concat (imap (fun k t => regular_block opts (k + 1) t)
                                   transactions) ++ []).
  { unfold blocks_of, regular_of, groups_of.
    rewrite (filter_id (fun t => negb (is_grouped t))).
    2:{ intros t Ht. rewrite (proj1 (List.Forall_forall _ _) Hreg t Ht). reflexivity. }
    rewrite (filter_none is_grouped).
    2:{ intros t Ht. exact (proj1 (List.Forall_forall _ _) Hreg t Ht). }
    reflexivity. }
  assert (SL : split_lines (generateIIF transactions options)
               = IIF_HEADER ++ blocks_of opts transactions).
  { unfold generateIIF. rewrite generateIIF_lines_blocks. fold opts.
    apply split_lines_join; [discriminate|].
    apply Forall_app. split; [repeat constructor|].
    eapply List.Forall_impl; [|exact (blocks_of_rows opts transactions Ho)].
    apply data_row_lf_free. }
  unfold validateIIF. rewrite SL.
  replace (existsb (fun l => startsWith l "!TRNS")
                   (IIF_HEADER ++ blocks_of opts transactions)) with true
    by reflexivity.
  cbn [negb]. rewrite iif_loop_header, Hblocks.
  set (st0 := mkIIFState [] [] (mkIIFStats 0 0 n0 n0) false n0 n0 "").
  destruct (iif_regular_blocks opts transactions Ho Hread (fun k => k + 1) 3 st0 []
              eq_refl) as (st' & -> & E & W & I & T & S).
  cbn [iif_loop valid errors stats warnings]. rewrite I, E, W.
  cbn [st0 st_errors st_warnings length Nat.eqb].
  split; [reflexivity|]. split; [reflexivity|].
  split; [rewrite T; reflexivity|]. split; [rewrite S; reflexivity|].
  intros Hne. rewrite T. destruct transactions; [congruence|]. reflexivity.
Qed.

(* ------------------------------------------------------------------ *)
(** *** The delimited-text parser *)

Lemma sor_nonempty (o : option string) (d : string) : d <> "" -> sor o d <> "".
Proof.
  intros Hd. destruct o as [s|]; [|exact Hd]. cbn [sor].
  destruct s; [exact Hd|discriminate].
Qed.

Lemma omap_cons_eq {A B : Type} (f : A -> option B) (x : A) (l : list A) :
  omap f (x :: l)
  = match f x with Some y => y :: omap f l | None => omap f l end.
Proof. reflexivity. Qed.

Lemma omap_length_le {A B : Type} (f : A -> option B) (l : list A) :
  length (omap f l) <= length l.
Proof.
  induction l as [|x l IH]; [reflexivity|]. rewrite omap_cons_eq.
  destruct (f x); cbn [length]; lia.
Qed.

Lemma omap_none {A B : Type} (f : A -> option B) (l : list A) :
  (forall x, f x = None) -> omap f l = [].
Proof.
  intros H. induction l as [|x l IH]; [reflexivity|].
  rewrite omap_cons_eq, H. exact IH.
Qed.

(** What the row loop pushes for a row it keeps. *)
Lemma parseCSV_row_spec
    (dateCol descCol amountCol withdrawalCol depositCol balanceCol categoryCol
       : option string)
    (account_ : string) (row : gmap string string) (t : Transaction) :
  parseCSV_row dateCol descCol amountCol withdrawalCol depositCol balanceCol
               categoryCol account_ row = Some t ->
  (exists c, dateCol = Some c /\ row !! c = Some (date t))
  /\ date t <> "" /\ description t <> "" /\ account t = account_
  /\ (forall c, amountCol = Some c ->
        amount t = parseAmount (row_get row c)
        /\ (type t = expense <->
            includes (sor (row !! c) "") "-" || includes (sor (row !! c) "") "("
            = true)).
Proof.
  unfold parseCSV_row. intros H.
  destruct dateCol as [dc|]; [|discriminate H].
  destruct (row !! dc) as [d|] eqn:D; [|discriminate H].
  destruct d as [|d0 d]; [discriminate H|]. cbn [otruthy struthy negb] in H.
  assert (Hdesc : forall o : option string,
             match o with
             | Some c => sor (trim <$> row !! c) "Unknown"
             | None => "Unknown"
             end <> "").
  { intros [c|]; [apply sor_nonempty|]; discriminate. }
  destruct amountCol as [ac|].
  - destruct (includes (sor (row !! ac) "") "-"
              || includes (sor (row !! ac) "") "(") eqn:Sg;
      destruct (neq (parseAmount (row_get row ac)) n0); try discriminate H;
      injection H as <-;
      cbn [date description account amount type sor struthy];
      (split; [exists dc; split; [reflexivity|exact D]|]); (split; [discriminate|]);
      (split; [apply Hdesc|]); (split; [reflexivity|]);
      intros c [= <-]; rewrite Sg; (split; [reflexivity|]);
      split; congruence.
  - match type of H with
    | context [ngt ?w n0] => destruct (ngt w n0)
    end;
    [|match type of H with
      | context [ngt ?w n0] => destruct (ngt w n0)
      end];
    match type of H with
    | context [neq ?w n0] => destruct (neq w n0)
    end; try discriminate H;
    injection H as <-;
    cbn [date description account amount type sor struthy];
    (split; [exists dc; split; [reflexivity|exact D]|]); (split; [discriminate|]);
    (split; [apply Hdesc|]); (split; [reflexivity|]);
    intros c [=].
Qed.

(** X20. [parseCSV] keeps a row only if its date cell is not empty and its
    amount is not zero: it never returns more transactions than rows, and a
    file in which no date column is recognised yields no transaction at all.
    Every transaction returned comes from a row of the file, carries that
    row's date cell, an amount above zero, a description that is not empty
    and the account label inferred from the file name; with a single amount
    column its amount is the magnitude [parseAmount] reads in that cell and
    it is an expense exactly when the cell holds a minus sign or an opening
    parenthesis.  Without transactions both balances are 0. *)
Theorem parseCSV_spec (headers : list string) (rows : list (gmap string string))
    (filename : string) :
  let result := parseCSV headers rows filename in
  pc_account result = inferAccountFromFilename filename
  /\ length (transactions result) <= length rows
  /\ (findColumn headers (mappings_of "date") = None ->
      transactions result = [])
  /\ (transactions result = [] ->
      startBalance result = n0 /\ endBalance result = n0)
  /\ Forall
       (fun t =>
          date t <> "" /\ description t <> ""
          /\ ngt (amount t) n0 = true
          /\ account t = inferAccountFromFilename filename
          /\ exists row dc,
               In row rows
               /\ findColumn headers (mappings_of "date") = Some dc
               /\ row !! dc = Some (date t)
               /\ forall c,
                    findColumn headers (mappings_of "amount") = Some c ->
                    amount t = parseAmount (row_get row c)
                    /\ (type t = expense <->
                        includes (sor (row !! c) "") "-"
                        || includes (sor (row !! c) "") "(" = true))
       (transactions result).
Proof using array_sort_perm.
  intros result. subst result. unfold parseCSV. cbn [pc_account transactions
    startBalance endBalance].
  set (body := parseCSV_row _ _ _ _ _ _ _ _).
  set (pushed := omap body rows).
  pose proof (array_sort_perm Transaction (by_date_desc date) pushed) as Hperm.
  set (sorted := array_sort Transaction (by_date_desc date) pushed) in *.
  assert (Hlen : length pushed <= length rows).
  { apply omap_length_le. }
  split; [reflexivity|]. split.
  { rewrite (Permutation_length Hperm). exact Hlen. }
  split.
  { intros Hd.
    assert (Hp : pushed = []).
    { subst pushed body. rewrite Hd. apply omap_none. intros row. reflexivity. }
    rewrite Hp in Hperm. apply Permutation_nil. apply Permutation_sym. exact Hperm. }
  split.
  { intros ->. split; reflexivity. }
  apply List.Forall_forall. intros t Ht.
  apply (Permutation_in t Hperm) in Ht.
  apply list_elem_of_In in Ht. subst pushed.
  apply list_elem_of_omap in Ht as (row & Hrow & Hbody).
  apply list_elem_of_In in Hrow. subst body.
  pose proof (parseCSV_row_positive _ _ _ _ _ _ _ _ _ _ Hbody) as Hpos.
  apply parseCSV_row_spec in Hbody as ((dc & Hdc & Hcell) & H1 & H2 & H3 & H4).
  split; [exact H1|]. split; [exact H2|].
  split; [destruct Hpos as (q & -> & Hq); apply Qlt_bool_iff; exact Hq|].
  split; [exact H3|].
  exists row, dc. split; [exact Hrow|]. split; [exact Hdc|]. split; [exact Hcell|].
  exact H4.
Qed.

(* ------------------------------------------------------------------ *)
(** *** Parent ids of split fragments *)

Lemma to_int_not_nil (z : Z) :
  Z.to_int z <> Decimal.Pos Decimal.Nil /\ Z.to_int z <> Decimal.Neg Decimal.Nil.
Proof.
  pose proof (DecimalZ.to_of (Z.to_int z)) as H. rewrite DecimalZ.of_to in H.
  split; intros E; rewrite E in H; discriminate H.
Qed.

Lemma Z_to_string_inj (a b : Z) : Z_to_string a = Z_to_string b -> a = b.
Proof.
  unfold Z_to_string. intros H. apply DecimalZ.to_int_inj.
  destruct (to_int_not_nil a) as [A1 A2]. destruct (to_int_not_nil b) as [B1 B2].
  pose proof (NilZero.isi _ A1 A2) as Ia. pose proof (NilZero.isi _ B1 B2) as Ib.
  rewrite H in Ia. congruence.
Qed.

Lemma append_inj_r (a x y : string) : a +:+ x = a +:+ y -> x = y.
Proof.
  induction a as [|c a IH]; [rewrite !append_nil_l; trivial|].
  rewrite !append_cons. intros [= H]. exact (IH H).
Qed.

Lemma make_parentId_inj (a b : Z) : make_parentId a = make_parentId b -> a = b.
Proof.
  unfold make_parentId. intros H. apply Z_to_string_inj.
  exact (append_inj_r _ _ _ H).
Qed.

Lemma split_loop_grouped (transaction : SplitTransaction) (parentId : string)
    (total : nat) (allocs : list SplitAllocation) :
  struthy parentId = true ->
  forall (index : nat) (r : number) (result : list SplitTransaction),
    Forall (fun f => is_grouped f = true /\ parent_of f = parentId) result ->
    Forall (fun f => is_grouped f = true /\ parent_of f = parentId)
           (snd (split_loop transaction parentId total allocs index r result)).
Proof.
  intros Hid. induction allocs as [|a allocs IH]; intros index r result Hres.
  - exact Hres.
  - cbn [split_loop]. apply IH. apply Forall_app. split; [exact Hres|].
    constructor; [|constructor].
    unfold is_grouped, parent_of, isSplitTransaction, fragment.
    cbn [isSplit splitParentId otruthy sor]. rewrite Hid. split; reflexivity.
Qed.

(** The fragments of a split all carry the parent id made from the clock
    reading, and there is at least one. *)
Lemma applyRule_split_grouped (now : Z) (transaction : SplitTransaction)
    (rule : CustomRule) (allocs : list SplitAllocation) :
  ra_type (action rule) = split -> splits (action rule) = Some allocs ->
  allocs <> [] ->
  applyRule now transaction rule <> []
  /\ Forall (fun f => is_grouped f = true /\ parent_of f = make_parentId now)
            (applyRule now transaction rule).
Proof.
  intros Ht Hs Hne. split; [apply applyRule_nonempty|].
  unfold applyRule. rewrite Ht, Hs.
  assert (L : Nat.ltb 0 (length allocs) = true).
  { apply Nat.ltb_lt. destruct allocs; [congruence|cbn; lia]. }
  rewrite L.
  assert (Hid : struthy (make_parentId now) = true) by reflexivity.
  pose proof (split_loop_grouped transaction (make_parentId now) (length allocs)
                allocs Hid 0 (amount (base transaction)) [] (List.Forall_nil _))
    as Hl.
  pose proof (split_loop_length transaction (make_parentId now) (length allocs)
                allocs 0 (amount (base transaction)) []) as Hlen.
  destruct (split_loop transaction (make_parentId now) (length allocs) allocs 0
              (amount (base transaction)) []) as [r result].
  cbn [snd length plus] in Hl, Hlen.
  assert (Hpos : 0 < length allocs) by (apply Nat.ltb_lt; exact L).
  destruct (ngt r cent).
  - rewrite length_app, Hlen. cbn [length].
    replace (Nat.eqb (length allocs + 1) 0) with false
      by (symmetry; apply Nat.eqb_neq; lia).
    apply Forall_app. split; [exact Hl|]. constructor; [|constructor].
    unfold is_grouped, parent_of, isSplitTransaction, remainder_fragment.
    cbn [isSplit splitParentId otruthy sor]. rewrite Hid. split; reflexivity.
  - rewrite Hlen.
    replace (Nat.eqb (length allocs) 0) with false
      by (symmetry; apply Nat.eqb_neq; lia).
    exact Hl.
Qed.

Lemma first_occurrences_uniform (k : string) (ks : list string) :
  ks <> [] -> (forall x, In x ks -> x = k) -> first_occurrences ks = [k].
Proof.
  induction ks as [|x ks IH]; [congruence|]. intros _ H.
  assert (Hx : x = k) by (apply H; left; reflexivity). subst x.
  cbn [first_occurrences]. f_equal. apply filter_none.
  intros y Hy. apply (proj1 (first_occurrences_In _ _)) in Hy.
  rewrite (H y (or_intror Hy)), String.eqb_refl. reflexivity.
Qed.

Lemma first_occurrences_two (k1 k2 : string) (ks1 ks2 : list string) :
  k1 <> k2 -> ks1 <> [] -> ks2 <> [] ->
  (forall x, In x ks1 -> x = k1) -> (forall x, In x ks2 -> x = k2) ->
  first_occurrences (ks1 ++ ks2) = [k1; k2].
Proof.
  intros Hne H1 H2 U1 U2. induction ks1 as [|x ks1 IH]; [congruence|].
  assert (Hx : x = k1) by (apply U1; left; reflexivity). subst x.
  cbn [app first_occurrences]. f_equal.
  assert (E2 : String.eqb k2 k1 = false)
    by (apply String.eqb_neq; congruence).
  destruct ks1 as [|y ks1].
  - cbn [app]. rewrite (first_occurrences_uniform k2 ks2 H2 U2).
    cbn [List.filter]. rewrite E2. reflexivity.
  - rewrite IH; [|discriminate|intros z Hz; apply U1; right; exact Hz].
    cbn [List.filter]. rewrite String.eqb_refl, E2. reflexivity.
Qed.

Lemma groups_of_two (id1 id2 : string) (l1 l2 : list SplitTransaction) :
  l1 <> [] -> l2 <> [] ->
  Forall (fun f => is_grouped f = true /\ parent_of f = id1) l1 ->
  Forall (fun f => is_grouped f = true /\ parent_of f = id2) l2 ->
  regular_of (l1 ++ l2) = []
  /\ (id1 <> id2 -> groups_of (l1 ++ l2) = [ (id1, l1); (id2, l2) ])
  /\ (id1 = id2 -> groups_of (l1 ++ l2) = [ (id1, l1 ++ l2) ]).
Proof.
  intros N1 N2 H1 H2.
  rewrite List.Forall_forall in H1, H2.
  assert (Hall : forall f, In f (l1 ++ l2) -> is_grouped f = true).
  { intros f Hf. apply in_app_or in Hf as [Hf|Hf];
      [exact (proj1 (H1 f Hf))|exact (proj1 (H2 f Hf))]. }
  assert (M1 : forall x, In x (map parent_of l1) -> x = id1).
  { intros x Hx. apply in_map_iff in Hx as (f & <- & Hf). exact (proj2 (H1 f Hf)). }
  assert (M2 : forall x, In x (map parent_of l2) -> x = id2).
  { intros x Hx. apply in_map_iff in Hx as (f & <- & Hf). exact (proj2 (H2 f Hf)). }
  assert (E1 : map parent_of l1 <> []) by (destruct l1; [congruence|discriminate]).
  assert (E2 : map parent_of l2 <> []) by (destruct l2; [congruence|discriminate]).
  split; [|split].
  - unfold regular_of. apply filter_none. intros f Hf.
    rewrite (Hall f Hf). reflexivity.
  - intros Hne. unfold groups_of. rewrite (filter_id is_grouped _ Hall), map_app.
    rewrite (first_occurrences_two id1 id2 _ _ Hne E1 E2 M1 M2).
    cbn [map]. unfold members. rewrite !List.filter_app.
    rewrite (filter_id _ l1), (filter_none _ l2), (filter_none _ l1),
      (filter_id _ l2).
    + rewrite app_nil_r. reflexivity.
    + intros f Hf. destruct (H2 f Hf) as [-> ->]. apply String.eqb_refl.
    + intros f Hf. destruct (H1 f Hf) as [-> ->]. cbn [andb].
      apply String.eqb_neq. exact Hne.
    + intros f Hf. destruct (H2 f Hf) as [-> ->]. cbn [andb].
      apply String.eqb_neq. congruence.
    + intros f Hf. destruct (H1 f Hf) as [-> ->]. apply String.eqb_refl.
  - intros <-. unfold groups_of. rewrite (filter_id is_grouped _ Hall).
    rewrite (first_occurrences_uniform id1).
    + cbn [map]. unfold members. rewrite filter_id; [reflexivity|].
      intros f Hf. rewrite (Hall f Hf). cbn [andb].
      apply in_app_or in Hf as [Hf|Hf];
        [rewrite (proj2 (H1 f Hf))|rewrite (proj2 (H2 f Hf))];
        apply String.eqb_refl.
    + rewrite map_app. destruct (map parent_of l1); [congruence|discriminate].
    + intros x Hx. rewrite map_app in Hx.
      apply in_app_or in Hx as [Hx|Hx]; [exact (M1 x Hx)|exact (M2 x Hx)].
Qed.

(** X22. The fragments of a split are tied together by nothing but the
    parent id, which is made from the clock reading.  When one split rule
    splits two transactions and the two readings differ, the exporter's
    grouping keeps their fragments in two groups, one per transaction, in
    order; when the clock gives the same reading twice (both splits fall
    into the same millisecond), all fragments share one parent id and the
    grouping puts them into a single group. *)
Theorem split_groups_follow_clock (clock : nat -> Z) (rule : CustomRule)
    (t1 t2 : Transaction) (allocs : list SplitAllocation) :
  enabled rule = true ->
  ra_type (action rule) = split -> splits (action rule) = Some allocs ->
  allocs <> [] ->
  matchesRule t1 rule = true -> matchesRule t2 rule = true ->
  let f1 := applyRule (clock 0) (tagged t1) rule in
  let f2 := applyRule (clock 1) (tagged t2) rule in
  applyRulesToAll [rule] clock 0 [t1; t2] = (f1 ++ f2, 2)
  /\ (clock 0 <> clock 1 ->
      groupSplitTransactions (f1 ++ f2)
      = ([], [ (make_parentId (clock 0), f1); (make_parentId (clock 1), f2) ]))
  /\ (clock 0 = clock 1 ->
      groupSplitTransactions (f1 ++ f2)
      = ([], [ (make_parentId (clock 0), f1 ++ f2) ])).
Proof using array_sort_perm.
  intros He Ht Hs Hne Hm1 Hm2 f1 f2.
  assert (Hsort : array_sort CustomRule
                    (fun a b => nsub (priority a) (priority b))
                    (List.filter enabled [rule]) = [rule]).
  { cbn [List.filter]. rewrite He. apply Permutation_length_1_inv.
    apply Permutation_sym. apply array_sort_perm. }
  assert (Hrc : reads_clock rule = true).
  { unfold reads_clock. rewrite Ht, Hs. apply Nat.ltb_lt.
    destruct allocs; [congruence|cbn; lia]. }
  assert (Hone : forall t tick, matchesRule t rule = true ->
             applyRules [rule] clock tick t
             = (applyRule (clock tick) (tagged t) rule, S tick)).
  { intros t tick Hm. unfold applyRules. rewrite Hsort.
    cbn [fold_left]. unfold rules_step. cbn [fold_left]. unfold rule_step.
    cbn [tagged unsplit base]. rewrite Hm, Hrc. reflexivity. }
  split.
  { unfold applyRulesToAll. cbn [fold_left].
    rewrite (Hone t1 0 Hm1). cbn [app]. rewrite (Hone t2 1 Hm2). reflexivity. }
  destruct (applyRule_split_grouped (clock 0) (tagged t1) rule allocs Ht Hs Hne)
    as [N1 G1].
  destruct (applyRule_split_grouped (clock 1) (tagged t2) rule allocs Ht Hs Hne)
    as [N2 G2].
  destruct (groups_of_two _ _ f1 f2 N1 N2 G1 G2) as (R & D & S).
  rewrite groupSplitTransactions_spec, R. split.
  - intros Hc. rewrite D; [reflexivity|].
    intros E. apply Hc. exact (make_parentId_inj _ _ E).
  - intros Hc. rewrite S; [reflexivity|]. rewrite Hc. reflexivity.
Qed.

(* ------------------------------------------------------------------ *)
(** *** The markup parser: shape of the result *)

Lemma assign_balances_txn (ps : list ParsedTxn) (b : number) (t : Transaction) :
  In t (map txn (fst (assign_balances ps b))) ->
  exists p bal, In p ps /\ t = set_balance (txn p) bal.
Proof.
  revert b. induction ps as [|p ps IH]; intros b; [intros []|].
  cbn [assign_balances].
  destruct (assign_balances ps (nsub b (signed p))) as [rest' final] eqn:E.
  cbn [fst map txn]. intros [<-|Hin].
  - exists p, b. split; [left; reflexivity|reflexivity].
  - specialize (IH (nsub b (signed p))). rewrite E in IH.
    destruct (IH Hin) as (p' & bal & Hp' & ->).
    exists p', bal. split; [right; exact Hp'|reflexivity].
Qed.

Lemma take_sdrop (n : nat) (s : string) : take n s +:+ sdrop n s = s.
Proof.
  revert s. induction n as [|n IH]; intros [|c s]; try reflexivity.
  cbn [take sdrop]. rewrite append_cons, IH. reflexivity.
Qed.

Lemma sdrop_length (n : nat) (s : string) :
  String.length (sdrop n s) = String.length s - n.
Proof.
  revert s. induction n as [|n IH]; intros [|c s]; try reflexivity.
  cbn [sdrop String.length]. rewrite IH. reflexivity.
Qed.


(* ------------------------------------------------------------------ *)
(** *** The markup parser: extracting blocks *)

Lemma prefix_length (s1 s2 : string) :
  String.prefix s1 s2 = true -> String.length s1 <= String.length s2.
Proof.
  revert s2. induction s1 as [|a s1 IH]; intros s2 H; [cbn; lia|].
  destruct s2 as [|b s2]; [discriminate H|]. cbn [String.prefix] in H.
  destruct (Ascii.ascii_dec a b); [|discriminate H].
  cbn [String.length]. specialize (IH s2 H). lia.
Qed.

Lemma index_bounds (s1 s2 : string) :
  forall n m, String.index n s1 s2 = Some m ->
              n <= m /\ m + String.length s1 <= String.length s2.
Proof.
  induction s2 as [|b s2 IH]; intros n m H.
  - destruct n; [|discriminate H]. destruct s1; [|discriminate H].
    injection H as <-. cbn. lia.
  - destruct n as [|n].
    + cbn [String.index] in H.
      destruct (String.prefix s1 (String b s2)) eqn:P.
      * injection H as <-. apply prefix_length in P. lia.
      * destruct (String.index 0 s1 s2) as [k|] eqn:E; [|discriminate H].
        injection H as <-. destruct (IH 0 k E) as [_ H2].
        cbn [String.length]. lia.
    + cbn [String.index] in H.
      destruct (String.index n s1 s2) as [k|] eqn:E; [|discriminate H].
      injection H as <-. destruct (IH n k E) as [H1 H2].
      cbn [String.length]. lia.
Qed.

(** The loop moves forward by at least the length of the closing tag, so
    that its result does not depend on the fuel once the fuel exceeds what is
    left of the content. *)
Lemma extractBlocks_loop_fuel (content openTag closeTag : string) :
  closeTag <> "" ->
  forall fuel fuel' pos blocks,
    String.length content < pos + fuel ->
    String.length content < pos + fuel' ->
    extractBlocks_loop fuel content openTag closeTag pos blocks
    = extractBlocks_loop fuel' content openTag closeTag pos blocks.
Proof.
  intros Hc.
  assert (Lc : 1 <= String.length closeTag)
    by (destruct closeTag; [congruence|cbn; lia]).
  assert (Hout : forall pos, String.length content < pos ->
                             indexOf_from content openTag pos = None).
  { intros pos Hp. unfold indexOf_from.
    destruct (String.index pos openTag content) as [m|] eqn:E; [|reflexivity].
    apply index_bounds in E. lia. }
  induction fuel as [|fuel IH]; intros fuel' pos blocks H1 H2.
  - destruct fuel' as [|fuel']; [reflexivity|]. cbn [extractBlocks_loop].
    rewrite Hout by lia. reflexivity.
  - destruct fuel' as [|fuel'].
    + cbn [extractBlocks_loop]. rewrite Hout by lia. reflexivity.
    + cbn [extractBlocks_loop].
      destruct (indexOf_from content openTag pos) as [start|] eqn:Es;
        [|reflexivity].
      destruct (indexOf_from content closeTag start) as [end_|] eqn:Ee;
        [|reflexivity].
      apply index_bounds in Es, Ee. apply IH; lia.
Qed.

Lemma substring_take_sdrop (n m : nat) (s : string) :
  String.substring n m s = take m (sdrop n s).
Proof.
  revert n m. induction s as [|c s IH]; intros n m.
  - destruct n, m; reflexivity.
  - destruct n as [|n].
    + cbn [sdrop]. destruct m as [|m]; [reflexivity|].
      cbn [String.substring take]. rewrite (IH 0 m).
      rewrite sdrop_0. reflexivity.
    + cbn [String.substring sdrop]. apply IH.
Qed.

Lemma sdrop_sdrop (a b : nat) (s : string) : sdrop a (sdrop b s) = sdrop (b + a) s.
Proof.
  revert s. induction b as [|b IH]; intros s; [rewrite sdrop_0; reflexivity|].
  destruct s as [|c s]; [destruct a; reflexivity|].
  cbn [sdrop plus]. apply IH.
Qed.

Lemma startsWith_take (s p : string) :
  startsWith s p = true <-> take (String.length p) s = p.
Proof.
  revert s. induction p as [|a p IH]; intros s.
  - cbn [startsWith String.length take]. destruct s; split; reflexivity.
  - destruct s as [|b s]; cbn [startsWith String.length take].
    + split; discriminate.
    + rewrite andb_true_iff, IH. split.
      * intros [E ->]. apply Ascii.eqb_eq in E. subst. reflexivity.
      * intros [= -> E]. split; [apply Ascii.eqb_refl|exact E].
Qed.

Lemma startsWith_app (s p r : string) :
  startsWith s p = true -> startsWith (s +:+ r) p = true.
Proof.
  revert s. induction p as [|a p IH]; intros s H;
    [destruct (s +:+ r); reflexivity|].
  destruct s as [|b s]; [discriminate H|]. rewrite append_cons.
  cbn [startsWith] in H |- *. apply andb_prop in H as [H1 H2].
  rewrite H1, (IH s H2). reflexivity.
Qed.

Lemma includes_sdrop (k : nat) (s p : string) :
  startsWith (sdrop k s) p = true -> includes s p = true.
Proof.
  revert s. induction k as [|k IH]; intros s H.
  - rewrite sdrop_0 in H. destruct s; cbn [includes]; rewrite H; reflexivity.
  - destruct s as [|c s].
    + cbn [sdrop] in H. cbn [includes]. rewrite H. reflexivity.
    + cbn [sdrop] in H. cbn [includes]. rewrite (IH s H). apply orb_true_r.
Qed.

Lemma includes_offset (s p : string) :
  p <> "" -> includes s p = true ->
  exists k, k < String.length s /\ startsWith (sdrop k s) p = true.
Proof.
  intros Hp. induction s as [|c s IH]; cbn [includes]; intros H.
  - rewrite orb_false_r in H. destruct p; [congruence|discriminate H].
  - apply orb_prop in H as [H|H].
    + exists 0. split; [cbn; lia|exact H].
    + destruct (IH H) as (k & Hk & Hs). exists (S k).
      split; [cbn; lia|exact Hs].
Qed.

(** An occurrence found by [indexOf]: the text splits around it. *)
Lemma index_split (pos m : nat) (needle s : string) :
  String.index pos needle s = Some m ->
  sdrop m s = needle +:+ sdrop (m + String.length needle) s
  /\ startsWith (sdrop m s) needle = true.
Proof.
  intros H. apply index_correct1 in H. rewrite substring_take_sdrop in H.
  split.
  - rewrite <- (take_sdrop (String.length needle) (sdrop m s)) at 1.
    rewrite H, sdrop_sdrop. reflexivity.
  - apply startsWith_take. exact H.
Qed.

Lemma index_first (pos m p : nat) (needle s : string) :
  String.index pos needle s = Some m -> pos <= p < m ->
  startsWith (sdrop p s) needle = false.
Proof.
  intros H Hp. destruct (startsWith (sdrop p s) needle) eqn:E; [|reflexivity].
  exfalso. apply startsWith_take in E.
  apply (index_correct2 _ _ _ _ H p); [lia|lia|].
  rewrite substring_take_sdrop. exact E.
Qed.

Lemma all_chars_sdrop (P : ascii -> bool) (n : nat) (s : string) :
  all_chars P s = true -> all_chars P (sdrop n s) = true.
Proof.
  revert s. induction n as [|n IH]; intros s H; [rewrite sdrop_0; exact H|].
  destruct s as [|c s]; [exact H|]. cbn [sdrop]. apply IH.
  cbn [all_chars] in H. apply andb_prop in H as [_ H]. exact H.
Qed.

Lemma sdrop_app_l (n : nat) (a b : string) :
  n <= String.length a -> sdrop n (a +:+ b) = sdrop n a +:+ b.
Proof.
  revert a. induction n as [|n IH]; intros a H; [rewrite !sdrop_0; reflexivity|].
  destruct a as [|c a]; [cbn in H; lia|]. rewrite append_cons.
  cbn [sdrop]. apply IH. cbn in H. lia.
Qed.

Lemma tag_no_overlap (tag content : string) (start end_ : nat) :
  tag_name tag ->
  startsWith (sdrop start content) ("<" +:+ tag +:+ ">") = true ->
  startsWith (sdrop end_ content) ("</" +:+ tag +:+ ">") = true ->
  start <= end_ ->
  start + String.length ("<" +:+ tag +:+ ">") <= end_.
Proof.
  intros Ht Ho Hc Hle.
  destruct (Nat.le_gt_cases (start + String.length ("<" +:+ tag +:+ ">")) end_)
    as [H|H]; [exact H|exfalso].
  set (d := end_ - start).
  assert (Hd : d < String.length ("<" +:+ tag +:+ ">")) by lia.
  apply startsWith_take in Ho.
  pose proof (take_sdrop (String.length ("<" +:+ tag +:+ ">"))
                (sdrop start content)) as Hsplit.
  rewrite Ho in Hsplit.
  replace end_ with (start + d) in Hc by lia.
  rewrite <- sdrop_sdrop, <- Hsplit, sdrop_app_l in Hc by lia.
  set (R := sdrop _ (sdrop start content)) in Hc. clearbody R.
  rewrite !append_cons, !append_nil_l in Hc, Hd.
  destruct d as [|d].
  - cbn [sdrop] in Hc. rewrite append_cons in Hc. cbn [startsWith] in Hc.
    apply andb_prop in Hc as [_ Hc].
    destruct tag as [|c tag].
    + rewrite append_nil_l, append_cons in Hc. discriminate Hc.
    + rewrite !append_cons in Hc. cbn [startsWith] in Hc.
      apply andb_prop in Hc as [Hc _]. apply Ascii.eqb_eq in Hc. subst c.
      discriminate Ht.
  - cbn [sdrop String.length] in Hc, Hd.
    assert (Hfree : all_chars (not_char "<") (sdrop d (tag +:+ ">")) = true).
    { apply all_chars_sdrop. rewrite all_chars_app.
      rewrite (all_chars_weaken
                 (fun c => negb (Ascii.eqb c "<") && negb (Ascii.eqb c "/"))
                 (not_char "<") tag); [reflexivity| |exact Ht].
      intros c Hcc. apply andb_prop in Hcc as [Hcc _]. exact Hcc. }
    assert (Hlen : 0 < String.length (sdrop d (tag +:+ ">"))).
    { rewrite sdrop_length. lia. }
    destruct (sdrop d (tag +:+ ">")) as [|c rest]; [cbn in Hlen; lia|].
    rewrite append_cons in Hc. cbn [startsWith] in Hc.
    apply andb_prop in Hc as [Hc _]. apply Ascii.eqb_eq in Hc. subst c.
    discriminate Hfree.
Qed.

Lemma take_length_min (n : nat) (s : string) :
  String.length (take n s) = Nat.min n (String.length s).
Proof.
  revert s. induction n as [|n IH]; intros [|c s]; try reflexivity.
  cbn [take String.length]. rewrite IH. reflexivity.
Qed.

(** One iteration of the loop returns a block of the content. *)
Lemma block_sound (tag content : string) (pos start end_ : nat) :
  tag_name tag ->
  indexOf_from content ("<" +:+ tag +:+ ">") pos = Some start ->
  indexOf_from content ("</" +:+ tag +:+ ">") start = Some end_ ->
  block_of content tag
    (substring_js (start + String.length ("<" +:+ tag +:+ ">")) end_ content).
Proof.
  intros Ht Hs He. unfold indexOf_from in Hs, He. unfold block_of.
  set (openTag := "<" +:+ tag +:+ ">") in *.
  set (closeTag := "</" +:+ tag +:+ ">") in *.
  destruct (index_split _ _ _ _ Hs) as [S1 S2].
  destruct (index_split _ _ _ _ He) as [E1 E2].
  pose proof (index_bounds _ _ _ _ He) as [Hle _].
  pose proof (tag_no_overlap tag content start end_ Ht S2 E2 Hle) as Hgap.
  fold openTag in Hgap.
  set (lo := String.length openTag) in *.
  set (s' := sdrop (start + lo) content) in *.
  set (k := end_ - (start + lo)).
  assert (Hk : sdrop k s' = closeTag +:+ sdrop (end_ + String.length closeTag) content).
  { subst s'. rewrite sdrop_sdrop. replace (start + lo + k) with end_ by lia.
    exact E1. }
  unfold substring_js. fold k. fold s'.
  split.
  - exists (take start content), (sdrop (end_ + String.length closeTag) content).
    rewrite <- Hk, (take_sdrop k s'). subst s' lo. rewrite <- S1.
    symmetry. apply take_sdrop.
  - destruct (includes (take k s') closeTag) eqn:I; [|reflexivity].
    exfalso.
    assert (Hne : closeTag <> "") by discriminate.
    destruct (includes_offset _ _ Hne I) as (j & Hj & Hst).
    rewrite take_length_min in Hj.
    assert (Hocc : startsWith (sdrop (start + lo + j) content) closeTag = true).
    { rewrite <- sdrop_sdrop. fold s'.
      rewrite <- (take_sdrop k s'), sdrop_app_l
        by (rewrite take_length_min; lia).
      apply startsWith_app. exact Hst. }
    rewrite (index_first _ _ (start + lo + j) _ _ He) in Hocc; [discriminate|lia].
Qed.

Lemma extractBlocks_loop_sound (tag content : string) :
  tag_name tag ->
  forall fuel pos blocks,
    Forall (block_of content tag) blocks ->
    Forall (block_of content tag)
      (extractBlocks_loop fuel content ("<" +:+ tag +:+ ">")
                          ("</" +:+ tag +:+ ">") pos blocks).
Proof.
  intros Ht. induction fuel as [|fuel IH]; intros pos blocks H; [exact H|].
  cbn [extractBlocks_loop].
  destruct (indexOf_from content ("<" +:+ tag +:+ ">") pos) as [start|] eqn:Es;
    [|exact H].
  destruct (indexOf_from content ("</" +:+ tag +:+ ">") start) as [end_|] eqn:Ee;
    [|exact H].
  apply IH. apply Forall_app. split; [exact H|].
  constructor; [|constructor]. exact (block_sound tag content pos start end_ Ht Es Ee).
Qed.

Lemma extractBlocks_nonempty (content tag : string) :
  extractBlocks content tag <> [] ->
  includes content ("<" +:+ tag +:+ ">") = true.
Proof.
  unfold extractBlocks. cbn [extractBlocks_loop].
  destruct (indexOf_from content ("<" +:+ tag +:+ ">") 0) as [start|] eqn:Es;
    [|congruence].
  intros _. unfold indexOf_from in Es.
  apply (includes_sdrop start). exact (proj2 (index_split _ _ _ _ Es)).
Qed.

(** X24. [extractBlocks] always terminates: each round moves past a closing
    tag, so that the fuel given to the loop (the length of the content plus
    one) is never used up and more fuel gives the same result.  For a tag
    name without angle bracket and slash, every block returned is the text
    found in the content between an opening tag and the closing tag that
    follows it, and holds no closing tag itself; and blocks are only
    returned when the content holds an opening tag. *)
Theorem extractBlocks_spec (content tag : string) :
  (forall extra,
     extractBlocks_loop (S (String.length content) + extra) content
       ("<" +:+ tag +:+ ">") ("</" +:+ tag +:+ ">") 0 []
     = extractBlocks content tag)
  /\ (tag_name tag -> Forall (block_of content tag) (extractBlocks content tag))
  /\ (extractBlocks content tag <> [] ->
      includes content ("<" +:+ tag +:+ ">") = true).
Proof.
  split; [|split].
  - intros extra. unfold extractBlocks.
    apply extractBlocks_loop_fuel; [discriminate|lia|lia].
  - intros Ht. unfold extractBlocks.
    apply extractBlocks_loop_sound; [exact Ht|constructor].
  - apply extractBlocks_nonempty.
Qed.

(** X25. Format detection agrees with the parser: any content from which
    [parseQBO] reads at least one transaction is recognised by
    [isQBOFormat]. *)
Theorem isQBOFormat_parseQBO (content filename : string) :
  q_transactions (parseQBO content filename) <> [] ->
  isQBOFormat content = true.
Proof using array_sort_perm.
  intros H.
  assert (Hb : extractBlocks content "STMTTRN" <> []).
  { intros E. apply H. unfold parseQBO. rewrite E. cbn [map].
    pose proof (array_sort_perm ParsedTxn (by_date_desc (fun p => date (txn p)))
                  []) as Hperm.
    apply Permutation_sym, Permutation_nil in Hperm. rewrite Hperm.
    reflexivity. }
  apply extractBlocks_nonempty in Hb. unfold isQBOFormat.
  change ("<" +:+ "STMTTRN" +:+ ">") with "<STMTTRN>" in Hb.
  rewrite Hb, !orb_true_r. reflexivity.
Qed.

(* ------------------------------------------------------------------ *)
(** *** Rules built by the helper constructors *)

(** X26. The rules built by the two helper constructors are accepted by
    [validateCustomRule] exactly when their arguments are usable: the name
    and the pattern are not blank, a pattern used as a regular expression
    compiles, and the category is not blank (for
    [createCategorizationRule]) or the allocations pass
    [validateSplitAllocations] (for [createSplitRule]). *)
Theorem created_rules_validate (name pattern : string)
    (mt : RuleMatchType) :
  (forall category,
     rv_valid (validateCustomRule
                 (draft_partial
                    (createCategorizationRule name pattern category mt)))
     = true
     <-> (blank name = false /\ blank pattern = false
          /\ (mt = m_regex -> regex_valid pattern = true))
         /\ blank category = false)
  /\ (forall allocs,
        rv_valid (validateCustomRule
                    (draft_partial (createSplitRule name pattern allocs mt)))
        = true
        <-> (blank name = false /\ blank pattern = false
             /\ (mt = m_regex -> regex_valid pattern = true))
            /\ rv_valid (validateSplitAllocations allocs) = true).
Proof.
  assert (C : forall errors,
             condition_loop
               [ mkRuleCondition f_description mt pattern None None ]
               0 errors
             = errors
               ++ (if blank pattern
                   then [ "Condition 1: Value is required for non-amount conditions" ]
                   else [])
               ++ (match mt with
                   | m_regex => if regex_valid pattern then []
                                else [ "Condition 1: Invalid regex pattern" ]
                   | _ => []
                   end)).
  { intros errors. cbn [condition_loop]. unfold condition_step.
    cbn [rc_field rc_value matchType].
    destruct (blank pattern), mt; try destruct (regex_valid pattern);
      rewrite <- ?app_assoc, ?app_nil_r; reflexivity. }
  split.
  - intros category. unfold validateCustomRule, draft_partial,
      createCategorizationRule.
    cbn [p_name p_conditions p_action d_name d_conditions d_action ra_type
         ra_category].
    rewrite C.
    destruct (blank name), (blank pattern), (blank category);
      destruct mt; try destruct (regex_valid pattern) eqn:R;
      cbn [app length Nat.eqb rv_valid];
      (split; [intros H; try discriminate H; repeat split; try reflexivity;
               intros H'; try discriminate H'; assumption
              |intros ((H1 & H2 & H3) & H4); try discriminate;
               try reflexivity; specialize (H3 eq_refl); discriminate]).
  - intros allocs. unfold validateCustomRule, draft_partial, createSplitRule.
    cbn [p_name p_conditions p_action d_name d_conditions d_action ra_type
         splits].
    rewrite C.
    destruct (Nat.ltb (length allocs) 2) eqn:L.
    + assert (V : rv_valid (validateSplitAllocations allocs) = false).
      { unfold validateSplitAllocations. rewrite L. reflexivity. }
      rewrite V. cbn [rv_valid]. rewrite !length_app. cbn [length].
      rewrite Nat.add_comm. split; [discriminate|intros [_ H]; discriminate H].
    + cbn [rv_valid fst]. 
      assert (V : rv_valid (validateSplitAllocations allocs)
                  = Nat.eqb (length (rv_errors (validateSplitAllocations allocs))) 0).
      { unfold validateSplitAllocations. rewrite L.
        destruct (allocation_loop _ _ _ _) as [e w].
        destruct (ngt _ _); [reflexivity|].
        destruct (_ && _); reflexivity. }
      rewrite V.
      destruct (blank name), (blank pattern);
        destruct mt; try destruct (regex_valid pattern) eqn:R;
        cbn [app length Nat.eqb rv_valid];
        rewrite ?length_app; cbn [length];
        (split; [intros H; try discriminate H; repeat split; try reflexivity;
                 try (intros H'; try discriminate H'; assumption); try exact H
                |intros ((H1 & H2 & H3) & H4); try discriminate;
                 try exact H4; specialize (H3 eq_refl); discriminate]).
Qed.

(* ------------------------------------------------------------------ *)
(** *** The export with an account list *)

Lemma iif_loop_skip (pre : list string) :
  Forall (fun l => forall st i, iif_step st i l = st) pre ->
  forall (rest : list string) (i : nat) (st : IIFState),
    iif_loop (pre ++ rest) i st = iif_loop rest (i + length pre) st.
Proof.
  intros F. induction F as [|l pre Hl _ IH]; intros rest i st.
  - cbn [app length]. rewrite Nat.add_0_r. reflexivity.
  - cbn [app iif_loop length]. rewrite Hl, IH. f_equal. lia.
Qed.

Lemma IIF_HEADER_skipped :
  Forall (fun l => forall st i, iif_step st i l = st) IIF_HEADER.
Proof.
  repeat constructor; intros st i; apply iif_step_skip; vm_compute; reflexivity.
Qed.

Lemma join_nested (sep : string) (a b : list string) :
  b <> [] -> join sep (a ++ [join sep b]) = join sep (a ++ b).
Proof.
  intros Hb. induction a as [|x a IH]; [reflexivity|].
  destruct a as [|z a].
  - destruct b as [|y b]; [congruence|]. reflexivity.
  - cbn [app] in IH |- *. rewrite !join_cons2. cbn [app] in IH.
    rewrite IH. reflexivity.
Qed.

(** An account definition row leaves the validator's state as it is. *)
Lemma iif_step_accnt (st : IIFState) (i : nat) (x y d : string) (c : ascii) :
  plain_text x -> plain_text y -> plain_text (d +:+ str1 c) ->
  is_ws c = false ->
  iif_step st i (join (str1 TAB) ["ACCNT"; x; y; d +:+ str1 c]) = st.
Proof.
  intros Hx Hy Hd Hc.
  assert (T : trim (join (str1 TAB) ["ACCNT"; x; y; d +:+ str1 c])
              = join (str1 TAB) ["ACCNT"; x; y; d +:+ str1 c]).
  { change ["ACCNT"; x; y; d +:+ str1 c]
      with (["ACCNT"; x; y] ++ [d +:+ str1 c]).
    rewrite join_snoc by discriminate.
    rewrite <- !append_assoc. eapply trim_keep; [reflexivity|reflexivity|exact Hc]. }
  rewrite (iif_step_line st i _ _ T) by reflexivity.
  rewrite split_char_join; [reflexivity|discriminate|].
  apply Forall_tab_free. repeat constructor; assumption.
Qed.

Lemma plain_accntType_of (account : string) : plain_text (accntType_of account).
Proof.
  unfold accntType_of.
  destruct (_ || _); [reflexivity|]. destruct (_ || _); reflexivity.
Qed.

Lemma set_add_In (s : list string) (x y : string) :
  In y (set_add s x) <-> In y s \/ y = x.
Proof.
  unfold set_add. destruct (array_includes s x) eqn:E.
  - apply array_includes_In in E. split; [auto|]. intros [H| ->]; assumption.
  - rewrite in_app_iff. cbn [In]. split.
    + intros [H|[H|[]]]; [left; exact H|right; symmetry; exact H].
    + intros [H|H]; [left; exact H|right; left; symmetry; exact H].
Qed.

(** The account set holds exactly the bank account (or its default) and the
    accounts of the transactions. *)
Lemma collect_accounts_In (opts : IIFExportOptions)
    (transactions : list Transaction) (y : string) :
  In y (collect_accounts opts transactions)
  <-> y = sor (bankAccountName opts) "Checking"
      \/ exists t, In t transactions
                   /\ y = getQBAccount (category t) (type t) opts.
Proof.
  unfold collect_accounts.
  set (f := fun accounts txn =>
              set_add accounts (getQBAccount (category txn) (type txn) opts)).
  assert (G : forall ts acc,
             In y (fold_left f ts acc)
             <-> In y acc
                 \/ exists t, In t ts
                              /\ y = getQBAccount (category t) (type t) opts).
  { induction ts as [|t ts IH]; intros acc.
    - cbn [fold_left]. split; [auto|]. intros [H|(t & [] & _)]. exact H.
    - cbn [fold_left]. rewrite IH. unfold f. rewrite set_add_In. split.
      + intros [[H|H]|(t' & H1 & H2)].
        * left. exact H.
        * right. exists t. split; [left; reflexivity|exact H].
        * right. exists t'. split; [right; exact H1|exact H2].
      + intros [H|(t' & [<-|H1] & H2)].
        * left. left. exact H.
        * left. right. exact H2.
        * right. exists t'. split; assumption. }
  rewrite G, set_add_In. cbn [In]. split.
  - intros [[[]|H]|H]; auto.
  - intros [H|H]; auto.
Qed.

Lemma NoDup_set_add (s : list string) (x : string) :
  List.NoDup s -> List.NoDup (set_add s x).
Proof.
  intros H. unfold set_add. destruct (array_includes s x) eqn:E; [exact H|].
  assert (N : ~ In x s).
  { intros I. apply array_includes_In in I. congruence. }
  clear E. induction H as [|a l Ha Hl IH].
  - cbn [app]. constructor; [intros []|constructor].
  - cbn [app]. constructor.
    + rewrite in_app_iff. cbn [In]. intros [I|[I|[]]]; [exact (Ha I)|].
      apply N. left. symmetry. exact I.
    + apply IH. intros I. apply N. right. exact I.
Qed.

Lemma collect_accounts_NoDup (opts : IIFExportOptions)
    (transactions : list Transaction) :
  List.NoDup (collect_accounts opts transactions).
Proof.
  unfold collect_accounts.
  generalize (set_add [] (sor (bankAccountName opts) "Checking")),
    (NoDup_set_add [] (sor (bankAccountName opts) "Checking")
       (List.NoDup_nil _)).
  induction transactions as [|t ts IH]; intros acc H; [exact H|].
  cbn [fold_left]. apply IH. apply NoDup_set_add. exact H.
Qed.

Lemma collect_accounts_plain (opts : IIFExportOptions)
    (transactions : list Transaction) :
  plain_options opts -> Forall plain_text (collect_accounts opts transactions).
Proof.
  intros Ho. apply List.Forall_forall. intros y Hy.
  apply collect_accounts_In in Hy as [->|(t & _ & ->)].
  - apply plain_sor; [apply Ho|reflexivity].
  - apply plain_getQBAccount_options. exact Ho.
Qed.

(** The lines before the transaction data: the account list and the blank
    line. *)
Lemma accounts_lines_shape (transactions : list Transaction)
    (options : IIFExportOptions) :
  exists pre,
    generateIIFWithAccounts_lines transactions options
    = pre ++ [ generateIIF (map plain transactions) options ]
    /\ (plain_options options ->
        Forall (fun l =>
                  l = "" \/ l = join (str1 TAB) ["!ACCNT"; "NAME"; "ACCNTTYPE"; "DESC"]
                  \/ exists x y d,
                       l = join (str1 TAB) ["ACCNT"; x; y; d +:+ "t"]
                       /\ plain_text x /\ plain_text y
                       /\ plain_text (d +:+ "t")) pre
        /\ Forall (fun l => lf_free l = true) pre
        /\ existsb (fun l => startsWith l "!TRNS") pre = false
        /\ accnt_names pre
           = let opts := merge_options DEFAULT_OPTIONS options in
             opt_str (bankAccountName opts)
             :: List.filter
                  (fun account =>
                     negb (String.eqb account (opt_str (bankAccountName opts))))
                  (collect_accounts opts transactions)).
Proof.
  unfold generateIIFWithAccounts_lines.
  set (opts := merge_options DEFAULT_OPTIONS options).
  set (row := fun account =>
                join (str1 TAB) ["ACCNT"; account; accntType_of account;
                                 "Imported Account"]).
  set (others := List.filter
                   (fun account =>
                      negb (String.eqb account (opt_str (bankAccountName opts))))
                   (collect_accounts opts transactions)).
  exists ([ join (str1 TAB) ["!ACCNT"; "NAME"; "ACCNTTYPE"; "DESC"];
            join (str1 TAB) ["ACCNT"; opt_str (bankAccountName opts); "BANK";
                             "Imported Bank Account"] ]
          ++ map row others ++ [ "" ]).
  split; [rewrite <- !app_assoc; reflexivity|].
  intros Ho. apply plain_merge_options in Ho. fold opts in Ho.
  assert (Hb : plain_text (opt_str (bankAccountName opts))).
  { apply plain_opt_str. apply Ho. }
  assert (Hothers : Forall plain_text others).
  { apply List.Forall_forall. intros a Ha. subst others.
    apply filter_In in Ha as [Ha _].
    exact (proj1 (List.Forall_forall _ _)
                 (collect_accounts_plain opts transactions Ho) a Ha). }
  split; [|split; [|split]].
  - constructor; [right; left; reflexivity|].
    constructor.
    { right. right. exists (opt_str (bankAccountName opts)), "BANK",
        "Imported Bank Accoun".
      split; [reflexivity|]. split; [exact Hb|]. split; reflexivity. }
    apply Forall_app. split.
    + apply List.Forall_forall. intros l Hl. apply in_map_iff in Hl as (a & <- & Ha).
      right. right. exists a, (accntType_of a), "Imported Accoun".
      split; [reflexivity|].
      split; [exact (proj1 (List.Forall_forall _ _) Hothers a Ha)|].
      split; [apply plain_accntType_of|reflexivity].
    + constructor; [|constructor]. left. reflexivity.
  - constructor; [reflexivity|]. constructor.
    { apply plain_join_tab. repeat constructor. exact Hb. }
    apply Forall_app. split.
    + apply List.Forall_forall. intros l Hl. apply in_map_iff in Hl as (a & <- & Ha).
      apply plain_join_tab. repeat constructor;
        [exact (proj1 (List.Forall_forall _ _) Hothers a Ha)
        |apply plain_accntType_of].
    + repeat constructor.
  - cbn [app existsb]. rewrite existsb_app. cbn [existsb].
    assert (R : existsb (fun l => startsWith l "!TRNS") (map row others)
                = false).
    { clear. induction others as [|a l IH]; [reflexivity|].
      cbn [map existsb]. rewrite IH. reflexivity. }
    rewrite R. reflexivity.
  - cbv zeta. fold opts. fold others. unfold accnt_names.
    cbn [app]. rewrite !omap_cons_eq.
    replace (accnt_name (join (str1 TAB) ["!ACCNT"; "NAME"; "ACCNTTYPE"; "DESC"]))
      with (@None string) by reflexivity.
    assert (A : forall a y d,
               plain_text a -> plain_text y -> plain_text d ->
               accnt_name (join (str1 TAB) ["ACCNT"; a; y; d]) = Some a).
    { intros a y d Ha Hy Hd. unfold accnt_name.
      rewrite split_char_join; [reflexivity|discriminate|].
      apply Forall_tab_free. repeat constructor; assumption. }
    rewrite A by (exact Hb || reflexivity). f_equal.
    rewrite omap_app. cbn. rewrite app_nil_r.
    clear -Hothers A. induction Hothers as [|a l Ha Hl IH]; [reflexivity|].
    cbn [map]. rewrite omap_cons_eq. unfold row at 1.
    rewrite A by (exact Ha || apply plain_accntType_of || reflexivity).
    rewrite IH. reflexivity.
Qed.

Lemma accounts_lines_skipped (pre : list string) :
  Forall (fun l =>
            l = "" \/ l = join (str1 TAB) ["!ACCNT"; "NAME"; "ACCNTTYPE"; "DESC"]
            \/ exists x y d,
                 l = join (str1 TAB) ["ACCNT"; x; y; d +:+ "t"]
                 /\ plain_text x /\ plain_text y
                 /\ plain_text (d +:+ "t")) pre ->
  Forall (fun l => forall st i, iif_step st i l = st) pre.
Proof.
  apply List.Forall_impl.
  intros l [->|[->|(x & y & d & -> & Hx & Hy & Hd)]] st i.
  - apply iif_step_skip. reflexivity.
  - apply iif_step_skip. vm_compute. reflexivity.
  - apply (iif_step_accnt st i x y d "t"); [exact Hx|exact Hy|exact Hd|reflexivity].
Qed.

Lemma blocks_of_plain (opts : IIFExportOptions)
    (transactions : list Transaction) :
  blocks_of opts (map plain transactions)
  = concat (imap (fun k t => regular_block opts (k + 1) t)
                 (map plain transactions)) ++ [].
Proof.
  unfold blocks_of, regular_of, groups_of.
  rewrite (filter_id (fun t => negb (is_grouped t))).
  2:{ intros t Ht. apply in_map_iff in Ht as (t0 & <- & _). reflexivity. }
  rewrite (filter_none is_grouped).
  2:{ intros t Ht. apply in_map_iff in Ht as (t0 & <- & _). reflexivity. }
  reflexivity.
Qed.

(** X27. The export with an account list passes the validator as well: with
    account names free of tabs and line feeds, with no category that is a
    name inherited from [Object.prototype] (for such a category the account
    looked up is no string and the export fails), and for any [parseFloat]
    that reads the numerals the exporter printed as their values,
    [validateIIF] finds no error in the text [generateIIFWithAccounts]
    returns, takes the account rows and the blank line for neither a
    transaction nor an unknown row, and counts one transaction and one split
    per transaction given. *)
Theorem accounts_export_validates (transactions : list Transaction)
    (options : IIFExportOptions) :
  plain_options options ->
  Forall own_category transactions ->
  Forall reads_back transactions ->
  let result := validateIIF (generateIIFWithAccounts transactions options) in
  valid result = true
  /\ errors result = []
  /\ transactionCount (stats result) = length transactions
  /\ splitCount (stats result) = length transactions
  /\ (transactions <> [] -> warnings result = []).
Proof.
  intros Ho _ Hread result. subst result.
  destruct (accounts_lines_shape transactions options) as (pre & Hpre & Hp).
  destruct (Hp Ho) as (Hskip & Hlf & Hhdr & _). clear Hp.
  apply accounts_lines_skipped in Hskip.
  apply plain_merge_options in Ho.
  set (opts := merge_options DEFAULT_OPTIONS options) in *.
  assert (SL : split_lines (generateIIFWithAccounts transactions options)
               = pre ++ IIF_HEADER ++ blocks_of opts (map plain transactions)).
  { unfold generateIIFWithAccounts. rewrite Hpre. unfold generateIIF.
    rewrite generateIIF_lines_blocks. fold opts.
    rewrite join_nested by discriminate.
    apply split_lines_join; [destruct pre; discriminate|].
    apply Forall_app. split; [exact Hlf|].
    apply Forall_app. split; [repeat constructor|].
    eapply List.Forall_impl; [|exact (blocks_of_rows opts _ Ho)].
    apply data_row_lf_free. }
  unfold validateIIF. rewrite SL.
  replace (existsb (fun l => startsWith l "!TRNS")
             (pre ++ IIF_HEADER ++ blocks_of opts (map plain transactions)))
    with true
    by (rewrite existsb_app, Hhdr; reflexivity).
  cbn [negb]. rewrite (iif_loop_skip pre Hskip).
  rewrite (iif_loop_skip IIF_HEADER IIF_HEADER_skipped), blocks_of_plain.
  set (st0 := mkIIFState [] [] (mkIIFStats 0 0 n0 n0) false n0 n0 "").
  assert (Hread' : Forall (fun t => reads_back (base t)) (map plain transactions)).
  { apply List.Forall_forall. intros t Ht. apply in_map_iff in Ht as (t0 & <- & Ht).
    exact (proj1 (List.Forall_forall _ _) Hread t0 Ht). }
  destruct (iif_regular_blocks opts (map plain transactions) Ho Hread'
              (fun k => k + 1) (0 + length pre + length IIF_HEADER) st0 []
              eq_refl) as (st' & -> & E & W & I & T & S).
  rewrite length_map in T, S.
  cbn [iif_loop valid errors stats warnings]. rewrite I, E, W.
  cbn [st0 st_errors st_warnings length Nat.eqb].
  split; [reflexivity|]. split; [reflexivity|].
  split; [rewrite T; reflexivity|]. split; [rewrite S; reflexivity|].
  intros Hne. rewrite T. destruct transactions; [congruence|]. reflexivity.
Qed.

Lemma data_row_no_account (line : string) :
  data_row line -> accnt_name line = None.
Proof.
  unfold accnt_name.
  intros [->|(fields & _ & -> & _ & [[H L]|[H L]])]; [reflexivity| |];
    destruct fields as [|ty [|name fields]]; try reflexivity;
    cbn [nth] in H; rewrite H; reflexivity.
Qed.

(** X28. The account list of [generateIIFWithAccounts] declares every
    account once: with account names free of tabs and line feeds, and with
    no category that is a name inherited from [Object.prototype] (for such a
    category the account looked up is no string and the export fails), the
    account names read back from the ACCNT rows of the returned text are
    pairwise distinct, and they are exactly the bank account of the options,
    the name the account set starts from (the bank account, or [Checking]
    when that is empty) and the accounts [getQBAccount] gives for the
    transactions. *)
Theorem accounts_declared_once (transactions : list Transaction)
    (options : IIFExportOptions) :
  plain_options options ->
  Forall own_category transactions ->
  let opts := merge_options DEFAULT_OPTIONS options in
  let names :=
    accnt_names (split_lines (generateIIFWithAccounts transactions options)) in
  List.NoDup names
  /\ forall y,
       In y names
       <-> y = opt_str (bankAccountName opts)
           \/ y = sor (bankAccountName opts) "Checking"
           \/ exists t, In t transactions
                        /\ y = getQBAccount (category t) (type t) opts.
Proof.
  intros Ho _ opts names. subst names.
  destruct (accounts_lines_shape transactions options) as (pre & Hpre & Hp).
  destruct (Hp Ho) as (_ & Hlf & _ & Hnames). clear Hp.
  cbv zeta in Hnames. fold opts in Hnames.
  apply plain_merge_options in Ho. fold opts in Ho.
  assert (SL : split_lines (generateIIFWithAccounts transactions options)
               = pre ++ IIF_HEADER ++ blocks_of opts (map plain transactions)).
  { unfold generateIIFWithAccounts. rewrite Hpre. unfold generateIIF.
    rewrite generateIIF_lines_blocks. fold opts.
    rewrite join_nested by discriminate.
    apply split_lines_join; [destruct pre; discriminate|].
    apply Forall_app. split; [exact Hlf|].
    apply Forall_app. split; [repeat constructor|].
    eapply List.Forall_impl; [|exact (blocks_of_rows opts _ Ho)].
    apply data_row_lf_free. }
  rewrite SL. unfold accnt_names in *. rewrite !omap_app, Hnames.
  replace (omap accnt_name IIF_HEADER) with (@nil string) by reflexivity.
  assert (B : omap accnt_name (blocks_of opts (map plain transactions)) = []).
  { pose proof (blocks_of_rows opts (map plain transactions) Ho) as F.
    clear SL. induction F as [|l ls Hl _ IH]; [reflexivity|].
    rewrite omap_cons_eq, (data_row_no_account l Hl). exact IH. }
  rewrite B. cbn [app]. rewrite app_nil_r.
  set (bank := opt_str (bankAccountName opts)).
  split.
  - constructor.
    + intros I. apply filter_In in I as [_ I].
      rewrite String.eqb_refl in I. discriminate I.
    + apply List.NoDup_filter. apply collect_accounts_NoDup.
  - intros y. cbn [In]. rewrite filter_In, collect_accounts_In. split.
    + intros [<-|[[->|H] _]]; auto.
    + intros H. destruct (String.eqb y bank) eqn:E.
      * left. apply String.eqb_eq in E. symmetry. exact E.
      * right. split; [|reflexivity].
        destruct H as [->|H]; [rewrite String.eqb_refl in E; discriminate E|].
        exact H.
Qed.

(* ------------------------------------------------------------------ *)
(** *** The export of a split group *)

Lemma Qfloor_half (n : Z) : Qfloor (inject_Z n + (1 # 2)) = n.
Proof.
  unfold Qfloor, Qplus, inject_Z. cbn [Qnum Qden]. 
  symmetry. apply (Z.div_unique _ 2 n 1); lia.
Qed.

(** An amount in whole cents is printed with its exact value. *)
Lemma fixed2_value_cent (q : Q) : cent_valued q -> (fixed2_value q == q)%Q.
Proof.
  intros [z Hz]. unfold fixed2_value. destruct (Qlt_bool q 0).
  - rewrite (Qfloor_comp (- q * 100 + (1 # 2)) (inject_Z (- z) + (1 # 2))).
    + rewrite Qfloor_half, Hz. unfold Qeq, Qopp, Qdiv, Qmult, Qinv, inject_Z.
      cbn. lia.
    + rewrite Hz. unfold Qeq, Qopp, Qplus, Qmult, inject_Z. cbn. lia.
  - rewrite (Qfloor_comp (q * 100 + (1 # 2)) (inject_Z z + (1 # 2))).
    + rewrite Qfloor_half, Hz. unfold Qeq, Qdiv, Qmult, Qinv, inject_Z.
      cbn. lia.
    + rewrite Hz. unfold Qeq, Qplus, Qmult, inject_Z. cbn. lia.
Qed.

Lemma cent_valued_opp (q : Q) : cent_valued q -> cent_valued (- q).
Proof.
  intros [z Hz]. exists (- z)%Z. rewrite Hz. reflexivity.
Qed.

(** The lines of the text [generateIIF] returns. *)
Lemma generateIIF_split_lines (transactions : list SplitTransaction)
    (options : IIFExportOptions) :
  plain_options options ->
  split_lines (generateIIF transactions options)
  = IIF_HEADER ++ blocks_of (merge_options DEFAULT_OPTIONS options) transactions.
Proof.
  intros Ho. apply plain_merge_options in Ho.
  unfold generateIIF. rewrite generateIIF_lines_blocks.
  apply split_lines_join; [discriminate|].
  apply Forall_app. split; [repeat constructor|].
  eapply List.Forall_impl; [|exact (blocks_of_rows _ transactions Ho)].
  apply data_row_lf_free.
Qed.

(** A list of fragments with one parent id forms one block. *)
Lemma blocks_of_group (opts : IIFExportOptions) (k : string)
    (f0 : SplitTransaction) (rest : list SplitTransaction) :
  k <> "" ->
  Forall (fun f => isSplit f = Some true /\ splitParentId f = Some k)
         (f0 :: rest) ->
  blocks_of opts (f0 :: rest) = split_block opts 1 f0 (f0 :: rest) ++ [].
Proof.
  intros Hk F.
  assert (Tk : struthy k = true) by (destruct k; [congruence|reflexivity]).
  assert (G : forall f, In f (f0 :: rest) ->
                is_grouped f = true /\ parent_of f = k).
  { intros f Hf. destruct (proj1 (List.Forall_forall _ _) F f Hf) as [H1 H2].
    unfold is_grouped, isSplitTransaction, parent_of. rewrite H1, H2.
    cbn [otruthy sor]. rewrite Tk. split; reflexivity. }
  unfold blocks_of, regular_of, groups_of.
  rewrite (filter_none (fun t => negb (is_grouped t))).
  2:{ intros f Hf. rewrite (proj1 (G f Hf)). reflexivity. }
  rewrite (filter_id is_grouped).
  2:{ intros f Hf. exact (proj1 (G f Hf)). }
  rewrite (first_occurrences_uniform k).
  2:{ discriminate. }
  2:{ intros x Hx. apply in_map_iff in Hx as (f & <- & Hf).
      exact (proj2 (G f Hf)). }
  cbn [map]. unfold members. rewrite filter_id.
  2:{ intros f Hf. destruct (G f Hf) as [-> ->].
      rewrite String.eqb_refl. reflexivity. }
  reflexivity.
Qed.

(** The SPL rows of a split group add the fragment amounts, with the sign of
    the group's type, to the running total. *)
Lemma iif_split_rows (opts : IIFExportOptions) (trnsId : nat)
    (trnsType date_ name memo : string) (k : string) (ty : TxType)
    (fs : list SplitTransaction) :
  plain_options opts ->
  plain_text trnsType -> plain_text date_ -> plain_text name ->
  Forall (group_fragment k ty) fs ->
  forall (i : nat) (st : IIFState) (rest : list string) (s : Q),
    inTransaction st = true -> currentSplitsTotal st = Num s ->
    exists st',
      iif_loop (map (split_line opts trnsId trnsType date_ name memo) fs ++ rest)
               i st
      = iif_loop rest (i + length fs) st'
      /\ st_errors st' = st_errors st /\ st_warnings st' = st_warnings st
      /\ inTransaction st' = true
      /\ transactionCount (st_stats st') = transactionCount (st_stats st)
      /\ splitCount (st_stats st') = splitCount (st_stats st) + length fs
      /\ currentTrnsAmount st' = currentTrnsAmount st
      /\ exists s',
           currentSplitsTotal st' = Num s'
           /\ (s' == s + match ty with expense => 1 | income => - (1) end
                        * Qsum (amounts fs))%Q.
Proof.
  intros Ho Ht Hd Hn F. induction F as [|f fs Hf _ IH]; intros i st rest s Hin Hs.
  - exists st. cbn [map app length amounts Qsum fold_right].
    rewrite !Nat.add_0_r. repeat (split; [reflexivity || exact Hin|]).
    exists s. split; [exact Hs|]. destruct ty; ring.
  - cbn [map app iif_loop].
    destruct Hf as (_ & _ & Hty & (q & Hq & Rq & Rn) & (a & Ha & Ca)).
    rewrite Hq in Ha. injection Ha as <-.
    unfold split_line at 2. cbv zeta. rewrite Hty, Hq.
    set (amt := match ty with expense => Num q | income => nneg (Num q) end).
    set (y := (match ty with expense => 1 | income => - (1) end * q)%Q).
    assert (Hy : is_num (parseFloat (toFixed2 amt)) y).
    { subst amt y. destruct ty; cbn [nneg lift1].
      - unfold reads_numeral, is_num in Rn |- *.
        destruct (parseFloat (toFixed2 (Num (- q)))); [exact Rn|].
        rewrite Rn, (fixed2_value_cent _ (cent_valued_opp q Ca)). ring.
      - unfold reads_numeral, is_num in Rq |- *.
        destruct (parseFloat (toFixed2 (Num q))); [exact Rq|].
        rewrite Rq, (fixed2_value_cent q Ca). ring. }
    clearbody amt.
    match goal with
    | |- context [escapeIIF ?m] => set (sm := escapeIIF m)
    end.
    assert (P : Forall plain_text
                  [ nat_to_string trnsId; trnsType; date_;
                    getQBAccount (category (base f)) ty opts; name;
                    toFixed2 amt; ""; sm ]).
    { repeat constructor;
        auto using plain_nat_to_string, plain_getQBAccount_options,
          plain_toFixed2.
      apply plain_escapeIIF. }
    destruct (iif_step_spl st i _ _ _ _ _ _ _ _ y s P (toFixed2_nonempty amt)
                Hy Hin Hs)
      as (E1 & W1 & I1 & T1 & S1 & A1 & (s1 & C1 & Hs1)).
    set (st1 := iif_step st i _) in *.
    destruct (IH (i + 1) st1 rest s1 I1 C1)
      as (st' & E & E2 & W2 & I2 & T2 & S2 & A2 & (s' & C2 & Hs')).
    exists st'. split.
    { etransitivity; [exact E|]. f_equal. cbn [length]. lia. }
    cbn [length]. repeat (split; [congruence || lia|]).
    exists s'. split; [exact C2|].
    rewrite Hs', Hs1. unfold amounts. cbn [map Qsum fold_right].
    rewrite Hq. cbn [value_of]. subst y. fold (amounts fs). fold (Qsum (amounts fs)).
    ring.
Qed.

(** An ENDTRNS row met inside a block reports the block exactly when the
    TRNS amount and the SPL total differ by more than 0.01. *)
Lemma iif_step_endtrns_check (st : IIFState) (i : nat) (x s : Q) :
  inTransaction st = true ->
  currentTrnsAmount st = Num x -> currentSplitsTotal st = Num s ->
  let st1 := iif_step st i "ENDTRNS" in
  (exists e, st_errors st1
             = st_errors st
               ++ (if Qlt_bool (1 # 100) (Qabs (x + s)) then [e] else []))
  /\ st_warnings st1 = st_warnings st
  /\ inTransaction st1 = false
  /\ st_stats st1 = st_stats st.
Proof.
  intros Hin Hx Hs st1. subst st1.
  rewrite (iif_step_line _ _ "ENDTRNS" "ENDTRNS") by reflexivity.
  change (split_char TAB "ENDTRNS") with ["ENDTRNS"].
  rewrite iif_dispatch_ENDTRNS. cbn zeta. rewrite Hin, Hx, Hs.
  cbn [negb nadd nabs lift1 lift2 ngt nlt cent st_errors st_warnings
       inTransaction st_stats].
  split; [|repeat split]. eexists.
  destruct (Qlt_bool (1 # 100) (Qabs (x + s)));
    [reflexivity|symmetry; apply app_nil_r].
Qed.

(** The rows of a split group, met outside a block, are counted as one
    transaction and one split per fragment; the block is reported exactly
    when the fragment amounts and the original amount differ by more than
    0.01. *)
Lemma iif_split_block (opts : IIFExportOptions) (trnsId : nat) (k : string)
    (f0 : SplitTransaction) (rest : list SplitTransaction) (M : Q)
    (i : nat) (st : IIFState) (tail : list string) :
  plain_options opts ->
  Forall (group_fragment k (type (base f0))) (f0 :: rest) ->
  originalAmount f0 = Some (Num M) ->
  ~ (M == 0)%Q -> cent_valued M -> reads_numeral M -> reads_numeral (- M) ->
  inTransaction st = false ->
  exists st' e,
    iif_loop (split_block opts trnsId f0 (f0 :: rest) ++ tail) i st
    = iif_loop tail (i + length (f0 :: rest) + 2) st'
    /\ st_errors st'
       = st_errors st
         ++ (if Qlt_bool (1 # 100) (Qabs (Qsum (amounts (f0 :: rest)) - M))
             then [e] else [])
    /\ st_warnings st' = st_warnings st
    /\ inTransaction st' = false
    /\ transactionCount (st_stats st') = transactionCount (st_stats st) + 1
    /\ splitCount (st_stats st')
       = splitCount (st_stats st) + length (f0 :: rest).
Proof.
  intros Ho F HM M0 CM RM RN Hin.
  set (fs := f0 :: rest) in *. set (ty := type (base f0)) in *.
  unfold split_block. rewrite HM. fold ty.
  assert (Hnor : nor (Num M)
                   (fold_left (fun sum s => nadd sum (amount (base s))) fs n0)
                 = Num M).
  { unfold nor, ntruthy. destruct (Qeq_bool M 0) eqn:Z; [|reflexivity].
    apply Qeq_bool_eq in Z. contradiction. }
  rewrite Hnor.
  set (amt := match ty with expense => nneg (Num M) | income => Num M end).
  set (x := (match ty with expense => - (1) | income => 1 end * M)%Q).
  assert (Hx : is_num (parseFloat (toFixed2 amt)) x).
  { subst amt x. destruct ty; cbn [nneg lift1].
    - unfold reads_numeral, is_num in RM |- *.
      destruct (parseFloat (toFixed2 (Num M))); [exact RM|].
      rewrite RM, (fixed2_value_cent M CM). ring.
    - unfold reads_numeral, is_num in RN |- *.
      destruct (parseFloat (toFixed2 (Num (- M)))); [exact RN|].
      rewrite RN, (fixed2_value_cent _ (cent_valued_opp M CM)). ring. }
  clearbody amt.
  rewrite <- !app_assoc. cbn [app iif_loop].
  assert (P1 : Forall plain_text
                 [ nat_to_string trnsId; trnsType_of ty;
                   formatIIFDate (date (base f0)); opt_str (bankAccountName opts);
                   escapeIIF (substring_js 0 50 (description (base f0)));
                   toFixed2 amt; ""; memo_of opts (description (base f0)) ]).
  { pose proof Ho as (Hb & _). repeat constructor;
      auto using plain_nat_to_string, plain_trnsType_of, plain_formatIIFDate,
        plain_opt_str, plain_escapeIIF, plain_toFixed2, plain_memo_of. }
  destruct (iif_step_trns st i _ _ _ _ _ _ _ _ x P1 (toFixed2_nonempty amt)
              Hx Hin)
    as (E1 & W1 & I1 & T1 & S1 & (x' & A1 & Hx') & C1).
  set (st1 := iif_step st i _) in *.
  destruct (iif_split_rows opts trnsId (trnsType_of ty)
              (formatIIFDate (date (base f0)))
              (escapeIIF (substring_js 0 50 (description (base f0))))
              (memo_of opts (description (base f0))) k ty fs Ho
              (plain_trnsType_of ty) (plain_formatIIFDate _) (plain_escapeIIF _)
              F (i + 1) st1 ("ENDTRNS" :: tail) 0%Q I1 C1)
    as (st2 & -> & E2 & W2 & I2 & T2 & S2 & A2 & (s' & C2 & Hs')).
  cbn [iif_loop].
  destruct (iif_step_endtrns_check st2 (i + 1 + length fs) x' s' I2
              (eq_trans A2 A1) C2)
    as ((e & E3) & W3 & I3 & T3).
  set (st3 := iif_step st2 _ "ENDTRNS") in *.
  exists st3, e. split; [f_equal; lia|].
  assert (B : Qlt_bool (1 # 100) (Qabs (x' + s'))
              = Qlt_bool (1 # 100) (Qabs (Qsum (amounts fs) - M))).
  { apply Qlt_bool_comp; [reflexivity|].
    rewrite Hx', Hs'. subst x. destruct ty.
    - rewrite <- (Qabs_opp (Qsum (amounts fs) - M)). apply Qabs_wd. ring.
    - apply Qabs_wd. ring. }
  rewrite E3, B, E2, E1, T3. repeat split; congruence || lia.
Qed.

(** The validator on the export of one split group. *)
Lemma split_group_export (f0 : SplitTransaction)
    (rest : list SplitTransaction) (k : string) (M : Q)
    (options : IIFExportOptions) :
  plain_options options ->
  k <> "" ->
  Forall (group_fragment k (type (base f0))) (f0 :: rest) ->
  originalAmount f0 = Some (Num M) ->
  ~ (M == 0)%Q -> cent_valued M -> reads_numeral M -> reads_numeral (- M) ->
  let result := validateIIF (generateIIF (f0 :: rest) options) in
  valid result
  = negb (Qlt_bool (1 # 100) (Qabs (Qsum (amounts (f0 :: rest)) - M)))
  /\ transactionCount (stats result) = 1
  /\ splitCount (stats result) = length (f0 :: rest).
Proof.
  intros Ho Hk F HM M0 CM RM RN result. subst result.
  unfold validateIIF. rewrite (generateIIF_split_lines (f0 :: rest) options Ho).
  apply plain_merge_options in Ho.
  set (opts := merge_options DEFAULT_OPTIONS options) in *.
  replace (existsb (fun l => startsWith l "!TRNS")
                   (IIF_HEADER ++ blocks_of opts (f0 :: rest))) with true
    by reflexivity.
  cbn [negb]. rewrite iif_loop_header.
  rewrite (blocks_of_group opts k f0 rest Hk).
  2:{ eapply List.Forall_impl; [|exact F].
      intros f (H1 & H2 & _). split; assumption. }
  set (st0 := mkIIFState [] [] (mkIIFStats 0 0 n0 n0) false n0 n0 "").
  destruct (iif_split_block opts 1 k f0 rest M 3 st0 [] Ho F HM M0 CM RM RN
              eq_refl)
    as (st' & e & -> & E & W & I & T & S).
  cbn [iif_loop valid errors stats warnings]. rewrite I, E.
  cbn [st0 st_errors app].
  split; [|split; [rewrite T; reflexivity|rewrite S; reflexivity]].
  destruct (Qlt_bool (1 # 100) (Qabs (Qsum (amounts (f0 :: rest)) - M)));
    reflexivity.
Qed.


End Pipeline.

(* ================================================================== *)
(** ** Properties of the validators on binary64 numbers *)
(* ================================================================== *)

Section Binary64Validators.

Import Binary64.

Variable parseFloat : string -> number.
Variable number_to_string : number -> string.

(* ------------------------------------------------------------------ *)
(** *** Numeric normalisation ([parseNumeric]) *)

Lemma strip_markup_delete_chars (s : string) :
  strip_markup s = delete_chars [ "$"; ","; "("; ")" ]%char s.
Proof.
  induction s as [|c s IH]; [reflexivity|].
  cbn [strip_markup delete_chars existsb]. unfold is_currency_markup.
  rewrite orb_false_r, <- !orb_assoc, IH. reflexivity.
Qed.

Lemma zero_for_nan_number (x : number) :
  PrimFloat.is_nan (zero_for_nan x) = false.
Proof.
  unfold zero_for_nan. destruct (PrimFloat.is_nan x) eqn:E; [reflexivity|exact E].
Qed.

(** C9. [parseNumeric] is 0 on null, undefined and the empty string.  On
    any other string, and on the text of a number, it deletes every [$],
    [,], [(] and [)], and nothing else, and returns what [parseFloat] reads
    in the rest, with 0 in place of NaN.  A value in parentheses is read as
    the bare value, not as its negative.  The result is never NaN. *)
Theorem parseNumeric_spec :
  parseNumeric parseFloat number_to_string RNull = n0
  /\ parseNumeric parseFloat number_to_string RUndefined = n0
  /\ parseNumeric parseFloat number_to_string (RStr "") = n0
  /\ (forall s, s <> "" ->
        parseNumeric parseFloat number_to_string (RStr s)
        = zero_for_nan
            (parseFloat (delete_chars [ "$"; ","; "("; ")" ]%char s)))
  /\ (forall n,
        parseNumeric parseFloat number_to_string (RNum n)
        = zero_for_nan
            (parseFloat (delete_chars [ "$"; ","; "("; ")" ]%char
                                      (number_to_string n))))
  /\ (forall s, s <> "" ->
        delete_chars [ "$"; ","; "("; ")" ]%char s = s ->
        parseNumeric parseFloat number_to_string (RStr ("(" +:+ s +:+ ")"))
        = zero_for_nan (parseFloat s))
  /\ (forall s,
        PrimFloat.is_nan
          (parseFloat (delete_chars [ "$"; ","; "("; ")" ]%char s)) = true ->
        parseNumeric parseFloat number_to_string (RStr s) = n0)
  /\ (forall x, PrimFloat.is_nan x = true -> zero_for_nan x = n0)
  /\ (forall x, PrimFloat.is_nan x = false -> zero_for_nan x = x)
  /\ (forall v, PrimFloat.is_nan (parseNumeric parseFloat number_to_string v) = false).
Proof.
  assert (S : forall s, s <> "" ->
                parseNumeric parseFloat number_to_string (RStr s)
                = zero_for_nan
                    (parseFloat (delete_chars [ "$"; ","; "("; ")" ]%char s))).
  { intros s Hs. destruct s as [|c s]; [congruence|].
    rewrite <- strip_markup_delete_chars. reflexivity. }
  split; [reflexivity|]. split; [reflexivity|]. split; [reflexivity|].
  split; [exact S|].
  split.
  { intros n. rewrite <- strip_markup_delete_chars. reflexivity. }
  split.
  { intros s Hs Hclean. rewrite S.
    - rewrite <- strip_markup_delete_chars, !strip_markup_app.
      rewrite (strip_markup_delete_chars s), Hclean.
      cbn [strip_markup is_currency_markup Ascii.eqb Bool.eqb orb].
      rewrite append_nil_l, append_empty_r. reflexivity.
    - destruct s; discriminate. }
  split.
  { intros s H. destruct s as [|c s]; [reflexivity|].
    rewrite S by discriminate. unfold zero_for_nan. rewrite H. reflexivity. }
  split; [intros x H; unfold zero_for_nan; rewrite H; reflexivity|].
  split; [intros x H; unfold zero_for_nan; rewrite H; reflexivity|].
  intros v. destruct v as [| |s|n]; try reflexivity.
  - destruct s as [|c s]; [reflexivity|]. apply zero_for_nan_number.
  - apply zero_for_nan_number.
Qed.

(* ------------------------------------------------------------------ *)
(** *** Balance-consistency validator *)

Lemma num_at_map_nth {A : Type} (f : A -> number) (l : list A) (d : A)
    (i : nat) :
  i < length l -> num_at (map f l) i = f (nth i l d).
Proof.
  revert i. induction l as [|x l IH]; intros i Hi; simpl in *; [lia|].
  destruct i as [|i]; [reflexivity|]. apply IH. lia.
Qed.

Section BalanceLoop64.

Variable rows : list (gmap string string).
Variable filename : string.
Variable columns : BalanceColumns.

Let deposits := map (fun r => parseNumeric parseFloat number_to_string (row_get r (col_deposit columns))) rows.
Let withdrawals := map (fun r => parseNumeric parseFloat number_to_string (row_get r (col_withdrawal columns))) rows.
Let balances := map (fun r => parseNumeric parseFloat number_to_string (row_get r (col_balance columns))) rows.
Let dates := map (fun r => sor (r !! col_date columns) "unknown") rows.

(** The loop body at a valid index, in terms of [violates]. *)
Lemma balance_step_binary64 (i : nat) (errs : list ValidationError) (cnt : nat) :
  i + 1 < length rows ->
  balance_step number_to_string filename deposits withdrawals balances dates i
               (errs, cnt)
  = if violates parseFloat number_to_string rows columns i
    then if Nat.leb (cnt + 1) maxErrors
         then (errs ++ [ mismatch_error parseFloat number_to_string rows
                                        filename columns i ], cnt + 1)
         else (errs, cnt + 1)
    else (errs, cnt).
Proof.
  intros Hi. unfold balance_step, deposits, withdrawals, balances, dates.
  rewrite !(num_at_map_nth _ rows ∅) by lia.
  rewrite (lookup_map_nth _ rows ∅) by lia.
  reflexivity.
Qed.

Lemma balance_loop_binary64 (k : nat) (errs : list ValidationError) (cnt : nat) :
  k < length rows ->
  balance_loop number_to_string filename deposits withdrawals balances dates k
               (errs, cnt)
  = let v := List.filter (violates parseFloat number_to_string rows columns)
                         (rev (seq 0 k)) in
    (errs ++ map (mismatch_error parseFloat number_to_string rows filename
                                 columns)
                 (firstn (maxErrors - cnt) v),
     cnt + length v).
Proof.
  revert errs cnt. induction k as [|i IH]; intros errs cnt Hk.
  - simpl. rewrite firstn_nil, app_nil_r. f_equal. lia.
  - cbn [balance_loop]. rewrite balance_step_binary64 by lia.
    rewrite seq_S, rev_app_distr. cbn [rev app plus List.filter].
    destruct (violates parseFloat number_to_string rows columns i) eqn:V.
    + destruct (Nat.leb (cnt + 1) maxErrors) eqn:L.
      * apply Nat.leb_le in L. rewrite IH by lia. cbn zeta.
        replace (maxErrors - cnt) with (S (maxErrors - (cnt + 1))) by lia.
        cbn [firstn map length]. rewrite <- app_assoc. cbn [app].
        f_equal. lia.
      * apply Nat.leb_gt in L. rewrite IH by lia. cbn zeta.
        replace (maxErrors - (cnt + 1)) with 0 by lia.
        replace (maxErrors - cnt) with 0 by lia.
        cbn [firstn map length]. f_equal. lia.
    + rewrite IH by lia. reflexivity.
Qed.

End BalanceLoop64.

(** C4. With fewer than two rows the validator reports nothing.  Otherwise
    it walks the rows from the second-oldest up to the newest and reports
    the rows [i] (from 0 to the number of rows less 2) with
    [|balance[i+1] - withdrawal[i] + deposit[i] - balance[i]| > 0.01], the
    arithmetic and the comparison being those of binary64: the first five
    met, each with row number [i + 2], its date and the expected and actual
    balances, followed by one summary entry counting the others when there
    are more than five.  The date column is taken not to be a name inherited
    from [Object.prototype], so that a missing date cell reads as absent. *)
Theorem validateBalanceConsistency_spec
    (rows : list (gmap string string)) (filename : string)
    (columns : BalanceColumns) :
  array_includes OBJECT_PROTOTYPE_KEYS (col_date columns) = false ->
  let result :=
    validateBalanceConsistency parseFloat number_to_string rows filename
                               columns in
  let v := violations parseFloat number_to_string rows columns in
  let balance := balance_at parseFloat number_to_string rows columns in
  let withdrawal := withdrawal_at parseFloat number_to_string rows columns in
  let deposit := deposit_at parseFloat number_to_string rows columns in
  (length rows < 2 -> result = [])
  /\ (2 <= length rows ->
      result
      = map (mismatch_error parseFloat number_to_string rows filename columns)
            (firstn 5 v)
        ++ (if Nat.ltb 5 (length v)
            then [ mkValidationError filename None None
                     ("... and " +:+ nat_to_string (length v - 5)
                      +:+ " more balance errors") None None ]
            else []))
  /\ (forall i, In i v <->
                i + 2 <= length rows
                /\ PrimFloat.ltb cent
                     (PrimFloat.abs
                        (PrimFloat.sub
                           (PrimFloat.add
                              (PrimFloat.sub (balance (i + 1)) (withdrawal i))
                              (deposit i))
                           (balance i))) = true)
  /\ (forall i j a b, i < j -> v !! i = Some a -> v !! j = Some b -> b < a)
  /\ (forall i,
        let e := mismatch_error parseFloat number_to_string rows filename
                                columns i in
        ve_file e = filename
        /\ ve_row e = Some (i + 2)
        /\ ve_date e = Some (sor (row_at rows i !! col_date columns) "unknown")
        /\ ve_expected e
           = Some (PrimFloat.add
                     (PrimFloat.sub (balance (i + 1)) (withdrawal i))
                     (deposit i))
        /\ ve_actual e = Some (balance i)
        /\ ve_message e
           = "Balance mismatch! Expected $"
             +:+ toFixed2 number_to_string (PrimFloat.add
                             (PrimFloat.sub (balance (i + 1)) (withdrawal i))
                             (deposit i))
             +:+ ", got $" +:+ toFixed2 number_to_string (balance i))
  /\ length result <= 6.
Proof.
  intros _ result v balance withdrawal deposit.
  assert (R : 2 <= length rows ->
              result
              = map (mismatch_error parseFloat number_to_string rows filename
                                    columns) (firstn 5 v)
                ++ (if Nat.ltb 5 (length v)
                    then [ mkValidationError filename None None
                             ("... and " +:+ nat_to_string (length v - 5)
                              +:+ " more balance errors") None None ]
                    else [])).
  { intros L. subst result. unfold validateBalanceConsistency.
    replace (Nat.ltb (length rows) 2) with false
      by (symmetry; apply Nat.ltb_ge; exact L).
    rewrite balance_loop_binary64 by lia. cbn zeta.
    rewrite Nat.sub_0_r, Nat.add_0_l. cbn [app].
    fold (violations parseFloat number_to_string rows columns). fold v.
    change maxErrors with 5.
    destruct (Nat.ltb 5 (length v)); [reflexivity|symmetry; apply app_nil_r]. }
  split.
  { intros L. subst result. unfold validateBalanceConsistency.
    replace (Nat.ltb (length rows) 2) with true; [reflexivity|].
    symmetry. apply Nat.ltb_lt. exact L. }
  split; [exact R|].
  split.
  { intros i. subst v. unfold violations. rewrite filter_In, <- in_rev, in_seq.
    split; intros [H1 H2]; (split; [lia|exact H2]). }
  split.
  { subst v. unfold violations. generalize (length rows - 1). intros n.
    induction n as [|n IH]; intros i j a b Hij Ha Hb; [destruct i; discriminate|].
    rewrite seq_S, rev_app_distr in Ha, Hb. cbn [rev app plus List.filter] in Ha, Hb.
    assert (Below : forall k x,
              List.filter (violates parseFloat number_to_string rows columns)
                          (rev (seq 0 n)) !! k = Some x -> x < n).
    { intros k x Hx. apply list_elem_of_lookup_2, list_elem_of_In in Hx.
      apply filter_In in Hx as [Hx _]. apply in_rev, in_seq in Hx. lia. }
    destruct (violates parseFloat number_to_string rows columns n).
    - destruct j as [|j]; [lia|]. cbn in Hb. destruct i as [|i]; cbn in Ha.
      + injection Ha as <-. apply (Below j b Hb).
      + apply (IH i j a b); [lia|exact Ha|exact Hb].
    - apply (IH i j a b Hij Ha Hb). }
  split.
  { intros i. repeat split. }
  destruct (Nat.lt_ge_cases (length rows) 2) as [L|L].
  - subst result. unfold validateBalanceConsistency.
    replace (Nat.ltb (length rows) 2) with true; [cbn; lia|].
    symmetry. apply Nat.ltb_lt. exact L.
  - rewrite (R L), length_app, length_map, length_firstn.
    destruct (Nat.ltb 5 (length v)); cbn [length]; lia.
Qed.

End Binary64Validators.


(* ================================================================== *)
(** ** The properties on sample inputs *)
(* ================================================================== *)

Example toFixed2_ex1 : toFixed2 (Num (- (85 # 2))) = "-42.50".
Proof. vm_compute. reflexivity. Qed.
Example toFixed2_ex2 : toFixed2 (Num (1 # 8)) = "0.13".
Proof. vm_compute. reflexivity. Qed.
Example trim_ex : trim (String TAB " a b  ") = "a b".
Proof. vm_compute. reflexivity. Qed.
Example split_lines_ex :
  split_lines ("a" +:+ CRLF +:+ "b" +:+ str1 CR +:+ CRLF +:+ str1 LF +:+ "c")
  = ["a"; "b" +:+ str1 CR; ""; "c"].
Proof. vm_compute. reflexivity. Qed.

Lemma sort_insert_perm {A : Type} (cmp : A -> A -> number) (x : A) (l : list A) :
  Permutation (sort_insert cmp x l) (x :: l).
Proof.
  induction l as [|y l IH]; cbn [sort_insert]; [reflexivity|].
  destruct (ngt (cmp x y) n0); [|reflexivity].
  rewrite IH. apply perm_swap.
Defined.

Lemma insertion_sort_perm (A : Type) (cmp : A -> A -> number) (l : list A) :
  Permutation (insertion_sort A cmp l) l.
Proof.
  unfold insertion_sort. induction l as [|x l IH]; cbn [fold_right]; [reflexivity|].
  rewrite sort_insert_perm. constructor. exact IH.
Defined.

Lemma ordered_pairs_lookup {A : Type} (R : A -> A -> Prop) (l : list A) :
  ForallOrdPairs R l ->
  forall (i j : nat) (a b : A),
    i < j -> l !! i = Some a -> l !! j = Some b -> R a b.
Proof.
  induction 1 as [|x l Hx _ IH]; intros i j a b Hij Ha Hb;
    [destruct i; discriminate|].
  destruct j as [|j]; [lia|]. cbn in Hb. destruct i as [|i]; cbn in Ha.
  - injection Ha as <-. rewrite List.Forall_forall in Hx. apply Hx.
    apply list_elem_of_In. eapply list_elem_of_lookup_2. exact Hb.
  - apply (IH i j); [lia|exact Ha|exact Hb].
Qed.

Lemma sort_insert_ordered {A : Type} (cmp : A -> A -> number) (s : list A)
    (x : A) (l : list A) :
  consistent_comparator cmp s -> In x s -> (forall y, In y l -> In y s) ->
  ForallOrdPairs (fun a b => ngt (cmp a b) n0 = false) l ->
  ForallOrdPairs (fun a b => ngt (cmp a b) n0 = false) (sort_insert cmp x l).
Proof.
  intros (Hanti & Htrans) Hx Hl H.
  induction H as [|y l Hy Hrest IH]; cbn [sort_insert].
  - constructor; constructor.
  - destruct (ngt (cmp x y) n0) eqn:G.
    + constructor.
      * apply List.Forall_forall. intros z Hz.
        apply (Permutation_in _ (sort_insert_perm cmp x l)) in Hz.
        destruct Hz as [<-|Hz].
        -- assert (L : nlt (cmp y x) n0 = true).
           { rewrite (Hanti y x); [exact G|apply Hl; left; reflexivity|exact Hx]. }
           unfold ngt. destruct (cmp y x) as [|q]; [reflexivity|].
           cbn [nlt n0] in *. apply Qlt_bool_iff in L.
           apply not_true_is_false. intros L'. apply Qlt_bool_iff in L'. lra.
        -- rewrite List.Forall_forall in Hy. apply Hy. exact Hz.
      * apply IH. intros z Hz. apply Hl. right. exact Hz.
    + constructor; [|constructor; assumption].
      constructor; [exact G|].
      apply List.Forall_forall. intros z Hz.
      rewrite List.Forall_forall in Hy.
      apply (Htrans x y z); [exact Hx|apply Hl; left; reflexivity
                            |apply Hl; right; exact Hz|exact G|apply Hy; exact Hz].
Qed.

(** The insertion sort keeps the promise of [a.sort(compare)]. *)
Lemma insertion_sort_sorted (A : Type) (cmp : A -> A -> number) (l : list A) :
  consistent_comparator cmp l ->
  forall (i j : nat) (a b : A),
    i < j ->
    insertion_sort A cmp l !! i = Some a -> insertion_sort A cmp l !! j = Some b ->
    nlt (cmp b a) n0 = false.
Proof.
  intros C i j a b Hij Ha Hb.
  assert (O : forall k, (forall y, In y k -> In y l) ->
                ForallOrdPairs (fun a b => ngt (cmp a b) n0 = false)
                               (insertion_sort A cmp k)).
  { induction k as [|x k IH]; intros Hk; [constructor|].
    unfold insertion_sort. cbn [fold_right].
    apply (sort_insert_ordered cmp l); [exact C|apply Hk; left; reflexivity| |].
    - intros y Hy. apply Hk. right.
      apply (Permutation_in _ (insertion_sort_perm A cmp k)). exact Hy.
    - apply IH. intros y Hy. apply Hk. right. exact Hy. }
  pose proof (ordered_pairs_lookup _ _ (O l (fun _ H => H)) i j a b Hij Ha Hb) as G.
  cbv beta in G. destruct C as (Hanti & _). rewrite Hanti; [exact G| |].
  - apply (Permutation_in _ (insertion_sort_perm A cmp l)).
    apply list_elem_of_In. eapply list_elem_of_lookup_2. exact Hb.
  - apply (Permutation_in _ (insertion_sort_perm A cmp l)).
    apply list_elem_of_In. eapply list_elem_of_lookup_2. exact Ha.
Qed.

(** C1, at the failing input: an expense of 0.50 split in four quarters
    gives four fragments of 0.13 with the shared parent id, which sum to
    0.52, two cents above the amount.  [validateSplitTransactions], which
    holds the fragments of a split to the tolerance of 0.01, rejects what the
    rule engine emitted. *)
Lemma split_sum_failing_input :
  amount (base half_dollar) = Num (1 # 2)
  /\ splits (action (sample_rule (split_action quarters))) = Some quarters
  /\ length (applyRule 0 half_dollar (sample_rule (split_action quarters))) = 4
  /\ Forall (fun f => exists a, amount (base f) = Num a /\ (a == 13 # 100)%Q
                      /\ splitParentId f = Some "split_0")
            (applyRule 0 half_dollar (sample_rule (split_action quarters)))
  /\ (exists S,
        amounts_sum (applyRule 0 half_dollar (sample_rule (split_action quarters)))
        = Num S
        /\ (S == 13 # 25)%Q
        /\ ~ (Qabs (S - (1 # 2)) <= 1 # 100)%Q)
  /\ rv_valid (validateSplitTransactions
                 (applyRule 0 half_dollar (sample_rule (split_action quarters)))
                 (Num (1 # 2))) = false.
Proof.
  split; [reflexivity|]. split; [reflexivity|]. split; [reflexivity|].
  split.
  { repeat constructor; eexists; (split; [reflexivity|]);
      (split; [vm_compute; reflexivity|vm_compute; reflexivity]). }
  split.
  { eexists. split; [vm_compute; reflexivity|].
    split; [vm_compute; reflexivity|].
    intros H. vm_compute in H. apply H. reflexivity. }
  vm_compute. reflexivity.
Qed.

(** C2, at the failing input: an expense of 100 split as 80 fixed, 50
    percent and the rest, a rule [validateSplitAllocations] accepts, gives
    fragments of 80, 50 and -30: the percentage share is taken in full
    although only 20 is left.  With the same allocations in the order 50
    percent, 80 fixed, rest, the fixed allocation is cut to the 50 left and no
    fragment is negative. *)
Lemma negative_fragment_failing_input :
  rv_valid (validateSplitAllocations number_to_string_int overdrawn) = true
  /\ (exists f a,
        In f (applyRule 0 hundred (sample_rule (split_action overdrawn)))
        /\ amount (base f) = Num a /\ (a == - 30)%Q /\ ~ (0 <= a)%Q)
  /\ Forall2 (fun f a => exists q, amount (base f) = Num q /\ (q == a)%Q)
             (applyRule 0 hundred (sample_rule (split_action overdrawn)))
             [ 80; 50; - 30 ]%Q
  /\ Forall2 (fun f a => exists q, amount (base f) = Num q /\ (q == a)%Q)
             (applyRule 0 hundred
                (sample_rule (split_action
                   [ pct "Household" 50; fixed "Groceries" 80;
                     the_rest "Other" ])))
             [ 50; 50; 0 ]%Q.
Proof.
  split; [vm_compute; reflexivity|]. split.
  { eexists. eexists. split.
    - right. right. left. reflexivity.
    - split; [vm_compute; reflexivity|]. split; [vm_compute; reflexivity|].
      intros H. vm_compute in H. apply H. reflexivity. }
  split; repeat constructor; eexists; (split; [vm_compute; reflexivity|]);
    vm_compute; reflexivity.
Qed.

Lemma amount_is_magnitude_witness :
  Forall (fun f => type (base f) = expense
                   /\ exists a, amount (base f) = Num a /\ (0 <= a)%Q)
         (applyRule 0 hundred (sample_rule (split_action balanced))).
Proof.
  assert (N : Forall nonneg_alloc balanced).
  { repeat constructor; cbn; try (eexists; split; [reflexivity|discriminate]). }
  assert (O : never_overdrawn hundred balanced).
  { unfold never_overdrawn.
    repeat (constructor; [vm_compute; discriminate|]). constructor. }
  apply List.Forall_forall. intros f Hf.
  destruct (amount_is_magnitude parseFloat_decimal number_to_string_int
              Date_getTime_iso insertion_sort regex_test_literal
              regex_group1_tag insertion_sort_perm)
    as (_ & _ & _ & _ & _ & _ & H).
  apply (H 0%Z hundred (sample_rule (split_action balanced)) balanced 100%Q f
           eq_refl eq_refl ltac:(discriminate) eq_refl ltac:(discriminate) N O Hf).
Defined.

Lemma generateIIF_validateIIF_roundtrip_witness :
  errors (validateIIF parseFloat_decimal
            (generateIIF Date_local_iso [coffee] no_options)) = []
  /\ transactionCount
       (stats (validateIIF parseFloat_decimal
                 (generateIIF Date_local_iso [coffee] no_options))) = 1.
Proof.
  destruct (generateIIF_validateIIF_roundtrip parseFloat_decimal Date_local_iso
              coffee (85 # 2) eq_refl eq_refl eq_refl ltac:(reflexivity)
              ltac:(vm_compute; reflexivity) ltac:(vm_compute; reflexivity))
    as (_ & He & _ & Hc & _).
  split; [exact He|exact Hc].
Defined.

Lemma parseNumeric_spec_witness :
  Binary64.parseNumeric Binary64.parseFloat_decimal
                        Binary64.number_to_string_int
                        (Binary64.RStr "$1,234.56")
  = Binary64.amount_1234_56
  /\ Binary64.parseNumeric Binary64.parseFloat_decimal
                           Binary64.number_to_string_int
                           (Binary64.RStr "(500)")
     = Binary64.amount_500
  /\ Binary64.parseNumeric Binary64.parseFloat_decimal
                           Binary64.number_to_string_int
                           (Binary64.RStr "n/a")
     = Binary64.n0.
Proof.
  destruct (parseNumeric_spec Binary64.parseFloat_decimal
                              Binary64.number_to_string_int)
    as (_ & _ & _ & H4 & _ & H6 & H7 & _).
  split; [|split].
  - rewrite (H4 "$1,234.56") by discriminate. vm_compute. reflexivity.
  - refine (eq_trans (H6 "500" _ _) _);
      [discriminate|reflexivity|vm_compute; reflexivity].
  - apply H7. vm_compute. reflexivity.
Defined.

Lemma validateBalanceConsistency_spec_witness :
  Binary64.validateBalanceConsistency
    Binary64.parseFloat_decimal Binary64.number_to_string_int
    Binary64.cent_off_rows "statement.csv" Binary64.statement_columns
  = [ Binary64.mkValidationError "statement.csv" (Some 2) (Some "2024-03-16")
        "Balance mismatch! Expected $90.00, got $90.01"
        (Some Binary64.amount_90) (Some Binary64.amount_90_01) ]
  /\ Binary64.validateBalanceConsistency
       Binary64.parseFloat_decimal Binary64.number_to_string_int
       Binary64.consistent_rows "statement.csv" Binary64.statement_columns
     = []
  /\ map Binary64.ve_row
         (Binary64.validateBalanceConsistency
            Binary64.parseFloat_decimal Binary64.number_to_string_int
            Binary64.drifting_rows "statement.csv" Binary64.statement_columns)
     = [ Some 7; Some 6; Some 5; Some 4; Some 3; None ].
Proof.
  split; [|split].
  - rewrite (proj1 (proj2 (validateBalanceConsistency_spec
                             Binary64.parseFloat_decimal
                             Binary64.number_to_string_int
                             Binary64.cent_off_rows "statement.csv"
                             Binary64.statement_columns eq_refl)))
      by (vm_compute; lia).
    vm_compute. reflexivity.
  - rewrite (proj1 (proj2 (validateBalanceConsistency_spec
                             Binary64.parseFloat_decimal
                             Binary64.number_to_string_int
                             Binary64.consistent_rows "statement.csv"
                             Binary64.statement_columns eq_refl)))
      by (vm_compute; lia).
    vm_compute. reflexivity.
  - rewrite (proj1 (proj2 (validateBalanceConsistency_spec
                             Binary64.parseFloat_decimal
                             Binary64.number_to_string_int
                             Binary64.drifting_rows "statement.csv"
                             Binary64.statement_columns eq_refl)))
      by (vm_compute; lia).
    vm_compute. reflexivity.
Defined.




Lemma categorizeTransaction_spec_witness :
  categorizeTransaction regex_test_literal (base coffee) = "Restaurants & Dining"
  /\ (categorizeTransaction regex_test_literal
        (sample_txn "2024-03-01" "ACME PAYROLL" 2500 income "") = "Salary"
      <-> first_match regex_test_literal (firstn 5 CATEGORY_RULES)
            (toLowerCase "ACME PAYROLL") "Salary"
          \/ (no_match regex_test_literal (firstn 5 CATEGORY_RULES)
                (toLowerCase "ACME PAYROLL")
              /\ "Salary" = "Other Income")).
Proof.
  split.
  - apply (proj1 (categorizeTransaction_spec regex_test_literal (base coffee)));
      discriminate.
  - destruct (categorizeTransaction_spec regex_test_literal
                (sample_txn "2024-03-01" "ACME PAYROLL" 2500 income ""))
      as (_ & _ & H & _).
    apply (H (or_introl eq_refl) eq_refl "Salary").
Defined.

Lemma applyRule_malformed_witness :
  applyRule 0 coffee (sample_rule (split_action []))
  = [ unsplit coffee (base coffee) ].
Proof.
  apply (applyRule_malformed 0 coffee (sample_rule (split_action []))).
  right. reflexivity.
Defined.

Lemma generateIIF_block_order_witness :
  (exists i j g,
     regular_of [fragment_sample; coffee] !! i = Some coffee
     /\ groups_of [fragment_sample; coffee] !! j = Some g
     /\ In fragment_sample (snd g)
     /\ i < length (regular_of [fragment_sample; coffee]) + j)
  /\ map (fun line =>
            let fields := split_char TAB line in
            (firstn 2 fields, nth 5 fields ""))
         (generateIIF_lines Date_local_iso [fragment_sample; coffee] no_options)
     = [ (["!TRNS"; "TRNSID"], "NAME"); (["!SPL"; "SPLID"], "NAME");
         (["!ENDTRNS"], "");
         (["TRNS"; "1"], "STARBUCKS STORE #123");
         (["SPL"; "1"], "STARBUCKS STORE #123"); (["ENDTRNS"], "");
         (["TRNS"; "2"], "WAREHOUSE CLUB"); (["SPL"; "2"], "WAREHOUSE CLUB");
         (["ENDTRNS"], "") ].
Proof.
  split.
  - destruct (generateIIF_block_order Date_local_iso [fragment_sample; coffee]
                no_options) as (_ & _ & _ & H).
    apply (H fragment_sample coffee);
      [left; reflexivity|right; left; reflexivity|reflexivity|reflexivity].
  - vm_compute. reflexivity.
Defined.

(* ------------------------------------------------------------------ *)
(** *** Further properties on sample inputs *)

Lemma escapeIIF_spec_witness : escapeIIF "COFFEE SHOP" = "COFFEE SHOP".
Proof.
  apply (proj2 (proj2 (proj2 (escapeIIF_spec "COFFEE SHOP"))));
    [reflexivity|reflexivity|vm_compute; lia].
Defined.

Lemma parseOFXDate_spec_witness :
  parseOFXDate ("2024" +:+ "03" +:+ "15" +:+ "120000[-5:EST]")
  = "2024" +:+ "-" +:+ "03" +:+ "-" +:+ "15".
Proof.
  apply (proj1 (proj2 (proj2 parseOFXDate_spec))
           "2024" "03" "15" "120000[-5:EST]");
    reflexivity.
Defined.

Lemma findColumn_spec_witness :
  exists i j,
    mappings_of "description" !! i = Some (norm_header " Description ")
    /\ ["Memo"; " Description "] !! j = Some " Description ".
Proof.
  destruct (proj1 (findColumn_spec ["Memo"; " Description "]
                                   (mappings_of "description"))
              " Description " ltac:(vm_compute; reflexivity))
    as (i & j & H1 & H2 & _).
  exists i, j. split; assumption.
Defined.

Lemma categorizeAllTransactions_spec_witness :
  categorizeAllTransactions regex_test_literal [ base coffee ] = [ base coffee ].
Proof.
  destruct (categorizeAllTransactions_spec regex_test_literal [ base coffee ])
    as (_ & H & _).
  change (categorizeAllTransactions regex_test_literal [ base coffee ])
    with [ set_category (base coffee)
             (categorizeTransaction regex_test_literal (base coffee)) ] in *.
  apply Forall2_cons_1 in H as [(_ & _ & _ & _ & _ & _ & Hk) _].
  rewrite (Hk eq_refl). reflexivity.
Defined.

Lemma inferAccountType_filename_witness :
  inferAccountType regex_group1_tag "my-checking.qbo" ofx_sample
  = inferAccountFromFilename "my-checking.qbo".
Proof.
  apply (proj1 (inferAccountType_filename regex_group1_tag "my-checking.qbo"
                  ofx_sample)).
  vm_compute. discriminate.
Defined.



Lemma shares_percent_then_rest : percent_then_rest shares.
Proof.
  intros i a H. destruct i as [|[|[|i]]]; cbn in H; try discriminate H;
    injection H as <-; (split; [reflexivity|]);
    (split; [cbn; eauto|]); cbn; intros E; try discriminate E; reflexivity.
Defined.



Lemma validateCustomRule_accepts_witness : ~ malformed (action categorize_rule).
Proof.
  apply (validateCustomRule_accepts number_to_string_int regex_valid_literal
           categorize_rule).
  vm_compute. reflexivity.
Defined.

Lemma applyRules_no_match_witness :
  applyRules insertion_sort regex_test_literal regex_valid_literal
             [ categorize_rule ] still_clock 0 groceries
  = ([ tagged groceries ], 0).
Proof.
  apply (applyRules_no_match insertion_sort regex_test_literal
           regex_valid_literal insertion_sort_perm).
  intros r [<-|[]]. right. right. vm_compute. reflexivity.
Defined.

Lemma applyRulesToAll_without_split_witness :
  snd (applyRulesToAll insertion_sort regex_test_literal regex_valid_literal
         [ categorize_rule ] still_clock 0 [ base coffee; groceries ]) = 0.
Proof.
  apply (applyRulesToAll_without_split insertion_sort regex_test_literal
           regex_valid_literal insertion_sort_perm).
  intros r [<-|[]] _. discriminate.
Defined.

Lemma no_options_plain : plain_options no_options.
Proof. repeat split. Defined.

Lemma generateIIF_rows_witness :
  split_lines (generateIIF Date_local_iso [ coffee; fragment_sample ] no_options)
  = generateIIF_lines Date_local_iso [ coffee; fragment_sample ] no_options.
Proof.
  apply (proj1 (generateIIF_rows Date_local_iso [ coffee; fragment_sample ]
                  no_options no_options_plain)).
Defined.

Lemma validateIIF_counts_witness :
  count_rows "ENDTRNS"
    (split_lines (generateIIF Date_local_iso [ coffee ] no_options))
  = count_rows "TRNS"
      (split_lines (generateIIF Date_local_iso [ coffee ] no_options)).
Proof.
  destruct (validateIIF_counts parseFloat_decimal
              (generateIIF Date_local_iso [ coffee ] no_options))
    as (_ & _ & H).
  apply (H ltac:(vm_compute; reflexivity)).
Defined.

Lemma regular_export_validates_witness :
  valid (validateIIF parseFloat_decimal
           (generateIIF Date_local_iso [ coffee; plain salary ] no_options))
  = true
  /\ transactionCount
       (stats (validateIIF parseFloat_decimal
                 (generateIIF Date_local_iso [ coffee; plain salary ]
                              no_options))) = 2.
Proof.
  destruct (regular_export_validates parseFloat_decimal Date_local_iso
              [ coffee; plain salary ] no_options no_options_plain)
    as (H1 & _ & H2 & _).
  - repeat constructor.
  - constructor; [|constructor; [|constructor]].
    + exists (85 # 2)%Q. split; [reflexivity|]. split; vm_compute; reflexivity.
    + exists 2500%Q. split; [reflexivity|]. split; vm_compute; reflexivity.
  - split; [exact H1|exact H2].
Defined.

Lemma parseCSV_spec_witness :
  transactions (parseCSV parseFloat_decimal number_to_string_int
                         Date_getTime_iso insertion_sort
                         ["Memo"; "Amount"] csv_rows "checking.csv") = []
  /\ length (transactions
               (parseCSV parseFloat_decimal number_to_string_int
                         Date_getTime_iso insertion_sort
                         ["Date"; "Description"; "Amount"; "Balance"]
                         csv_rows_padded "checking.csv")) = 2
  /\ Forall (fun t => ngt (amount t) n0 = true)
            (transactions
               (parseCSV parseFloat_decimal number_to_string_int
                         Date_getTime_iso insertion_sort
                         ["Date"; "Description"; "Amount"; "Balance"]
                         csv_rows_padded "checking.csv")).
Proof.
  split; [|split].
  - destruct (parseCSV_spec parseFloat_decimal number_to_string_int
                Date_getTime_iso insertion_sort insertion_sort_perm
                ["Memo"; "Amount"] csv_rows "checking.csv")
      as (_ & _ & H & _).
    apply H. vm_compute. reflexivity.
  - vm_compute. reflexivity.
  - destruct (parseCSV_spec parseFloat_decimal number_to_string_int
                Date_getTime_iso insertion_sort insertion_sort_perm
                ["Date"; "Description"; "Amount"; "Balance"]
                csv_rows_padded "checking.csv")
      as (_ & _ & _ & _ & H).
    eapply List.Forall_impl; [|exact H].
    intros t (_ & _ & P & _). exact P.
Defined.

Lemma split_groups_follow_clock_witness :
  groupSplitTransactions
    (applyRule (still_clock 0) (tagged groceries) (split_rule two_way)
     ++ applyRule (still_clock 1) (tagged hardware) (split_rule two_way))
  = ([], [ (make_parentId (still_clock 0),
            applyRule (still_clock 0) (tagged groceries) (split_rule two_way)
            ++ applyRule (still_clock 1) (tagged hardware)
                         (split_rule two_way)) ]).
Proof.
  destruct (split_groups_follow_clock insertion_sort regex_test_literal
              regex_valid_literal insertion_sort_perm still_clock
              (split_rule two_way) groceries hardware two_way
              eq_refl eq_refl eq_refl ltac:(discriminate)
              ltac:(vm_compute; reflexivity) ltac:(vm_compute; reflexivity))
    as (_ & _ & H).
  apply H. reflexivity.
Defined.


Lemma extractBlocks_spec_witness :
  Forall (block_of ofx_sample "STMTTRN") (extractBlocks ofx_sample "STMTTRN").
Proof.
  apply (proj1 (proj2 (extractBlocks_spec ofx_sample "STMTTRN"))).
  vm_compute. reflexivity.
Defined.

Lemma isQBOFormat_parseQBO_witness : isQBOFormat ofx_sample = true.
Proof.
  apply (isQBOFormat_parseQBO parseFloat_decimal Date_getTime_iso insertion_sort
           regex_group1_tag insertion_sort_perm ofx_sample "upload.qbo").
  vm_compute. discriminate.
Defined.

Lemma accounts_export_validates_witness :
  valid (validateIIF parseFloat_decimal
           (generateIIFWithAccounts Date_local_iso [ groceries; salary ]
                                    no_options))
  = true
  /\ transactionCount
       (stats (validateIIF parseFloat_decimal
                 (generateIIFWithAccounts Date_local_iso [ groceries; salary ]
                                          no_options))) = 2.
Proof.
  destruct (accounts_export_validates parseFloat_decimal Date_local_iso
              [ groceries; salary ] no_options no_options_plain)
    as (H1 & _ & H2 & _).
  - repeat constructor.
  - constructor; [|constructor; [|constructor]].
    + exists 100%Q. split; [reflexivity|]. split; vm_compute; reflexivity.
    + exists 2500%Q. split; [reflexivity|]. split; vm_compute; reflexivity.
  - split; [exact H1|exact H2].
Defined.

Lemma accounts_declared_once_witness :
  In "Uncategorized Expense"
     (accnt_names
        (split_lines
           (generateIIFWithAccounts Date_local_iso [ groceries; salary ]
                                    no_options))).
Proof.
  apply (proj2 (accounts_declared_once Date_local_iso [ groceries; salary ]
                  no_options no_options_plain
                  ltac:(repeat constructor))).
  right. right. exists groceries. split; [left; reflexivity|reflexivity].
Defined.


